(* ===== verification/_CoqProject ===== *)
-Q . S2P
Prelude.v
GoStrings.v
Interleave.v
Queue.v
K8s.v
Expiry.v
PoolKey.v
SandboxId.v
Types.v
Sha256.v
StoreModel.v
StoreFacts.v
StoreLifecycle.v
Watch.v
Driver.v
Rest.v
SandboxModel.v
SandboxFacts.v
WarmPool.v
WarmPoolFacts.v
ClaimModel.v
ClaimFacts.v
ClaimGateway.v
GatewayFacts.v
V1alpha1.v
Conversion.v
CocoonTypes.v
CocoonClient.v
CocoonModel.v
CocoonFacts.v
CocoonPoolFacts.v
PodRuntime.v
TemplateModel.v
TemplateFacts.v
Inventory.v
E2bModel.v
E2bFacts.v
SandboxdClient.v
ExecGateway.v
ExecFacts.v
Metrics.v
LoadGen.v
LoadFacts.v
LoadDelete.v
LoadCycles.v
ClaimLoad.v
ClaimLoadFacts.v
Supply.v
LoadEnd.v
WebhookCerts.v
ApiserverMain.v
OperatorMain.v
