(* ===== verification/Prelude.v ===== *)
(** * A verification development for the cocoon sandbox operator

    ** The program

    The repository is a Kubernetes operator for agent sandboxes (pods or
    microVMs).  It has two deployments.

    - The _operator_ ([src/cmd/cocoon-sandbox-operator], [src/controllers],
      [src/extensions/controllers], [src/cocoon]) reconciles Sandbox objects into
      a pod, a headless service and volume claims, keeps warm pools of prepared
      sandboxes, lets a SandboxClaim adopt one through an in-memory queue, binds
      CocoonSandbox objects to microVMs, and serves the conversion webhooks.
    - The _aggregated apiserver_ ([src/cmd/sandbox-apiserver], [src/pkg/scale],
      [src/pkg/e2bcompat], [src/pkg/execgw]) serves Sandbox objects that no etcd
      stores: every node runs a sandboxd daemon and publishes a NodeInventory;
      List, Get and Watch synthesize the collection from the inventories, Create
      claims a warm microVM on a node with free capacity, Delete releases it, a
      driver spreads the pools' replicas over the nodes, an e2b-compatible API
      offers the same store to e2b clients, and a gateway carries commands and
      files into a sandbox.

    ** How the parts are modelled

    A Go function is a Rocq function of the same name; a struct a [Record]; a
    map a [gmap]; a slice a [list]; an error a value of [gerror], of which
    [errors.Is] and the API-status predicates see what they see in Go.  Code
    that calls out of the process (the API server, the clock, a random draw, a
    sandboxd daemon, a guest) is a value of the free monad [prog E R] below: a
    tree of calls of the event signature [E], one continuation per answer.  The
    composition of such a program is the composition of the source; a program
    over a smaller signature enters a larger one by [translate].

    A property of a program is stated in one of three ways, all for every
    sequence of answers the environment may give ([rsp]).  [spec ok rsp post p]:
    every call made satisfies [ok] and the result satisfies [post].
    [history rsp post p h]: [post] holds of the result and of the whole list of
    answered calls, where a property relates calls to each other (this release
    follows that claim); [witnessed] picks the calls of interest.  [rg] of
    [Interleave]: a rely-guarantee specification of one replica among many over
    shared state.  These trees are finite, so a program under [spec] or
    [history] always ends in a result: there is no "if it returns".  Shared
    state that the calls do not own (the store's three maps, the gateway's
    holdings and credential index, the claim controller's maps) is passed
    explicitly.  A concrete environment runs a program by [run], and the
    witnesses evaluate such runs.

    Library code is a class of operations with a class of laws, its documented
    behaviour: [ConditionLib], [OwnerLib], [FinalizerLib] and [JSON] in K8s.v,
    [SelectorLib] in StoreModel.v, [Unstructured] in Inventory.v, [Decoder] in
    E2bModel.v, [PEM] in WebhookCerts.v.  Instances that meet the laws come with the witnesses.
    [WarmQueue] is the interface between the claim controller and the queue: the
    controller is verified against the class, [Queue] implements it.

    ** Files

    The numbers are the claim ids, stated in the doc comment before each
    theorem; other theorems are given by name.

    - [Prelude]: errors, the monad and its specification logic, sorting, machine
      integers and time, tactics and hint databases.
    - [GoStrings]: Go's [strings], [strconv], [unicode/utf8], [net/url] escaping
      and [hash/fnv] as far as the program uses them.
    - [Interleave]: replicas of one program over shared state; [rg_sound] carries
      a rely-guarantee specification to every interleaving; [protocol_sound]
      reduces workers that obey a protocol of phases to a transition system of
      the shared state and the list of phases.
    - [K8s], [Types], [CocoonTypes]: object metadata, conditions, owner
      references, pods, the library classes, and the repository's own API objects.

    The operator:

    - [Queue]: [extensions/controllers/queue/simple_sandbox_queue.go].
      C8: it refines a first-in-first-out queue without
      duplicates; C9: with goroutines interleaving, a
      sandbox added once is handed out at most once.
    - [Expiry]: [internal/lifecycle/expiry.go].  [ExpireAt_earliest],
      [TimeLeft_correct].
    - [SandboxModel], [SandboxFacts]: [controllers/sandbox_controller.go], the
      whole Reconcile.  C1: it writes only what the sandbox
      owns, and adopts only what is unowned and labelled for it; C34: the Ready condition;
      [pod_metadata_converges], [reserved_labels_isolated],
      [conditions_recorded], [suspended_creates_no_pod], [expiry_not_early].
    - [PodRuntime]: [pkg/podruntime/cocoon.go], the mutator the Sandbox
      controller takes as an argument.  C30,
      C40.
    - [WarmPool], [WarmPoolFacts]:
      [extensions/controllers/sandboxwarmpool_controller.go] and [utils.go].
      C21: it touches only its own members; C22:
      scaling is exact, bounded and deletes the least useful members;
      [pool_steady].
    - [ClaimModel], [ClaimFacts]:
      [extensions/controllers/sandboxclaim_controller.go], the whole Reconcile and
      the event handlers that feed the queue.  C2: its writes are
      to its own claim, its sandbox or a warm candidate it may adopt;
      C10: the search for a candidate loses no sandbox and
      prefers ready ones; [claim_metadata_contained], [template_policies_enforced]:
      what a claim may add to a template; [pool_event_wakes_claims],
      [first_sight_kept]: its events.
    - [TemplateModel], [TemplateFacts]:
      [extensions/controllers/sandboxtemplate_controller.go].
      C31, C32 (for any defaults the API
      server fills in; [port_without_protocol]), [default_policy_isolates].
    - [CocoonClient], [CocoonModel], [CocoonFacts], [CocoonPoolFacts]:
      [cocoon/sandboxd/client.go] and [cocoon/controller/controller.go].
      C36: redirects end, at the first that delivers; C7,
      C14, C16: no microVM is lost or taken
      twice; C23, C35: pools.
    - [V1alpha1], [Conversion]: the v1alpha1 versions and their conversions.
      C33 and the round trips of the other kinds.
    - [WebhookCerts]: [cmd/cocoon-sandbox-operator/tls.go].
      C19: replicas starting in any interleaving
      serve one shared certificate that the CRDs trust.
    - [Metrics]: [internal/metrics/sandbox_collector.go] and the claim latencies.
      C38: a scrape counts every sandbox once;
      [measurement_transparent]: measuring a start-up leaves the controller's
      memory as [ClaimModel] says.
    - [OperatorMain]: [cmd/cocoon-sandbox-operator/main.go].
      C37: a start registers what its flags ask for.

    The aggregated apiserver:

    - [PoolKey]: [pkg/scale/poolkey.go].  [derived_key_matches_canonically],
      [size_class_monotone].
    - [SandboxId]: [pkg/e2bcompat/sandboxid.go], the matchers of
      [pkg/execgw/resolver.go], the claim-reference codec.
      [claim_ref_roundtrip], [publicID_dns_label], [renderings_in_step],
      [minted_ids_unambiguous].
    - [Sha256]: the digest behind object UIDs, checked on published vectors.
    - [StoreModel], [StoreFacts]: [pkg/scale/sandboxstore.go] and
      [sandboxstore_impl.go].  C3: over lagging inventories;
      C4: placements one after another, within an inventory
      generation ([overlapping_placements] may pass the count);
      [repeat_claim_refused], [weighted_share], [pending_gen_tracks],
      [overlay_read_back], [owner_refs_not_forged], [sandbox_uid_uuid4].
    - [Inventory]: the publisher and the two inventory sources of
      [sandboxstore_impl.go].  C24.
    - [StoreLifecycle]: [pkg/scale/sandboxstore_lifecycle.go].
      [lifecycle_verbs_routed].
    - [Watch]: the poll-and-diff watch of [sandboxstore_impl.go].
      C11: replaying the delivered events gives the
      collection last seen, while each name is published by one node.
    - [Driver]: [pkg/scale/warmpool/driver.go].  [fleet_targets_exact],
      [distribute_exact_and_even], [tick_calls_safe].
    - [Supply]: the driver composed with the placement of claims.
      C5: a pool of so many replicas serves as many creates;
      [cold_start_misses_pool]: not those of a claim whose template asks for a
      network.
    - [SandboxdClient]: [pkg/scale/sandboxd], the HTTP client behind the store's
      node calls.  C39.
    - [Rest]: [pkg/scale/apiserver/storage.go] and [lifecycle_storage.go].
      C25: the status is that of its cause, a node's 429 included;
      C26, [first_update_read_back].
    - [ClaimGateway], [GatewayFacts]: [pkg/scale/claimgateway.go] and
      [claimgateway_impl.go]; the holdings map is shared, and its critical
      sections are calls of [Claim] and [Release].  C6: under
      every interleaving of the calls of claims and releases;
      C15; [release_needs_credential], [orphans_adopted].
    - [E2bModel], [E2bFacts]: [pkg/e2bcompat].  C17,
      [key_required].
    - [ExecGateway], [ExecFacts]: [pkg/execgw].  C12,
      C13 (composed with the e2b reply of the claim),
      C18, [resolver_exact], [index_is_latest].
    - [ApiserverMain]: [cmd/sandbox-apiserver/main.go].  C20:
      the parts share one token and one set of keys.

    The load generators:

    - [LoadGen], [LoadFacts], [LoadDelete]: [cmd/sandbox-sdk-loadgen/main.go], whose workers are
      goroutines over shared atomic counters and a channel.
      C27: the hard bounds its package comment promises, that on
      live sandboxes with --cleanup and apart from leaks;
      [batch_exact]: a wave; [delete_phase_empties]: the delete phase.
    - [LoadCycles]: the soak cycle, whose calls are answered by any finished
      interleaving of the workers of a phase; nothing is assumed of a listing.
      C28; [failed_listing_exceeds_target],
      [lagging_listing_exceeds_target].
    - [ClaimLoad], [ClaimLoadFacts]: [cmd/sandbox-loadgen/main.go].
      C29; [refused_delete_not_retried].
    - [LoadEnd]: both against the server: [load_create_served] composes a create
      with [Rest]; [stamped_claim_unmeasured] with [Metrics].

    ** Bounds and fuel

    - Go's [int] counts (replicas, warm counts) are [Z]; where the source
      narrows or multiplies at a width (TTL seconds to a 64-bit Duration, int32
      sums of warm counts, the 32-bit FNV hash, SHA-256 words) the wrap-around is
      written out.
    - [PopWithStrategy] retries when its pick was taken meanwhile: the model's
      loop has fuel, and sequentially one round is enough (proved); interleaved,
      it is two atomic transitions.
    - [getCandidate] pops until the queue is empty or a ready sandbox is found:
      the model has fuel, and one more than the queued keys is enough
      (proved as part of its claim); running out is an error of its own.
    - [slowStartBatch] has the count and one as fuel, enough since a batch takes
      at least one; running out would be an error, and the absence of errors is
      proved to mean that every call was made.
    - [runWatch] and [PublishPeriodically] are loops until the context ends: the
      model takes the number of ticks or rounds, and the theorems
      (C11 for the watch) hold for any number of them.
    - The loops of the load generators have fuel that is proved to be enough: a
      worker draws a slot per round, so one round more than the limit; a release
      waits two seconds between attempts, a poll for a tick, so the timeout
      divided by the period and two more; a wave issues at least one create.
      [runCycles] takes the number of cycles, for any number of them.  The work
      channel of the delete phase is a queue, of which an unbuffered channel has
      fewer interleavings.
    - SHA-256's block loop has the padded length as fuel, which is enough since
      each round consumes 64 bytes; the test vectors evaluate it.

    ** Simplifications

    Message texts of errors and conditions keep the constant part of their
    format.  Concurrent fan-outs whose results are gathered by index run in node
    order.  [sort.SliceStable] is an insertion sort and [sort.Slice] a stable
    merge sort (keys are unique where the order is observed).  [sync.Map.Range]
    and Go's map iteration follow [map_to_list], except where an order is an
    argument.  The clock is read once for conditions set together.  Logs, events,
    trace spans, deadlines and metrics other than those of [Metrics] are left out.

    ** Not modelled

    The guest SDK and the byte streams below it (not part of the repository), the
    generated envd stubs and deep copies, scheme and OpenAPI registration (data
    for the server library), tracing, the version string, benchmarks, tests and
    examples. *)

From stdpp Require Export base option list gmap strings pretty sorting.
From Stdlib Require Export ZArith Lia.

#[export] Set Default Goal Selector "!".
#[export] Set Warnings "-clear-no-such-hyp".

(** ** Go errors

    An error value is what [errors.Is] and the API-status predicates can see
    of it: the sentinel or status at the bottom and the chain of wraps above
    it.  Message texts keep the constant part of the format string only. *)

Inductive StatusReason :=
| ReasonNotFound | ReasonConflict | ReasonAlreadyExists | ReasonBadRequest
| ReasonServiceUnavailable | ReasonInternalError | ReasonTooManyRequests
| ReasonServerTimeout | ReasonTimeout | ReasonOther.

#[export] Instance StatusReason_eq_dec : EqDecision StatusReason.
Proof. solve_decision. Defined.

Inductive gerror :=
| Errorf (msg : string)                           (* errors.New / fmt.Errorf without %w *)
| Sentinel (name : string)                        (* a package-level error variable *)
| APIStatus (reason : StatusReason) (name : string)
                                                  (* an API status; Details.Name *)
| Wrap (msg : string) (cause : gerror)            (* fmt.Errorf("... %w", cause) *)
| Join (e1 e2 : gerror).                          (* errors.Join of two non-nil errors *)

#[export] Instance gerror_eq_dec : EqDecision gerror.
Proof. solve_decision. Defined.

(** [errors.Is(err, target)] for a sentinel target. *)
Fixpoint errors_Is (e : gerror) (target : string) : bool :=
  match e with
  | Sentinel n => bool_decide (n = target)
  | Wrap _ c => errors_Is c target
  | Join a b => errors_Is a target || errors_Is b target
  | Errorf _ | APIStatus _ _ => false
  end.

(** The first API status in the chain ([errors.As] on [APIStatus]). *)
Fixpoint status_of (e : gerror) : option (StatusReason * string) :=
  match e with
  | APIStatus r n => Some (r, n)
  | Wrap _ c => status_of c
  | Join a b => match status_of a with Some x => Some x | None => status_of b end
  | Errorf _ | Sentinel _ => None
  end.

Definition has_reason (r : StatusReason) (e : gerror) : bool :=
  match status_of e with Some (r', _) => bool_decide (r = r') | None => false end.

Definition IsNotFound := has_reason ReasonNotFound.
Definition IsConflict := has_reason ReasonConflict.
Definition IsAlreadyExists := has_reason ReasonAlreadyExists.

(** [err.Error()], from the constant parts kept. *)
Fixpoint Error_text (e : gerror) : string :=
  match e with
  | Errorf m | Sentinel m => m
  | APIStatus _ n => n
  | Wrap m c => m +:+ ": " +:+ Error_text c
  | Join a b => Error_text a +:+ " " +:+ Error_text b
  end.

(** [errors.Join(acc, err)] where either may be nil. *)
Definition errors_Join (a b : option gerror) : option gerror :=
  match a, b with
  | Some x, Some y => Some (Join x y)
  | Some x, None | None, Some x => Some x
  | None, None => None
  end.

(** [client.IgnoreNotFound]. *)
Definition IgnoreNotFound (e : option gerror) : option gerror :=
  match e with
  | Some x => if IsNotFound x then None else Some x
  | None => None
  end.

(** ** Results of fallible calls *)

Inductive result (A : Type) :=
| Ok (a : A)
| Err (e : gerror).
Arguments Ok {_} a.
Arguments Err {_} e.

Definition isOk {A} (r : result A) : bool := match r with Ok _ => true | Err _ => false end.

Lemma Ok_inj {A} (a b : A) : Ok a = Ok b -> a = b.
Proof. by injection 1. Qed.

(** ** Effectful code

    A program over an effect signature [E]: the calls a Go function makes to
    code outside the modelled component, each with a continuation over the
    answer.  [run] executes it against a handler; [spec] quantifies over every
    answer the outside world can give. *)

Inductive prog (E : Type -> Type) (R : Type) : Type :=
| Ret (r : R)
| Vis (X : Type) (e : E X) (k : X -> prog E R).
Arguments Ret {E R} r.
Arguments Vis {E R X} e k.

Fixpoint bind {E A B} (p : prog E A) (f : A -> prog E B) : prog E B :=
  match p with
  | Ret a => f a
  | Vis e k => Vis e (fun x => bind (k x) f)
  end.

Definition call {E X} (e : E X) : prog E X := Vis e Ret.

Declare Scope prog_scope.
Delimit Scope prog_scope with prog.
Bind Scope prog_scope with prog.

Notation "x <- p ;; q" := (bind p (fun x => q))
  (at level 100, p at next level, right associativity) : prog_scope.
Notation "'let!' pat := p 'in' q" := (bind p (fun x => match x with pat => q end))
  (at level 10, pat pattern, p at level 100, q at level 200) : prog_scope.
Notation "p ;;; q" := (bind p (fun _ => q))
  (at level 100, right associativity) : prog_scope.

(** A program over one signature as a program over a larger one. *)
Fixpoint translate {E F : Type -> Type} (f : forall X, E X -> F X) {R} (p : prog E R) : prog F R :=
  match p with
  | Ret r => Ret r
  | Vis e k => Vis (f _ e) (fun x => translate f (k x))
  end.

Definition handler (E : Type -> Type) (S : Type) := forall X, E X -> S -> X * S.

Fixpoint run {E R S} (h : handler E S) (p : prog E R) (s : S) : R * S :=
  match p with
  | Ret r => (r, s)
  | Vis e k => let '(x, s') := h _ e s in run h (k x) s'
  end.

(** The calls issued by a run, oldest first. *)
Fixpoint trace {E R S} (h : handler E S) (p : prog E R) (s : S) : list (sigT E) :=
  match p with
  | Ret _ => []
  | @Vis _ _ X e k => let '(x, s') := h _ e s in existT X e :: trace h (k x) s'
  end.

(** The calls of a trace that [w] recognises. *)
Fixpoint observed {A : Type} {E : Type -> Type} (w : forall X, E X -> option A) (t : list (sigT E)) : list A :=
  match t with
  | [] => []
  | existT X e :: t' => match w X e with Some a => a :: observed w t' | None => observed w t' end
  end.

Lemma observed_app {A E} (w : forall X, E X -> option A) t1 t2 :
  observed w (t1 ++ t2) = observed w t1 ++ observed w t2.
Proof. induction t1 as [|[X e] t1 IH]; simpl; [done|]. rewrite IH. by destruct (w X e). Qed.

(** [spec ok rsp post p]: whatever answers allowed by [rsp] the calls get,
    every call made satisfies [ok] and the result satisfies [post]. *)
Fixpoint spec {E R} (ok : forall X, E X -> Prop) (rsp : forall X, E X -> X -> Prop)
    (post : R -> Prop) (p : prog E R) : Prop :=
  match p with
  | Ret r => post r
  | Vis e k => ok _ e /\ forall x, rsp _ e x -> spec ok rsp post (k x)
  end.

Definition any_answer {E : Type -> Type} : forall X, E X -> X -> Prop := fun _ _ _ => True.

Section prog_laws.
Context {E : Type -> Type}.

Lemma bind_ret_l {A B} (a : A) (f : A -> prog E B) : bind (Ret a) f = f a.
Proof. done. Qed.

Lemma run_bind {A B S} (h : handler E S) (p : prog E A) (f : A -> prog E B) s :
  run h (bind p f) s = let '(a, s') := run h p s in run h (f a) s'.
Proof.
  revert s; induction p as [r|X e k IH]; intros s; simpl; [done|].
  destruct (h X e s) as [x s'] eqn:?. apply IH.
Qed.

Lemma trace_bind {A B S} (h : handler E S) (p : prog E A) (f : A -> prog E B) s :
  trace h (bind p f) s =
  trace h p s ++ trace h (f (run h p s).1) (run h p s).2.
Proof.
  revert s; induction p as [r|X e k IH]; intros s; simpl; [done|].
  destruct (h X e s) as [x s'] eqn:?; simpl. by rewrite IH.
Qed.

Lemma spec_bind {A B} ok rsp (mid : A -> Prop) (post : B -> Prop)
    (p : prog E A) (f : A -> prog E B) :
  spec ok rsp mid p ->
  (forall a, mid a -> spec ok rsp post (f a)) ->
  spec ok rsp post (bind p f).
Proof.
  intros Hp Hf; induction p as [r|X e k IH]; simpl in *; [by apply Hf|].
  destruct Hp as [Hok Hk]; split; [done|]. intros x Hx. apply IH; auto.
Qed.

Lemma spec_mono {A} (ok ok' : forall X, E X -> Prop) rsp (post post' : A -> Prop) p :
  (forall X e, ok X e -> ok' X e) -> (forall a, post a -> post' a) ->
  spec ok rsp post p -> spec ok' rsp post' p.
Proof.
  intros Hok Hpost; induction p as [r|X e k IH]; simpl; [apply Hpost|].
  intros [H1 H2]; split; auto.
Qed.

Lemma spec_translate {F : Type -> Type} (f : forall X, E X -> F X) {A} ok rsp (post : A -> Prop) p :
  spec (fun X e => ok X (f X e)) (fun X e => rsp X (f X e)) post p ->
  spec ok rsp post (translate f p).
Proof.
  induction p as [r|X e k IH]; simpl; [done|]. intros [H1 H2]. split; [done|]. auto.
Qed.

Lemma spec_and {A} ok rsp (p1 p2 : A -> Prop) (p : prog E A) :
  spec ok rsp p1 p -> spec ok rsp p2 p -> spec ok rsp (fun a => p1 a /\ p2 a) p.
Proof.
  induction p as [r|X e k IH]; simpl; [done|]. intros [H1 H2] [_ H4]. split; [done|]. auto.
Qed.

Lemma spec_rsp {A} ok (rsp rsp' : forall X, E X -> X -> Prop) (post : A -> Prop) (p : prog E A) :
  (forall X e x, rsp' X e x -> rsp X e x) -> spec ok rsp post p -> spec ok rsp' post p.
Proof.
  intros Hr. induction p as [r|X e k IH]; simpl; [done|]. intros [H1 H2]. split; auto.
Qed.

(** *** The calls of a program

    [calls ok p]: whatever the answers, every call made satisfies [ok]. *)

Definition calls {A} (ok : forall X, E X -> Prop) (p : prog E A) : Prop :=
  spec ok any_answer (fun _ => True) p.

Lemma calls_ret {A} ok (r : A) : calls ok (Ret r).
Proof. done. Qed.

Lemma calls_call {X} (ok : forall X, E X -> Prop) (e : E X) : ok X e -> calls ok (call e).
Proof. by split. Qed.

Lemma calls_bind {A B} ok (p : prog E A) (f : A -> prog E B) :
  calls ok p -> (forall a, calls ok (f a)) -> calls ok (bind p f).
Proof. intros Hp Hf. eapply spec_bind; [exact Hp|]. intros a _. apply Hf. Qed.

Lemma calls_mono {A} (ok ok' : forall X, E X -> Prop) (p : prog E A) :
  (forall X e, ok X e -> ok' X e) -> calls ok p -> calls ok' p.
Proof. intros Ho. by apply spec_mono. Qed.

(** A program verified for all answers is correct on every run. *)
Lemma spec_run {A S} ok rsp (post : A -> Prop) (h : handler E S) p s :
  (forall X e s', rsp X e (h X e s').1) ->
  spec ok rsp post p ->
  post (run h p s).1 /\ Forall (fun c => ok (projT1 c) (projT2 c)) (trace h p s).
Proof.
  intros Hrsp; revert s; induction p as [r|X e k IH]; intros s; simpl; [done|].
  intros [Hok Hk]. specialize (Hrsp X e s).
  destruct (h X e s) as [x s']; simpl in *.
  destruct (IH x s' (Hk x Hrsp)) as [? ?]. split; [done|]. by constructor.
Qed.
End prog_laws.

Create HintDb spec discriminated.
#[export] Hint Resolve spec_bind : spec.

(** Symbolic execution of a [spec] goal: peel calls, split pairs, and case
    on the tests of the code. *)
Ltac spec_step :=
  match goal with
  | |- spec _ _ _ (Ret _) => simpl
  | |- spec _ _ _ (Vis _ _) => simpl; split; [|intros ? ?]
  | |- spec _ _ _ (bind (Ret _) _) => simpl
  | |- spec _ _ _ (bind (call _) _) => simpl; split; [|intros ? ?]
  | |- spec _ _ _ (bind (Vis _ _) _) => simpl; split; [|intros ? ?]
  | |- spec _ _ _ (match ?x with _ => _ end) => destruct x eqn:?
  | |- spec _ _ _ (bind (match ?x with _ => _ end) _) => destruct x eqn:?
  end.

(** Reduce [calls ok p] to the calls named in [p], its tests and its subprograms. *)
Ltac solve_calls :=
  repeat match goal with
    | |- calls _ (Ret _) => apply calls_ret
    | |- calls _ (call _) => apply calls_call
    | |- calls _ (bind _ _) => apply calls_bind; [|intros ?]
    | |- calls _ (match ?x with _ => _ end) => destruct x eqn:?
    end.

(** *** Histories

    Where a property relates calls to each other (this release follows that
    claim), [history] follows the answered calls of a run: whatever answers
    allowed by [rsp] the calls get, [post] holds of the result and of the calls
    answered so far, oldest first. *)

Record event (E : Type -> Type) := Ev { evType : Type; evCall : E evType; evAnswer : evType }.
Arguments Ev {E evType} evCall evAnswer.
Arguments evType {E} _.
Arguments evCall {E} _.
Arguments evAnswer {E} _.

Fixpoint history {E R} (rsp : forall X, E X -> X -> Prop) (post : R -> list (event E) -> Prop)
    (p : prog E R) (h : list (event E)) : Prop :=
  match p with
  | Ret r => post r h
  | Vis e k => forall x, rsp _ e x -> history rsp post (k x) (h ++ [Ev e x])
  end.

(** The answered calls of a run. *)
Fixpoint recorded {E R S} (hd : handler E S) (p : prog E R) (s : S) : list (event E) :=
  match p with
  | Ret _ => []
  | Vis e k => let '(x, s') := hd _ e s in Ev e x :: recorded hd (k x) s'
  end.

Section history_laws.
Context {E : Type -> Type}.

Lemma history_bind {A B} rsp (mid : A -> list (event E) -> Prop) (post : B -> list (event E) -> Prop)
    (p : prog E A) (f : A -> prog E B) h :
  history rsp mid p h ->
  (forall a h', mid a h' -> history rsp post (f a) h') ->
  history rsp post (bind p f) h.
Proof.
  intros Hp Hf. revert h Hp. induction p as [r|X e k IH]; intros h Hp; simpl in *; [by apply Hf|].
  intros x Hx. apply IH. by apply Hp.
Qed.

Lemma history_mono {A} rsp (post post' : A -> list (event E) -> Prop) p h :
  (forall a h', post a h' -> post' a h') -> history rsp post p h -> history rsp post' p h.
Proof.
  intros Hpost. revert h. induction p as [r|X e k IH]; intros h; simpl; [apply Hpost|]. auto.
Qed.

Lemma history_rsp {A} (rsp rsp' : forall X, E X -> X -> Prop) (post : A -> list (event E) -> Prop) p h :
  (forall X e x, rsp' X e x -> rsp X e x) -> history rsp post p h -> history rsp' post p h.
Proof. intros Hr. revert h. induction p as [r|X e k IH]; intros h; simpl; auto. Qed.

(** Calls only add to a history. *)
Lemma history_extends {A} rsp (p : prog E A) h :
  history rsp (fun _ h' => exists new, h' = h ++ new) p h.
Proof.
  revert h. induction p as [r|X e k IH]; intros h; simpl; [exists []; by rewrite app_nil_r|].
  intros x _. eapply history_mono; [|apply IH]. intros _ h' [new ->]. eexists. by rewrite <-app_assoc.
Qed.

Lemma history_and {A} rsp (p1 p2 : A -> list (event E) -> Prop) (p : prog E A) h :
  history rsp p1 p h -> history rsp p2 p h -> history rsp (fun a h' => p1 a h' /\ p2 a h') p h.
Proof. revert h. induction p as [r|X e k IH]; intros h; simpl; [done|]. auto. Qed.

Lemma history_all {A} rsp (post : A -> list (event E) -> Prop) (p : prog E A) h :
  (forall a h', post a h') -> history rsp post p h.
Proof. intros H. revert h. induction p as [r|X e k IH]; intros h; simpl; auto. Qed.

(** What [spec] shows of every call and of the result holds along the history. *)
Lemma spec_history {A} ok rsp (post : A -> Prop) (p : prog E A) h :
  spec ok rsp post p ->
  history rsp (fun r h' => post r /\ exists new, h' = h ++ new /\
                           Forall (fun ev => ok (evType ev) (evCall ev)) new) p h.
Proof.
  revert h. induction p as [r|X e k IH]; intros h; simpl.
  - intros Hr. split; [done|]. exists []. by rewrite app_nil_r.
  - intros [Hok Hk] x Hx. eapply history_mono; [|by apply IH, Hk]. intros r h' (Hr & new & -> & Hn).
    split; [done|]. exists (Ev e x :: new). split; [by rewrite <-app_assoc|by constructor].
Qed.

Lemma history_run {A S} rsp (post : A -> list (event E) -> Prop) (hd : handler E S) p s h :
  (forall X e s', rsp X e (hd X e s').1) ->
  history rsp post p h -> post (run hd p s).1 (h ++ recorded hd p s).
Proof.
  intros Hrsp. revert s h. induction p as [r|X e k IH]; intros s h; simpl; [by rewrite app_nil_r|].
  intros Hk. specialize (Hrsp X e s). destruct (hd X e s) as [x s']; simpl in *.
  specialize (IH x s' _ (Hk x Hrsp)). by rewrite <-app_assoc in IH.
Qed.
End history_laws.

(** The answered calls that [w] recognises. *)
Fixpoint witnessed {A : Type} {E : Type -> Type} (w : forall X, E X -> X -> option A)
    (h : list (event E)) : list A :=
  match h with
  | [] => []
  | ev :: h' => match w (evType ev) (evCall ev) (evAnswer ev) with
                | Some a => a :: witnessed w h' | None => witnessed w h'
                end
  end.

Lemma witnessed_app {A E} (w : forall X, E X -> X -> option A) h1 h2 :
  witnessed w (h1 ++ h2) = witnessed w h1 ++ witnessed w h2.
Proof. induction h1 as [|ev h1 IH]; simpl; [done|]. rewrite IH. by destruct (w _ _ _). Qed.

Lemma witnessed_none {A E} (ok : forall X, E X -> Prop) (w : forall X, E X -> X -> option A) h :
  Forall (fun ev => ok (evType ev) (evCall ev)) h ->
  (forall X e x, ok X e -> w X e x = None) -> witnessed w h = [].
Proof. intros Hh Hw. induction Hh as [|ev h Hev _ IH]; simpl; [done|]. by rewrite Hw. Qed.

(** A program none of whose calls [w] recognises adds nothing to what [w] sees. *)
Definition ignores {A E} (w : forall X, E X -> X -> option A) (X : Type) (e : E X) : Prop :=
  forall x, w X e x = None.

Lemma calls_unseen {A B E} (w : forall X, E X -> X -> option A) (p : prog E B) rsp h :
  calls (ignores w) p -> history rsp (fun _ h' => witnessed w h' = witnessed w h) p h.
Proof.
  intros Hc. apply (history_rsp any_answer); [done|].
  eapply history_mono; [|by apply (spec_history _ _ _ _ h) in Hc; exact Hc].
  cbn beta. intros r h' (_ & new & -> & Hn). rewrite witnessed_app.
  rewrite (witnessed_none _ w new Hn); [apply app_nil_r|]. intros X e x Hi. apply Hi.
Qed.

(** The history of a program over a larger signature. *)
Fixpoint emap {E F : Type -> Type} (f : forall X, E X -> F X) (h : list (event E)) : list (event F) :=
  match h with
  | [] => []
  | ev :: h' => Ev (f _ (evCall ev)) (evAnswer ev) :: emap f h'
  end.

Lemma emap_app {E F : Type -> Type} (f : forall X, E X -> F X) h1 h2 :
  emap f (h1 ++ h2) = emap f h1 ++ emap f h2.
Proof. induction h1 as [|ev h1 IH]; simpl; [done|]. by rewrite IH. Qed.

Lemma history_translate {E F : Type -> Type} (f : forall X, E X -> F X) {A} rsp
    (post : A -> list (event F) -> Prop) p h :
  history (fun X e => rsp X (f X e)) (fun r new => post r (h ++ emap f new)) p [] ->
  history rsp post (translate f p) h.
Proof.
  intros Hp. rewrite <-(app_nil_r h). change [] with (emap f []) at 1. revert Hp.
  generalize (@nil (event E)). induction p as [r|X e k IH]; intros h0 Hp; simpl in *; [done|].
  intros x Hx. specialize (IH x _ (Hp x Hx)). by rewrite emap_app, app_assoc in IH.
Qed.

Lemma witnessed_emap {A} {E F : Type -> Type} (f : forall X, E X -> F X) (w : forall X, F X -> X -> option A) h :
  witnessed w (emap f h) = witnessed (fun X e => w X (f X e)) h.
Proof. induction h as [|ev h IH]; simpl; [done|]. rewrite IH. by destruct (w _ _ _). Qed.

(** ** Sorting

    [sort.SliceStable]: an insertion sort, which keeps the order of elements
    that compare equal. *)

Section slice_stable.
Context {A : Type} (less : A -> A -> bool).

Fixpoint insert_stable (x : A) (l : list A) : list A :=
  match l with
  | [] => [x]
  | y :: l' => if less y x then y :: insert_stable x l' else x :: l
  end.

Definition SliceStable (l : list A) : list A := foldr insert_stable [] l.

Lemma insert_stable_perm x l : insert_stable x l ≡ₚ x :: l.
Proof.
  induction l as [|y l IH]; simpl; [done|]. destruct (less y x); [|done].
  rewrite IH. apply Permutation_swap.
Qed.

Lemma SliceStable_perm l : SliceStable l ≡ₚ l.
Proof. induction l as [|x l IH]; simpl; [done|]. by rewrite insert_stable_perm, IH. Qed.

(** What a strict weak order gives; Go asks for one. *)
Hypothesis less_trans : forall x y z, less x y = true -> less y z = true -> less x z = true.
Hypothesis less_weak : forall x y z, less x z = true -> less x y = true \/ less y z = true.

(** The first element of the sorted slice: nothing comes before it in the
    order, and nothing as good comes before it in the slice. *)
Lemma SliceStable_head l x r :
  SliceStable l = x :: r ->
  exists l1 l2, l = l1 ++ x :: l2 /\ Forall (fun y => less x y = true) l1
                /\ Forall (fun y => less y x = false) l2.
Proof.
  revert x r. induction l as [|y l IH]; intros x r H; simpl in H; [done|].
  change (foldr insert_stable [] l) with (SliceStable l) in H.
  destruct (SliceStable l) as [|z s] eqn:E; simpl in H.
  - simplify_eq. exists [], l. split_and!; [done..|].
    assert (l = []) as -> by (apply Permutation_nil; by rewrite <-E, SliceStable_perm). done.
  - destruct (IH z s eq_refl) as (l1 & l2 & -> & H1 & H2). destruct (less z y) eqn:Hzy; simplify_eq.
    + exists (y :: l1), l2. split_and!; [done|by constructor|done].
    + exists [], (l1 ++ z :: l2). split_and!; [done..|]. apply Forall_app; split.
      * eapply Forall_impl; [exact H1|]. intros w Hw. simpl in Hw. destruct (less w x) eqn:Hwx; [|done].
        rewrite (less_trans z w x) in Hzy; done.
      * constructor; [done|]. eapply Forall_impl; [exact H2|]. intros w Hw. simpl in Hw.
        destruct (less w x) eqn:Hwx; [|done]. destruct (less_weak w z x Hwx); congruence.
Qed.
End slice_stable.

(** ** Closure of a step relation *)

Section star.
Context {A : Type} (R : A -> A -> Prop).

Inductive star : A -> A -> Prop :=
| star_refl a : star a a
| star_step a b c : R a b -> star b c -> star a c.

Lemma star_inv (I : A -> Prop) a b :
  (forall x y, I x -> R x y -> I y) -> I a -> star a b -> I b.
Proof. intros HI Ha Hs. induction Hs; eauto. Qed.
End star.

(** ** Go machine integers *)

Open Scope Z_scope.

Definition int32_min : Z := - 2 ^ 31.
Definition int32_max : Z := 2 ^ 31 - 1.
Definition int64_min : Z := - 2 ^ 63.
Definition int64_max : Z := 2 ^ 63 - 1.

(** Conversion to a signed [w]-bit integer. *)
Definition wrap_signed (w : Z) (z : Z) : Z :=
  (z + 2 ^ (w - 1)) mod 2 ^ w - 2 ^ (w - 1).
Definition int32 (z : Z) : Z := wrap_signed 32 z.
Definition int64 (z : Z) : Z := wrap_signed 64 z.

Lemma int32_id z : int32_min <= z <= int32_max -> int32 z = z.
Proof.
  unfold int32, wrap_signed, int32_min, int32_max. intros H. simpl Z.sub.
  rewrite Z.mod_small; lia.
Qed.

(** Conversions inside a sum can wait for the last one. *)
Lemma int32_add_l a b : int32 (int32 a + b) = int32 (a + b).
Proof.
  unfold int32, wrap_signed. f_equal.
  replace ((a + 2 ^ (32 - 1)) mod 2 ^ 32 - 2 ^ (32 - 1) + b + 2 ^ (32 - 1))
    with ((a + 2 ^ (32 - 1)) mod 2 ^ 32 + b) by lia.
  rewrite Z.add_mod_idemp_l by lia. f_equal. lia.
Qed.

Lemma int32_add_r a b : int32 (a + int32 b) = int32 (a + b).
Proof. by rewrite Z.add_comm, int32_add_l, Z.add_comm. Qed.

(** ** Sums over a list *)

Definition sum_over {A} (f : A -> Z) (l : list A) : Z := foldr (fun a acc => f a + acc) 0 l.

Lemma sum_over_cons {A} (f : A -> Z) a l : sum_over f (a :: l) = f a + sum_over f l.
Proof. done. Qed.

Lemma sum_over_fmap {A B} (f : B -> Z) (g : A -> B) l : sum_over f (g <$> l) = sum_over (fun a => f (g a)) l.
Proof. induction l as [|a l IH]; [done|]. by rewrite fmap_cons, !sum_over_cons, IH. Qed.

Lemma int32_sum {A} (f : A -> Z) l : int32 (sum_over (fun a => int32 (f a)) l) = int32 (sum_over f l).
Proof.
  induction l as [|a l IH]; [done|]. rewrite !sum_over_cons.
  by rewrite int32_add_l, <-(int32_add_r _ (sum_over _ l)), IH, int32_add_r.
Qed.

Lemma sum_over_ext {A} (f g : A -> Z) l :
  (forall a, a ∈ l -> f a = g a) -> sum_over f l = sum_over g l.
Proof.
  induction l as [|a l IH]; intros Hfg; simpl; [done|]. rewrite (Hfg a) by left.
  rewrite IH; [done|]. intros. apply Hfg. by right.
Qed.

Lemma sum_over_plus {A} (f g : A -> Z) l :
  sum_over (fun a => f a + g a) l = sum_over f l + sum_over g l.
Proof. induction l; simpl; lia. Qed.

Lemma sum_over_zero {A} (l : list A) : sum_over (fun _ => 0) l = 0.
Proof. induction l; simpl; lia. Qed.

Lemma sum_over_perm {A} (f : A -> Z) l l' : l ≡ₚ l' -> sum_over f l = sum_over f l'.
Proof. induction 1; simpl; lia. Qed.

(** ** Time

    A [time.Time] is its distance in nanoseconds from Go's zero time; a
    [time.Duration] is a signed 64-bit number of nanoseconds. *)

Definition time_second : Z := 1000000000.
Definition time_millisecond : Z := 1000000.
Definition time_minute : Z := 60 * time_second.
Definition time_IsZero (t : Z) : bool := bool_decide (t = 0).
Definition time_Before (t u : Z) : bool := bool_decide (t < u).
Definition time_Add (t d : Z) : Z := t + d.
(** [Time.Sub] saturates at the extreme durations. *)
Definition time_Sub (t u : Z) : Z := Z.max int64_min (Z.min int64_max (t - u)).
