(* ===== verification/GoStrings.v ===== *)
(** * GoStrings: the parts of Go's [strings], [strconv], [fmt] and [hash/fnv]
    that the operator uses, over byte strings.

    A Go string is a byte sequence, here a [string] of 8-bit [ascii]
    characters.  Iteration with [range] goes through [runes], the UTF-8
    decoding in which every invalid byte is U+FFFD.  Lower-casing and
    space-trimming act on ASCII; where a rune above U+007F can reach ASCII
    under [unicode.ToLower] (U+0130 and U+212A only) [lower_rune] says so. *)

From Stdlib Require Strings.Ascii.
From S2P Require Import Prelude.

Export Stdlib.Strings.Ascii (ascii(..)).
Export (notations) Stdlib.Strings.Ascii.

Open Scope stdpp_scope.

(** ** Searching and cutting *)

Section bytes.
Context (c : ascii).

Fixpoint has_byte (s : string) : bool :=
  match s with
  | EmptyString => false
  | String d s' => bool_decide (d = c) || has_byte s'
  end.

(** The text before and after the first [c]: [s[:i]], [s[i+1:]] for
    [i = strings.IndexByte(s, c)]; [None] when the index is -1. *)
Fixpoint cut_byte (s : string) : option (string * string) :=
  match s with
  | EmptyString => None
  | String d s' =>
      if decide (d = c) then Some ("", s')
      else match cut_byte s' with
           | Some (a, b) => Some (String d a, b)
           | None => None
           end
  end.

(** The same at the last [c] ([strings.LastIndex]). *)
Fixpoint cut_last_byte (s : string) : option (string * string) :=
  match s with
  | EmptyString => None
  | String d s' =>
      match cut_last_byte s' with
      | Some (a, b) => Some (String d a, b)
      | None => if decide (d = c) then Some ("", s') else None
      end
  end.

(** [strings.Split(s, c)]. *)
Fixpoint split_byte (s : string) : list string :=
  match s with
  | EmptyString => [""]
  | String d s' =>
      if decide (d = c) then "" :: split_byte s'
      else match split_byte s' with
           | w :: ws => String d w :: ws
           | [] => [String d ""]
           end
  end.

Lemma has_byte_app a b : has_byte (a +:+ b) = has_byte a || has_byte b.
Proof. induction a as [|d a IH]; simpl; [done|]. rewrite IH. apply orb_assoc. Qed.

Lemma cut_byte_app a b : has_byte a = false -> cut_byte (a +:+ String c b) = Some (a, b).
Proof.
  induction a as [|d a IH]; simpl; [by rewrite decide_True|].
  intros [Hd Ha]%orb_false_iff. apply bool_decide_eq_false in Hd.
  rewrite decide_False by done. by rewrite IH.
Qed.

Lemma cut_byte_None s : cut_byte s = None <-> has_byte s = false.
Proof.
  induction s as [|d s IH]; simpl; [done|].
  case_decide as Hd; [by rewrite bool_decide_true|].
  rewrite bool_decide_false by done. simpl. rewrite <-IH.
  by destruct (cut_byte s) as [[??]|].
Qed.

Lemma cut_byte_Some s a b :
  cut_byte s = Some (a, b) -> s = a +:+ String c b /\ has_byte a = false.
Proof.
  revert a b; induction s as [|d s IH]; simpl; intros a b; [done|].
  case_decide as Hd; [intros [= <- <-]; by subst|].
  destruct (cut_byte s) as [[a' b']|]; [|done]. intros [= <- <-].
  destruct (IH _ _ eq_refl) as [-> Ha]. simpl.
  by rewrite bool_decide_false, Ha.
Qed.

Lemma cut_last_byte_app a b :
  has_byte b = false -> cut_last_byte (a +:+ String c b) = Some (a, b).
Proof.
  intros Hb. assert (cut_last_byte b = None) as Hn.
  { revert Hb. induction b as [|d b IH]; simpl; [done|].
    intros [Hd Hb]%orb_false_iff. apply bool_decide_eq_false in Hd.
    by rewrite (IH Hb), decide_False. }
  induction a as [|d a IH]; simpl; [by rewrite Hn, decide_True|]. by rewrite IH.
Qed.

Lemma split_byte_free s : has_byte s = false -> split_byte s = [s].
Proof.
  induction s as [|d s IH]; simpl; [done|].
  intros [Hd Hs]%orb_false_iff. apply bool_decide_eq_false in Hd.
  by rewrite decide_False, IH.
Qed.

Lemma split_byte_app a b :
  has_byte a = false -> split_byte (a +:+ String c b) = a :: split_byte b.
Proof.
  induction a as [|d a IH]; simpl; [by rewrite decide_True|].
  intros [Hd Ha]%orb_false_iff. apply bool_decide_eq_false in Hd.
  by rewrite decide_False, IH.
Qed.

(** Splitting inverts joining when no part holds the separator. *)
Lemma split_join (l : list string) :
  l <> [] -> Forall (fun w => has_byte w = false) l ->
  split_byte (String.concat (String c "") l) = l.
Proof.
  intros Hne Hl. induction l as [|w l IH]; [done|].
  inversion Hl as [|?? Hw Hl']; subst.
  destruct l as [|w' l']; [by apply split_byte_free|].
  change (String.concat (String c "") (w :: w' :: l')) with
    (w +:+ String c (String.concat (String c "") (w' :: l'))).
  rewrite split_byte_app by done. f_equal. by apply IH.
Qed.
End bytes.

Lemma app_string_cons x (a b : string) : String x a +:+ b = String x (a +:+ b).
Proof. done. Qed.

Lemma app_string_assoc (a b d : string) : (a +:+ b) +:+ d = a +:+ (b +:+ d).
Proof. induction a as [|x a IH]; [done|]. by rewrite !app_string_cons, IH. Qed.

Lemma app_string_nil_r (a : string) : a +:+ "" = a.
Proof. induction a as [|x a IH]; [done|]. by rewrite app_string_cons, IH. Qed.

Lemma length_app_string (a b : string) :
  String.length (a +:+ b) = (String.length a + String.length b)%nat.
Proof.
  induction a as [|x a IH]; [done|]. rewrite app_string_cons. simpl. by rewrite IH.
Qed.

(** Two renderings joined at a byte the left parts lack agree only if their
    parts do: "ns/name" keys are injective on names without a slash. *)
Lemma sep_inj (c : ascii) a b a' b' :
  has_byte c a = false -> has_byte c a' = false ->
  a +:+ String c b = a' +:+ String c b' -> a = a' /\ b = b'.
Proof.
  intros Ha Ha' Heq.
  assert (cut_byte c (a +:+ String c b) = cut_byte c (a' +:+ String c b')) as H
    by by rewrite Heq.
  rewrite !cut_byte_app in H by done. by simplify_eq.
Qed.

(** ** Prefixes and suffixes *)

Definition HasPrefix (s p : string) : bool := String.prefix p s.

Lemma prefix_split s p : HasPrefix s p = true -> exists r, s = p +:+ r.
Proof.
  unfold HasPrefix. revert s; induction p as [|c p IH]; intros [|c' s]; simpl; try done; [by eexists..|].
  destruct (Ascii.ascii_dec c c') as [->|]; [|done]. intros Hp. destruct (IH s Hp) as [r ->]. by exists r.
Qed.

Fixpoint CutPrefix (s p : string) : string * bool :=
  match p, s with
  | EmptyString, _ => (s, true)
  | String c p', String d s' =>
      if decide (c = d) then
        match CutPrefix s' p' with
        | (r, true) => (r, true)
        | (_, false) => (s, false)
        end
      else (s, false)
  | String _ _, EmptyString => (s, false)
  end.

Lemma CutPrefix_app p s : CutPrefix (p +:+ s) p = (s, true).
Proof. induction p as [|c p IH]; simpl; [by destruct s|]. by rewrite decide_True, IH. Qed.

Lemma CutPrefix_true s p r : CutPrefix s p = (r, true) -> s = p +:+ r.
Proof.
  revert s r; induction p as [|c p IH]; intros s r; [by destruct s; intros [= <-]|].
  destruct s as [|d s]; simpl; [done|]. case_decide; [|done]. subst.
  destruct (CutPrefix s p) as [r' []] eqn:E; [|done]. intros [= <-].
  by rewrite (IH _ _ E).
Qed.

Definition HasSuffix (s x : string) : bool :=
  String.prefix (String.rev x) (String.rev s).

Fixpoint has_substring (x s : string) : bool :=
  String.prefix x s || match s with EmptyString => false | String _ s' => has_substring x s' end.

(** [net.SplitHostPort]: the host and port, [None] for an address it rejects. *)
Definition SplitHostPort (s : string) : option (string * string) :=
  match cut_last_byte ":"%char s with
  | None => None
  | Some (before, port) =>
      match s with
      | String "["%char _ =>
          match cut_byte "]"%char s with
          | Some (String _ host, rest) =>
              if bool_decide (rest = ":" +:+ port) && negb (has_byte "["%char host)
                 && negb (has_byte "["%char rest) && negb (has_byte "]"%char rest)
              then Some (host, port) else None
          | _ => None
          end
      | _ =>
          if has_byte ":"%char before || has_byte "["%char s || has_byte "]"%char s
          then None else Some (before, port)
      end
  end.

Example SplitHostPort_v4 : SplitHostPort "10.0.0.7:8080" = Some ("10.0.0.7", "8080").
Proof. vm_compute. reflexivity. Qed.
Example SplitHostPort_v6 :
  SplitHostPort "[fe80::1]:80" = Some ("fe80::1", "80") /\ SplitHostPort "fe80::1" = None.
Proof. vm_compute. split; reflexivity. Qed.

(** ** Character classes and case *)

Definition byte_of (c : ascii) : Z := Z.of_N (Stdlib.Strings.Ascii.N_of_ascii c).
Definition ascii_of (z : Z) : ascii := Stdlib.Strings.Ascii.ascii_of_N (Z.to_N z).

Fixpoint string_map (f : ascii -> ascii) (s : string) : string :=
  match s with
  | EmptyString => EmptyString
  | String c s' => String (f c) (string_map f s')
  end.

Fixpoint string_forall (f : ascii -> bool) (s : string) : bool :=
  match s with
  | EmptyString => true
  | String c s' => f c && string_forall f s'
  end.

Lemma string_forall_app f a b :
  string_forall f (a +:+ b) = string_forall f a && string_forall f b.
Proof. induction a as [|c a IH]; simpl; [done|]. rewrite IH. apply andb_assoc. Qed.

Lemma string_forall_impl (f g : ascii -> bool) s :
  (forall c, f c = true -> g c = true) -> string_forall f s = true -> string_forall g s = true.
Proof.
  intros Hfg; induction s as [|c s IH]; simpl; [done|].
  intros [Hc Hs]%andb_true_iff. by rewrite Hfg, IH.
Qed.

Definition lower_byte (c : ascii) : ascii :=
  let z := byte_of c in
  if bool_decide (65 <= z <= 90) then ascii_of (z + 32) else c.

Definition lower_ascii (s : string) : string := string_map lower_byte s.

(** [strings.EqualFold(s, t)] for an ASCII [t] without the letters k and s. *)
Definition equal_fold_ascii (s t : string) : bool :=
  bool_decide (lower_ascii s = lower_ascii t).

(** ** Trimming *)

Fixpoint trim_left (f : ascii -> bool) (s : string) : string :=
  match s with
  | String c s' => if f c then trim_left f s' else s
  | EmptyString => s
  end.

Definition trim (f : ascii -> bool) (s : string) : string :=
  String.rev (trim_left f (String.rev (trim_left f s))).

Definition TrimSpace (s : string) : string := trim Ascii.is_space s.

Lemma rev_app_spec (a b : string) : String.rev_app a b = String.rev a +:+ b.
Proof.
  unfold String.rev. revert b. induction a as [|c a IH]; intros b; [done|]. simpl.
  rewrite IH, (IH (String c "")). by rewrite app_string_assoc.
Qed.

Lemma rev_cons c (a : string) : String.rev (String c a) = String.rev a +:+ String c "".
Proof. exact (rev_app_spec a (String c "")). Qed.

Lemma rev_app_string (a b : string) : String.rev (a +:+ b) = String.rev b +:+ String.rev a.
Proof.
  induction a as [|c a IH]; [by rewrite app_string_nil_r|].
  rewrite app_string_cons, !rev_cons, IH. by rewrite app_string_assoc.
Qed.

Lemma rev_involutive (a : string) : String.rev (String.rev a) = a.
Proof. induction a as [|c a IH]; [done|]. rewrite rev_cons, rev_app_string, IH. done. Qed.

Lemma prefix_app (p s : string) : String.prefix p (p +:+ s) = true.
Proof.
  induction p as [|c p IH]; [by destruct s|]. rewrite app_string_cons. cbn [String.prefix].
  by destruct (Ascii.ascii_dec c c).
Qed.

Lemma HasSuffix_app (s x : string) : HasSuffix (s +:+ x) x = true.
Proof. unfold HasSuffix. rewrite rev_app_string. apply prefix_app. Qed.

Lemma trim_left_suffix f s : exists p, s = p +:+ trim_left f s.
Proof.
  induction s as [|c s [p IH]]; [by exists ""|]. simpl. destruct (f c); [|by exists ""].
  exists (String c p). by rewrite app_string_cons, <-IH.
Qed.

Lemma trim_left_idemp f s : trim_left f (trim_left f s) = trim_left f s.
Proof. induction s as [|c s IH]; [done|]. simpl. destruct (f c) eqn:E; [done|]. simpl. by rewrite E. Qed.

(** Trimming twice is trimming once. *)
Lemma trim_idemp f s : trim f (trim f s) = trim f s.
Proof.
  unfold trim. set (u := trim_left f s). destruct (trim_left_suffix f (String.rev u)) as [p Hp].
  set (w := trim_left f (String.rev u)) in *.
  assert (u = String.rev w +:+ String.rev p) as Hu by (by rewrite <-rev_app_string, <-Hp, rev_involutive).
  assert (trim_left f (String.rev w) = String.rev w) as ->.
  { destruct (String.rev w) as [|c v]; [done|]. simpl.
    assert (trim_left f u = u) as Hid by apply trim_left_idemp. rewrite Hu in Hid. simpl in Hid.
    destruct (f c) eqn:Hc; [|done]. exfalso.
    destruct (trim_left_suffix f (v +:+ String.rev p)) as [q Hq].
    apply (f_equal String.length) in Hid, Hq. rewrite app_string_cons in Hid. simpl in Hid.
    rewrite (length_app_string q) in Hq. simpl in *. lia. }
  rewrite rev_involutive. unfold w. by rewrite trim_left_idemp.
Qed.

Lemma TrimSpace_idemp s : TrimSpace (TrimSpace s) = TrimSpace s.
Proof. apply trim_idemp. Qed.

Definition is_dash (c : ascii) : bool := bool_decide (c = "-"%char).
Definition trim_dash (s : string) : string := trim is_dash s.

(** ** UTF-8 decoding, as [for _, r := range s] *)

Definition cont_byte (z : Z) : bool := bool_decide (128 <= z < 192).
Definition rune_error : Z := 65533.

(** One rune from a non-empty byte list, with the number of extra bytes it
    takes; an invalid sequence is U+FFFD and consumes one byte. *)
Definition decode_rune (b0 : Z) (rest : list Z) : Z * nat :=
  if bool_decide (b0 < 128) then (b0, O)
  else if bool_decide (194 <= b0 < 224) then
    match rest with
    | b1 :: _ => if cont_byte b1 then ((b0 - 192) * 64 + (b1 - 128), 1%nat) else (rune_error, O)
    | _ => (rune_error, O)
    end
  else if bool_decide (224 <= b0 < 240) then
    match rest with
    | b1 :: b2 :: _ =>
        let r := (b0 - 224) * 4096 + (b1 - 128) * 64 + (b2 - 128) in
        if cont_byte b1 && cont_byte b2 && bool_decide (2048 <= r)
           && negb (bool_decide (55296 <= r <= 57343))
        then (r, 2%nat) else (rune_error, O)
    | _ => (rune_error, O)
    end
  else if bool_decide (240 <= b0 < 245) then
    match rest with
    | b1 :: b2 :: b3 :: _ =>
        let r := (b0 - 240) * 262144 + (b1 - 128) * 4096 + (b2 - 128) * 64 + (b3 - 128) in
        if cont_byte b1 && cont_byte b2 && cont_byte b3
           && bool_decide (65536 <= r <= 1114111)
        then (r, 3%nat) else (rune_error, O)
    | _ => (rune_error, O)
    end
  else (rune_error, O).

Fixpoint bytes (s : string) : list Z :=
  match s with
  | EmptyString => []
  | String c s' => byte_of c :: bytes s'
  end.

(** [skip] counts continuation bytes already consumed by the last rune. *)
Fixpoint runes_go (skip : nat) (l : list Z) : list Z :=
  match l with
  | [] => []
  | b :: l' =>
      match skip with
      | S n => runes_go n l'
      | O => let '(r, n) := decode_rune b l' in r :: runes_go n l'
      end
  end.

Definition runes (s : string) : list Z := runes_go O (bytes s).

(** [unicode.ToLower], exact on ASCII and on the two runes that map into it;
    the other runes stay above U+007F either way and are kept. *)
Definition lower_rune (r : Z) : Z :=
  if bool_decide (65 <= r <= 90) then r + 32
  else if bool_decide (r = 304) then 105
  else if bool_decide (r = 8490) then 107
  else r.

Definition is_ascii (s : string) : bool := string_forall (fun c => bool_decide (byte_of c < 128)) s.

Lemma byte_of_range c : 0 <= byte_of c < 256.
Proof.
  unfold byte_of. pose proof (Stdlib.Strings.Ascii.N_ascii_bounded c). lia.
Qed.

Lemma ascii_of_byte_of c : ascii_of (byte_of c) = c.
Proof. unfold ascii_of, byte_of. rewrite N2Z.id. apply Stdlib.Strings.Ascii.ascii_N_embedding. Qed.

Lemma byte_of_ascii_of z : 0 <= z < 256 -> byte_of (ascii_of z) = z.
Proof.
  intros H. unfold ascii_of, byte_of. rewrite Stdlib.Strings.Ascii.N_ascii_embedding; lia.
Qed.

Lemma runes_ascii s : is_ascii s = true -> runes s = bytes s.
Proof.
  unfold runes, is_ascii. induction s as [|c s IH]; simpl; [done|].
  intros [Hc Hs]%andb_true_iff. unfold decode_rune. rewrite Hc. by rewrite IH.
Qed.

(** ** Numbers as text *)

Definition FormatUint (n : N) : string := pretty n.

Fixpoint parse_digits (acc : N) (s : string) : option N :=
  match s with
  | EmptyString => Some acc
  | String c s' =>
      match Ascii.is_nat c with
      | Some d => parse_digits (10 * acc + N.of_nat d)%N s'
      | None => None
      end
  end.

(** [strconv.ParseUint(s, 10, 64)]: [None] is any error. *)
Definition ParseUint (s : string) : option N :=
  match s with
  | EmptyString => None
  | _ => n ← parse_digits 0 s; if bool_decide (n < 2 ^ 64)%N then Some n else None
  end.

Definition hex_digit (z : Z) : ascii :=
  if bool_decide (z < 10) then ascii_of (48 + z) else ascii_of (87 + z).

(** [n] lower-case hexadecimal digits of [z], most significant first. *)
Fixpoint hex_digits (n : nat) (z : Z) : string :=
  match n with
  | O => ""
  | S n' => hex_digits n' (z / 16) +:+ String (hex_digit (z mod 16)) ""
  end.

Definition is_hex (c : ascii) : bool :=
  let z := byte_of c in bool_decide (48 <= z <= 57) || bool_decide (97 <= z <= 102).

Lemma hex_digit_is_hex z : 0 <= z < 16 -> is_hex (hex_digit z) = true.
Proof.
  intros H. unfold is_hex, hex_digit.
  destruct (bool_decide (z < 10)) eqn:E;
    [apply bool_decide_eq_true in E | apply bool_decide_eq_false in E];
    rewrite byte_of_ascii_of by lia; apply orb_true_iff;
    [left|right]; apply bool_decide_eq_true; lia.
Qed.

Lemma hex_digits_length n z : String.length (hex_digits n z) = n.
Proof.
  revert z; induction n as [|n IH]; intros z; simpl; [done|].
  rewrite length_app_string, IH. simpl. lia.
Qed.

Lemma hex_digits_hex n z : string_forall is_hex (hex_digits n z) = true.
Proof.
  revert z; induction n as [|n IH]; intros z; cbn [hex_digits]; [done|].
  rewrite string_forall_app, IH. cbn [string_forall].
  rewrite hex_digit_is_hex; [done|]. apply Z.mod_pos_bound. lia.
Qed.

(** [%x] on a byte slice: two lower-case hex digits a byte. *)
Fixpoint hex_bytes (l : list Z) : string :=
  match l with [] => "" | b :: l' => hex_digits 2 b +:+ hex_bytes l' end.

Lemma hex_bytes_length l : String.length (hex_bytes l) = (2 * length l)%nat.
Proof.
  induction l as [|b l IH]; cbn [hex_bytes length]; [done|].
  rewrite length_app_string, hex_digits_length, IH. lia.
Qed.

Lemma hex_bytes_hex l : string_forall is_hex (hex_bytes l) = true.
Proof.
  induction l as [|b l IH]; cbn [hex_bytes]; [done|].
  by rewrite string_forall_app, hex_digits_hex, IH.
Qed.

(** ** FNV-1a *)

Definition fnv_step (prime modulus : Z) (h b : Z) : Z := (Z.lxor h b * prime) mod modulus.

Definition fnv32a (s : string) : Z :=
  foldl (fnv_step 16777619 (2 ^ 32)) 2166136261 (bytes s).

Definition fnv64a (s : string) : Z :=
  foldl (fnv_step 1099511628211 (2 ^ 64)) 14695981039346656037 (bytes s).

Lemma fnv_range prime modulus h l :
  0 < modulus -> 0 <= h < modulus -> 0 <= foldl (fnv_step prime modulus) h l < modulus.
Proof.
  intros Hm; revert h; induction l as [|b l IH]; intros h Hh; simpl; [done|].
  apply IH. by apply Z.mod_pos_bound.
Qed.

Lemma fnv32a_range s : 0 <= fnv32a s < 2 ^ 32.
Proof. by apply fnv_range. Qed.

(** ** Ordering *)

(** Go's [<] on strings is bytewise. *)
Definition sort_strings (l : list string) : list string := merge_sort String.le l.

Lemma sort_strings_sorted l : Sorted String.le (sort_strings l).
Proof. apply Sorted_merge_sort, _. Qed.

Lemma sort_strings_perm l : sort_strings l ≡ₚ l.
Proof. apply merge_sort_Permutation. Qed.
