(* ===== verification/Interleave.v ===== *)
(** * Interleave: several programs over one shared state.

    Replicas of one process run the same program against a shared cluster, each
    with state of its own.  A step answers the next call of one replica; a new
    replica may join at any time.  [rg] is a rely-guarantee specification of one
    program: between its calls the others move the shared state by [rely], each
    of its own steps is such a move, and the result satisfies [post] from then
    on.  [rg_sound] carries it to every interleaving of any number of replicas. *)

From S2P Require Import Prelude.

(** Lists of programs are kept apart from the universe the list library lives
    in; what is needed of them is proved here. *)
Section pool.
Context {A : Type}.
Implicit Types (l : list A) (P : A -> Prop).

Lemma pool_get P l i t : Forall P l -> l !! i = Some t -> P t.
Proof.
  intros H. revert i. induction H as [|x l Hx _ IH]; intros i Hi; [by destruct i|].
  destruct i as [|i]; cbn in Hi; [by injection Hi as <-|by eapply IH].
Qed.

Lemma pool_in P l t : Forall P l -> t ∈ l -> P t.
Proof. intros H Hin. induction Hin as [t l|t y l _ IH]; inversion H; subst; [done|by apply IH]. Qed.

Lemma pool_impl P Q l : (forall x, P x -> Q x) -> Forall P l -> Forall Q l.
Proof. intros HPQ. induction 1; constructor; auto. Qed.

Lemma pool_both P Q l : Forall P l -> Forall Q l -> Forall (fun x => P x /\ Q x) l.
Proof. induction 1 as [|x l Hx _ IH]; [constructor|]. inversion 1; subst. constructor; auto. Qed.

Lemma pool_put P l i t : Forall P l -> P t -> Forall P (<[i := t]> l).
Proof. intros H Ht. revert i. induction H as [|x l Hx H IH]; intros [|i]; cbn; constructor; auto. all: apply IH. Qed.

Lemma pool_join P l t : Forall P l -> P t -> Forall P (l ++ [t]).
Proof. intros H Ht. induction H as [|x l Hx _ IH]; cbn; [by repeat constructor|by constructor]. Qed.

Lemma pool_same l i t : l !! i = Some t -> <[i := t]> l = l.
Proof.
  revert i. induction l as [|x l IH]; intros [|i] Hi; cbn in *; [done|done|by injection Hi as <-|].
  f_equal. by apply IH.
Qed.

Lemma pool_new l i t u : l !! i = Some t -> <[i := u]> l !! i = Some u.
Proof. revert i. induction l as [|x l IH]; intros [|i] Hi; cbn in *; [done|done|done|]. by apply IH. Qed.

Lemma pool_twice l i t u : <[i := t]> (<[i := u]> l) = <[i := t]> l.
Proof. revert i. induction l as [|x l IH]; intros [|i]; cbn; [done|done|done|]. f_equal. apply IH. Qed.

Lemma pool_left l l' t : t ∈ l -> t ∈ l ++ l'.
Proof. induction 1 as [t l|t y l _ IH]; cbn; [apply list_elem_of_here|by apply list_elem_of_further]. Qed.

Lemma pool_last l t : t ∈ l ++ [t].
Proof. induction l as [|x l IH]; cbn; [apply list_elem_of_here|by apply list_elem_of_further]. Qed.
End pool.

Section interleave.
Context {E : Type -> Type} {S L R : Type}.

(** [answers e s l x s' l']: in shared state [s] and local state [l] the call [e]
    may be answered with [x], leaving [s'] and [l']. *)
Context (answers : forall X, E X -> S -> L -> X -> S -> L -> Prop).
Context (rely : relation S).
Context `{!PreOrder rely}.

Fixpoint rg {A} (post : A -> S -> L -> Prop) (p : prog E A) (s : S) (l : L) : Prop :=
  match p with
  | Ret r => forall s', rely s s' -> post r s' l
  | Vis e k => forall s1 x s2 l', rely s s1 -> answers _ e s1 l x s2 l' -> rely s1 s2 /\ rg post (k x) s2 l'
  end.

Lemma rg_rely {A} (post : A -> S -> L -> Prop) p s s' l : rely s s' -> rg post p s l -> rg post p s' l.
Proof.
  intros Hs. destruct p as [r|X e k]; cbn [rg].
  - intros Hp s'' Hs'. apply Hp. by etrans.
  - intros Hp s1 x s2 l' Hs1 Ha. apply (Hp s1 x s2 l'); [by etrans|done].
Qed.

Lemma rg_bind {A B} (mid : A -> S -> L -> Prop) (post : B -> S -> L -> Prop) p (f : A -> prog E B) s l :
  rg mid p s l -> (forall a s' l', mid a s' l' -> rg post (f a) s' l') -> rg post (bind p f) s l.
Proof.
  intros Hp Hf. revert s l Hp. induction p as [r|X e k IH]; intros s l Hp; cbn [bind rg] in *.
  - apply Hf, Hp. done.
  - intros s1 x s2 l' Hs1 Ha. destruct (Hp s1 x s2 l' Hs1 Ha) as [Hr Hk]. split; [done|]. by apply IH.
Qed.

Lemma rg_mono {A} (post post' : A -> S -> L -> Prop) p s l :
  (forall a s' l', post a s' l' -> post' a s' l') -> rg post p s l -> rg post' p s l.
Proof.
  intros Hpost. revert s l. induction p as [r|X e k IH]; intros s l; cbn [rg]; [by eauto|].
  intros Hp s1 x s2 l' Hs1 Ha. destruct (Hp s1 x s2 l' Hs1 Ha). auto.
Qed.

(** When every answer is a move, so is any part of a program. *)
Section moves.
Context (Hmoves : forall X e s l x s' l', answers X e s l x s' l' -> rely s s').

Lemma rely_any {A} (p : prog E A) s l : rg (fun _ s' _ => rely s s') p s l.
Proof.
  assert (H : forall s0, rely s0 s -> rg (fun _ s' _ => rely s0 s') p s l); [|by apply H].
  intros s0. revert s l. induction p as [r|X e k IH]; intros s l Hs; cbn [rg].
  - intros s' Hs'. by etrans.
  - intros s1 x s2 l' Hs1 Ha. assert (Hr := Hmoves _ _ _ _ _ _ _ Ha). split; [done|]. apply IH. by etrans; [|etrans].
Qed.

Lemma rely_call {X B} (e : E X) (k : X -> prog E B) post s l :
  (forall s1 x s2 l', rely s s1 -> answers X e s1 l x s2 l' -> rely s1 s2 -> rg post (k x) s2 l') ->
  rg post (bind (call e) k) s l.
Proof.
  intros Hk. cbn [bind call rg]. intros s1 x s2 l' Hs1 Ha. assert (Hr := Hmoves _ _ _ _ _ _ _ Ha).
  split; [done|]. by eapply Hk.
Qed.

Lemma rely_skip {A B} (p : prog E A) (k : A -> prog E B) post s l :
  (forall a s' l', rely s s' -> rg post (k a) s' l') -> rg post (bind p k) s l.
Proof. intros Hk. eapply rg_bind; [apply rely_any|]. intros a s' l' Hs'. by apply Hk. Qed.
End moves.

(** ** Interleavings *)

Record thread := mkThread { code : prog E R; local : L }.

(** What a replica runs, and the states it may be started in. *)
Context (start : prog E R) (fresh : L -> Prop).

Inductive step : S * list thread -> S * list thread -> Prop :=
| step_call s ts i X (e : E X) k l x s' l' :
    ts !! i = Some (mkThread (Vis e k) l) -> answers X e s l x s' l' ->
    step (s, ts) (s', <[i := mkThread (k x) l']> ts)
| step_join s ts l : fresh l -> step (s, ts) (s, ts ++ [mkThread start l]).

Inductive steps : S * list thread -> S * list thread -> Prop :=
| steps_refl c : steps c c
| steps_l c c1 c' : step c c1 -> steps c1 c' -> steps c c'.

Lemma steps_trans c c1 c' : steps c c1 -> steps c1 c' -> steps c c'.
Proof. induction 1 as [|? ? ? Hs _ IH]; [done|]. intros Hc. eapply steps_l; [exact Hs|by apply IH]. Qed.

Definition each (post : R -> S -> L -> Prop) (c : S * list thread) : Prop :=
  Forall (fun t => rg post (code t) c.1 (local t)) c.2.

Lemma each_step post c c' :
  (forall s l, fresh l -> rg post start s l) -> step c c' -> each post c -> each post c' /\ rely c.1 c'.1.
Proof.
  intros Hstart [s ts i X e k l x s' l' Hi Ha|s ts l Hl]; unfold each; cbn [fst snd]; intros Hall.
  - assert (Hown := pool_get _ _ i _ Hall Hi). cbn [code local rg] in Hown.
    destruct (Hown s x s' l' ltac:(done) Ha) as [Hr Hk]. split; [|done].
    apply pool_put; [|done]. eapply pool_impl; [|exact Hall]. intros t. by apply rg_rely.
  - split; [|done]. apply pool_join; [done|]. by apply Hstart.
Qed.

Lemma each_steps post c c' :
  (forall s l, fresh l -> rg post start s l) -> steps c c' -> each post c -> each post c' /\ rely c.1 c'.1.
Proof.
  intros Hstart. induction 1 as [c|c c1 c' Hs _ IH]; [done|]. intros Hc.
  destruct (each_step post c c1 Hstart Hs Hc) as [H1 Hr]. destruct (IH H1). split; [done|]. by etrans.
Qed.

(** Whatever the interleaving, a replica that has finished satisfies its
    postcondition in the state reached, and the shared state moved by [rely]. *)
Lemma rg_sound post s s' ts :
  (forall s l, fresh l -> rg post start s l) -> steps (s, []) (s', ts) ->
  rely s s' /\ forall r l, mkThread (Ret r) l ∈ ts -> post r s' l.
Proof.
  intros Hstart Hsteps. destruct (each_steps post _ _ Hstart Hsteps) as [Hall Hr]; [by constructor|].
  split; [done|]. intros r l Hin. apply (pool_in _ _ _ Hall) in Hin. cbn in Hin. by apply Hin.
Qed.
(** ** Schedules

    A handler that answers as [answers] allows, or blocks, runs any schedule: [turns] gives,
    per turn, the replica and the number of its calls answered. *)

Context (h : forall X, E X -> S -> L -> option (X * S * L)).

Fixpoint advance (n : nat) (p : prog E R) (s : S) (l : L) : prog E R * S * L :=
  match n, p with
  | Datatypes.S n, Vis e k =>
      match h _ e s l with Some (x, s', l') => advance n (k x) s' l' | None => (p, s, l) end
  | _, _ => (p, s, l)
  end.

Fixpoint play (turns : list (nat * nat)) (s : S) (ts : list thread) : S * list thread :=
  match turns with
  | [] => (s, ts)
  | (i, n) :: turns =>
      match ts !! i with
      | Some t => let '(p, s', l') := advance n (code t) s (local t) in play turns s' (<[i := mkThread p l']> ts)
      | None => play turns s ts
      end
  end.

Context (Hh : forall X e s l x s' l', h X e s l = Some (x, s', l') -> answers X e s l x s' l').

Lemma advance_steps n p s l ts i p' s' l' :
  ts !! i = Some (mkThread p l) -> advance n p s l = (p', s', l') ->
  steps (s, ts) (s', <[i := mkThread p' l']> ts).
Proof.
  revert p s l ts. induction n as [|n IH]; intros p s l ts Hi Ha.
  - cbn in Ha. injection Ha as <- <- <-. rewrite pool_same by done. apply steps_refl.
  - destruct p as [r|X e k]; cbn [advance] in Ha.
    { injection Ha as <- <- <-. rewrite pool_same by done. apply steps_refl. }
    destruct (h X e s l) as [[[x s1] l1]|] eqn:Eh.
    2: { injection Ha as <- <- <-. rewrite pool_same by done. apply steps_refl. }
    apply Hh in Eh.
    eapply steps_l; [by eapply step_call|].
    assert (<[i := mkThread (k x) l1]> ts !! i = Some (mkThread (k x) l1)) as Hi1.
    { by eapply pool_new. }
    specialize (IH _ _ _ _ Hi1 Ha). by rewrite pool_twice in IH.
Qed.

Lemma play_steps turns s ts : steps (s, ts) (play turns s ts).
Proof.
  revert s ts. induction turns as [|[i n] turns IH]; intros s ts; cbn [play]; [apply steps_refl|].
  destruct (ts !! i) as [[p l]|] eqn:Hi; [|apply IH]. cbn [code local].
  destruct (advance n p s l) as [[p' s'] l'] eqn:Ha. eapply steps_trans; [by eapply advance_steps|apply IH].
Qed.
End interleave.

Arguments mkThread {E L R} code local.

(** ** Protocols

    A worker whose local state is a phase obeys a protocol: [may e l] says which
    calls it may make in phase [l].  What then holds of every interleaving is an
    invariant of the shared state and the list of phases, a transition system of
    its own ([lstep]), in which no code is left. *)

Section protocol.
Context {E : Type -> Type} {S L R : Type}.
Context (answers : forall X, E X -> S -> L -> X -> S -> L -> Prop).
Context (may : forall X, E X -> L -> Prop).

Fixpoint obeys {A} (fin : A -> L -> Prop) (p : prog E A) (l : L) : Prop :=
  match p with
  | Ret r => fin r l
  | Vis e k => may _ e l /\ forall s x s' l', answers _ e s l x s' l' -> obeys fin (k x) l'
  end.

Lemma obeys_bind {A B} (mid : A -> L -> Prop) (fin : B -> L -> Prop) p (f : A -> prog E B) l :
  obeys mid p l -> (forall a l', mid a l' -> obeys fin (f a) l') -> obeys fin (bind p f) l.
Proof.
  intros Hp Hf. revert l Hp. induction p as [r|X e k IH]; intros l Hp; cbn [bind obeys] in *; [by apply Hf|].
  destruct Hp as [Hm Hp]. split; [done|]. intros s x s' l' Ha. eapply IH, Hp, Ha.
Qed.

Inductive lstep : S * list L -> S * list L -> Prop :=
| lstep_call s ls i X (e : E X) l x s' l' :
    ls !! i = Some l -> may X e l -> answers X e s l x s' l' -> lstep (s, ls) (s', <[i := l']> ls).

Fixpoint locals (ts : list (@thread E L R)) : list L :=
  match ts with [] => [] | t :: ts => local t :: locals ts end.

Lemma locals_get ts i t : ts !! i = Some t -> locals ts !! i = Some (local t).
Proof. revert i. induction ts as [|u ts IH]; intros [|i] Hi; cbn in *; [done|done|by injection Hi as ->|by apply IH]. Qed.

Lemma locals_put ts i t : locals (<[i := t]> ts) = <[i := local t]> (locals ts).
Proof. revert i. induction ts as [|u ts IH]; intros [|i]; cbn; [done|done|done|]. f_equal. apply IH. Qed.

Lemma locals_length ts : length (locals ts) = length ts.
Proof. induction ts as [|t ts IH]; cbn; [done|]. by rewrite IH. Qed.

Definition all_obey (fin : R -> L -> Prop) (ts : list (@thread E L R)) : Prop :=
  Forall (fun t => obeys fin (code t) (local t)) ts.

(** [n] workers that start alike. *)
Fixpoint crew (n : nat) (t : @thread E L R) : list thread :=
  match n with O => [] | Datatypes.S n => t :: crew n t end.

Lemma crew_all P n t : P t -> Forall P (crew n t).
Proof. intros Ht. induction n; cbn; by constructor. Qed.

Lemma crew_locals n t : locals (crew n t) = replicate n (local t).
Proof. induction n as [|n IH]; cbn; [done|]. by rewrite IH. Qed.

Lemma crew_length n t : length (crew n t) = n.
Proof. induction n as [|n IH]; cbn; [done|]. by rewrite IH. Qed.

(** Facts about finished threads are facts about their local states. *)
Lemma locals_all (P : @thread E L R -> Prop) (Q : L -> Prop) ts :
  (forall t, P t -> Q (local t)) -> Forall P ts -> Forall Q (locals ts).
Proof. intros HPQ. induction 1; cbn; constructor; auto. Qed.

Lemma locals_back (Q : L -> Prop) ts : Forall Q (locals ts) -> Forall (fun t : @thread E L R => Q (local t)) ts.
Proof. induction ts as [|t ts IH]; cbn; [constructor|]. inversion 1; subst. constructor; auto. Qed.

(** With a fixed set of workers. *)
Lemma protocol_sound fin start c c' :
  steps answers start (fun _ => False) c c' -> all_obey fin c.2 ->
  all_obey fin c'.2 /\ star lstep (c.1, locals c.2) (c'.1, locals c'.2) /\ length c'.2 = length c.2.
Proof.
  induction 1 as [c|c c1 c' Hs _ IH]; intros Hc; [split_and!; [done|apply star_refl|done]|].
  destruct Hs as [s ts i X e k l x s' l' Hi Ha|s ts l []]. cbn [fst snd] in *.
  assert (Hown := pool_get _ _ i _ Hc Hi). cbn [code local obeys] in Hown. destruct Hown as [Hm Hk].
  destruct IH as (H1 & H2 & H3). { apply pool_put; [done|]. by apply (Hk s x s' l'). }
  split_and!; [done| |].
  - eapply star_step; [|exact H2]. rewrite locals_put.
    by apply (lstep_call s (locals ts) i X e l x s' l'); [apply (locals_get _ _ _ Hi)|..].
  - rewrite H3, <-!locals_length, locals_put. apply length_insert.
Qed.
End protocol.
