(* ===== verification/Queue.v ===== *)
(** * Queue: the in-memory queues of adoptable warm sandboxes.

    Models [extensions/controllers/queue/simple_sandbox_queue.go].  A
    [synchronizedQueue] is its slice and its de-duplication set; each method
    body that holds the mutex is one state transition.  [PopWithStrategy]
    releases the mutex around the caller's pick function, so it is modelled
    both as a fuelled loop and, in [Module Concurrent], as two transitions that
    other goroutines can interleave with. *)

From S2P Require Import Prelude GoStrings.

Module SandboxQueue.

Record SandboxKey := mkKey { Namespace : string; Name : string; NodeName : string }.

#[export] Instance SandboxKey_eq_dec : EqDecision SandboxKey.
Proof. solve_decision. Defined.

(** The Go zero value [SandboxKey{}]. *)
Definition zeroKey : SandboxKey := mkKey "" "" "".

Definition uniqueID (k : SandboxKey) : string := Namespace k +:+ "/" +:+ Name k.

#[global] Arguments uniqueID : simpl never.

(** [k.Namespace == key.Namespace && k.Name == key.Name]. *)
Definition same_sandbox (k key : SandboxKey) : bool :=
  bool_decide (Namespace k = Namespace key) && bool_decide (Name k = Name key).

#[global] Arguments same_sandbox : simpl never.

Record synchronizedQueue := mkQueue { items : list SandboxKey; set : gset string }.

Definition newSynchronizedQueue : synchronizedQueue := mkQueue [] ∅.

(** The loop of [Push] that refreshes the node of the first matching item. *)
Fixpoint update_node (key : SandboxKey) (l : list SandboxKey) : list SandboxKey :=
  match l with
  | [] => []
  | k :: l' =>
      if same_sandbox k key then mkKey (Namespace k) (Name k) (NodeName key) :: l'
      else k :: update_node key l'
  end.

Definition Push (key : SandboxKey) (q : synchronizedQueue) : synchronizedQueue :=
  let id := uniqueID key in
  if bool_decide (id ∈ set q) then mkQueue (update_node key (items q)) (set q)
  else mkQueue (items q ++ [key]) ({[id]} ∪ set q).

Definition Pop (q : synchronizedQueue) : (SandboxKey * bool) * synchronizedQueue :=
  match items q with
  | [] => ((zeroKey, false), q)
  | item :: rest => ((item, true), mkQueue rest (set q ∖ {[uniqueID item]}))
  end.

(** The shift-left loop shared by [Remove] and [PopWithStrategy]: drop the
    first item of that namespace and name. *)
Fixpoint drop_first (key : SandboxKey) (l : list SandboxKey) : list SandboxKey :=
  match l with
  | [] => []
  | k :: l' => if same_sandbox k key then l' else k :: drop_first key l'
  end.

Definition Remove (key : SandboxKey) (q : synchronizedQueue) : synchronizedQueue :=
  let id := uniqueID key in
  if bool_decide (id ∈ set q)
  then mkQueue (drop_first key (items q)) (set q ∖ {[id]})
  else q.

Definition strategy := list SandboxKey -> SandboxKey * bool.

(** First critical section of an iteration: an empty queue ends the loop,
    otherwise the items are copied. *)
Definition pws_snapshot (q : synchronizedQueue) : option (list SandboxKey) :=
  match items q with [] => None | l => Some l end.

(** Second critical section: [None] is the retry taken when the picked key
    left the queue meanwhile. *)
Definition pws_commit (key : SandboxKey) (q : synchronizedQueue) : option synchronizedQueue :=
  let id := uniqueID key in
  if bool_decide (id ∈ set q)
  then Some (mkQueue (drop_first key (items q)) (set q ∖ {[id]}))
  else None.

(** The loop without interference.  [None] is fuel exhaustion. *)
Fixpoint PopWithStrategy (fuel : nat) (pick : strategy) (q : synchronizedQueue)
    : option ((SandboxKey * bool) * synchronizedQueue) :=
  match fuel with
  | O => None
  | S fuel' =>
      match pws_snapshot q with
      | None => Some ((zeroKey, false), q)
      | Some snapshot =>
          let '(key, ok) := pick snapshot in
          if ok then
            match pws_commit key q with
            | None => PopWithStrategy fuel' pick q
            | Some q' => Some ((key, true), q')
            end
          else Some ((zeroKey, false), q)
      end
  end.

(** ** The map of queues, keyed by "namespace/warmpool" *)

Abbreviation SimpleSandboxQueue := (gmap string synchronizedQueue).

Definition NewSimpleSandboxQueue : SimpleSandboxQueue := ∅.

Definition GetNamespacedWarmPoolName (namespace warmPoolName : string) : string :=
  namespace +:+ "/" +:+ warmPoolName.

Definition Add (pool : string) (item : SandboxKey) (s : SimpleSandboxQueue) : SimpleSandboxQueue :=
  let q := default newSynchronizedQueue (s !! pool) in
  <[pool := Push item q]> s.

Definition Get (pool : string) (s : SimpleSandboxQueue)
    : (SandboxKey * bool) * SimpleSandboxQueue :=
  match s !! pool with
  | None => ((zeroKey, false), s)
  | Some q => let '(r, q') := Pop q in (r, <[pool := q']> s)
  end.

Definition GetWithStrategy (fuel : nat) (pool : string) (pick : strategy) (s : SimpleSandboxQueue)
    : option ((SandboxKey * bool) * SimpleSandboxQueue) :=
  match s !! pool with
  | None => Some ((zeroKey, false), s)
  | Some q =>
      match PopWithStrategy fuel pick q with
      | Some (r, q') => Some (r, <[pool := q']> s)
      | None => None
      end
  end.

Definition RemoveItem (pool : string) (item : SandboxKey) (s : SimpleSandboxQueue) : SimpleSandboxQueue :=
  match s !! pool with
  | Some q => <[pool := Remove item q]> s
  | None => s
  end.

Definition RemoveQueue (pool : string) (s : SimpleSandboxQueue) : SimpleSandboxQueue :=
  delete pool s.

(** ** Invariant

    Namespaces are Kubernetes names, which hold no slash; the set is then
    exactly the index of the slice and no sandbox is queued twice. *)

Definition valid_key (k : SandboxKey) : Prop := has_byte "/"%char (Namespace k) = false.

Record wf (q : synchronizedQueue) : Prop := {
  wf_valid : Forall valid_key (items q);
  wf_nodup : NoDup (uniqueID <$> items q);
  wf_set : set q = list_to_set (uniqueID <$> items q);
}.

Lemma uniqueID_inj k k' :
  valid_key k -> valid_key k' -> uniqueID k = uniqueID k' ->
  Namespace k = Namespace k' /\ Name k = Name k'.
Proof. intros Hk Hk' H. by apply (sep_inj "/"%char). Qed.

Lemma same_sandbox_spec k key :
  valid_key k -> valid_key key -> same_sandbox k key = bool_decide (uniqueID k = uniqueID key).
Proof.
  intros Hk Hkey. unfold same_sandbox. case_bool_decide as H1; case_bool_decide as H2; simpl.
  - rewrite bool_decide_true; [done|]. unfold uniqueID. by rewrite H1, H2.
  - symmetry. apply bool_decide_false. intros H.
    by destruct (uniqueID_inj k key Hk Hkey H).
  - symmetry. apply bool_decide_false. intros H.
    by destruct (uniqueID_inj k key Hk Hkey H).
  - symmetry. apply bool_decide_false. intros H.
    by destruct (uniqueID_inj k key Hk Hkey H).
Qed.

Lemma uniqueID_update key l :
  uniqueID <$> update_node key l = uniqueID <$> l.
Proof.
  induction l as [|k l IH]; csimpl; [done|]. case_match; csimpl; [done|]. by rewrite IH.
Qed.

Lemma update_node_valid key l : Forall valid_key l -> Forall valid_key (update_node key l).
Proof.
  induction 1 as [|k l Hk Hl IH]; csimpl; [constructor|].
  case_match; by constructor.
Qed.

Lemma drop_first_sublist key l : drop_first key l `sublist_of` l.
Proof.
  induction l as [|k l IH]; csimpl; [constructor|]. case_match; by constructor.
Qed.

Lemma drop_first_ids key l :
  Forall valid_key l -> valid_key key -> NoDup (uniqueID <$> l) ->
  list_to_set (C := gset string) (uniqueID <$> drop_first key l)
  = list_to_set (uniqueID <$> l) ∖ {[uniqueID key]}.
Proof.
  intros Hl Hkey Hnd. induction l as [|k l IH]; csimpl; [set_solver|].
  inversion Hl as [|?? Hk Hl']; subst. inversion Hnd as [|?? Hnin Hnd']; subst.
  rewrite (same_sandbox_spec k key Hk Hkey). case_bool_decide as Heq.
  - rewrite Heq. rewrite Heq in Hnin.
    assert (uniqueID key ∉ list_to_set (C := gset string) (uniqueID <$> l)) by
      (rewrite elem_of_list_to_set; done). set_solver.
  - csimpl. rewrite IH by done. set_solver.
Qed.

Lemma drop_first_valid key l : Forall valid_key l -> Forall valid_key (drop_first key l).
Proof. induction 1; csimpl; [constructor|]. case_match; by try constructor. Qed.

Lemma drop_first_nodup key l :
  NoDup (uniqueID <$> l) -> NoDup (uniqueID <$> drop_first key l).
Proof.
  intros H. eapply sublist_NoDup; [exact H|]. by apply fmap_sublist, drop_first_sublist.
Qed.

Create HintDb queue discriminated.
#[export] Hint Resolve drop_first_valid drop_first_nodup update_node_valid : queue.

Lemma in_set_iff q key : wf q -> uniqueID key ∈ set q <-> uniqueID key ∈ uniqueID <$> items q.
Proof. intros [_ _ ->]. by rewrite elem_of_list_to_set. Qed.

Lemma new_wf : wf newSynchronizedQueue.
Proof. by split; [constructor|constructor|]. Qed.

Lemma Push_wf_aux key q : valid_key key -> wf q -> wf (Push key q).
Proof.
  intros Hkey Hq. pose proof (in_set_iff q key Hq) as Hin. destruct Hq as [Hv Hnd Hset].
  unfold Push. case_bool_decide as Hb; split; csimpl.
  - by apply update_node_valid.
  - by rewrite uniqueID_update.
  - by rewrite uniqueID_update.
  - by apply Forall_app_2; [|constructor].
  - rewrite fmap_app. apply NoDup_app. split_and!; [done| |apply NoDup_singleton].
    intros x Hx ->%list_elem_of_singleton. by apply Hb, Hin.
  - rewrite fmap_app, list_to_set_app_L, Hset. csimpl. set_solver.
Qed.

Lemma drop_wf key q :
  valid_key key -> wf q -> wf (mkQueue (drop_first key (items q)) (set q ∖ {[uniqueID key]})).
Proof.
  intros Hkey [Hv Hnd Hset]. split; csimpl; [auto with queue..|].
  by rewrite Hset, drop_first_ids.
Qed.

Lemma Pop_wf q : wf q -> wf (Pop q).2.
Proof.
  intros [Hv Hnd Hset]. unfold Pop. destruct (items q) as [|k l] eqn:E; csimpl;
    [by split; rewrite ?E|].
  inversion Hv; subst. inversion Hnd as [|?? Hnin ?]; subst. split; csimpl; [done..|].
  rewrite Hset. csimpl.
  assert (uniqueID k ∉ list_to_set (C := gset string) (uniqueID <$> l)) by
    (rewrite elem_of_list_to_set; done). set_solver.
Qed.

#[export] Hint Resolve new_wf Push_wf_aux drop_wf Pop_wf : queue.

Lemma pws_commit_wf key q q' : valid_key key -> wf q -> pws_commit key q = Some q' -> wf q'.
Proof.
  intros Hk Hq. unfold pws_commit. case_bool_decide; intros [= <-]. auto with queue.
Qed.

(** ** Reference: a duplicate-free FIFO list searched linearly *)

Definition spec_mem (key : SandboxKey) (l : list SandboxKey) : bool :=
  existsb (fun k => same_sandbox k key) l.

Definition spec_push (key : SandboxKey) (l : list SandboxKey) : list SandboxKey :=
  if spec_mem key l then update_node key l else l ++ [key].

Definition spec_pick (pick : strategy) (l : list SandboxKey) : (SandboxKey * bool) * list SandboxKey :=
  match l with
  | [] => ((zeroKey, false), [])
  | _ => match pick l with
         | (key, true) => ((key, true), drop_first key l)
         | (_, false) => ((zeroKey, false), l)
         end
  end.

Inductive op :=
| OpPush (key : SandboxKey)
| OpPop
| OpRemove (key : SandboxKey)
| OpPick (pick : strategy).

Definition op_ok (o : op) : Prop :=
  match o with
  | OpPush k | OpRemove k => valid_key k
  | OpPop => True
  | OpPick pick => forall l k, pick l = (k, true) -> k ∈ l
  end.

(** One call on the queue: the answer to the caller and the new state. *)
Definition exec (o : op) (q : synchronizedQueue) : option ((SandboxKey * bool) * synchronizedQueue) :=
  match o with
  | OpPush k => Some ((zeroKey, false), Push k q)
  | OpPop => Some (Pop q)
  | OpRemove k => Some ((zeroKey, false), Remove k q)
  | OpPick pick => PopWithStrategy 1 pick q
  end.

Definition spec_exec (o : op) (l : list SandboxKey) : (SandboxKey * bool) * list SandboxKey :=
  match o with
  | OpPush k => ((zeroKey, false), spec_push k l)
  | OpPop => match l with [] => ((zeroKey, false), []) | k :: l' => ((k, true), l') end
  | OpRemove k => ((zeroKey, false), drop_first k l)
  | OpPick pick => spec_pick pick l
  end.

(** The answers of a sequence of calls; [None] if some call did not return. *)
Fixpoint exec_all (os : list op) (q : synchronizedQueue)
    : option (list (SandboxKey * bool) * synchronizedQueue) :=
  match os with
  | [] => Some ([], q)
  | o :: os' =>
      '(r, q') ← exec o q;
      '(rs, q'') ← exec_all os' q';
      Some (r :: rs, q'')
  end.

Fixpoint spec_exec_all (os : list op) (l : list SandboxKey)
    : list (SandboxKey * bool) * list SandboxKey :=
  match os with
  | [] => ([], l)
  | o :: os' =>
      let '(r, l') := spec_exec o l in
      let '(rs, l'') := spec_exec_all os' l' in (r :: rs, l'')
  end.

Lemma spec_mem_iff key l :
  Forall valid_key l -> valid_key key ->
  spec_mem key l = bool_decide (uniqueID key ∈ uniqueID <$> l).
Proof.
  intros Hl Hkey. induction Hl as [|k l Hk Hl IH]; csimpl; [done|].
  unfold spec_mem in *. cbn [existsb]. rewrite IH, (same_sandbox_spec k key) by done.
  repeat case_bool_decide; simpl; set_solver.
Qed.

Lemma spec_mem_wf key q :
  wf q -> valid_key key -> spec_mem key (items q) = bool_decide (uniqueID key ∈ set q).
Proof.
  intros Hq Hk. rewrite spec_mem_iff by (done || apply Hq).
  apply bool_decide_ext. by rewrite in_set_iff.
Qed.

Lemma drop_first_absent key l : spec_mem key l = false -> drop_first key l = l.
Proof.
  induction l as [|k l IH]; simpl; [done|]. intros [-> Hl]%orb_false_iff. by rewrite IH.
Qed.

Lemma wf_member q key : wf q -> key ∈ items q -> valid_key key /\ uniqueID key ∈ set q.
Proof.
  intros Hq Hin. split; [by eapply Forall_forall; [apply Hq|]|].
  apply in_set_iff; [done|]. by apply list_elem_of_fmap_2.
Qed.

(** Without interference one iteration decides: the strategy chose from a
    snapshot that is still the queue. *)
Lemma PopWithStrategy_spec pick q :
  wf q -> (forall l k, pick l = (k, true) -> k ∈ l) ->
  exists q', PopWithStrategy 1 pick q = Some ((spec_pick pick (items q)).1, q')
             /\ items q' = (spec_pick pick (items q)).2 /\ wf q'.
Proof.
  intros Hq Hpick. simpl. unfold pws_snapshot, spec_pick.
  destruct (items q) as [|k0 l0] eqn:E; [eauto|]. rewrite <-E.
  destruct (pick (items q)) as [key []] eqn:Ep; [|eauto].
  destruct (wf_member q key Hq (Hpick _ _ Ep)) as [Hk Hin].
  unfold pws_commit. rewrite bool_decide_true by done.
  eexists; split_and!; [done|done|]. auto with queue.
Qed.

Lemma exec_spec o q :
  wf q -> op_ok o ->
  exists q', exec o q = Some ((spec_exec o (items q)).1, q')
             /\ items q' = (spec_exec o (items q)).2 /\ wf q'.
Proof.
  intros Hq Ho. destruct o as [key| |key|pick]; simpl in *.
  - eexists; split_and!; [done| |by auto with queue].
    unfold Push, spec_push. rewrite (spec_mem_wf key q Hq Ho). by case_bool_decide.
  - exists (Pop q).2. pose proof (Pop_wf q Hq) as Hwf. unfold Pop in *.
    by destruct (items q) eqn:E.
  - eexists; split_and!; [done| |]; unfold Remove; case_bool_decide as Hin;
      [done| |by auto with queue|done].
    symmetry. apply drop_first_absent.
    by rewrite (spec_mem_wf key q Hq Ho), bool_decide_false.
  - by apply PopWithStrategy_spec.
Qed.

(** C8.  The slice-plus-set queue behaves, on every sequence of calls with
    Kubernetes-valid keys and strategies that choose from what they are shown,
    exactly like a duplicate-free FIFO list: every call returns, with the same
    answers, and the slice is that list. *)
Theorem queue_refines_fifo (os : list op) :
  Forall op_ok os ->
  exists q, exec_all os newSynchronizedQueue = Some ((spec_exec_all os []).1, q)
            /\ items q = (spec_exec_all os []).2 /\ wf q.
Proof.
  intros Hos. change [] with (items newSynchronizedQueue).
  generalize new_wf. generalize newSynchronizedQueue as q.
  induction Hos as [|o os Ho Hos IH]; intros q Hq; simpl; [by exists q|].
  destruct (exec_spec o q Hq Ho) as (q1 & -> & Hi1 & Hq1). simpl.
  destruct (IH q1 Hq1) as (q2 & -> & Hi2 & Hq2). simpl. exists q2.
  rewrite Hi1 in *. destruct (spec_exec o (items q)) as [r l']; simpl in *.
  by destruct (spec_exec_all os l').
Qed.

Definition demo_key (name node : string) : SandboxKey := mkKey "ns" name node.

Definition pick_newest : strategy :=
  fun l => match last l with Some k => (k, true) | None => (zeroKey, false) end.

Lemma pick_newest_ok l k : pick_newest l = (k, true) -> k ∈ l.
Proof.
  unfold pick_newest. destruct (last l) as [k'|] eqn:E; intros [= <-].
  by apply last_Some_elem_of.
Qed.

Lemma queue_refines_fifo_witness :
  exists q, exec_all [OpPush (demo_key "a" ""); OpPush (demo_key "b" "n1"); OpPush (demo_key "a" "n2");
                      OpPick pick_newest; OpPop; OpPop]
              newSynchronizedQueue
            = Some ([(zeroKey, false); (zeroKey, false); (zeroKey, false);
                     (demo_key "b" "n1", true); (demo_key "a" "n2", true); (zeroKey, false)], q)
            /\ items q = [].
Proof.
  destruct (queue_refines_fifo
    [OpPush (demo_key "a" ""); OpPush (demo_key "b" "n1"); OpPush (demo_key "a" "n2");
     OpPick pick_newest; OpPop; OpPop]) as (q & He & Hi & _).
  { repeat constructor. exact pick_newest_ok. }
  exists q. split; [exact He|exact Hi].
Defined.

(** ** Goroutines

    Each thread runs [PopWithStrategy] over one shared queue; other callers
    push, pop and remove.  A transition is one critical section, so between a
    thread's snapshot and its commit anything can happen to the queue. *)

Module Concurrent.

Inductive pc :=
| Looping                              (* about to take the snapshot *)
| Picked (key : SandboxKey)            (* pick returned, mutex not yet retaken *)
| Returned (r : SandboxKey * bool).

Record state := mkState { queue : synchronizedQueue; threads : list pc }.

(** What a transition did to one sandbox identity. *)
Inductive event :=
| Inserted (id : string)
| Handed (id : string)
| Removed (id : string)
| Silent.

Inductive step : state -> event -> state -> Prop :=
| step_insert q ts key :
    valid_key key -> uniqueID key ∉ set q ->
    step (mkState q ts) (Inserted (uniqueID key)) (mkState (Push key q) ts)
| step_refresh q ts key :
    valid_key key -> uniqueID key ∈ set q ->
    step (mkState q ts) Silent (mkState (Push key q) ts)
| step_pop q ts key q' :
    Pop q = ((key, true), q') ->
    step (mkState q ts) (Handed (uniqueID key)) (mkState q' ts)
| step_remove q ts key :
    valid_key key -> uniqueID key ∈ set q ->
    step (mkState q ts) (Removed (uniqueID key)) (mkState (Remove key q) ts)
| step_empty q ts i :
    ts !! i = Some Looping -> pws_snapshot q = None ->
    step (mkState q ts) Silent (mkState q (<[i := Returned (zeroKey, false)]> ts))
| step_decline q ts i l (pick : strategy) key :
    ts !! i = Some Looping -> pws_snapshot q = Some l -> pick l = (key, false) ->
    step (mkState q ts) Silent (mkState q (<[i := Returned (zeroKey, false)]> ts))
| step_pick q ts i l (pick : strategy) key :
    ts !! i = Some Looping -> pws_snapshot q = Some l -> pick l = (key, true) -> key ∈ l ->
    step (mkState q ts) Silent (mkState q (<[i := Picked key]> ts))
| step_commit q ts i key q' :
    ts !! i = Some (Picked key) -> pws_commit key q = Some q' ->
    step (mkState q ts) (Handed (uniqueID key)) (mkState q' (<[i := Returned (key, true)]> ts))
| step_retry q ts i key :
    ts !! i = Some (Picked key) -> pws_commit key q = None ->
    step (mkState q ts) Silent (mkState q (<[i := Looping]> ts)).

Inductive steps : state -> list event -> state -> Prop :=
| steps_nil s : steps s [] s
| steps_snoc s es s' e s'' : steps s es s' -> step s' e s'' -> steps s (es ++ [e]) s''.

Definition initial (n : nat) : state := mkState newSynchronizedQueue (replicate n Looping).

#[export] Instance event_eq_dec : EqDecision event.
Proof. solve_decision. Defined.

Definition count (e : event) (es : list event) : nat := length (filter (fun e' => e' = e) es).
Definition present (id : string) (q : synchronizedQueue) : nat :=
  if bool_decide (id ∈ set q) then 1 else 0.

(** Keys a thread carries between its two critical sections come from a
    well-formed snapshot. *)
Definition inv (s : state) : Prop :=
  wf (queue s) /\ Forall (fun p => match p with Picked k => valid_key k | _ => True end) (threads s).

Lemma Pop_set q key q' : Pop q = ((key, true), q') -> wf q ->
  uniqueID key ∈ set q /\ set q' = set q ∖ {[uniqueID key]} /\ wf q'.
Proof.
  intros HP Hq. pose proof (Pop_wf q Hq) as Hwf. rewrite HP in Hwf. unfold Pop in HP.
  destruct (items q) as [|k l] eqn:E; simplify_eq. split_and!; [|done|done].
  apply (wf_member q key Hq). rewrite E. by left.
Qed.

Lemma step_inv s e s' : inv s -> step s e s' -> inv s'.
Proof.
  intros [Hq Hts] Hs.
  destruct Hs as [? ? ? Hk|? ? ? Hk|? ? ? ? HP|? ? ? Hk Hin| | |? ? ? ? ? ? ? HS ? Hl|? ? ? ? ? Hi HC|];
    split; simpl in *; auto with queue; try (apply Forall_insert; done).
  - by destruct (Pop_set _ _ _ HP Hq) as (_ & _ & ?).
  - unfold Remove. rewrite bool_decide_true by done. auto with queue.
  - apply Forall_insert; [done|]. apply (wf_member q key Hq). unfold pws_snapshot in HS.
    by destruct (items q); simplify_eq.
  - eapply pws_commit_wf; [|done..]. by apply (Forall_lookup_1 _ _ _ _ Hts Hi).
Qed.

Lemma steps_inv n es s : steps (initial n) es s -> inv s.
Proof.
  intros H. remember (initial n) as s0 eqn:E. induction H; subst.
  - split; [apply new_wf|]. by apply Forall_replicate.
  - eauto using step_inv.
Qed.

(** Effect of one transition on the membership of one identity. *)
Lemma step_present s e s' id :
  inv s -> step s e s' ->
  (count (Inserted id) [e] + present id (queue s)
   = count (Handed id) [e] + count (Removed id) [e] + present id (queue s'))%nat.
Proof.
  intros [Hq Hts] Hs. unfold present.
  destruct Hs as [q ts key Hk Hn|q ts key Hk Hin|q ts key q' HP|q ts key Hk Hin
                  |q ts i|q ts i|q ts i|q ts i key q' Hi HC|q ts i]; simpl in *;
    unfold count; rewrite ?filter_cons, ?filter_nil; try done.
  - unfold Push. rewrite (bool_decide_false (uniqueID key ∈ set q)) by done. simpl.
    repeat case_decide; repeat case_bool_decide; simplify_eq; simpl; set_solver.
  - unfold Push. rewrite (bool_decide_true (uniqueID key ∈ set q)) by done. done.
  - destruct (Pop_set _ _ _ HP Hq) as (Hin & -> & _).
    repeat case_decide; repeat case_bool_decide; simplify_eq; simpl; set_solver.
  - unfold Remove. rewrite (bool_decide_true (uniqueID key ∈ set q)) by done. simpl.
    repeat case_decide; repeat case_bool_decide; simplify_eq; simpl; set_solver.
  - unfold pws_commit in HC. case_bool_decide; simplify_eq. simpl.
    repeat case_decide; repeat case_bool_decide; simplify_eq; simpl; set_solver.
Qed.

Lemma count_snoc_one e es e' : count e (es ++ [e']) = (count e es + count e [e'])%nat.
Proof. unfold count. by rewrite filter_app, length_app. Qed.

(** C9.  Conservation under any interleaving: for each sandbox identity, the
    number of times it was put in the queue is the number of times it was
    handed to an adopter, plus removals, plus one if it is still queued.  So a
    sandbox queued once is handed to at most one of the racing goroutines. *)
Theorem handed_out_at_most_once n es s id :
  steps (initial n) es s ->
  count (Inserted id) es = (count (Handed id) es + count (Removed id) es + present id (queue s))%nat.
Proof.
  intros H. pose proof (steps_inv n) as Hinv. remember (initial n) as s0 eqn:E.
  induction H as [s1|s1 es s2 e s3 H IH Hs]; subst; [done|].
  pose proof (step_present _ _ _ id (Hinv _ _ H) Hs) as Hp. specialize (IH eq_refl Hinv).
  rewrite !count_snoc_one. lia.
Qed.

(** Two goroutines race for one key: one commits, the other retries and finds
    the queue empty. *)
Lemma handed_out_at_most_once_witness :
  count (Inserted "ns/a") [Inserted "ns/a"; Silent; Silent; Handed "ns/a"; Silent; Silent] = 1%nat /\
  exists s, steps (initial 2) [Inserted "ns/a"; Silent; Silent; Handed "ns/a"; Silent; Silent] s
            /\ threads s = [Returned (demo_key "a" "", true); Returned (zeroKey, false)]
            /\ (1 = count (Handed "ns/a") [Inserted "ns/a"; Silent; Silent; Handed "ns/a"; Silent; Silent]
                     + count (Removed "ns/a") [Inserted "ns/a"; Silent; Silent; Handed "ns/a"; Silent; Silent] + present "ns/a" (queue s))%nat.
Proof.
  split; [reflexivity|].
  pose (q1 := mkQueue [demo_key "a" ""] {["ns/a"]}).
  pose (q0 := mkQueue [] (({["ns/a"]} : gset string) ∖ {["ns/a"]})).
  pose (p := fun l => (hd zeroKey l, true)).
  assert (steps (initial 2) [Inserted "ns/a"; Silent; Silent; Handed "ns/a"; Silent; Silent]
    (mkState q0 [Returned (demo_key "a" "", true); Returned (zeroKey, false)])) as Hs.
  { apply (steps_snoc _ [_;_;_;_;_] (mkState q0 [Returned (demo_key "a" "", true); Looping])).
    2: { by apply (step_empty q0 [Returned (demo_key "a" "", true); Looping] 1). }
    apply (steps_snoc _ [_;_;_;_] (mkState q0 [Returned (demo_key "a" "", true); Picked (demo_key "a" "")])).
    2: { by apply (step_retry q0 [Returned (demo_key "a" "", true); Picked (demo_key "a" "")] 1 (demo_key "a" "")). }
    apply (steps_snoc _ [_;_;_] (mkState q1 [Picked (demo_key "a" ""); Picked (demo_key "a" "")])).
    2: { by apply (step_commit q1 [Picked (demo_key "a" ""); Picked (demo_key "a" "")] 0 (demo_key "a" "")). }
    apply (steps_snoc _ [_;_] (mkState q1 [Picked (demo_key "a" ""); Looping])).
    2: { apply (step_pick q1 [Picked (demo_key "a" ""); Looping] 1 [demo_key "a" ""] p); [done..|by left]. }
    apply (steps_snoc _ [_] (mkState q1 [Looping; Looping])).
    2: { apply (step_pick q1 [Looping; Looping] 0 [demo_key "a" ""] p); [done..|by left]. }
    apply (steps_snoc _ [] (initial 2)); [constructor|].
    apply (step_insert newSynchronizedQueue [Looping; Looping] (demo_key "a" "")); [done|].
    apply not_elem_of_empty. }
  eexists. split_and!; [exact Hs|reflexivity|].
  exact (handed_out_at_most_once 2 _ _ "ns/a" Hs).
Defined.

(** A retry is only taken when another goroutine took the picked key. *)
Lemma retry_means_taken q q' key :
  wf q -> key ∈ items q -> pws_commit key q' = None -> uniqueID key ∈ set q ∖ set q'.
Proof.
  intros Hq Hin. unfold pws_commit. case_bool_decide; [done|]. intros _.
  destruct (wf_member q key Hq Hin). set_solver.
Qed.

End Concurrent.

End SandboxQueue.
