(* ===== verification/K8s.v ===== *)
(** * K8s: the Kubernetes object model and library calls the operator is
    written against.

    The object types are data.  The library functions ([api/meta] conditions,
    [metav1.GetControllerOf], [controllerutil.SetControllerReference]) are code
    the repository imports: they appear as the operations of two classes whose
    laws are their documented behaviour, and [Module Reference] gives one
    implementation that meets the laws. *)

From S2P Require Import Prelude GoStrings.

(** ** Conditions *)

Record Condition := mkCondition {
  cType : string;
  cStatus : string;
  cObservedGeneration : Z;
  cLastTransitionTime : Z;
  cReason : string;
  cMessage : string;
}.

#[export] Instance Condition_eq_dec : EqDecision Condition.
Proof. solve_decision. Defined.

Definition ConditionTrue : string := "True".
Definition ConditionFalse : string := "False".
Definition ConditionUnknown : string := "Unknown".

(** A condition as the code builds it: no transition time. *)
Definition newCondition (type status reason message : string) (gen : Z) : Condition :=
  mkCondition type status gen 0 reason message.

(** Equal up to the transition time, which [SetStatusCondition] chooses. *)
Definition same_condition (c c' : Condition) : Prop :=
  cType c = cType c' /\ cStatus c = cStatus c' /\ cReason c = cReason c' /\
  cMessage c = cMessage c' /\ cObservedGeneration c = cObservedGeneration c'.

(** [k8s.io/apimachinery/pkg/api/meta]; [SetStatusCondition] reads the clock. *)
Class ConditionLib := {
  FindStatusCondition : list Condition -> string -> option Condition;
  SetStatusCondition : Z -> list Condition -> Condition -> list Condition;
  RemoveStatusCondition : list Condition -> string -> list Condition;
}.

Class ConditionLaws `{ConditionLib} : Prop := {
  find_condition_Some cs t c : FindStatusCondition cs t = Some c -> c ∈ cs /\ cType c = t;
  find_condition_None cs t : FindStatusCondition cs t = None <-> Forall (fun c => cType c <> t) cs;
  find_set_same now cs c :
    exists c', FindStatusCondition (SetStatusCondition now cs c) (cType c) = Some c'
               /\ same_condition c' c;
  (* the stored transition time moves only when the status changes *)
  find_set_time now cs c old :
    FindStatusCondition cs (cType c) = Some old -> cStatus old = cStatus c ->
    exists c', FindStatusCondition (SetStatusCondition now cs c) (cType c) = Some c'
               /\ cLastTransitionTime c' = cLastTransitionTime old;
  find_set_other now cs c t :
    t <> cType c -> FindStatusCondition (SetStatusCondition now cs c) t = FindStatusCondition cs t;
  find_remove_same cs t : FindStatusCondition (RemoveStatusCondition cs t) t = None;
  find_remove_other cs t t' :
    t <> t' -> FindStatusCondition (RemoveStatusCondition cs t') t = FindStatusCondition cs t;
}.

(** ** Object metadata *)

Record OwnerReference := mkOwnerRef {
  orAPIVersion : string;
  orKind : string;
  orName : string;
  orUID : string;
  orController : option bool;
  orBlockOwnerDeletion : option bool;
}.

#[export] Instance OwnerReference_eq_dec : EqDecision OwnerReference.
Proof. solve_decision. Defined.

(** Go maps are read through [m[k]] ("" when absent) and [_, ok := m[k]]; a nil
    map reads as an empty one. *)
Abbreviation strmap := (gmap string string).

Definition mget (m : strmap) (k : string) : string := default "" (m !! k).
Definition mhas (m : strmap) (k : string) : bool := bool_decide (is_Some (m !! k)).

Record ObjectMeta := mkMeta {
  mName : string;
  mGenerateName : string;
  mNamespace : string;
  mUID : string;
  mResourceVersion : string;
  mGeneration : Z;
  mCreationTimestamp : Z;
  mDeletionTimestamp : option Z;
  mLabels : strmap;
  mAnnotations : strmap;
  mOwnerReferences : list OwnerReference;
}.

#[export] Instance ObjectMeta_eq_dec : EqDecision ObjectMeta.
Proof. solve_decision. Defined.

Definition emptyMeta : ObjectMeta := mkMeta "" "" "" "" "" 0 0 None ∅ ∅ [].

Definition set_mLabels (f : strmap -> strmap) (m : ObjectMeta) : ObjectMeta :=
  mkMeta (mName m) (mGenerateName m) (mNamespace m) (mUID m) (mResourceVersion m) (mGeneration m)
    (mCreationTimestamp m) (mDeletionTimestamp m) (f (mLabels m)) (mAnnotations m) (mOwnerReferences m).
Definition set_mAnnotations (f : strmap -> strmap) (m : ObjectMeta) : ObjectMeta :=
  mkMeta (mName m) (mGenerateName m) (mNamespace m) (mUID m) (mResourceVersion m) (mGeneration m)
    (mCreationTimestamp m) (mDeletionTimestamp m) (mLabels m) (f (mAnnotations m)) (mOwnerReferences m).
Definition set_mOwnerReferences (rs : list OwnerReference) (m : ObjectMeta) : ObjectMeta :=
  mkMeta (mName m) (mGenerateName m) (mNamespace m) (mUID m) (mResourceVersion m) (mGeneration m)
    (mCreationTimestamp m) (mDeletionTimestamp m) (mLabels m) (mAnnotations m) rs.

(** The identity an owner contributes to a reference. *)
Record Owner := mkOwner { oAPIVersion : string; oKind : string; oName : string; oUID : string }.

Class OwnerLib := {
  GetControllerOf : ObjectMeta -> option OwnerReference;
  (* the object with the reference set, or an error *)
  SetControllerReference : Owner -> ObjectMeta -> result ObjectMeta;
}.

Class OwnerLaws `{OwnerLib} : Prop := {
  controller_Some m r :
    GetControllerOf m = Some r -> r ∈ mOwnerReferences m /\ orController r = Some true;
  controller_None m :
    GetControllerOf m = None -> Forall (fun r => orController r <> Some true) (mOwnerReferences m);
  (* only the owner references are looked at *)
  controller_refs m m' :
    mOwnerReferences m = mOwnerReferences m' -> GetControllerOf m = GetControllerOf m';
  set_controller_Ok o m m' :
    SetControllerReference o m = Ok m' ->
    exists r, GetControllerOf m' = Some r /\ orUID r = oUID o /\ orKind r = oKind o
              /\ orName r = oName o /\ orAPIVersion r = oAPIVersion o;
  (* it changes nothing but the owner references *)
  set_controller_frame o m m' :
    SetControllerReference o m = Ok m' -> exists rs, m' = set_mOwnerReferences rs m;
  (* an object controlled by somebody else is refused *)
  set_controller_taken o m r :
    GetControllerOf m = Some r -> orUID r <> oUID o -> isOk (SetControllerReference o m) = false;
  set_controller_free o m :
    GetControllerOf m = None -> isOk (SetControllerReference o m) = true;
}.

(** [controllerutil]'s finalizer helpers, on [ObjectMeta.Finalizers]; adding
    also reports whether the list changed. *)
Class FinalizerLib := {
  ContainsFinalizer : list string -> string -> bool;
  AddFinalizer : list string -> string -> list string * bool;
  RemoveFinalizer : list string -> string -> list string;
}.

Class FinalizerLaws `{FinalizerLib} : Prop := {
  contains_finalizer fs f : ContainsFinalizer fs f = true <-> f ∈ fs;
  add_finalizer fs f fs' changed :
    AddFinalizer fs f = (fs', changed) ->
    (changed = true <-> f ∉ fs) /\ forall g, g ∈ fs' <-> g = f \/ g ∈ fs;
  remove_finalizer fs f g : g ∈ RemoveFinalizer fs f <-> g <> f /\ g ∈ fs;
}.

(** [encoding/json] on one type. *)
Class JSON (A : Type) := {
  Marshal : A -> result string;
  Unmarshal : string -> result A;
}.

(** [meta.IsStatusConditionTrue]. *)
Definition IsStatusConditionTrue `{ConditionLib} (cs : list Condition) (t : string) : bool :=
  match FindStatusCondition cs t with
  | Some c => bool_decide (cStatus c = ConditionTrue)
  | None => false
  end.

(** [metav1.IsControlledBy]: UIDs only. *)
Definition IsControlledBy `{OwnerLib} (m : ObjectMeta) (uid : string) : bool :=
  match GetControllerOf m with
  | Some r => bool_decide (orUID r = uid)
  | None => false
  end.

(** ** One implementation of the laws *)

Module Reference.

Definition find_condition (cs : list Condition) (t : string) : option Condition :=
  List.find (fun c => bool_decide (cType c = t)) cs.

Fixpoint set_condition (now : Z) (cs : list Condition) (c : Condition) : list Condition :=
  match cs with
  | [] => [mkCondition (cType c) (cStatus c) (cObservedGeneration c)
             (if decide (cLastTransitionTime c = 0) then now else cLastTransitionTime c)
             (cReason c) (cMessage c)]
  | old :: cs' =>
      if decide (cType old = cType c) then
        mkCondition (cType c) (cStatus c) (cObservedGeneration c)
          (if decide (cStatus old = cStatus c) then cLastTransitionTime old
           else if decide (cLastTransitionTime c = 0) then now else cLastTransitionTime c)
          (cReason c) (cMessage c) :: cs'
      else old :: set_condition now cs' c
  end.

Definition remove_condition (cs : list Condition) (t : string) : list Condition :=
  filter (fun c => cType c <> t) cs.

#[export] Instance conditions : ConditionLib := {|
  FindStatusCondition := find_condition;
  SetStatusCondition := set_condition;
  RemoveStatusCondition := remove_condition;
|}.

Ltac case_find := repeat (case_bool_decide || case_decide || simplify_eq/=).

#[export] Instance conditions_laws : ConditionLaws.
Proof.
  split; unfold FindStatusCondition, SetStatusCondition, RemoveStatusCondition; cbn [conditions].
  - intros cs t c H. apply find_some in H as [? ?%bool_decide_eq_true].
    by rewrite list_elem_of_In.
  - intros cs t. induction cs as [|c cs IH]; simpl; [by split|].
    rewrite Forall_cons, <-IH. case_bool_decide; naive_solver.
  - intros now cs c. induction cs as [|old cs IH]; simpl.
    + rewrite bool_decide_true by done. by eexists.
    + case_decide; simpl; [rewrite bool_decide_true by done; by eexists|].
      by rewrite bool_decide_false.
  - intros now cs c old. induction cs as [|o cs IH]; simpl; [done|].
    case_bool_decide; intros Hf Hs; simplify_eq.
    + rewrite decide_True by done. simpl. rewrite bool_decide_true by done.
      eexists; split; [done|]. simpl. by rewrite decide_True.
    + rewrite decide_False by done. simpl. rewrite bool_decide_false by done. by apply IH.
  - intros now cs c t Ht. induction cs as [|old cs IH]; simpl; [by rewrite bool_decide_false|].
    case_decide as Hd; simpl; [by rewrite !bool_decide_false by congruence|]. by rewrite IH.
  - intros cs t. unfold remove_condition. induction cs as [|c cs IH]; simpl; [done|].
    rewrite filter_cons. case_decide; [|done]. simpl. by rewrite bool_decide_false.
  - intros cs t t' Ht. unfold remove_condition. induction cs as [|c cs IH]; simpl; [done|].
    rewrite filter_cons. case_decide as Hd; simpl; [by rewrite IH|].
    rewrite bool_decide_false; [done|]. congruence.
Qed.

Definition is_controller (r : OwnerReference) : bool := bool_decide (orController r = Some true).

Definition controller_of (m : ObjectMeta) : option OwnerReference :=
  List.find is_controller (mOwnerReferences m).

Definition controller_ref (o : Owner) : OwnerReference :=
  mkOwnerRef (oAPIVersion o) (oKind o) (oName o) (oUID o) (Some true) (Some true).

Definition set_controller (o : Owner) (m : ObjectMeta) : result ObjectMeta :=
  let others := filter (fun r => orUID r <> oUID o) (mOwnerReferences m) in
  match controller_of m with
  | Some r => if decide (orUID r = oUID o)
              then Ok (set_mOwnerReferences (controller_ref o :: others) m)
              else Err (Errorf "object is already owned by another controller")
  | None => Ok (set_mOwnerReferences (controller_ref o :: mOwnerReferences m) m)
  end.

#[export] Instance owners : OwnerLib := {|
  GetControllerOf := controller_of;
  SetControllerReference := set_controller;
|}.

#[export] Instance owners_laws : OwnerLaws.
Proof.
  split; unfold GetControllerOf, SetControllerReference; cbn [owners]; unfold set_controller.
  - intros m r H. apply find_some in H as [? ?%bool_decide_eq_true].
    by rewrite list_elem_of_In.
  - intros m H. apply Forall_forall. intros r Hr Hc.
    pose proof (find_none _ _ H r) as Hn. unfold is_controller in Hn.
    rewrite bool_decide_true in Hn by done. by apply list_elem_of_In, Hn in Hr.
  - intros m m' Hr. unfold controller_of. by rewrite Hr.
  - intros o m m' H. exists (controller_ref o).
    destruct (controller_of m) as [r|]; [case_decide|]; simplify_eq; done.
  - intros o m m' H. destruct (controller_of m) as [r|]; [case_decide|]; simplify_eq; by eexists.
  - intros o m r -> Hr. by rewrite decide_False.
  - by intros o m ->.
Qed.

Definition add_finalizer_to (fs : list string) (f : string) : list string * bool :=
  if decide (f ∈ fs) then (fs, false) else (fs ++ [f], true).

#[export] Instance finalizers : FinalizerLib := {|
  ContainsFinalizer fs f := bool_decide (f ∈ fs);
  AddFinalizer := add_finalizer_to;
  RemoveFinalizer fs f := filter (fun g => g <> f) fs;
|}.

#[export] Instance finalizers_laws : FinalizerLaws.
Proof.
  split; unfold ContainsFinalizer, AddFinalizer, RemoveFinalizer; cbn [finalizers].
  - intros. apply bool_decide_eq_true.
  - intros fs f fs' changed H. unfold add_finalizer_to in H. destruct (decide (f ∈ fs)); simplify_eq.
    + split; [by split|]. naive_solver.
    + split; [done|]. intros g. rewrite elem_of_app, list_elem_of_singleton. naive_solver.
  - intros fs f g. cbn beta. by rewrite list_elem_of_filter.
Qed.

End Reference.

(** ** Pods *)

(** A [resource.Quantity] is its exact value in nano-units, the finest scale
    the type keeps. *)
Definition quantity_unit : Z := 1000000000.
Definition Gi : Z := 1024 * 1024 * 1024 * quantity_unit.

Record ResourceList := mkResources { rlCPU : option Z; rlMemory : option Z }.

Record EnvVar := mkEnv { evName : string; evValue : string }.

Record Container := mkContainer {
  cnName : string;
  cnImage : string;
  cnRequests : ResourceList;
  cnLimits : ResourceList;
  cnEnv : list EnvVar;
  cnEnvFrom : list string;
}.

Record Toleration := mkToleration { tlKey : string; tlOperator : string; tlEffect : string }.

Record Volume := mkVolume { volName : string; volSource : string }.

(** [psRest] stands for the fields no code of the repository looks into. *)
Record PodSpec := mkPodSpec {
  psContainers : list Container;
  psInitContainers : list Container;
  psVolumes : list Volume;
  psNodeName : string;
  psNodeSelector : strmap;
  psTolerations : list Toleration;
  psRuntimeClassName : option string;
  psOS : option string;
  psAutomountServiceAccountToken : option bool;
  psDNSPolicy : string;
  psDNSNameservers : option (list string);
  psRest : string;
}.

#[export] Instance ResourceList_eq_dec : EqDecision ResourceList.
Proof. solve_decision. Defined.
#[export] Instance EnvVar_eq_dec : EqDecision EnvVar.
Proof. solve_decision. Defined.
#[export] Instance Container_eq_dec : EqDecision Container.
Proof. solve_decision. Defined.
#[export] Instance Toleration_eq_dec : EqDecision Toleration.
Proof. solve_decision. Defined.
#[export] Instance Volume_eq_dec : EqDecision Volume.
Proof. solve_decision. Defined.
#[export] Instance PodSpec_eq_dec : EqDecision PodSpec.
Proof. solve_decision. Defined.

Definition emptyPodSpec : PodSpec :=
  mkPodSpec [] [] [] "" ∅ [] None None None "" None "".

Definition set_psNodeSelector (f : strmap -> strmap) (p : PodSpec) : PodSpec :=
  mkPodSpec (psContainers p) (psInitContainers p) (psVolumes p) (psNodeName p)
    (f (psNodeSelector p)) (psTolerations p) (psRuntimeClassName p) (psOS p)
    (psAutomountServiceAccountToken p) (psDNSPolicy p) (psDNSNameservers p) (psRest p).
Definition set_psTolerations (f : list Toleration -> list Toleration) (p : PodSpec) : PodSpec :=
  mkPodSpec (psContainers p) (psInitContainers p) (psVolumes p) (psNodeName p)
    (psNodeSelector p) (f (psTolerations p)) (psRuntimeClassName p) (psOS p)
    (psAutomountServiceAccountToken p) (psDNSPolicy p) (psDNSNameservers p) (psRest p).
Definition set_psVolumes (vs : list Volume) (p : PodSpec) : PodSpec :=
  mkPodSpec (psContainers p) (psInitContainers p) vs (psNodeName p)
    (psNodeSelector p) (psTolerations p) (psRuntimeClassName p) (psOS p)
    (psAutomountServiceAccountToken p) (psDNSPolicy p) (psDNSNameservers p) (psRest p).

(** ** Network policies *)

(** [lsRest] and [prRest] (port and end port) are the parts no code of the
    repository looks into; nor does any look into a port's protocol, but the
    API server fills it in. *)
Record LabelSelector := mkSelector { lsMatchLabels : strmap; lsRest : string }.
Record IPBlock := mkIPBlock { ibCIDR : string; ibExcept : list string }.
Record NetworkPolicyPeer := mkPeer {
  pePodSelector : option LabelSelector;
  peNamespaceSelector : option LabelSelector;
  peIPBlock : option IPBlock;
}.
Record NetworkPolicyPort := mkPort { prProtocol : string; prRest : string }.
Record NetworkPolicyIngressRule := mkIngress { irPorts : list NetworkPolicyPort; irFrom : list NetworkPolicyPeer }.
Record NetworkPolicyEgressRule := mkEgress { erPorts : list NetworkPolicyPort; erTo : list NetworkPolicyPeer }.
Record NetworkPolicySpec := mkPolicySpec {
  npPodSelector : LabelSelector;
  npPolicyTypes : list string;
  npIngress : list NetworkPolicyIngressRule;
  npEgress : list NetworkPolicyEgressRule;
}.
Record NetworkPolicy := mkPolicy { npMeta : ObjectMeta; npSpec : NetworkPolicySpec }.

#[export] Instance LabelSelector_eq_dec : EqDecision LabelSelector.
Proof. solve_decision. Defined.
#[export] Instance IPBlock_eq_dec : EqDecision IPBlock.
Proof. solve_decision. Defined.
#[export] Instance NetworkPolicyPeer_eq_dec : EqDecision NetworkPolicyPeer.
Proof. solve_decision. Defined.
#[export] Instance NetworkPolicyPort_eq_dec : EqDecision NetworkPolicyPort.
Proof. solve_decision. Defined.
#[export] Instance NetworkPolicyIngressRule_eq_dec : EqDecision NetworkPolicyIngressRule.
Proof. solve_decision. Defined.
#[export] Instance NetworkPolicyEgressRule_eq_dec : EqDecision NetworkPolicyEgressRule.
Proof. solve_decision. Defined.
#[export] Instance NetworkPolicySpec_eq_dec : EqDecision NetworkPolicySpec.
Proof. solve_decision. Defined.

(** The pod template metadata of the sandbox APIs: labels and annotations. *)
Record PodMetadata := mkPodMetadata { pmLabels : strmap; pmAnnotations : strmap }.

#[export] Instance PodMetadata_eq_dec : EqDecision PodMetadata.
Proof. solve_decision. Defined.
