(* ===== verification/Expiry.v ===== *)
(** * Expiry: shutdown times and ttl-after-finished.

    Models [internal/lifecycle/expiry.go].  Times are nanoseconds, the TTL is
    the [*int32] of the API, and the conversion to a [time.Duration] is done at
    64 bits as in the source. *)

From S2P Require Import Prelude GoStrings K8s.

Module Lifecycle.

Section lifecycle.
Context `{ConditionLib}.

Definition FinishedCondition (conditions : list Condition) (conditionType : string)
    : option Condition :=
  match FindStatusCondition conditions conditionType with
  | None => None
  | Some c => if bool_decide (cStatus c = ConditionTrue) then Some c else None
  end.
End lifecycle.

Definition NeedsCleanup (ttlSecondsAfterFinished : option Z) (finishedCondition : option Condition) : bool :=
  match ttlSecondsAfterFinished, finishedCondition with
  | Some _, Some _ => true
  | _, _ => false
  end.

Definition FinishedTime (finishedCondition : option Condition) : option Z :=
  match finishedCondition with
  | None => None
  | Some c => if time_IsZero (cLastTransitionTime c) then None else Some (cLastTransitionTime c)
  end.

(** [time.Duration(ttl) * time.Second] in int64 arithmetic. *)
Definition ttl_duration (ttl : Z) : Z := int64 (ttl * time_second).

Definition ExpireAt (shutdownTime : option Z) (ttlSecondsAfterFinished : option Z)
    (finishedCondition : option Condition) : option Z :=
  let expireAt := shutdownTime in
  if negb (NeedsCleanup ttlSecondsAfterFinished finishedCondition) then expireAt
  else
    match FinishedTime finishedCondition, ttlSecondsAfterFinished with
    | Some finishedAt, Some ttl =>
        let ttlExpireAt := time_Add finishedAt (ttl_duration ttl) in
        match expireAt with
        | None => Some ttlExpireAt
        | Some e => if time_Before ttlExpireAt e then Some ttlExpireAt else Some e
        end
    | _, _ => expireAt
    end.

Definition TimeLeft (now : Z) (shutdownTime : option Z) (ttlSecondsAfterFinished : option Z)
    (finishedCondition : option Condition) : bool * Z :=
  match ExpireAt shutdownTime ttlSecondsAfterFinished finishedCondition with
  | None => (false, 0)
  | Some expireAt =>
      if negb (time_Before now expireAt) then (true, 0) else (false, time_Sub expireAt now)
  end.

(** ** Reference: the deadlines in force, and the earliest of them *)

Definition deadlines (shutdownTime ttl : option Z) (finished : option Condition) : list Z :=
  option_list shutdownTime ++
  match ttl, finished with
  | Some t, Some c =>
      if decide (cLastTransitionTime c = 0) then [] else [cLastTransitionTime c + t * time_second]
  | _, _ => []
  end.

Definition ttl_in_range (ttl : option Z) : Prop :=
  match ttl with Some t => int32_min <= t <= int32_max | None => True end.

Lemma ttl_duration_exact t : int32_min <= t <= int32_max -> ttl_duration t = t * time_second.
Proof.
  unfold ttl_duration, int64, wrap_signed, int32_min, int32_max, time_second. intros Ht.
  simpl Z.sub. rewrite Z.mod_small; lia.
Qed.

Lemma ExpireAt_earliest_aux sd ttl fin :
  ttl_in_range ttl ->
  match ExpireAt sd ttl fin with
  | None => deadlines sd ttl fin = []
  | Some e => e ∈ deadlines sd ttl fin /\ Forall (fun d => e <= d) (deadlines sd ttl fin)
  end.
Proof.
  unfold ExpireAt, NeedsCleanup, FinishedTime, time_IsZero, time_Before, time_Add, deadlines.
  intros Hr. destruct ttl as [t|], fin as [c|]; cbn [negb];
    try (destruct sd; simpl; [split; [by left|by repeat constructor]|done]).
  rewrite ttl_duration_exact by done.
  case_bool_decide as H0; [rewrite decide_True by done|rewrite decide_False by done];
    destruct sd as [s|]; cbn [option_list app];
    try (split; [by left|by repeat constructor]); [done|].
  case_bool_decide; (split; [set_solver|]); repeat constructor; lia.
Qed.

(** [ExpireAt] is the earliest deadline in force: the shutdown time and,
    once the object is finished with a known finish time, that time plus the
    TTL.  It is nil exactly when there is no deadline.  No [int32] TTL
    overflows the 64-bit duration it is converted to. *)
Theorem ExpireAt_earliest (shutdownTime ttl : option Z) (finished : option Condition) :
  ttl_in_range ttl ->
  match ExpireAt shutdownTime ttl finished with
  | None => deadlines shutdownTime ttl finished = []
  | Some e => e ∈ deadlines shutdownTime ttl finished
              /\ Forall (fun d => e <= d) (deadlines shutdownTime ttl finished)
  end.
Proof. apply ExpireAt_earliest_aux. Qed.

Definition finished_at (t : Z) : Condition :=
  mkCondition "Finished" ConditionTrue 1 t "PodSucceeded" "".

Lemma ExpireAt_earliest_witness :
  ExpireAt (Some (500 * time_second)) (Some 30) (Some (finished_at (100 * time_second)))
    = Some (130 * time_second) /\
  Forall (fun d => 130 * time_second <= d)
    (deadlines (Some (500 * time_second)) (Some 30) (Some (finished_at (100 * time_second)))).
Proof.
  assert (E : ExpireAt (Some (500 * time_second)) (Some 30) (Some (finished_at (100 * time_second)))
              = Some (130 * time_second)) by (vm_compute; reflexivity).
  split; [exact E|].
  pose proof (ExpireAt_earliest (Some (500 * time_second)) (Some 30)
                (Some (finished_at (100 * time_second)))) as H.
  rewrite E in H. apply H. split; vm_compute; discriminate.
Defined.

(** [TimeLeft] reports expiry exactly when some deadline has been
    reached; otherwise, with a deadline in force, the time left is positive,
    fits a [time.Duration], and never overshoots the earliest deadline, which
    it meets exactly unless that is more than [MaxInt64] nanoseconds away. *)
Theorem TimeLeft_correct (now : Z) (shutdownTime ttl : option Z) (finished : option Condition) :
  ttl_in_range ttl ->
  let '(expired, rest) := TimeLeft now shutdownTime ttl finished in
  (expired = true <-> Exists (fun d => d <= now) (deadlines shutdownTime ttl finished)) /\
  (expired = true -> rest = 0) /\
  (expired = false -> deadlines shutdownTime ttl finished <> [] ->
     0 < rest <= int64_max /\ Forall (fun d => now + rest <= d) (deadlines shutdownTime ttl finished)
     /\ (rest < int64_max -> now + rest ∈ deadlines shutdownTime ttl finished)).
Proof.
  intros Hr. pose proof (ExpireAt_earliest_aux shutdownTime ttl finished Hr) as He.
  unfold TimeLeft. destruct (ExpireAt shutdownTime ttl finished) as [e|].
  - destruct He as [Hin Hmin]. unfold time_Before. case_bool_decide as Hlt; cbn [negb].
    + assert (Hpos : 0 < time_Sub e now <= int64_max /\ now + time_Sub e now <= e
                     /\ (time_Sub e now < int64_max -> now + time_Sub e now = e)).
      { unfold time_Sub, int64_min, int64_max. lia. }
      destruct Hpos as (Hp & Hle & Hex). split_and!; [|done|].
      * split; [done|]. intros [d [Hd Hle']]%Exists_exists.
        pose proof (proj1 (Forall_forall _ _) Hmin d Hd). simpl in *. lia.
      * intros _ _. split_and!; [lia..| |by intros Hl; rewrite Hex].
        eapply Forall_impl; [exact Hmin|]. simpl. lia.
    + split_and!; [|done|done]. split; [|done]. intros _. apply Exists_exists. eauto with lia.
  - rewrite He. split_and!; [|done|done]. split; [done|]. by inversion 1.
Qed.

Lemma TimeLeft_correct_witness :
  TimeLeft (110 * time_second) None (Some 30) (Some (finished_at (100 * time_second)))
    = (false, 20 * time_second) /\
  0 < 20 * time_second <= int64_max.
Proof.
  assert (E : TimeLeft (110 * time_second) None (Some 30) (Some (finished_at (100 * time_second)))
              = (false, 20 * time_second)) by (vm_compute; reflexivity).
  split; [exact E|].
  pose proof (TimeLeft_correct (110 * time_second) None (Some 30)
                (Some (finished_at (100 * time_second)))) as H.
  rewrite E in H. apply H; [split; vm_compute; discriminate|reflexivity|vm_compute; discriminate].
Defined.

End Lifecycle.
