(* ===== verification/PoolKey.v ===== *)
(** * PoolKey: the warm-pool key derived from a workload.

    Models [pkg/scale/poolkey.go] and the key types and matching of
    [pkg/scale/sandboxstore.go] and [pkg/scale/sandboxstore_impl.go]. *)

From S2P Require Import Prelude GoStrings K8s.

Module Pool.

Record PoolKey := mkPoolKey { Template : string; Net : string; Size : string }.

#[export] Instance PoolKey_eq_dec : EqDecision PoolKey.
Proof. solve_decision. Defined.

#[export] Program Instance PoolKey_countable : Countable PoolKey :=
  inj_countable' (fun k => (Template k, Net k, Size k)) (fun '(t, n, s) => mkPoolKey t n s) _.
Next Obligation. by intros []. Qed.

(** A node's advertised capacity for one pool. *)
Record PoolCapacity := mkPoolCapacity {
  pcTemplate : string; pcNet : string; pcSize : string; pcWarm : Z; pcTarget : Z
}.

Definition NetDefault : string := "none".

Definition sizeCPUMedium : Z := 1 * quantity_unit.
Definition sizeMemMedium : Z := 2 * Gi.
Definition sizeCPULarge : Z := 4 * quantity_unit.
Definition sizeMemLarge : Z := 8 * Gi.

(** [res.Requests.Cpu()] is the zero quantity when the entry is absent, and a
    zero request falls back to the limit. *)
Definition effective (request limit : option Z) : Z :=
  if bool_decide (default 0 request = 0) then default 0 limit else default 0 request.

Definition SizeClassForContainers (containers : list Container) : string :=
  match containers with
  | [] => "small"
  | c :: _ =>
      let cpu := effective (rlCPU (cnRequests c)) (rlCPU (cnLimits c)) in
      let mem := effective (rlMemory (cnRequests c)) (rlMemory (cnLimits c)) in
      if bool_decide (cpu > sizeCPULarge) || bool_decide (mem > sizeMemLarge) then "large"
      else if bool_decide (cpu > sizeCPUMedium) || bool_decide (mem > sizeMemMedium) then "medium"
      else "small"
  end.

Definition PoolKeyFor (containers : list Container) (net : string) : PoolKey :=
  let template := match containers with [] => "" | c :: _ => cnImage c end in
  mkPoolKey template (if bool_decide (net = "") then NetDefault else net)
    (SizeClassForContainers containers).

Definition normNet (s : string) : string := if bool_decide (s = "") then "none" else s.
Definition normSize (s : string) : string := if bool_decide (s = "") then "small" else s.

Definition poolCapacityMatches (pc : PoolCapacity) (key : PoolKey) : bool :=
  bool_decide (pcTemplate pc = Template key) &&
  bool_decide (normNet (pcNet pc) = normNet (Net key)) &&
  bool_decide (normSize (pcSize pc) = normSize (Size key)).

(** ** Properties *)

Definition size_rank (s : string) : option nat :=
  if decide (s = "small") then Some 0%nat
  else if decide (s = "medium") then Some 1%nat
  else if decide (s = "large") then Some 2%nat
  else None.

(** The key the capacity entry stands for once its defaults are filled in. *)
Definition capacityKey (pc : PoolCapacity) : PoolKey :=
  mkPoolKey (pcTemplate pc) (normNet (pcNet pc)) (normSize (pcSize pc)).

Lemma SizeClass_cases cs :
  SizeClassForContainers cs = "small" \/ SizeClassForContainers cs = "medium"
  \/ SizeClassForContainers cs = "large".
Proof. destruct cs; simpl; [auto|]. repeat case_match; auto. Qed.

(** A derived key is canonical: its defaults are already filled in, so a
    node entry serves it exactly when the entry's own canonical key equals it.
    Two workloads therefore share capacity exactly when they derive one key. *)
Theorem derived_key_matches_canonically (pc : PoolCapacity) (containers : list Container) (net : string) :
  poolCapacityMatches pc (PoolKeyFor containers net)
  = bool_decide (capacityKey pc = PoolKeyFor containers net).
Proof.
  unfold poolCapacityMatches, PoolKeyFor, capacityKey; cbn [Template Net Size].
  assert (HN : normNet (if bool_decide (net = "") then NetDefault else net)
               = if bool_decide (net = "") then NetDefault else net).
  { unfold normNet. repeat case_bool_decide; done. }
  assert (HS : normSize (SizeClassForContainers containers) = SizeClassForContainers containers).
  { by destruct (SizeClass_cases containers) as [->|[->| ->]]. }
  rewrite HN, HS. repeat case_bool_decide; simpl; congruence.
Qed.

Definition resources_le (c c' : Container) : Prop :=
  effective (rlCPU (cnRequests c)) (rlCPU (cnLimits c))
    <= effective (rlCPU (cnRequests c')) (rlCPU (cnLimits c')) /\
  effective (rlMemory (cnRequests c)) (rlMemory (cnLimits c))
    <= effective (rlMemory (cnRequests c')) (rlMemory (cnLimits c')).

(** The size class is always one of the three classes and is monotone: a
    container asking for at least as much CPU and memory never gets a smaller
    class. *)
Theorem size_class_monotone (c c' : Container) (cs cs' : list Container) :
  resources_le c c' ->
  exists r r', size_rank (SizeClassForContainers (c :: cs)) = Some r
            /\ size_rank (SizeClassForContainers (c' :: cs')) = Some r' /\ (r <= r')%nat.
Proof.
  intros [Hcpu Hmem]. simpl.
  unfold sizeCPULarge, sizeCPUMedium, sizeMemLarge, sizeMemMedium, quantity_unit, Gi in *.
  repeat case_bool_decide; simpl; (do 2 eexists; split_and!; [reflexivity..|lia]).
Qed.

Definition demo_container (cpu : Z) : Container :=
  mkContainer "agent" "img" (mkResources (Some (cpu * quantity_unit)) None) (mkResources None None) [] [].

Lemma size_class_monotone_witness :
  SizeClassForContainers [demo_container 2] = "medium" /\
  exists r r', size_rank (SizeClassForContainers [demo_container 2]) = Some r
            /\ size_rank (SizeClassForContainers [demo_container 5]) = Some r' /\ (r <= r')%nat.
Proof.
  split; [vm_compute; reflexivity|].
  apply (size_class_monotone (demo_container 2) (demo_container 5) [] []).
  split; vm_compute; discriminate.
Defined.

End Pool.
