(* ===== verification/SandboxId.v ===== *)
(** * SandboxId: claim ids, their DNS-safe renderings, and claim references.

    Models [pkg/e2bcompat/sandboxid.go], the matching helpers of
    [pkg/execgw/resolver.go], and the claim-reference codec of
    [pkg/scale/sandboxstore_impl.go] ([formatClaimRef], [parseClaimRef],
    [splitNamespacedName]). *)

From S2P Require Import Prelude GoStrings.

(** ** The e2b surface *)

Module E2bId.

Definition isDNSSafe (r : Z) : bool :=
  bool_decide (97 <= r <= 122) || bool_decide (48 <= r <= 57) || bool_decide (r = 45).

Definition needsRewrite (s : string) : bool :=
  existsb (fun r => negb (isDNSSafe r)) (runes s).

(** The builder loop over the lower-cased runes; a kept rune is ASCII, so
    [WriteRune] appends its one byte. *)
Fixpoint render (rs : list Z) : string :=
  match rs with
  | [] => ""
  | r :: rs' => String (if isDNSSafe r then ascii_of r else "-"%char) (render rs')
  end.

Definition publicID (claimID : string) : string :=
  if negb (needsRewrite claimID) then claimID
  else render (lower_rune <$> runes claimID).

Definition matchesID (claimID requested : string) : bool :=
  if bool_decide (claimID = "") || bool_decide (requested = "") then false
  else bool_decide (claimID = requested) || bool_decide (publicID claimID = requested).

End E2bId.

(** ** The exec gateway's resolver *)

Module Resolver.

Definition dnsSafe (s : string) : string := E2bId.render (lower_rune <$> runes s).

Definition sameID (nodeID want : string) : bool :=
  if bool_decide (nodeID = "") || bool_decide (want = "") then false
  else if bool_decide (nodeID = want) then true
  else bool_decide (dnsSafe nodeID = dnsSafe want).

Definition splitEntryName (s : string) : string * string * string :=
  let '(s, uid) := match cut_byte "#"%char s with Some (a, b) => (a, b) | None => (s, "") end in
  match cut_byte "/"%char s with
  | Some (ns, name) => (ns, name, uid)
  | None => ("", s, uid)
  end.

Definition sameName (entryName want : string) : bool :=
  if bool_decide (entryName = "") || bool_decide (want = "") then false
  else let '(ns, name, _) := splitEntryName entryName in
       bool_decide (want = name) || bool_decide (want = ns +:+ "/" +:+ name).

End Resolver.

(** ** Claim references *)

Module ClaimRef.

Definition formatClaimRef (namespace name uid : string) : string :=
  let ref := namespace +:+ "/" +:+ name in
  if bool_decide (uid = "") then ref else ref +:+ "#" +:+ uid.

Definition splitNamespacedName (s : string) : string * string :=
  match cut_byte "/"%char s with
  | Some (ns, name) => (ns, name)
  | None => ("default", s)
  end.

Definition parseClaimRef (ref : string) : string * string * string :=
  if bool_decide (ref = "") then ("", "", "")
  else
    let '(ref, uid) :=
      match cut_byte "#"%char ref with Some (a, b) => (a, b) | None => (ref, "") end in
    let '(namespace, name) := splitNamespacedName ref in
    (namespace, name, uid).

(** A Kubernetes namespace or name: no slash and no hash. *)
Definition plain (s : string) : Prop :=
  has_byte "/"%char s = false /\ has_byte "#"%char s = false.

Lemma cut_hash_format ns name uid :
  plain ns -> plain name ->
  match cut_byte "#"%char (formatClaimRef ns name uid) with
  | Some (a, b) => (a, b)
  | None => (formatClaimRef ns name uid, "")
  end = (ns +:+ "/" +:+ name, uid).
Proof.
  intros [_ Hns] [_ Hname].
  assert (Hfree : has_byte "#"%char (ns +:+ "/" +:+ name) = false).
  { rewrite !has_byte_app, Hns, Hname. done. }
  unfold formatClaimRef. case_bool_decide as Hu.
  - rewrite (proj2 (cut_byte_None "#"%char _) Hfree). by subst.
  - change ("#" +:+ uid) with (String "#"%char uid). by rewrite cut_byte_app.
Qed.

Lemma parse_format ns name uid :
  plain ns -> plain name -> parseClaimRef (formatClaimRef ns name uid) = (ns, name, uid).
Proof.
  intros Hns Hname. unfold parseClaimRef. rewrite bool_decide_false.
  - rewrite (cut_hash_format ns name uid Hns Hname). unfold splitNamespacedName.
    change ("/" +:+ name) with (String "/"%char name). by rewrite cut_byte_app by apply Hns.
  - unfold formatClaimRef. case_bool_decide; destruct ns; done.
Qed.

(** A node's claim_ref round-trips: parsing what [formatClaimRef] built
    from a Kubernetes namespace and name returns them, and the UID even when it
    is empty or itself holds separators. *)
Theorem claim_ref_roundtrip (namespace name uid : string) :
  plain namespace -> plain name ->
  parseClaimRef (formatClaimRef namespace name uid) = (namespace, name, uid).
Proof. apply parse_format. Qed.

Lemma claim_ref_roundtrip_witness :
  formatClaimRef "prod" "web" "uid/1#x" = "prod/web#uid/1#x" /\
  parseClaimRef "prod/web#uid/1#x" = ("prod", "web", "uid/1#x").
Proof.
  split; [reflexivity|].
  apply (claim_ref_roundtrip "prod" "web" "uid/1#x"); split; reflexivity.
Defined.

(** The resolver and the store read an entry's name alike. *)
Lemma split_entry_name_agrees ns name uid :
  plain ns -> plain name ->
  Resolver.splitEntryName (formatClaimRef ns name uid) = (ns, name, uid).
Proof.
  intros Hns Hname. unfold Resolver.splitEntryName.
  rewrite (cut_hash_format ns name uid Hns Hname).
  change ("/" +:+ name) with (String "/"%char name). by rewrite cut_byte_app by apply Hns.
Qed.

End ClaimRef.

(** ** Properties of the renderings *)

Module IdFacts.
Import E2bId Resolver.

Definition safe_char (c : ascii) : bool := isDNSSafe (byte_of c).

Lemma isDNSSafe_range r : isDNSSafe r = true -> 0 <= r < 128.
Proof.
  unfold isDNSSafe. intros [[H|H]%orb_true_iff|H]%orb_true_iff;
    apply bool_decide_eq_true in H; lia.
Qed.

Lemma render_safe rs : string_forall safe_char (render rs) = true.
Proof.
  induction rs as [|r rs IH]; [done|]. cbn [render string_forall]. rewrite IH.
  unfold safe_char. destruct (isDNSSafe r) eqn:E; [|done].
  pose proof (isDNSSafe_range r E). rewrite byte_of_ascii_of by lia. by rewrite E.
Qed.

Lemma lower_rune_safe r : isDNSSafe r = true -> lower_rune r = r.
Proof.
  unfold isDNSSafe, lower_rune. intros H. repeat case_bool_decide; simpl in *; lia || done.
Qed.

Lemma decode_small b l r n :
  0 <= b -> decode_rune b l = (r, n) -> r < 128 -> b = r /\ n = O.
Proof.
  intros Hb. unfold decode_rune, cont_byte, rune_error.
  repeat (case_bool_decide || case_match); intros [= <- <-] ?; try lia; try done;
    simpl in *; try lia; try discriminate.
Qed.

Lemma runes_safe_bytes l :
  Forall (fun b => 0 <= b) l -> Forall (fun r => r < 128) (runes_go O l) -> runes_go O l = l.
Proof.
  induction 1 as [|b l Hb Hl IH]; [done|]. cbn [runes_go].
  destruct (decode_rune b l) as [r n] eqn:E. intros [Hr Hrest]%Forall_cons.
  destruct (decode_small _ _ _ _ Hb E Hr) as [-> ->]. by rewrite IH.
Qed.

Lemma bytes_nonneg s : Forall (fun b => 0 <= b) (bytes s).
Proof. induction s as [|c s IH]; constructor; [apply byte_of_range|done]. Qed.

Lemma render_bytes s : string_forall safe_char s = true -> render (bytes s) = s.
Proof.
  induction s as [|c s IH]; [done|]. cbn [bytes render string_forall].
  intros [Hc Hs]%andb_true_iff. unfold safe_char in Hc. rewrite Hc, ascii_of_byte_of, IH; done.
Qed.

Lemma needsRewrite_false s :
  needsRewrite s = false <-> string_forall safe_char s = true.
Proof.
  unfold needsRewrite. split.
  - intros H. assert (Forall (fun r => isDNSSafe r = true) (runes s)) as HF.
    { apply Forall_forall. intros r Hr. destruct (isDNSSafe r) eqn:E; [done|].
      assert (existsb (fun r => negb (isDNSSafe r)) (runes s) = true) as Hx; [|by rewrite Hx in H].
      apply existsb_exists. exists r. rewrite E. by rewrite <-list_elem_of_In. }
    assert (runes s = bytes s) as Heq.
    { apply runes_safe_bytes; [apply bytes_nonneg|]. eapply Forall_impl; [exact HF|].
      intros r Hr. by apply isDNSSafe_range in Hr as [_ ?]. }
    rewrite Heq in HF. clear H Heq. induction s as [|c s IH]; [done|].
    apply Forall_cons in HF as [Hc Hs]. cbn [string_forall].
    rewrite (IH Hs). unfold safe_char. by rewrite Hc.
  - intros H. assert (is_ascii s = true) as Ha.
    { eapply string_forall_impl; [|exact H]. intros c Hc. unfold safe_char in Hc.
      apply isDNSSafe_range in Hc. apply bool_decide_eq_true. lia. }
    rewrite (runes_ascii s Ha). clear Ha. induction s as [|c s IH]; [done|].
    cbn [string_forall] in H. apply andb_true_iff in H as [Hc Hs]. cbn [bytes existsb].
    unfold safe_char in Hc. by rewrite Hc, IH.
Qed.

Lemma dnsSafe_id s : string_forall safe_char s = true -> dnsSafe s = s.
Proof.
  intros H. unfold dnsSafe. pose proof (proj2 (needsRewrite_false s) H) as Hn.
  rewrite runes_ascii.
  - assert (lower_rune <$> bytes s = bytes s) as ->; [|by apply render_bytes].
    clear Hn. induction s as [|c s IH]; [done|]. cbn [string_forall] in H.
    apply andb_true_iff in H as [Hc Hs]. cbn [bytes]. csimpl. rewrite IH by done.
    by rewrite (lower_rune_safe _ Hc).
  - eapply string_forall_impl; [|exact H]. intros c Hc. unfold safe_char in Hc.
    apply isDNSSafe_range in Hc. apply bool_decide_eq_true. lia.
Qed.

Lemma publicID_dnsSafe s : publicID s = dnsSafe s.
Proof.
  unfold publicID. destruct (needsRewrite s) eqn:E; [done|]. simpl.
  symmetry. by apply dnsSafe_id, needsRewrite_false.
Qed.

Lemma publicID_safe s : string_forall safe_char (publicID s) = true.
Proof. rewrite publicID_dnsSafe. apply render_safe. Qed.

Lemma publicID_idem s : publicID (publicID s) = publicID s.
Proof. rewrite (publicID_dnsSafe (publicID s)). apply dnsSafe_id, publicID_safe. Qed.

(** The id handed to e2b clients is always legal in a DNS label, for every
    claim id including ones with invalid UTF-8, and rendering it again changes
    nothing. *)
Theorem publicID_dns_label (claimID : string) :
  string_forall safe_char (publicID claimID) = true /\ publicID (publicID claimID) = publicID claimID.
Proof. split; [apply publicID_safe|apply publicID_idem]. Qed.

Lemma renderings_agree nodeID want : matchesID nodeID want = true -> sameID nodeID want = true.
Proof.
  unfold matchesID, sameID.
  destruct (bool_decide (nodeID = "") || bool_decide (want = "")); [done|].
  case_bool_decide; [done|]. simpl. intros Hw%bool_decide_eq_true.
  apply bool_decide_eq_true. rewrite <-!publicID_dnsSafe, <-Hw. by rewrite publicID_idem.
Qed.

(** The exec gateway's [dnsSafe] and the e2b surface's [publicID] are the
    same function, so the gateway resolves every id the e2b surface accepts. *)
Theorem renderings_in_step (nodeID want : string) :
  dnsSafe nodeID = publicID nodeID /\
  (matchesID nodeID want = true -> sameID nodeID want = true).
Proof. split; [by rewrite publicID_dnsSafe|apply renderings_agree]. Qed.

(** The ids sandboxd mints: "sb_" and lower-case hex digits. *)
Definition minted (id : string) : Prop :=
  exists h, id = "sb_" +:+ h /\ string_forall is_hex h = true.

Lemma is_hex_safe c : is_hex c = true -> safe_char c = true.
Proof.
  unfold is_hex, safe_char, isDNSSafe.
  intros [H|H]%orb_true_iff; apply bool_decide_eq_true in H;
    repeat case_bool_decide; simpl; lia || done.
Qed.

Lemma publicID_minted h : string_forall is_hex h = true -> publicID ("sb_" +:+ h) = "sb-" +:+ h.
Proof.
  intros H. rewrite publicID_dnsSafe. unfold dnsSafe.
  assert (Hs : string_forall safe_char h = true)
    by (eapply string_forall_impl; [apply is_hex_safe|exact H]).
  rewrite runes_ascii.
  - change (bytes ("sb_" +:+ h)) with (115 :: 98 :: 95 :: bytes h). csimpl.
    change ("sb-" +:+ h) with (String "s" (String "b" (String "-" h))).
    cbn [render]. repeat f_equal.
    pose proof (dnsSafe_id h Hs) as Hd. unfold dnsSafe in Hd. rewrite runes_ascii in Hd; [done|].
    eapply string_forall_impl; [|exact Hs]. intros c Hc. apply isDNSSafe_range in Hc.
    apply bool_decide_eq_true. lia.
  - unfold is_ascii. rewrite string_forall_app. apply andb_true_iff. split; [done|].
    eapply string_forall_impl; [|exact Hs]. intros c Hc. apply isDNSSafe_range in Hc.
    apply bool_decide_eq_true. lia.
Qed.

Lemma minted_public_inj id id' : minted id -> minted id' -> publicID id = publicID id' -> id = id'.
Proof.
  intros (h & -> & Hh) (h' & -> & Hh'). rewrite !publicID_minted by done.
  change ("sb-" +:+ h) with (String "s" (String "b" (String "-" h))).
  change ("sb-" +:+ h') with (String "s" (String "b" (String "-" h'))).
  by intros [= ->].
Qed.

(** For ids sandboxd mints, the published rendering identifies the claim:
    a client presenting the rendering, or the raw id, of one minted id matches
    that claim and no other. *)
Theorem minted_ids_unambiguous (claimID other : string) :
  minted claimID -> minted other ->
  matchesID claimID (publicID claimID) = true /\ matchesID claimID claimID = true /\
  (matchesID claimID (publicID other) = true -> claimID = other) /\
  (matchesID claimID other = true -> claimID = other).
Proof.
  intros Hc Ho. pose proof Hc as (h & Ehc & Hh). pose proof Ho as (h' & Eho & Hh').
  assert (claimID <> "" /\ other <> "") as [Hc0 Ho0] by (by subst).
  assert (forall i, minted i -> publicID i <> "") as Hp0.
  { intros i (hi & -> & Hi). by rewrite publicID_minted. }
  assert (forall i j, minted i -> minted j -> i <> publicID j) as Hraw.
  { intros i j (hi & -> & Hi) (hj & -> & Hj). rewrite publicID_minted by done.
    change ("sb_" +:+ hi) with (String "s" (String "b" (String "_" hi))).
    by change ("sb-" +:+ hj) with (String "s" (String "b" (String "-" hj))). }
  unfold matchesID. rewrite !(bool_decide_false (claimID = "")) by done.
  rewrite !(bool_decide_false (publicID _ = "")), !(bool_decide_false (other = "")) by eauto.
  cbn [orb]. split_and!.
  - rewrite (bool_decide_true (publicID claimID = publicID claimID)) by done. apply orb_true_r.
  - by rewrite bool_decide_true.
  - rewrite bool_decide_false by eauto. intros H%bool_decide_eq_true. by apply minted_public_inj.
  - intros [H%bool_decide_eq_true|H%bool_decide_eq_true]%orb_true_iff; [done|].
    symmetry in H. by destruct (Hraw other claimID Ho Hc H).
Qed.

Lemma minted_ids_unambiguous_witness :
  publicID "sb_77ace349" = "sb-77ace349" /\
  matchesID "sb_77ace349" (publicID "sb_77ace349") = true.
Proof.
  split; [vm_compute; reflexivity|].
  apply (minted_ids_unambiguous "sb_77ace349" "sb_00").
  - exists "77ace349". split; vm_compute; reflexivity.
  - exists "00". split; vm_compute; reflexivity.
Defined.

End IdFacts.
