(* ===== verification/Types.v ===== *)
(** * Types: the operator's own API objects.

    Models [api/v1beta1/sandbox_types.go] and the claim, template, warm-pool
    and node-inventory types of [extensions/api/v1beta1].  Fields that no code
    of the repository reads into (claim specs of volumes, network rules) are
    opaque tokens. *)

From S2P Require Import Prelude GoStrings K8s PoolKey.

(** ** agents.x-k8s.io/v1beta1 *)

Definition SandboxConditionSuspended : string := "Suspended".
Definition SandboxReasonSuspendedPodTerminated : string := "PodTerminated".
Definition SandboxReasonSuspendedPodNotTerminated : string := "PodNotTerminated".
Definition SandboxConditionReady : string := "Ready".
Definition SandboxReasonDependenciesReady : string := "DependenciesReady".
Definition SandboxReasonDependenciesNotReady : string := "DependenciesNotReady".
Definition SandboxReasonSuspended : string := "SandboxSuspended".
Definition SandboxConditionFinished : string := "Finished".
Definition SandboxReasonPodSucceeded : string := "PodSucceeded".
Definition SandboxReasonPodFailed : string := "PodFailed".
Definition SandboxReasonExpired : string := "SandboxExpired".
Definition SandboxPodNameAnnotation : string := "agents.x-k8s.io/pod-name".
Definition SandboxTemplateRefAnnotation : string := "agents.x-k8s.io/sandbox-template-ref".
Definition SandboxLaunchTypeLabel : string := "agents.x-k8s.io/launch-type".
Definition CreatedByLabel : string := "agents.x-k8s.io/created-by".
Definition SandboxLaunchTypeCold : string := "cold".
Definition SandboxLaunchTypeWarm : string := "warm".
Definition DeprecatedSandboxPodTemplateHashLabel : string := "agents.x-k8s.io/sandbox-pod-template-hash".
Definition SandboxTemplateHashLabel : string := "agents.x-k8s.io/sandbox-template-hash".
Definition SandboxPropagatedLabelsAnnotation : string := "agents.x-k8s.io/propagated-labels".
Definition SandboxPropagatedAnnotationsAnnotation : string := "agents.x-k8s.io/propagated-annotations".
Definition SandboxAdoptableLabel : string := "agents.x-k8s.io/adoptable".
Definition SandboxWarmPoolLabel : string := "agents.x-k8s.io/warm-pool-sandbox".
Definition SandboxTemplateRefHashLabel : string := "agents.x-k8s.io/sandbox-template-ref-hash".

Record PodTemplate := mkPodTemplate { ptSpec : PodSpec; ptMeta : PodMetadata }.

(** A volume claim template; [vctSpec] is the opaque [PersistentVolumeClaimSpec]. *)
Record VolumeClaimTemplate := mkVCT {
  vctName : string; vctLabels : strmap; vctAnnotations : strmap; vctSpec : string
}.

Inductive SandboxOperatingMode := ModeUnset | ModeRunning | ModeSuspended | ModeOther (s : string).

Inductive ShutdownPolicy := PolicyDelete | PolicyDeleteForeground | PolicyRetain | PolicyOther (s : string).

Record SandboxBlueprint := mkBlueprint {
  bpPodTemplate : PodTemplate;
  bpVolumeClaimTemplates : list VolumeClaimTemplate;
  bpService : option bool;
}.

(** [SandboxSpec] inlines the blueprint and the lifecycle. *)
Record SandboxSpec := mkSandboxSpec {
  ssBlueprint : SandboxBlueprint;
  ssShutdownTime : option Z;
  ssShutdownPolicy : option ShutdownPolicy;
  ssOperatingMode : SandboxOperatingMode;
}.

Record SandboxStatus := mkSandboxStatus {
  stServiceFQDN : string;
  stService : string;
  stConditions : list Condition;
  stLabelSelector : string;
  stPodIPs : list string;
  stNodeName : string;
}.

Record Sandbox := mkSandbox {
  sbMeta : ObjectMeta;
  sbSpec : SandboxSpec;
  sbStatus : SandboxStatus;
}.

#[export] Instance PodTemplate_eq_dec : EqDecision PodTemplate.
Proof. solve_decision. Defined.
#[export] Instance VolumeClaimTemplate_eq_dec : EqDecision VolumeClaimTemplate.
Proof. solve_decision. Defined.
#[export] Instance SandboxOperatingMode_eq_dec : EqDecision SandboxOperatingMode.
Proof. solve_decision. Defined.
#[export] Instance ShutdownPolicy_eq_dec : EqDecision ShutdownPolicy.
Proof. solve_decision. Defined.
#[export] Instance SandboxBlueprint_eq_dec : EqDecision SandboxBlueprint.
Proof. solve_decision. Defined.
#[export] Instance SandboxSpec_eq_dec : EqDecision SandboxSpec.
Proof. solve_decision. Defined.
#[export] Instance SandboxStatus_eq_dec : EqDecision SandboxStatus.
Proof. solve_decision. Defined.
#[export] Instance Sandbox_eq_dec : EqDecision Sandbox.
Proof. solve_decision. Defined.

Definition ssPodTemplate (s : SandboxSpec) : PodTemplate := bpPodTemplate (ssBlueprint s).
Definition ssVolumeClaimTemplates (s : SandboxSpec) := bpVolumeClaimTemplates (ssBlueprint s).
Definition ssService (s : SandboxSpec) : option bool := bpService (ssBlueprint s).

Definition emptySpec : SandboxSpec :=
  mkSandboxSpec (mkBlueprint (mkPodTemplate emptyPodSpec (mkPodMetadata ∅ ∅)) [] None)
    None None ModeUnset.
Definition emptyStatus : SandboxStatus := mkSandboxStatus "" "" [] "" [] "".
Definition emptySandbox : Sandbox := mkSandbox emptyMeta emptySpec emptyStatus.

Definition sbNamespace (sb : Sandbox) : string := mNamespace (sbMeta sb).
Definition sbName (sb : Sandbox) : string := mName (sbMeta sb).
Definition sbLabels (sb : Sandbox) : strmap := mLabels (sbMeta sb).
Definition sbAnnotations (sb : Sandbox) : strmap := mAnnotations (sbMeta sb).
Definition sbUID (sb : Sandbox) : string := mUID (sbMeta sb).
Definition sbResourceVersion (sb : Sandbox) : string := mResourceVersion (sbMeta sb).
Definition sbContainers (sb : Sandbox) : list Container :=
  psContainers (ptSpec (ssPodTemplate (sbSpec sb))).
Definition sbConditions (sb : Sandbox) : list Condition := stConditions (sbStatus sb).

Definition set_sbMeta (f : ObjectMeta -> ObjectMeta) (sb : Sandbox) : Sandbox :=
  mkSandbox (f (sbMeta sb)) (sbSpec sb) (sbStatus sb).
Definition set_sbSpec (s : SandboxSpec) (sb : Sandbox) : Sandbox :=
  mkSandbox (sbMeta sb) s (sbStatus sb).
Definition set_sbStatus (s : SandboxStatus) (sb : Sandbox) : Sandbox :=
  mkSandbox (sbMeta sb) (sbSpec sb) s.
Definition set_stConditions (f : list Condition -> list Condition) (s : SandboxStatus) : SandboxStatus :=
  mkSandboxStatus (stServiceFQDN s) (stService s) (f (stConditions s)) (stLabelSelector s)
    (stPodIPs s) (stNodeName s).
Definition set_stService (svc fqdn : string) (s : SandboxStatus) : SandboxStatus :=
  mkSandboxStatus fqdn svc (stConditions s) (stLabelSelector s) (stPodIPs s) (stNodeName s).
Definition set_stPod (selector : string) (ips : list string) (node : string) (s : SandboxStatus) :
    SandboxStatus :=
  mkSandboxStatus (stServiceFQDN s) (stService s) (stConditions s) selector ips node.

(** ** extensions.agents.x-k8s.io/v1beta1 *)

Record InventoryEntry := mkEntry {
  ieName : string; ieID : string; iePhase : string; ieClaimRef : string; ieAddress : string
}.

#[export] Instance InventoryEntry_eq_dec : EqDecision InventoryEntry.
Proof. solve_decision. Defined.

(** The one metadata field of a [NodeInventory] the store reads is its
    resource version. *)
Record NodeInventory := mkInventory {
  niResourceVersion : string;
  niNode : string;
  niEntries : list InventoryEntry;
  niAddress : string;
  niPools : list Pool.PoolCapacity;
}.

Definition UpdateStrategyRecreate : string := "Recreate".
Definition UpdateStrategyOnReplenish : string := "OnReplenish".

Record SandboxWarmPool := mkWarmPool {
  wpMeta : ObjectMeta;
  wpReplicas : option Z;                 (* *int32 *)
  wpTemplateRef : string;
  wpUpdateStrategy : option string;
  wpStatusReplicas : Z;
  wpStatusReadyReplicas : Z;
  wpStatusSelector : string;
}.

(** The rules a template adds to the policy its sandboxes share. *)
Record TemplateNetworkRules := mkTemplateRules {
  trIngress : list NetworkPolicyIngressRule;
  trEgress : list NetworkPolicyEgressRule;
}.

#[export] Instance TemplateNetworkRules_eq_dec : EqDecision TemplateNetworkRules.
Proof. solve_decision. Defined.

Record SandboxTemplate := mkTemplate {
  tplMeta : ObjectMeta;
  tplBlueprint : SandboxBlueprint;
  tplNetworkPolicy : option TemplateNetworkRules;
  tplNetworkPolicyManagement : string;
  tplEnvVarsInjectionPolicy : string;
  tplVolumeClaimTemplatesPolicy : string;
}.

Definition set_tplMeta (m : ObjectMeta) (t : SandboxTemplate) : SandboxTemplate :=
  mkTemplate m (tplBlueprint t) (tplNetworkPolicy t) (tplNetworkPolicyManagement t)
    (tplEnvVarsInjectionPolicy t) (tplVolumeClaimTemplatesPolicy t).

Record ClaimEnvVar := mkClaimEnv { ceName : string; ceValue : string; ceContainerName : string }.

Record ClaimLifecycle := mkClaimLifecycle {
  clShutdownTime : option Z;
  clTTLSecondsAfterFinished : option Z;  (* *int32 *)
  clShutdownPolicy : ShutdownPolicy;
}.

Record SandboxClaim := mkClaim {
  scMeta : ObjectMeta;
  scWarmPoolRef : string;
  scLifecycle : option ClaimLifecycle;
  scAdditionalPodMetadata : PodMetadata;
  scEnv : list ClaimEnvVar;
  scVolumeClaimTemplates : list VolumeClaimTemplate;
  scConditions : list Condition;
  scSandboxName : string;
  scPodIPs : list string;
}.
