(* ===== verification/Sha256.v ===== *)
(** * Sha256: the digest [crypto/sha256] computes.

    The standard library's SHA-256 on byte lists, as FIPS 180-4 writes it; the
    store derives object UIDs and the pod runtime derives VM names from it. *)

From S2P Require Import Prelude GoStrings.

Module Sha256.

Definition w32 (z : Z) : Z := Z.land z 0xffffffff.
Definition rotr (n x : Z) : Z := w32 (Z.lor (Z.shiftr x n) (Z.shiftl x (32 - n))).

(** The round constants are the first 32 bits of the fractional parts of the
    cube roots of the first 64 primes, the initial hash those of the square
    roots of the first eight; both are computed from that definition. *)
Definition primes : list Z :=
  let composite n := existsb (fun d => bool_decide (n mod Z.of_nat d = 0)) (seq 2 16) in
  [2; 3; 5; 7; 11; 13; 17]
    ++ filter (fun n => composite n = false) (Z.of_nat <$> seq 18 294).

(** The integer cube root of [n], from its [bits] high bit down. *)
Fixpoint cube_root (bits : nat) (n acc : Z) : Z :=
  match bits with
  | O => acc
  | S b => let acc' := acc + Z.shiftl 1 (Z.of_nat b) in
           cube_root b n (if acc' * acc' * acc' <=? n then acc' else acc)
  end.

Definition K : list Z :=
  Eval vm_compute in (fun p => w32 (cube_root 36 (Z.shiftl p 96) 0)) <$> primes.

Record hash := mkHash { h0 : Z; h1 : Z; h2 : Z; h3 : Z; h4 : Z; h5 : Z; h6 : Z; h7 : Z }.

Definition initial : hash :=
  Eval vm_compute in
  match (fun p => w32 (Z.sqrt (Z.shiftl p 64))) <$> primes with
  | a :: b :: c :: d :: e :: f :: g :: h :: _ => mkHash a b c d e f g h
  | _ => mkHash 0 0 0 0 0 0 0 0
  end.

(** The message schedule, newest word first: [extend] adds one word. *)
Definition extend (w : list Z) : list Z :=
  let at_ n := nth n w 0 in
  let s0 := Z.lxor (Z.lxor (rotr 7 (at_ 14%nat)) (rotr 18 (at_ 14%nat))) (Z.shiftr (at_ 14%nat) 3) in
  let s1 := Z.lxor (Z.lxor (rotr 17 (at_ 1%nat)) (rotr 19 (at_ 1%nat))) (Z.shiftr (at_ 1%nat) 10) in
  w32 (at_ 15%nat + s0 + at_ 6%nat + s1) :: w.

Definition schedule (block : list Z) : list Z := rev (Nat.iter 48 extend (rev block)).

Definition round (h : hash) (kw : Z) : hash :=
  let '(mkHash a b c d e f g i) := h in
  let S1 := Z.lxor (Z.lxor (rotr 6 e) (rotr 11 e)) (rotr 25 e) in
  let ch := Z.lxor (Z.land e f) (Z.land (Z.lxor e 0xffffffff) g) in
  let t1 := i + S1 + ch + kw in
  let S0 := Z.lxor (Z.lxor (rotr 2 a) (rotr 13 a)) (rotr 22 a) in
  let maj := Z.lxor (Z.lxor (Z.land a b) (Z.land a c)) (Z.land b c) in
  mkHash (w32 (t1 + S0 + maj)) a b c (w32 (d + t1)) e f g.

Definition compress (h : hash) (block : list Z) : hash :=
  let r := fold_left round (zip_with Z.add K (schedule block)) h in
  mkHash (w32 (h0 h + h0 r)) (w32 (h1 h + h1 r)) (w32 (h2 h + h2 r)) (w32 (h3 h + h3 r))
    (w32 (h4 h + h4 r)) (w32 (h5 h + h5 r)) (w32 (h6 h + h6 r)) (w32 (h7 h + h7 r)).

(** Big-endian words of a byte list. *)
Fixpoint words (l : list Z) : list Z :=
  match l with
  | a :: b :: c :: d :: r => (((a * 256 + b) * 256 + c) * 256 + d) :: words r
  | _ => []
  end.

Definition be_bytes (n : nat) (z : Z) : list Z :=
  (fun i => Z.land (Z.shiftr z (8 * Z.of_nat i)) 0xff) <$> rev (seq 0 n).

Definition pad (msg : list Z) : list Z :=
  let n := length msg in
  let zeros := ((119 - n mod 64) mod 64)%nat in
  msg ++ [0x80] ++ replicate zeros 0 ++ be_bytes 8 (8 * Z.of_nat n).

Fixpoint blocks (fuel : nat) (w : list Z) (h : hash) : hash :=
  match fuel, w with
  | O, _ | _, [] => h
  | S fuel, _ => blocks fuel (drop 16 w) (compress h (take 16 w))
  end.

Definition digest_words (msg : list Z) : hash :=
  let w := words (pad msg) in blocks (length w) w initial.

Definition Sum256 (msg : list Z) : list Z :=
  let h := digest_words msg in
  concat (be_bytes 4 <$> [h0 h; h1 h; h2 h; h3 h; h4 h; h5 h; h6 h; h7 h]).

(** The digest is 32 bytes. *)
Lemma be_bytes_length n z : length (be_bytes n z) = n.
Proof. unfold be_bytes. by rewrite length_fmap, length_rev, length_seq. Qed.

Lemma be_bytes_range n z : Forall (fun b => 0 <= b < 256) (be_bytes n z).
Proof.
  unfold be_bytes. apply Forall_fmap, Forall_true. intros i; simpl.
  change 255 with (Z.ones 8). rewrite Z.land_ones by lia. apply Z.mod_pos_bound. lia.
Qed.

Lemma Sum256_length msg : length (Sum256 msg) = 32%nat.
Proof.
  unfold Sum256. destruct (digest_words msg). cbn [concat fmap list_fmap h0 h1 h2 h3 h4 h5 h6 h7].
  by rewrite !length_app, !be_bytes_length.
Qed.

Lemma Sum256_range msg : Forall (fun b => 0 <= b < 256) (Sum256 msg).
Proof.
  unfold Sum256. destruct (digest_words msg). cbn [concat fmap list_fmap h0 h1 h2 h3 h4 h5 h6 h7].
  repeat apply Forall_app_2; by apply be_bytes_range || constructor.
Qed.

(** Test vectors: one block, and a message whose padding needs a third block. *)
Example Sum256_abc :
  Sum256 [97; 98; 99] =
  [0xba; 0x78; 0x16; 0xbf; 0x8f; 0x01; 0xcf; 0xea; 0x41; 0x41; 0x40; 0xde; 0x5d; 0xae; 0x22; 0x23;
   0xb0; 0x03; 0x61; 0xa3; 0x96; 0x17; 0x7a; 0x9c; 0xb4; 0x10; 0xff; 0x61; 0xf2; 0x00; 0x15; 0xad].
Proof. vm_compute. reflexivity. Qed.

Example Sum256_long :
  Sum256 (replicate 120 97) =
  [0x2f; 0x3d; 0x33; 0x54; 0x32; 0xc7; 0x0b; 0x58; 0x0a; 0xf0; 0xe8; 0xe1; 0xb3; 0x67; 0x4a; 0x7c;
   0x02; 0x0d; 0x68; 0x3a; 0xa5; 0xf7; 0x3a; 0xaa; 0xed; 0xfd; 0xc5; 0x5a; 0xf9; 0x04; 0xc2; 0x1c].
Proof. vm_compute. reflexivity. Qed.

End Sha256.
