(* ===== verification/StoreModel.v ===== *)
(** * StoreModel: the aggregated sandbox store.

    Models [pkg/scale/sandboxstore.go] and [pkg/scale/sandboxstore_impl.go]:
    the synthesis of Sandbox objects from node inventory, the store's own state
    (pending claims, client overlays, node reservations), and its List, Get,
    Claim, Release and Overlay operations.  What the store talks to is an event
    signature: the inventory source, the clock, the random draw, and the
    per-node sandboxd client.  [List]'s per-node fan-out runs in node order. *)

From S2P Require Import Prelude GoStrings K8s PoolKey SandboxId Types Sha256.

Module Store.
Import Pool ClaimRef.
#[local] Open Scope prog_scope.

(** ** Keys and data *)

Definition NodeLabel : string := "sandbox.cocoonstack.io/node".
Definition PhaseLabel : string := "sandbox.cocoonstack.io/phase".
Definition ClaimLabel : string := "sandbox.cocoonstack.io/claim".
Definition ClaimIDAnnotation : string := "sandbox.cocoonstack.io/claim-id".

(** The packages' error variables, by their text: a sentinel and the test for it
    share one constant. *)
Definition textNoWarmCapacity : string := "scale: no node has warm capacity for the requested pool".
Definition textClaimExists : string := "scale: a sandbox of that name is already claimed".
Definition textNodeAtCapacity : string := "sandboxd: node at capacity or draining".

Definition ErrNoWarmCapacity : gerror := Sentinel textNoWarmCapacity.
Definition ErrClaimExists : gerror := Sentinel textClaimExists.
Definition ErrNodeAtCapacity : gerror := Sentinel textNodeAtCapacity.
Definition IsClaimExists (e : gerror) : bool := errors_Is e textClaimExists.
Definition IsNoWarmCapacity (e : gerror) : bool := errors_Is e textNoWarmCapacity.
Definition IsNodeAtCapacity (e : gerror) : bool := errors_Is e textNodeAtCapacity.

Record Assignment := mkAssignment {
  asSandboxName : string; asNode : string; asAddress : string; asToken : string
}.

Record SandboxOverlay := mkOverlay {
  ovLabels : strmap; ovAnnotations : strmap; ovSpec : option SandboxSpec
}.

Record ListOptions := mkListOptions {
  loNamespace : string; loLabelSelector : string; loFieldSelector : string;
  loAllowWatchBookmarks : bool; loSendInitialEvents : bool
}.

(** sandboxd's claim body ([pkg/scale/sandboxd/client.go]); [TTLSeconds] and
    [NoRedirect] stay zero on the store's path. *)
Record ClaimSpec := mkClaimSpec {
  spTemplate : string; spNet : string; spSize : string; spTTLSeconds : Z; spClaimRef : string
}.

Record ClaimResult := mkClaimResult {
  crID : string; crToken : string; crOwnerAddr : string
}.

Record ClaimInfo := mkClaimInfo {
  ciClaimID : string; ciNamespace : string; ciName : string; ciToken : string; ciNodeAddr : string
}.

Record ForkSpec := mkForkSpec { fsCount : Z; fsTTLSeconds : Z }.
Record Checkpoint := mkCheckpoint {
  ckID : string; ckName : string; ckSandboxID : string; ckKey : PoolKey; ckCreatedAt : Z
}.
Record NodeStats := mkNodeStats {
  nsCPUCount : Z; nsMemTotalBytes : Z; nsMemUsedBytes : Z; nsMemUsedMeasured : bool;
  nsHibernated : bool; nsMeasuredAt : Z
}.

(** The per-node sandboxd client's calls. *)
Inductive SandboxdCall : Type -> Type :=
| SdClaim (spec : ClaimSpec) : SandboxdCall (result ClaimResult)
| SdRelease (id token : string) : SandboxdCall (option gerror)
| SdHibernate (id : string) : SandboxdCall (option gerror)
| SdWake (id : string) : SandboxdCall (option gerror)
| SdFork (id : string) (spec : ForkSpec) : SandboxdCall (result (list ClaimResult))
| SdCheckpoint (id name : string) : SandboxdCall (result Checkpoint)
| SdCheckpoints : SandboxdCall (result (list Checkpoint))
| SdDeleteCheckpoint (id : string) : SandboxdCall (option gerror)
| SdClaimCheckpoint (id : string) (ttl : Z) : SandboxdCall (result ClaimResult)
| SdPromote (id template : string) : SandboxdCall (result PoolKey)
| SdStats (id : string) : SandboxdCall (result NodeStats).

(** What the store calls. *)
Inductive StoreE : Type -> Type :=
| EListNodes : StoreE (result (list string))
| ENodeInventory (node : string) : StoreE (result NodeInventory)
| ENow : StoreE Z
| EIntN (n : Z) : StoreE Z
| ESandboxd {X} (addr token : string) (c : SandboxdCall X) : StoreE X
| EClaimObserver (info : ClaimInfo) : StoreE unit.

(** ** Store state *)

Record pendingClaim := mkPending { pcNode : string; pcEntry : InventoryEntry; pcAt : Z }.

Definition pendingTTL : Z := 3 * time_minute.

Record reservation := mkReservation { rsGeneration : string; rsTaken : Z }.

Abbreviation nodePool := (string * PoolKey)%type.

Record store := mkStore {
  reservations : gmap nodePool reservation;
  pending : gmap string pendingClaim;
  overlays : gmap string SandboxOverlay;
  pendingGen : Z;                         (* atomic.Uint64 *)
}.

(** The immutable configuration: [sandboxdFactory] and [claimObserver] are nil
    or set. *)
Record config := mkConfig {
  sandboxdToken : string; hasSandboxdFactory : bool; hasClaimObserver : bool
}.

Definition set_reservations (m : gmap nodePool reservation) (s : store) : store :=
  mkStore m (pending s) (overlays s) (pendingGen s).
Definition set_overlays (m : gmap string SandboxOverlay) (s : store) : store :=
  mkStore (reservations s) (pending s) m (pendingGen s).
(** Every write of the pending index is followed by [pendingGen.Add(1)]. *)
Definition set_pending (m : gmap string pendingClaim) (s : store) : store :=
  mkStore (reservations s) m (overlays s) ((pendingGen s + 1) mod 2 ^ 64).

Definition NewScatterGatherStore : store := mkStore ∅ ∅ ∅ 0.

(** [NewSandboxdClientFactory]'s base URL. *)
Definition sandboxdBaseURL (addr : string) : string :=
  if has_substring "://" addr then addr else "http://" +:+ addr.

(** ** Reservations *)

Definition debit (r : reservation) (generation : string) (take : bool) : Z * reservation :=
  let r := if bool_decide (rsGeneration r <> generation) then mkReservation generation 0 else r in
  let r := if take then mkReservation (rsGeneration r) (rsTaken r + 1) else r in
  (rsTaken r, r).

Definition reservationFor (s : store) (node : string) (pool : PoolKey) : reservation :=
  default (mkReservation "" 0) (reservations s !! (node, pool)).

(** [s.reservationFor(node, pool).debit(generation, take)]. *)
Definition debitFor (s : store) (node : string) (pool : PoolKey) (generation : string) (take : bool) :
    Z * store :=
  let '(n, r) := debit (reservationFor s node pool) generation take in
  (n, set_reservations (<[(node, pool) := r]> (reservations s)) s).

(** ** Synthesized sandboxes *)

Definition key_of (namespace name : string) : string := namespace +:+ "/" +:+ name.

Definition synthLabels (node : string) (e : InventoryEntry) : strmap :=
  let l : strmap := <[SandboxLaunchTypeLabel := SandboxLaunchTypeWarm]> {[NodeLabel := node]} in
  let l := if bool_decide (iePhase e <> "") then <[PhaseLabel := iePhase e]> l else l in
  let '(_, claim, _) := parseClaimRef (ieClaimRef e) in
  if bool_decide (claim <> "") then <[ClaimLabel := claim]> l else l.

Definition synthAnnotations (e : InventoryEntry) : strmap :=
  if bool_decide (ieID e = "") then ∅ else {[ClaimIDAnnotation := ieID e]}.

Definition synthOwnerRefs (ns : string) (e : InventoryEntry) : list OwnerReference :=
  let '(claimNS, claimName, uid) := parseClaimRef (ieClaimRef e) in
  if bool_decide (claimName = "") || bool_decide (uid = "") then []
  else if bool_decide (claimNS <> ns) then []
  else [mkOwnerRef "extensions.agents.x-k8s.io/v1beta1" "SandboxClaim" claimName uid
          (Some true) (Some true)].

Definition sandboxUID (ns name : string) (e : InventoryEntry) : string :=
  let seed := if bool_decide (ieID e = "") then key_of ns name else ieID e in
  let sum := Sha256.Sum256 (bytes ("cocoon-sandbox-uid|" +:+ seed)) in
  let sum := <[6%nat := Z.lor (Z.land (nth 6 sum 0) 0x0f) 0x40]> sum in
  let sum := <[8%nat := Z.lor (Z.land (nth 8 sum 0) 0x3f) 0x80]> sum in
  let part i j := hex_bytes (take (j - i) (drop i sum)) in
  part 0%nat 4%nat +:+ "-" +:+ part 4%nat 6%nat +:+ "-" +:+ part 6%nat 8%nat +:+ "-" +:+
  part 8%nat 10%nat +:+ "-" +:+ part 10%nat 16%nat.

Definition readyStatus (phase : string) : string :=
  if equal_fold_ascii phase "Running" || equal_fold_ascii phase "Ready"
  then ConditionTrue else ConditionFalse.

Definition readyReason (phase : string) : string :=
  if bool_decide (phase = "") then "Unknown" else phase.

Definition addressIPs (addr : string) : list string :=
  if bool_decide (addr = "") then []
  else match SplitHostPort addr with
       | Some (host, _) => if bool_decide (host <> "") then [host] else [addr]
       | None => [addr]
       end.

Definition resourceVersionFor (ns name : string) (e : InventoryEntry) : string :=
  FormatUint (Z.to_N (fnv64a
    (ns +:+ "/" +:+ name +:+ "|" +:+ ieID e +:+ "|" +:+ iePhase e +:+ "|" +:+ ieClaimRef e
     +:+ "|" +:+ ieAddress e))).

Definition entryToSandbox (node : string) (e : InventoryEntry) : Sandbox :=
  let '(ns, name, _) := parseClaimRef (ieName e) in
  mkSandbox
    (mkMeta name "" ns (sandboxUID ns name e) (resourceVersionFor ns name e) 0 0 None
       (synthLabels node e) (synthAnnotations e) (synthOwnerRefs ns e))
    emptySpec
    (mkSandboxStatus "" "" 
       [newCondition SandboxConditionReady (readyStatus (iePhase e)) (readyReason (iePhase e))
          "phase reported by node inventory" 0]
       "" (addressIPs (ieAddress e)) node).

Definition sandboxFields (sb : Sandbox) : strmap :=
  <["metadata.name" := sbName sb]> (<["metadata.namespace" := sbNamespace sb]>
    {["status.nodeName" := stNodeName (sbStatus sb)]}).

Definition objKey (sb : Sandbox) : string := key_of (sbNamespace sb) (sbName sb).

(** ** Overlays *)

Definition mergeOverlayMap (base written : strmap) : strmap :=
  map_fold (fun k v base => if bool_decide (v = "") then delete k base else <[k := v]> base)
    base written.

Definition Overlay (s : store) (namespace name : string) (ov : SandboxOverlay) : store :=
  set_overlays (<[key_of namespace name := ov]> (overlays s)) s.

Definition applyOverlay (s : store) (sb : Sandbox) : Sandbox :=
  match overlays s !! objKey sb with
  | None => sb
  | Some ov =>
      let sb := set_sbMeta (set_mLabels (fun l => mergeOverlayMap l (ovLabels ov))) sb in
      let sb := set_sbMeta (set_mAnnotations (fun a => mergeOverlayMap a (ovAnnotations ov))) sb in
      match ovSpec ov with Some spec => set_sbSpec spec sb | None => sb end
  end.

Definition forgetOverlay (s : store) (namespace name : string) : store :=
  set_overlays (delete (key_of namespace name) (overlays s)) s.

(** ** The pending index *)

Definition forgetClaim (s : store) (namespace name : string) : store :=
  match pending s !! key_of namespace name with
  | Some _ => set_pending (delete (key_of namespace name) (pending s)) s
  | None => s
  end.

Definition rememberClaim (s : store) (namespace name node : string) (e : InventoryEntry) :
    prog StoreE store :=
  now <- call ENow;;
  Ret (set_pending (<[key_of namespace name := mkPending node e now]> (pending s)) s).

Definition expired (now : Z) (pc : pendingClaim) : bool :=
  bool_decide (time_Sub now (pcAt pc) > pendingTTL).

Definition pendingFor (s : store) (namespace name : string) :
    prog StoreE (option pendingClaim * store) :=
  match pending s !! key_of namespace name with
  | None => Ret (None, s)
  | Some pc =>
      now <- call ENow;;
      if expired now pc then Ret (None, forgetClaim s namespace name) else Ret (Some pc, s)
  end.

Definition reconcilePending (s : store) (inv : NodeInventory) : store :=
  fold_left (fun s e =>
    let '(ns, name, _) := parseClaimRef (ieName e) in
    if bool_decide (name <> "") then forgetClaim s ns name else s) (niEntries inv) s.

(** ** Selectors

    [labels.Parse] and [fields.ParseSelector] are imported; an empty selector
    matches everything. *)

Class SelectorLib := {
  labels_Parse : string -> result (strmap -> bool);
  fields_ParseSelector : string -> result (strmap -> bool);
}.

Class SelectorLaws `{SelectorLib} : Prop := {
  labels_everything : exists sel, labels_Parse "" = Ok sel /\ forall m, sel m = true;
  fields_everything : exists sel, fields_ParseSelector "" = Ok sel /\ forall m, sel m = true;
}.

Section operations.
Context `{SelectorLib} (cfg : config).

Definition parseSelectors (opts : ListOptions) : result ((strmap -> bool) * (strmap -> bool)) :=
  match labels_Parse (loLabelSelector opts) with
  | Err e => Err (Wrap "scale: parse label selector" e)
  | Ok labelSel =>
      match fields_ParseSelector (loFieldSelector opts) with
      | Err e => Err (Wrap "scale: parse field selector" e)
      | Ok fieldSel => Ok (labelSel, fieldSel)
      end
  end.

(** The filters [materialize] and [unconfirmed] apply to a sandbox. *)
Definition selected (namespace : string) (labelSel fieldSel : strmap -> bool) (sb : Sandbox) : bool :=
  negb (bool_decide (namespace <> "") && bool_decide (sbNamespace sb <> namespace))
  && labelSel (sbLabels sb) && fieldSel (sandboxFields sb).

Definition materialize (s : store) (inv : NodeInventory) (namespace : string)
    (labelSel fieldSel : strmap -> bool) : list Sandbox :=
  filter (fun sb => selected namespace labelSel fieldSel sb)
    ((fun e => applyOverlay s (entryToSandbox (niNode inv) e)) <$> niEntries inv).

(** The [pending.Range] callback. *)
Definition unconfirmed_step (now : Z) (seen : gset string) (namespace : string)
    (labelSel fieldSel : strmap -> bool) (acc : list Sandbox * store) (kv : string * pendingClaim) :
    list Sandbox * store :=
  let '(out, s) := acc in
  let '(key, pc) := kv in
  if expired now pc then
    (out, match pending s !! key with
          | Some _ => set_pending (delete key (pending s)) s
          | None => s
          end)
  else if bool_decide (key ∈ seen) then (out, s)
  else
    let sb := applyOverlay s (entryToSandbox (pcNode pc) (pcEntry pc)) in
    if selected namespace labelSel fieldSel sb then (out ++ [sb], s) else (out, s).

Definition unconfirmed (s : store) (seen : gset string) (namespace : string)
    (labelSel fieldSel : strmap -> bool) : prog StoreE (list Sandbox * store) :=
  now <- call ENow;;
  Ret (fold_left (unconfirmed_step now seen namespace labelSel fieldSel)
         (map_to_list (pending s)) ([], s)).

(** ** Reads *)

Fixpoint max_inventory_version (nodes : list string) (max : N) : prog StoreE N :=
  match nodes with
  | [] => Ret max
  | n :: nodes =>
      r <- call (ENodeInventory n);;
      match r with
      | Err _ => max_inventory_version nodes max
      | Ok inv =>
          if bool_decide (niResourceVersion inv = "") then max_inventory_version nodes max
          else match ParseUint (niResourceVersion inv) with
               | Some v => max_inventory_version nodes (if bool_decide (max < v)%N then v else max)
               | None => max_inventory_version nodes max
               end
      end
  end.

Definition collectionResourceVersion (nodes : list string) : prog StoreE string :=
  max <- max_inventory_version nodes 0%N;;
  Ret (if bool_decide (max = 0%N) then "1" else FormatUint max).

(** [None] when some inventory or its version cannot be read. *)
Fixpoint strict_inventory_version (nodes : list string) (max : N) : prog StoreE (option N) :=
  match nodes with
  | [] => Ret (Some max)
  | n :: nodes =>
      r <- call (ENodeInventory n);;
      match r with
      | Err _ => Ret None
      | Ok inv =>
          match ParseUint (niResourceVersion inv) with
          | Some v => strict_inventory_version nodes (if bool_decide (max < v)%N then v else max)
          | None => Ret None
          end
      end
  end.

Definition collectionGeneration (s : store) : prog StoreE (string * bool) :=
  r <- call EListNodes;;
  match r with
  | Err _ => Ret ("", false)
  | Ok nodes =>
      m <- strict_inventory_version nodes 0%N;;
      match m with
      | None => Ret ("", false)
      | Some max => Ret (FormatUint max +:+ "@" +:+ FormatUint (Z.to_N (pendingGen s)), true)
      end
  end.

(** One goroutine of the fan-out per node: an unavailable node contributes
    nothing. *)
Fixpoint gather (s : store) (nodes : list string) (namespace : string)
    (labelSel fieldSel : strmap -> bool) : prog StoreE (list Sandbox * store) :=
  match nodes with
  | [] => Ret ([], s)
  | node :: nodes =>
      r <- call (ENodeInventory node);;
      match r with
      | Err _ => gather s nodes namespace labelSel fieldSel
      | Ok inv =>
          let s := reconcilePending s inv in
          let chunk := materialize s inv namespace labelSel fieldSel in
          let! (rest, s) := gather s nodes namespace labelSel fieldSel in
          Ret (chunk ++ rest, s)
      end
  end.

(** The comparison of [sort.Slice]: by namespace, then name. *)
Definition sandbox_le (a b : Sandbox) : Prop :=
  if decide (sbNamespace a = sbNamespace b) then String.le (sbName a) (sbName b)
  else String.le (sbNamespace a) (sbNamespace b).

#[global] Instance sandbox_le_dec : RelDecision sandbox_le.
Proof. intros a b. unfold sandbox_le. case_decide; apply _. Defined.

Record SandboxList := mkSandboxList { slResourceVersion : string; slItems : list Sandbox }.

Definition List_ (s : store) (opts : ListOptions) : prog StoreE (result SandboxList * store) :=
  match parseSelectors opts with
  | Err e => Ret (Err e, s)
  | Ok (labelSel, fieldSel) =>
      r <- call EListNodes;;
      match r with
      | Err e => Ret (Err (Wrap "scale: enumerate node inventories" e), s)
      | Ok nodes =>
          let! (items, s) := gather s nodes (loNamespace opts) labelSel fieldSel in
          let seen : gset string := list_to_set (objKey <$> items) in
          let! (more, s) := unconfirmed s seen (loNamespace opts) labelSel fieldSel in
          rv <- collectionResourceVersion nodes;;
          Ret (Ok (mkSandboxList rv (merge_sort sandbox_le (items ++ more))), s)
      end
  end.

Definition entry_is (namespace name : string) (e : InventoryEntry) : bool :=
  let '(ens, ename, _) := parseClaimRef (ieName e) in
  bool_decide (ens = namespace) && bool_decide (ename = name).

Fixpoint get_from_nodes (nodes : list string) (namespace name : string) :
    prog StoreE (option (string * InventoryEntry)) :=
  match nodes with
  | [] => Ret None
  | node :: nodes =>
      r <- call (ENodeInventory node);;
      match r with
      | Err _ => get_from_nodes nodes namespace name
      | Ok inv =>
          match List.find (entry_is namespace name) (niEntries inv) with
          | Some e => Ret (Some (niNode inv, e))
          | None => get_from_nodes nodes namespace name
          end
      end
  end.

Definition Get (s : store) (namespace name : string) : prog StoreE (result Sandbox * store) :=
  r <- call EListNodes;;
  match r with
  | Err e => Ret (Err (Wrap "scale: enumerate node inventories" e), s)
  | Ok nodes =>
      found <- get_from_nodes nodes namespace name;;
      match found with
      | Some (node, e) =>
          let s := forgetClaim s namespace name in
          Ret (Ok (applyOverlay s (entryToSandbox node e)), s)
      | None =>
          let! (pc, s) := pendingFor s namespace name in
          match pc with
          | Some pc => Ret (Ok (applyOverlay s (entryToSandbox (pcNode pc) (pcEntry pc))), s)
          | None => Ret (Err (APIStatus ReasonNotFound name), s)
          end
      end
  end.

(** ** Placement *)

Record candidate := mkCandidate {
  cdNode : string; cdAddr : string; cdGeneration : string; cdAvailable : Z
}.

(** The loop over one inventory's pools, [break] at the first with capacity. *)
Fixpoint scan_pools (s : store) (n : string) (inv : NodeInventory) (pool : PoolKey)
    (pools : list PoolCapacity) : option candidate * store :=
  match pools with
  | [] => (None, s)
  | pc :: pools =>
      if negb (poolCapacityMatches pc pool) then scan_pools s n inv pool pools
      else
        let '(taken, s) := debitFor s n pool (niResourceVersion inv) false in
        let available := pcWarm pc - taken in
        if bool_decide (available <= 0) then scan_pools s n inv pool pools
        else (Some (mkCandidate n (niAddress inv) (niResourceVersion inv) available), s)
  end.

Fixpoint scan_nodes (s : store) (nodes : list string) (pool : PoolKey) :
    prog StoreE (list candidate * store) :=
  match nodes with
  | [] => Ret ([], s)
  | n :: nodes =>
      r <- call (ENodeInventory n);;
      match r with
      | Err _ => scan_nodes s nodes pool
      | Ok inv =>
          if bool_decide (niAddress inv = "") then scan_nodes s nodes pool
          else
            let '(c, s) := scan_pools s n inv pool (niPools inv) in
            let! (rest, s) := scan_nodes s nodes pool in
            Ret (match c with Some c => c :: rest | None => rest end, s)
      end
  end.

Definition total_available (cs : list candidate) : Z := foldr Z.add 0 (cdAvailable <$> cs).

Definition candidate_le (a b : candidate) : Prop := String.le (cdNode a) (cdNode b).

#[global] Instance candidate_le_dec : RelDecision candidate_le.
Proof. intros a b. unfold candidate_le. apply _. Defined.

(** The walk over the sorted candidates; past the end it falls back to the
    last one. *)
Fixpoint weighted (cs : list candidate) (draw : Z) (last : candidate) : candidate :=
  match cs with
  | [] => last
  | c :: cs => if bool_decide (draw < cdAvailable c) then c
               else weighted cs (draw - cdAvailable c) c
  end.

Definition pickWarmNode (s : store) (pool : PoolKey) :
    prog StoreE (result (string * string) * store) :=
  r <- call EListNodes;;
  match r with
  | Err e => Ret (Err (Wrap "scale: enumerate node inventories" e), s)
  | Ok nodes =>
      let! (cs, s) := scan_nodes s nodes pool in
      match merge_sort candidate_le cs with
      | [] => Ret (Err ErrNoWarmCapacity, s)
      | c0 :: cs' =>
          draw <- call (EIntN (total_available cs));;
          let c := weighted (c0 :: cs') draw c0 in
          let '(_, s) := debitFor s (cdNode c) pool (cdGeneration c) true in
          Ret (Ok (cdNode c, cdAddr c), s)
      end
  end.

(** ** Claim and release *)

Definition Claim (s : store) (namespace name : string) (pool : PoolKey) (ownerUID : string) :
    prog StoreE (result Assignment * store) :=
  if negb (hasSandboxdFactory cfg) then
    Ret (Err (Errorf "scale: claim routing not configured"), s)
  else
    let! (pc, s) := pendingFor s namespace name in
    match pc with
    | Some _ => Ret (Err (Wrap "scale: claim on node" ErrClaimExists), s)
    | None =>
        let! (picked, s) := pickWarmNode s pool in
        match picked with
        | Err e => Ret (Err e, s)
        | Ok (node, addr) =>
            res <- call (ESandboxd addr (sandboxdToken cfg)
              (SdClaim (mkClaimSpec (Template pool) (Net pool) (Size pool) 0
                          (formatClaimRef namespace name ownerUID))));;
            match res with
            | Err e =>
                if IsNodeAtCapacity e
                then Ret (Err (Wrap "scale: claim: node warm-raced" ErrNoWarmCapacity), s)
                else Ret (Err (Wrap "scale: claim on node" e), s)
            | Ok res =>
                (if hasClaimObserver cfg
                 then call (EClaimObserver (mkClaimInfo (crID res) namespace name
                                              (crToken res) (crOwnerAddr res)))
                 else Ret tt);;;
                s <- rememberClaim s namespace name node
                       (mkEntry (key_of namespace name) (crID res) "Running"
                          (formatClaimRef namespace name ownerUID) (crOwnerAddr res));;
                Ret (Ok (mkAssignment (crID res) node (crOwnerAddr res) (crToken res)), s)
            end
        end
    end.

Definition Release (s : store) (node id : string) : prog StoreE (option gerror * store) :=
  if negb (hasSandboxdFactory cfg) then
    Ret (Some (Errorf "scale: claim routing not configured"), s)
  else if bool_decide (id = "") then Ret (Some (Errorf "scale: release requires a claim id"), s)
  else
    r <- call (ENodeInventory node);;
    match r with
    | Err e => Ret (Some (Wrap "scale: resolve node for release" e), s)
    | Ok inv =>
        if bool_decide (niAddress inv = "") then
          Ret (Some (Errorf "scale: node advertises no sandboxd address"), s)
        else
          err <- call (ESandboxd (niAddress inv) (sandboxdToken cfg)
                         (SdRelease id (sandboxdToken cfg)));;
          match err with
          | Some e => Ret (Some (Wrap "scale: sandboxd release" e), s)
          | None =>
              match List.find (fun kv => bool_decide (ieID (pcEntry kv.2) = id))
                      (map_to_list (pending s)) with
              | Some (k, _) =>
                  let s := set_pending (delete k (pending s)) s in
                  Ret (None, set_overlays (delete k (overlays s)) s)
              | None => Ret (None, s)
              end
          end
    end.
End operations.

End Store.
