(* ===== verification/StoreFacts.v ===== *)
(** * StoreFacts: what the aggregated store guarantees.

    Read-your-writes over a lagging inventory, refusal of a repeated claim,
    no over-commitment of a node within one inventory generation, the change
    counter of the pending index, overlays, and the identity of the objects
    synthesized from inventory. *)

From S2P Require Import Prelude GoStrings K8s PoolKey SandboxId Types Sha256 StoreModel.

Module StoreFacts.
Import Pool ClaimRef Store.
#[local] Open Scope prog_scope.

(** ** Keys *)

Lemma key_of_format ns name : key_of ns name = formatClaimRef ns name "".
Proof. unfold key_of, formatClaimRef. by rewrite bool_decide_true. Qed.

Lemma parse_key ns name : plain ns -> plain name -> parseClaimRef (key_of ns name) = (ns, name, "").
Proof. rewrite key_of_format. apply parse_format. Qed.

Lemma key_of_inj ns name ns' name' :
  has_byte "/"%char ns = false -> has_byte "/"%char ns' = false ->
  key_of ns name = key_of ns' name' -> ns = ns' /\ name = name'.
Proof.
  intros Hn Hn'. unfold key_of.
  change ("/" +:+ name) with (String "/"%char name).
  change ("/" +:+ name') with (String "/"%char name'). by apply sep_inj.
Qed.

Lemma parse_ns_plain ref ns name uid :
  parseClaimRef ref = (ns, name, uid) -> has_byte "/"%char ns = false.
Proof.
  unfold parseClaimRef, splitNamespacedName. case_bool_decide; [by intros [= <- _ _]|].
  destruct (cut_byte "#"%char ref) as [[a b]|];
    (destruct (cut_byte "/"%char _) as [[x y]|] eqn:E; intros [= <- _ _]; [|done];
     by apply cut_byte_Some in E as [_ ?]).
Qed.

(** ** Overlays *)

Lemma mergeOverlayMap_lookup (base written : strmap) k :
  mergeOverlayMap base written !! k =
  match written !! k with
  | Some v => if bool_decide (v = "") then None else Some v
  | None => base !! k
  end.
Proof.
  unfold mergeOverlayMap. revert k.
  apply (map_fold_weak_ind (fun (r : strmap) (w : strmap) => forall k, r !! k =
    match w !! k with
    | Some v => if bool_decide (v = "") then None else Some v
    | None => base !! k end)).
  - intros k. by rewrite lookup_empty.
  - intros i v w r Hi IH k. destruct (decide (i = k)) as [->|Hne].
    + rewrite lookup_insert_eq. case_bool_decide; [by rewrite lookup_delete_eq|by rewrite lookup_insert_eq].
    + rewrite lookup_insert_ne by done.
      case_bool_decide; [rewrite lookup_delete_ne by done|rewrite lookup_insert_ne by done]; apply IH.
Qed.

Lemma applyOverlay_id s sb :
  sbNamespace (applyOverlay s sb) = sbNamespace sb /\ sbName (applyOverlay s sb) = sbName sb /\
  sbStatus (applyOverlay s sb) = sbStatus sb.
Proof. unfold applyOverlay. repeat case_match; done. Qed.

Lemma applyOverlay_key s sb : objKey (applyOverlay s sb) = objKey sb.
Proof. unfold objKey. by destruct (applyOverlay_id s sb) as (-> & -> & _). Qed.

Lemma entryToSandbox_name node e ns name uid :
  parseClaimRef (ieName e) = (ns, name, uid) ->
  sbNamespace (entryToSandbox node e) = ns /\ sbName (entryToSandbox node e) = name.
Proof. intros Hp. unfold entryToSandbox. by rewrite Hp. Qed.

(** ** Effects of the operations on the pending index *)

Definition same_but_pending (s s' : store) : Prop :=
  reservations s' = reservations s /\ overlays s' = overlays s.

Lemma forgetClaim_lookup s ns name k :
  pending (forgetClaim s ns name) !! k =
  if decide (k = key_of ns name) then None else pending s !! k.
Proof.
  unfold forgetClaim. destruct (pending s !! key_of ns name) eqn:E; simpl.
  - case_decide; subst; [by rewrite lookup_delete_eq|by rewrite lookup_delete_ne].
  - case_decide; by subst.
Qed.

Lemma forgetClaim_overlays s ns name : overlays (forgetClaim s ns name) = overlays s.
Proof. unfold forgetClaim. by case_match. Qed.

Lemma reconcile_overlays s inv : overlays (reconcilePending s inv) = overlays s.
Proof.
  unfold reconcilePending. generalize (niEntries inv). intros l. revert s.
  induction l as [|e l IH]; intros s; simpl; [done|]. rewrite IH.
  destruct (parseClaimRef (ieName e)) as [[ns name] uid].
  case_bool_decide; [apply forgetClaim_overlays|done].
Qed.

(** A pending claim survives [reconcilePending] unless the inventory has an
    entry of its name. *)
Lemma reconcile_pending s inv ns name pc :
  has_byte "/"%char ns = false ->
  pending s !! key_of ns name = Some pc ->
  pending (reconcilePending s inv) !! key_of ns name = Some pc \/
  exists e uid, e ∈ niEntries inv /\ parseClaimRef (ieName e) = (ns, name, uid).
Proof.
  intros Hns. unfold reconcilePending. generalize (niEntries inv). intros l. revert s.
  induction l as [|e l IH]; intros s Hp; simpl; [by left|].
  destruct (parseClaimRef (ieName e)) as [[ns' name'] uid] eqn:Epar.
  destruct (decide (key_of ns name = key_of ns' name')) as [Hk|Hk].
  - right. apply key_of_inj in Hk as [-> ->]; [|done|by eapply parse_ns_plain].
    exists e, uid. split; [left|done].
  - assert (forall s', pending s' !! key_of ns name = Some pc ->
      pending (fold_left (fun s e => let '(ns, name, _) := parseClaimRef (ieName e) in
        if bool_decide (name <> "") then forgetClaim s ns name else s) l s')
        !! key_of ns name = Some pc \/
      exists e' uid, e' ∈ e :: l /\ parseClaimRef (ieName e') = (ns, name, uid)) as Hgo.
    { intros s' Hs'. destruct (IH s' Hs') as [?|(e' & u & ? & ?)]; [by left|].
      right. exists e', u. split; [by right|done]. }
    apply Hgo. case_bool_decide; [|done]. rewrite forgetClaim_lookup. by rewrite decide_False.
Qed.

(** ** Answers of the outside world *)

(** Node enumeration succeeds and the clock stays within one [pendingTTL]. *)
Definition timely (t0 : Z) (X : Type) (e : StoreE X) : X -> Prop :=
  match e in StoreE X return X -> Prop with
  | EListNodes => fun r => isOk r = true
  | ENow => fun now => t0 <= now <= t0 + pendingTTL
  | _ => fun _ => True
  end.

Definition is_sandboxd {X} (e : StoreE X) : bool :=
  match e with ESandboxd _ _ _ => true | _ => false end.

(** No restriction on the calls a program makes. *)
Definition any_call (X : Type) (e : StoreE X) : Prop := True.
Definition no_sandboxd (X : Type) (e : StoreE X) : Prop := is_sandboxd e = false.

(** A pending claim made inside the window. *)
Definition recent (t0 : Z) (s : store) (ns name : string) (pc : pendingClaim) : Prop :=
  pending s !! key_of ns name = Some pc /\ t0 <= pcAt pc <= t0 + pendingTTL /\
  ieName (pcEntry pc) = key_of ns name.

Lemma not_expired t0 now pc :
  t0 <= now <= t0 + pendingTTL -> t0 <= pcAt pc -> expired now pc = false.
Proof.
  intros Hn Hp. apply bool_decide_eq_false. unfold time_Sub, int64_min, int64_max, pendingTTL in *.
  unfold time_minute, time_second in *. lia.
Qed.

Lemma pendingFor_recent ok t0 s ns name pc :
  (forall X e, no_sandboxd X e -> ok X e) -> recent t0 s ns name pc ->
  spec ok (timely t0) (fun r => r = (Some pc, s)) (pendingFor s ns name).
Proof.
  intros Hok (Hp & Hat & _). unfold pendingFor. rewrite Hp. simpl. split; [by apply Hok|].
  intros now Hnow. rewrite (not_expired t0) by (done || lia). done.
Qed.

Lemma get_from_nodes_spec ok rsp nodes ns name :
  (forall X e, no_sandboxd X e -> ok X e) ->
  spec ok rsp (fun r => forall node e, r = Some (node, e) -> entry_is ns name e = true)
    (get_from_nodes nodes ns name).
Proof.
  intros Hok. induction nodes as [|n nodes IH]; simpl; [done|]. split; [by apply Hok|].
  intros [inv|err] _; [|done].
  destruct (List.find (entry_is ns name) (niEntries inv)) as [e|] eqn:E; [|done].
  simpl. intros node e' [= <- <-]. by apply find_some in E as [_ ?].
Qed.

Lemma entry_is_parse ns name e :
  entry_is ns name e = true -> exists uid, parseClaimRef (ieName e) = (ns, name, uid).
Proof.
  unfold entry_is. destruct (parseClaimRef (ieName e)) as [[a b] u].
  intros [->%bool_decide_eq_true ->%bool_decide_eq_true]%andb_true_iff. by eexists.
Qed.

(** A sandbox with a recent claim is never reported missing. *)
Lemma Get_recent t0 s ns name pc :
  plain ns -> plain name -> recent t0 s ns name pc ->
  spec any_call (timely t0)
    (fun r => exists sb, r.1 = Ok sb /\ sbNamespace sb = ns /\ sbName sb = name)
    (Get s ns name).
Proof.
  intros Hns Hname Hr. unfold Get. simpl. split; [done|]. intros [nodes|e] Hl; [|done].
  eapply spec_bind; [by apply get_from_nodes_spec|]. intros [[node e]|] He; simpl.
  - eexists; split; [done|]. destruct (entry_is_parse _ _ _ (He _ _ eq_refl)) as [uid Hp].
    destruct (applyOverlay_id (forgetClaim s ns name) (entryToSandbox node e)) as (-> & -> & _).
    by eapply entryToSandbox_name.
  - eapply spec_bind; [by eapply (pendingFor_recent any_call)|]. intros ? ->. simpl.
    eexists; split; [done|]. destruct Hr as (_ & _ & He').
    destruct (applyOverlay_id s (entryToSandbox (pcNode pc) (pcEntry pc))) as (-> & -> & _).
    eapply entryToSandbox_name. rewrite He'. by apply parse_key.
Qed.

(** ** Claim *)

(** The one node call of a claim names the object and its owner. *)
Definition claim_calls (ns name : string) (pool : PoolKey) (uid : string) (X : Type) (e : StoreE X) :
    Prop :=
  match e with
  | ESandboxd _ _ (SdClaim spec) =>
      spec = mkClaimSpec (Template pool) (Net pool) (Size pool) 0 (formatClaimRef ns name uid)
  | ESandboxd _ _ _ => False
  | _ => True
  end.

Lemma claim_calls_quiet ns name pool uid X (e : StoreE X) :
  no_sandboxd X e -> claim_calls ns name pool uid X e.
Proof. by destruct e. Qed.

(** Node scans leave everything but the reservations alone and call only the
    inventory source. *)
Definition same_but_reservations (s s' : store) : Prop :=
  pending s' = pending s /\ overlays s' = overlays s /\ pendingGen s' = pendingGen s.

Lemma debitFor_frame s n pool g take : same_but_reservations s (debitFor s n pool g take).2.
Proof. unfold debitFor. by destruct (debit _ _ _). Qed.

Lemma same_but_reservations_trans s1 s2 s3 :
  same_but_reservations s1 s2 -> same_but_reservations s2 s3 -> same_but_reservations s1 s3.
Proof. intros (? & ? & ?) (? & ? & ?). by split_and!; etrans. Qed.

Lemma scan_pools_frame s n inv pool pools :
  same_but_reservations s (scan_pools s n inv pool pools).2.
Proof.
  revert s. induction pools as [|pc pools IH]; intros s; cbn [scan_pools]; [done|].
  destruct (negb _); [apply IH|].
  pose proof (debitFor_frame s n pool (niResourceVersion inv) false) as Hd.
  destruct (debitFor s n pool (niResourceVersion inv) false) as [taken s'].
  case_bool_decide; [|done]. by eapply same_but_reservations_trans.
Qed.

Lemma scan_nodes_frame (ok : forall X, StoreE X -> Prop) rsp s nodes pool :
  (forall X e, no_sandboxd X e -> ok X e) ->
  spec ok rsp (fun r => same_but_reservations s r.2) (scan_nodes s nodes pool).
Proof.
  intros Hok. revert s. induction nodes as [|n nodes IH]; intros s; simpl; [done|].
  split; [by apply Hok|]. intros [inv|e] _; [|apply IH].
  case_bool_decide; [apply IH|].
  pose proof (scan_pools_frame s n inv pool (niPools inv)) as Hp.
  destruct (scan_pools s n inv pool (niPools inv)) as [c s']; simpl in *.
  eapply spec_bind; [apply IH|]. intros [rest s''] Hs; simpl in *.
  by eapply same_but_reservations_trans.
Qed.

Lemma pickWarmNode_frame (ok : forall X, StoreE X -> Prop) rsp s pool :
  (forall X e, no_sandboxd X e -> ok X e) ->
  spec ok rsp (fun r => same_but_reservations s r.2) (pickWarmNode s pool).
Proof.
  intros Hok. unfold pickWarmNode. simpl. split; [by apply Hok|]. intros [nodes|e] _; [|done].
  eapply spec_bind; [by apply scan_nodes_frame|]. intros [cs s'] Hf; simpl in *.
  destruct (merge_sort candidate_le cs) as [|c0 cs']; [done|]. simpl. split; [by apply Hok|].
  intros draw _.
  pose proof (debitFor_frame s' (cdNode (weighted (c0 :: cs') draw c0)) pool
    (cdGeneration (weighted (c0 :: cs') draw c0)) true) as Hd.
  destruct (debitFor _ _ _ _ _) as [t s'']. simpl. by eapply same_but_reservations_trans.
Qed.

Lemma pendingFor_frame (ok : forall X, StoreE X -> Prop) rsp s ns name :
  (forall X e, no_sandboxd X e -> ok X e) ->
  spec ok rsp (fun r => overlays r.2 = overlays s /\
                match r.1 with
                | Some pc => r.2 = s /\ pending s !! key_of ns name = Some pc
                | None => r.2 = forgetClaim s ns name
                end)
    (pendingFor s ns name).
Proof.
  intros Hok. unfold pendingFor. destruct (pending s !! key_of ns name) eqn:E; simpl.
  - split; [by apply Hok|]. intros now _. case_match; simpl; [|done].
    by rewrite forgetClaim_overlays.
  - unfold forgetClaim. by rewrite E.
Qed.

(** A successful claim leaves a recent pending entry that names what was
    handed out. *)
Lemma Claim_spec cfg t0 s ns name pool uid :
  spec (claim_calls ns name pool uid) (timely t0)
    (fun r => match r.1 with
              | Ok a => exists pc, recent t0 r.2 ns name pc /\ pcNode pc = asNode a /\
                  ieID (pcEntry pc) = asSandboxName a /\ ieAddress (pcEntry pc) = asAddress a /\
                  ieClaimRef (pcEntry pc) = formatClaimRef ns name uid /\
                  overlays r.2 = overlays s
              | Err _ => True
              end)
    (Claim cfg s ns name pool uid).
Proof.
  unfold Claim. case_match; [done|].
  eapply spec_bind; [apply pendingFor_frame, claim_calls_quiet|].
  intros [[pc|] s1] [Ho1 _]; [done|]. cbn beta iota. cbn [fst snd] in *.
  eapply spec_bind; [apply pickWarmNode_frame, claim_calls_quiet|].
  intros [[[node addr]|e] s2] (Hp2 & Ho2 & _); [|done]. cbn beta iota. cbn [fst snd] in *.
  split; [done|]. intros [res|e] _; cbn [bind call]; [|by destruct (IsNodeAtCapacity e)].
  eapply (spec_bind _ _ (fun _ => True)); [by destruct (hasClaimObserver cfg)|].
  intros _ _. simpl. split; [done|]. intros now Hnow. simpl.
  eexists. split; [split; [apply lookup_insert_eq|done]|]. by rewrite Ho2, Ho1.
Qed.

(** ** List *)

Section listing.
Context `{SelectorLib} (namespace : string) (labelSel fieldSel : strmap -> bool).

Definition named (ns name : string) (sb : Sandbox) : Prop :=
  sbNamespace sb = ns /\ sbName sb = name.

Lemma materialize_in s inv e ns name uid :
  e ∈ niEntries inv -> parseClaimRef (ieName e) = (ns, name, uid) ->
  (forall sb, named ns name sb -> selected namespace labelSel fieldSel sb = true) ->
  exists sb, sb ∈ materialize s inv namespace labelSel fieldSel /\ named ns name sb.
Proof.
  intros He Hp Hsel. exists (applyOverlay s (entryToSandbox (niNode inv) e)).
  assert (named ns name (applyOverlay s (entryToSandbox (niNode inv) e))) as Hn.
  { unfold named. destruct (applyOverlay_id s (entryToSandbox (niNode inv) e)) as (-> & -> & _).
    by eapply entryToSandbox_name. }
  split; [|done]. unfold materialize. apply list_elem_of_filter. split; [by rewrite Hsel|].
  apply list_elem_of_fmap. by exists e.
Qed.

Definition slash_free (l : list Sandbox) : Prop :=
  Forall (fun sb => has_byte "/"%char (sbNamespace sb) = false) l.

Lemma materialize_slash_free s inv : slash_free (materialize s inv namespace labelSel fieldSel).
Proof.
  apply Forall_forall. intros sb. unfold materialize.
  intros [_ (e & -> & _)%list_elem_of_fmap]%list_elem_of_filter.
  destruct (applyOverlay_id s (entryToSandbox (niNode inv) e)) as (-> & _ & _).
  destruct (parseClaimRef (ieName e)) as [[ns name] uid] eqn:E.
  destruct (entryToSandbox_name (niNode inv) e _ _ _ E) as [-> _]. by eapply parse_ns_plain.
Qed.

Lemma gather_slash_free rsp s nodes :
  spec any_call rsp (fun r => slash_free r.1) (gather s nodes namespace labelSel fieldSel).
Proof.
  revert s. induction nodes as [|n nodes IH]; intros s; simpl; [by constructor|].
  split; [done|]. intros [inv|e] _; [|apply IH].
  eapply spec_bind; [apply IH|]. intros [rest s'] Hr.
  apply Forall_app_2; [apply materialize_slash_free|done].
Qed.

(** The fan-out either reports the sandbox or leaves its claim pending. *)
Lemma gather_recent rsp s nodes ns name pc :
  has_byte "/"%char ns = false -> pending s !! key_of ns name = Some pc ->
  (forall sb, named ns name sb -> selected namespace labelSel fieldSel sb = true) ->
  spec any_call rsp
    (fun r => (exists sb, sb ∈ r.1 /\ named ns name sb) \/
              pending r.2 !! key_of ns name = Some pc /\ slash_free r.1)
    (gather s nodes namespace labelSel fieldSel).
Proof.
  intros Hns Hp Hsel. revert s Hp.
  induction nodes as [|n nodes IH]; intros s Hp; simpl; [right; by repeat constructor|].
  split; [done|]. intros [inv|e] _; [|by apply IH].
  destruct (reconcile_pending s inv ns name pc Hns Hp) as [Hk|(e & uid & He & Hpar)].
  - eapply spec_bind; [by apply IH|].
    intros [rest s'] [(sb & Hin & Hn)|[Hk' Hf]]; simpl in *; [left|right].
    + exists sb. split; [|done]. apply elem_of_app. by right.
    + split; [done|]. apply Forall_app_2; [apply materialize_slash_free|done].
  - eapply spec_bind; [apply gather_slash_free|]. intros [rest s'] _. left.
    destruct (materialize_in (reconcilePending s inv) inv e ns name uid He Hpar Hsel) as (sb & ? & ?).
    exists sb. split; [|done]. apply elem_of_app. by left.
Qed.

Lemma unconfirmed_step_keeps now seen acc kv sb :
  sb ∈ acc.1 -> sb ∈ (unconfirmed_step now seen namespace labelSel fieldSel acc kv).1.
Proof.
  destruct acc as [out s], kv as [k pc]. simpl. intros Hin.
  repeat case_match; simpl; try done. apply elem_of_app. by left.
Qed.

Lemma unconfirmed_fold_keeps now seen l acc sb :
  sb ∈ acc.1 -> sb ∈ (fold_left (unconfirmed_step now seen namespace labelSel fieldSel) l acc).1.
Proof.
  revert acc. induction l as [|kv l IH]; intros acc Hin; simpl; [done|].
  by apply IH, unconfirmed_step_keeps.
Qed.

Lemma unconfirmed_recent now seen s l ns name pc acc :
  plain ns -> plain name -> (key_of ns name, pc) ∈ l ->
  ieName (pcEntry pc) = key_of ns name -> expired now pc = false -> key_of ns name ∉ seen ->
  (forall sb, named ns name sb -> selected namespace labelSel fieldSel sb = true) ->
  acc = (fold_left (unconfirmed_step now seen namespace labelSel fieldSel) l s) ->
  exists sb, sb ∈ acc.1 /\ named ns name sb.
Proof.
  intros Hns Hname Hin He Hx Hseen Hsel ->.
  apply list_elem_of_split in Hin as (l1 & l2 & ->). rewrite fold_left_app. cbn [fold_left].
  destruct (fold_left _ l1 _) as [out s'']. clear s. rename s'' into s.
  assert (named ns name (applyOverlay s (entryToSandbox (pcNode pc) (pcEntry pc)))) as Hn.
  { unfold named. destruct (applyOverlay_id s (entryToSandbox (pcNode pc) (pcEntry pc))) as (-> & -> & _).
    eapply entryToSandbox_name. rewrite He. by apply parse_key. }
  eexists. split; [|exact Hn]. apply unconfirmed_fold_keeps.
  unfold unconfirmed_step. rewrite Hx, bool_decide_false, Hsel by done. simpl. apply elem_of_app. right. left.
Qed.
End listing.

(** A selector that accepts every sandbox of that name. *)
Definition accepts `{SelectorLib} (opts : ListOptions) (ns name : string) : Prop :=
  match parseSelectors opts with
  | Ok (labelSel, fieldSel) =>
      forall sb, named ns name sb -> selected (loNamespace opts) labelSel fieldSel sb = true
  | Err _ => False
  end.

Lemma collectionResourceVersion_any rsp nodes :
  spec any_call rsp (fun _ => True) (collectionResourceVersion nodes).
Proof.
  unfold collectionResourceVersion. eapply (spec_bind _ _ (fun _ => True)); [|done].
  generalize 0%N. induction nodes as [|n nodes IH]; intros m; simpl; [done|]. split; [done|].
  intros [inv|e] _; [|apply IH]. repeat case_match; apply IH.
Qed.

Lemma List_recent `{SelectorLib} t0 s opts ns name pc :
  plain ns -> plain name -> recent t0 s ns name pc -> accepts opts ns name ->
  spec any_call (timely t0)
    (fun r => exists l, r.1 = Ok l /\ exists sb, sb ∈ slItems l /\ named ns name sb)
    (List_ s opts).
Proof.
  intros Hns Hname Hr Ha. unfold List_, accepts in *.
  destruct (parseSelectors opts) as [[labelSel fieldSel]|e]; [|done].
  cbn [bind call]. split; [done|]. intros [nodes|e] Hl; [|done]. cbn [bind].
  eapply spec_bind.
  { eapply gather_recent; [apply Hns|apply Hr|exact Ha]. }
  intros [items s'] Hg. cbn [fst snd] in Hg. unfold unconfirmed. cbn [bind call].
  split; [done|]. intros now Hnow. cbn [bind].
  destruct (fold_left _ _ _) as [more s''] eqn:Ef.
  eapply spec_bind; [apply collectionResourceVersion_any|]. intros rv _. simpl.
  eexists. split; [done|]. simpl. setoid_rewrite merge_sort_Permutation.
  setoid_rewrite elem_of_app. destruct Hr as (_ & Hat & He).
  destruct (decide (key_of ns name ∈ (list_to_set (objKey <$> items) : gset string))) as [Hs|Hs].
  - apply elem_of_list_to_set, list_elem_of_fmap in Hs as (sb & Hk & Hin).
    destruct Hg as [(sb' & ? & ?)|[_ Hf]]; [eauto|].
    exists sb. split; [by left|]. unfold slash_free in Hf. rewrite Forall_forall in Hf.
    apply key_of_inj in Hk as [? ?]; [done|apply Hns|by apply Hf].
  - destruct Hg as [(sb' & ? & ?)|[Hg _]]; [eauto|].
    assert (expired now pc = false) as Hx by (eapply not_expired; [exact Hnow|lia]).
    destruct (unconfirmed_recent (loNamespace opts) labelSel fieldSel now _ ([], s') _ ns name pc
      (more, s'') Hns Hname (proj2 (elem_of_map_to_list _ _ _) Hg) He Hx Hs Ha (eq_sym Ef))
      as (sb & ? & ?). eauto.
Qed.

(** ** Reads and repeated claims after a claim *)

(** C3.  Read-your-writes: in the state a successful [Claim] leaves, and for as
    long as the clock stays within one [pendingTTL], [Get] finds the sandbox and
    [List] contains it under any selector that accepts it, whatever the node
    inventories do or do not report. *)
Theorem read_your_writes `{SelectorLib} cfg s ns name pool uid opts t0 :
  plain ns -> plain name -> accepts opts ns name ->
  spec any_call (timely t0)
    (fun '(r, s') =>
       isOk r = true ->
       spec any_call (timely t0) (fun g => exists sb, g.1 = Ok sb /\ named ns name sb) (Get s' ns name) /\
       spec any_call (timely t0)
         (fun l => exists items, l.1 = Ok items /\ exists sb, sb ∈ slItems items /\ named ns name sb)
         (List_ s' opts))
    (Claim cfg s ns name pool uid).
Proof.
  intros Hns Hname Ha.
  eapply (spec_mono (claim_calls ns name pool uid)); [done| |apply Claim_spec].
  intros [[a|e] s'] Hpost; [|done]. destruct Hpost as (pc & Hr & _). intros _.
  split; [by eapply Get_recent|by eapply List_recent].
Qed.

(** A repeated claim is refused: in the state a successful [Claim] leaves
    and within one [pendingTTL], claiming the same name again, for any pool and
    owner, fails with [ErrClaimExists] and makes no call to any node.  The first
    claim's only node calls are sandboxd claims carrying the object's claim
    reference. *)
Theorem repeat_claim_refused cfg s ns name pool uid t0 :
  spec (claim_calls ns name pool uid) (timely t0)
    (fun '(r, s') =>
       isOk r = true ->
       forall pool' uid',
       spec no_sandboxd (timely t0)
         (fun r2 => exists e, r2.1 = Err e /\ IsClaimExists e = true)
         (Claim cfg s' ns name pool' uid'))
    (Claim cfg s ns name pool uid).
Proof.
  destruct (hasSandboxdFactory cfg) eqn:Hf.
  2: { unfold Claim. rewrite Hf. simpl. done. }
  eapply spec_mono; [by intros X e He; exact He| |apply Claim_spec].
  intros [[a|e] s'] Hpost; [|done]. destruct Hpost as (pc & Hr & _). intros _ pool' uid'.
  unfold Claim. rewrite Hf. cbn [negb].
  eapply spec_bind; [by eapply pendingFor_recent|]. intros ? ->. simpl. by eexists.
Qed.

(** ** Placement within one inventory generation *)

(** The claims already counted against a node at inventory version [g]. *)
Definition counted (g : string) (r : reservation) : Z :=
  if decide (rsGeneration r = g) then rsTaken r else 0.

Lemma debitFor_counted s n pool g take n' g' :
  (n' = n -> g' = g) ->
  counted g' (reservationFor (debitFor s n pool g take).2 n' pool) =
  counted g' (reservationFor s n' pool) + (if decide (n' = n) then if take then 1 else 0 else 0).
Proof.
  intros Hg. unfold debitFor. destruct (debit (reservationFor s n pool) g take) as [t r] eqn:E.
  cbn [snd]. unfold reservationFor at 1. cbn [set_reservations reservations].
  case_decide as Hn; [subst n'; rewrite lookup_insert_eq|rewrite lookup_insert_ne by congruence; fold (reservationFor s n' pool); lia].
  rewrite (Hg eq_refl). cbn [default]. unfold debit in E. unfold counted.
  case_bool_decide as Hb; destruct take; simplify_eq/=.
  all: repeat case_decide; try congruence; try lia.
  all: unfold reservationFor in *; naive_solver.
Qed.

Lemma debitFor_taken s n pool g :
  (debitFor s n pool g false).1 = counted g (reservationFor s n pool).
Proof.
  unfold debitFor, debit, counted. case_bool_decide; case_decide; try done; naive_solver.
Qed.

(** The most warm microVMs an inventory advertises for a pool. *)
Definition capacity (inv : NodeInventory) (pool : PoolKey) : Z :=
  foldr Z.max 0 (pcWarm <$> filter (fun pc => poolCapacityMatches pc pool) (niPools inv)).

Section placement.
Context (inv : string -> result NodeInventory) (nodes : list string) (pool : PoolKey).

(** The inventory does not change, and [rand.IntN] with a positive bound answers
    below it. *)
Definition steady (X : Type) (e : StoreE X) : X -> Prop :=
  match e in StoreE X return X -> Prop with
  | EListNodes => fun r => r = Ok nodes
  | ENodeInventory n => fun r => r = inv n
  | EIntN n => fun x => 0 < n -> 0 <= x < n
  | _ => fun _ => True
  end.

(** [rand.IntN] panics on a non-positive bound. *)
Definition draws_safe (X : Type) (e : StoreE X) : Prop :=
  match e with EIntN n => 0 < n | _ => True end.

(** The claims counted against node [n] at its current version. *)
Definition load (s : store) (n : string) : Z :=
  match inv n with
  | Ok i => counted (niResourceVersion i) (reservationFor s n pool)
  | Err _ => 0
  end.

Definition sound_candidate (s : store) (c : candidate) : Prop :=
  exists i, inv (cdNode c) = Ok i /\ cdGeneration c = niResourceVersion i /\
    cdAddr c = niAddress i /\ niAddress i <> "" /\
    0 < cdAvailable c <= capacity i pool - load s (cdNode c).

Lemma load_debit s n i take n' :
  inv n = Ok i ->
  load (debitFor s n pool (niResourceVersion i) take).2 n' =
  load s n' + (if decide (n' = n) then if take then 1 else 0 else 0).
Proof.
  intros Hi. unfold load. destruct (inv n') as [i'|] eqn:E'.
  - rewrite debitFor_counted; [done|]. intros ->. congruence.
  - case_decide; [congruence|lia].
Qed.

Lemma capacity_le i pc :
  pc ∈ niPools i -> poolCapacityMatches pc pool = true -> pcWarm pc <= capacity i pool.
Proof.
  intros Hin Hm. unfold capacity.
  assert (pcWarm pc ∈ pcWarm <$> filter (fun pc => poolCapacityMatches pc pool) (niPools i)) as Hx.
  { apply list_elem_of_fmap. exists pc. split; [done|]. apply list_elem_of_filter. by rewrite Hm. }
  induction Hx as [x l|x y l Hx IH]; simpl; lia.
Qed.

Lemma scan_pools_sound s n i pools c s' :
  inv n = Ok i -> niAddress i <> "" -> (forall pc, pc ∈ pools -> pc ∈ niPools i) ->
  scan_pools s n i pool pools = (c, s') ->
  (forall n', load s' n' = load s n') /\
  match c with Some c => sound_candidate s c /\ cdNode c = n | None => True end.
Proof.
  intros Hi Haddr. revert s. induction pools as [|pc pools IH]; intros s Hsub; cbn [scan_pools].
  { by intros [= <- <-]. }
  destruct (poolCapacityMatches pc pool) eqn:Hm; cbn [negb].
  2: { apply IH. intros pc' ?. apply Hsub. by right. }
  pose proof (debitFor_taken s n pool (niResourceVersion i)) as Ht.
  pose proof (fun n' => load_debit s n i false n' Hi) as Hl.
  destruct (debitFor s n pool (niResourceVersion i) false) as [taken s1]. cbn [fst snd] in *.
  assert (forall n', load s1 n' = load s n') as Hl'.
  { intros n'. rewrite Hl. case_decide; lia. }
  case_bool_decide as Ha.
  - intros Hs. apply IH in Hs; [|intros pc' ?; apply Hsub; by right].
    destruct Hs as [H1 H2]. split; [intros n'; by rewrite H1|]. destruct c as [c|]; [|done].
    destruct H2 as [(i' & ? & ? & ? & ? & Hle) ?]. rewrite Hl' in Hle. split; [by exists i'|done].
  - intros [= <- <-]. split; [done|]. split; [|done]. exists i. simpl. split_and!; try done; [lia|].
    unfold load. rewrite Hi, <-Ht.
    pose proof (capacity_le i pc (Hsub pc ltac:(left)) Hm). lia.
Qed.

Lemma scan_nodes_sound s ns :
  spec draws_safe steady
    (fun r => (forall n, load r.2 n = load s n) /\ Forall (sound_candidate s) r.1)
    (scan_nodes s ns pool).
Proof.
  revert s. induction ns as [|n ns IH]; intros s; simpl; [by repeat constructor|].
  split; [done|]. intros r Hr. simpl in Hr. destruct r as [i|e]; [|apply IH].
  case_bool_decide as Ha; [apply IH|].
  destruct (scan_pools s n i pool (niPools i)) as [c s1] eqn:E.
  apply scan_pools_sound in E as [H1 H2]; [|done..].
  eapply spec_bind; [apply IH|]. intros [cs s2] [H3 H4]. cbn [fst snd] in *. simpl.
  assert (Forall (sound_candidate s) cs) as H5.
  { eapply Forall_impl; [exact H4|]. intros c' (i' & ? & ? & ? & ? & Hle). rewrite H1 in Hle. by exists i'. }
  split; [intros n'; by rewrite H3, H1|]. destruct c as [c|]; [|done]. constructor; [apply H2|done].
Qed.

Lemma weighted_in cs draw c0 : weighted cs draw c0 ∈ c0 :: cs.
Proof.
  revert draw c0. induction cs as [|c cs IH]; intros draw c0; simpl; [left|].
  case_bool_decide; [right; left|]. right. apply IH.
Qed.

Lemma total_positive s cs : cs <> [] -> Forall (sound_candidate s) cs -> 0 < total_available cs.
Proof.
  unfold total_available. intros Hne HF. destruct cs as [|c cs]; [done|]. clear Hne.
  revert c HF. induction cs as [|c' cs IH]; intros c [(i & _ & _ & _ & _ & Hc) HF]%Forall_cons; csimpl; [lia|].
  specialize (IH c' HF). csimpl in IH. lia.
Qed.

(** One draw: the draw is well defined, and the node picked still had
    capacity. *)
Lemma pickWarmNode_sound s :
  spec draws_safe steady
    (fun '(r, s') =>
       match r with
       | Ok (n, addr) =>
           exists i, inv n = Ok i /\ niAddress i = addr /\ addr <> "" /\
             load s n < capacity i pool /\
             forall n', load s' n' = load s n' + (if decide (n' = n) then 1 else 0)
       | Err _ => forall n', load s' n' = load s n'
       end)
    (pickWarmNode s pool).
Proof.
  unfold pickWarmNode. cbn [bind call]. split; [done|]. intros r Hr. simpl in Hr. subst r. cbn [bind].
  eapply spec_bind; [apply scan_nodes_sound|]. intros [cs s1] [Hl HF]. cbn [fst snd] in *.
  pose proof (merge_sort_Permutation candidate_le cs) as Hperm.
  destruct (merge_sort candidate_le cs) as [|c0 cs'] eqn:E; [done|]. cbn [bind call].
  assert (cs <> []) as Hne. { intros ->. by apply Permutation_nil_r in Hperm. }
  split; [by eapply total_positive|]. intros draw _.
  pose proof (weighted_in (c0 :: cs') draw c0) as Hin.
  destruct (weighted (c0 :: cs') draw c0) as [n addr g av] eqn:Ew.
  assert (sound_candidate s (mkCandidate n addr g av)) as (i & Hi & -> & -> & Haddr & Hav).
  { rewrite Forall_forall in HF. apply HF. rewrite <-Hperm. set_solver. }
  cbn [cdNode cdAddr cdGeneration cdAvailable] in *.
  pose proof (fun n' => load_debit s1 n i true n' Hi) as Hd.
  destruct (debitFor s1 n pool (niResourceVersion i) true) as [t s2]. cbn [snd] in Hd.
  exists i. split_and!; [done..|lia|]. intros n'. by rewrite Hd, Hl.
Qed.

(** [k] placements in a row, collecting the nodes chosen. *)
Fixpoint placements (k : nat) (s : store) : prog StoreE (list string * store) :=
  match k with
  | O => Ret ([], s)
  | S k =>
      let! (r, s) := pickWarmNode s pool in
      let! (rest, s) := placements k s in
      Ret (match r with Ok (n, _) => n :: rest | Err _ => rest end, s)
  end.

Lemma placements_load k s :
  spec draws_safe steady
    (fun '(picked, s') => forall n i, inv n = Ok i ->
       load s' n = load s n + Z.of_nat (length (filter (fun m => m = n) picked)) /\
       (load s n <= capacity i pool -> load s' n <= capacity i pool))
    (placements k s).
Proof.
  revert s. induction k as [|k IH]; intros s; cbn [placements].
  { intros n i Hi. simpl. split; [lia|done]. }
  eapply spec_bind; [apply pickWarmNode_sound|]. intros [r s1] Hr. cbn beta iota in *.
  eapply spec_bind; [apply IH|]. intros [rest s2] Hrest n i Hi. specialize (Hrest n i Hi).
  destruct Hrest as [H1 H2]. destruct r as [[m addr]|e].
  - destruct Hr as (j & Hj & _ & _ & Hcap & Hload). specialize (Hload n).
    rewrite filter_cons. destruct (decide (m = n)) as [->|Hne].
    + rewrite decide_True in Hload by done. assert (j = i) as -> by congruence.
      cbn [length]. split; [lia|]. intros _. apply H2. lia.
    + rewrite decide_False in Hload by congruence. split; [lia|]. intros. apply H2. lia.
  - specialize (Hr n). split; [lia|]. intros. apply H2. lia.
Qed.
End placement.

(** C4.  No over-commitment by placements made one after another: from a fresh
    store and while the node inventories do not change, however many placements
    are made, each finished before the next begins, a node is chosen at most as
    often as the warm count it advertises for the pool; and the random draw is
    only ever made over a positive total.  Placements that overlap are outside
    this bound ([overlapping_placements]): each scans before the other's choice
    is recorded. *)
Theorem no_overcommit inv nodes pool k :
  spec draws_safe (steady inv nodes)
    (fun '(picked, _) => forall n i, inv n = Ok i ->
       Z.of_nat (length (filter (fun m => m = n) picked)) <= capacity i pool)
    (placements pool k NewScatterGatherStore).
Proof.
  eapply spec_mono; [done| |apply placements_load]. intros [picked s'] H n i Hi.
  destruct (H n i Hi) as [H1 H2].
  assert (load inv pool NewScatterGatherStore n = 0) as H0.
  { unfold load. rewrite Hi. unfold counted, reservationFor. simpl. by case_decide. }
  assert (0 <= capacity i pool).
  { unfold capacity. induction (pcWarm <$> _); simpl; lia. }
  rewrite H0 in *. lia.
Qed.

(** A placement is a scan, which only reads the reservations, and a choice,
    which records one. *)
Definition choose (s : store) (pool : PoolKey) (cs : list candidate) :
    prog StoreE (result (string * string) * store) :=
  match merge_sort candidate_le cs with
  | [] => Ret (Err ErrNoWarmCapacity, s)
  | c0 :: cs' =>
      draw <- call (EIntN (total_available cs));;
      let c := weighted (c0 :: cs') draw c0 in
      let '(_, s) := debitFor s (cdNode c) pool (cdGeneration c) true in
      Ret (Ok (cdNode c, cdAddr c), s)
  end.

Lemma pickWarmNode_halves s pool :
  pickWarmNode s pool =
  (r <- call EListNodes;;
   match r with
   | Err e => Ret (Err (Wrap "scale: enumerate node inventories" e), s)
   | Ok nodes => let! (cs, s) := scan_nodes s nodes pool in choose s pool cs
   end).
Proof. reflexivity. Qed.

(** The draw is proportional to capacity: over the sorted candidates, the
    draws that select a given one are exactly the [available] consecutive values
    after its predecessors' shares, so the fallback past the end is never
    taken. *)
Theorem weighted_share l1 c l2 c0 draw :
  Forall (fun d => 0 < cdAvailable d) (l1 ++ c :: l2) ->
  total_available l1 <= draw < total_available l1 + cdAvailable c ->
  weighted (l1 ++ c :: l2) draw c0 = c.
Proof.
  unfold total_available. revert draw c0.
  induction l1 as [|d l1 IH]; csimpl; intros draw c0 HF Hd; [by rewrite bool_decide_true by lia|].
  apply Forall_cons in HF as [Hp HF]. rewrite bool_decide_false.
  - apply IH; [done|]. lia.
  - assert (0 <= foldr Z.add 0 (cdAvailable <$> l1)); [|lia].
    apply Forall_app in HF as [HF _]. clear -HF. induction HF; csimpl; lia.
Qed.

Lemma weighted_share_witness :
  weighted ([mkCandidate "a" "10.0.0.1:1" "7" 2] ++ mkCandidate "b" "10.0.0.2:1" "7" 3 :: []) 4
    (mkCandidate "a" "10.0.0.1:1" "7" 2) = mkCandidate "b" "10.0.0.2:1" "7" 3.
Proof.
  apply (weighted_share [mkCandidate "a" "10.0.0.1:1" "7" 2] (mkCandidate "b" "10.0.0.2:1" "7" 3) []).
  - repeat constructor.
  - vm_compute. split; [discriminate|reflexivity].
Defined.

(** ** The change counter *)

(** The counter advanced by [k], and [k = 0] only if the pending index is what
    it was. *)
Definition tracks (s s' : store) : Prop :=
  exists k, 0 <= k /\ pendingGen s' = (pendingGen s + k) mod 2 ^ 64 /\
    (k = 0 -> pending s' = pending s).

Definition in_range (s : store) : Prop := 0 <= pendingGen s < 2 ^ 64.

Lemma tracks_refl s : in_range s -> tracks s s.
Proof. intros Hs. exists 0. rewrite Z.add_0_r, Z.mod_small by done. by split_and!. Qed.

Lemma tracks_same s s' :
  in_range s -> pending s' = pending s -> pendingGen s' = pendingGen s -> tracks s s'.
Proof. intros Hs Hp Hg. exists 0. rewrite Z.add_0_r, Z.mod_small by done. by split_and!. Qed.

Lemma tracks_trans s1 s2 s3 : tracks s1 s2 -> tracks s2 s3 -> tracks s1 s3.
Proof.
  intros (k & Hk & Eg & Ep) (j & Hj & Eg' & Ep'). exists (k + j). split; [lia|]. split.
  - rewrite Eg', Eg, Zplus_mod_idemp_l. f_equal. lia.
  - intros. rewrite Ep', Ep by lia. done.
Qed.

Lemma tracks_range s s' : tracks s s' -> in_range s'.
Proof. intros (k & _ & Hg & _). unfold in_range. rewrite Hg. apply Z.mod_pos_bound. lia. Qed.

Lemma tracks_set_pending s m : tracks s (set_pending m s).
Proof. exists 1. simpl. split_and!; done || lia. Qed.

Lemma tracks_forget s ns name : in_range s -> tracks s (forgetClaim s ns name).
Proof.
  intros Hs. unfold forgetClaim. case_match; [apply tracks_set_pending|by apply tracks_refl].
Qed.

Lemma tracks_reconcile s inv : in_range s -> tracks s (reconcilePending s inv).
Proof.
  unfold reconcilePending. generalize (niEntries inv). intros l. revert s.
  induction l as [|e l IH]; intros s Hs; simpl; [by apply tracks_refl|].
  destruct (parseClaimRef (ieName e)) as [[ns name] uid]. case_bool_decide; [|by apply IH].
  pose proof (tracks_forget s ns name Hs) as Ht.
  eapply tracks_trans; [exact Ht|]. apply IH. by eapply tracks_range.
Qed.

Lemma tracks_unconfirmed now seen namespace labelSel fieldSel l acc :
  in_range acc.2 ->
  tracks acc.2 (fold_left (unconfirmed_step now seen namespace labelSel fieldSel) l acc).2.
Proof.
  revert acc. induction l as [|[k pc] l IH]; intros [out s] Hs; simpl; [by apply tracks_refl|].
  assert (tracks s (unconfirmed_step now seen namespace labelSel fieldSel (out, s) (k, pc)).2) as Ht.
  { simpl. repeat case_match; simpl; try apply tracks_set_pending; by apply tracks_refl. }
  eapply tracks_trans; [exact Ht|]. apply IH. by eapply tracks_range.
Qed.

Definition tracked {A} (s : store) (r : A * store) : Prop := tracks s r.2.

Lemma tracks_pendingFor s ns name :
  in_range s -> spec any_call any_answer (tracked s) (pendingFor s ns name).
Proof.
  intros Hs. unfold pendingFor. destruct (pending s !! _); simpl; [|by apply tracks_refl].
  split; [done|]. intros now _. case_match; [by apply tracks_forget|by apply tracks_refl].
Qed.

Lemma tracks_gather s nodes namespace labelSel fieldSel :
  in_range s -> spec any_call any_answer (tracked s) (gather s nodes namespace labelSel fieldSel).
Proof.
  revert s. induction nodes as [|n nodes IH]; intros s Hs; simpl; [by apply tracks_refl|].
  split; [done|]. intros [inv|e] _; [|by apply IH].
  pose proof (tracks_reconcile s inv Hs) as Ht.
  eapply spec_bind; [apply IH; by eapply tracks_range|]. intros [rest s'] Hr.
  unfold tracked in *. cbn [snd] in *. by eapply tracks_trans.
Qed.

Lemma tracks_List `{SelectorLib} s opts :
  in_range s -> spec any_call any_answer (tracked s) (List_ s opts).
Proof.
  intros Hs. unfold List_. destruct (parseSelectors opts) as [[ls fs]|e]; [|by apply tracks_refl].
  cbn [bind call]. split; [done|]. intros [nodes|e] _; [|by apply tracks_refl]. cbn [bind].
  eapply spec_bind; [by apply tracks_gather|]. intros [items s1] H1. unfold unconfirmed. cbn [bind call].
  split; [done|]. intros now _. cbn [bind].
  pose proof (tracks_unconfirmed now (list_to_set (objKey <$> items)) (loNamespace opts) ls fs
    (map_to_list (pending s1)) ([], s1) (tracks_range _ _ H1)) as H2.
  destruct (fold_left _ _ _) as [more s2]. cbn [snd] in *.
  eapply spec_bind; [apply collectionResourceVersion_any|]. intros rv _. by eapply tracks_trans.
Qed.

Lemma tracks_Get s ns name : in_range s -> spec any_call any_answer (tracked s) (Get s ns name).
Proof.
  intros Hs. unfold Get. cbn [bind call]. split; [done|]. intros [nodes|e] _; [|by apply tracks_refl].
  cbn [bind]. eapply spec_bind; [by apply get_from_nodes_spec|].
  intros [[node e]|] _; [by apply tracks_forget|].
  eapply spec_bind; [by apply tracks_pendingFor|]. intros [[pc|] s'] H1; done.
Qed.

Lemma tracks_Claim cfg s ns name pool uid :
  in_range s -> spec any_call any_answer (tracked s) (Claim cfg s ns name pool uid).
Proof.
  intros Hs. unfold Claim. case_match; [by apply tracks_refl|].
  eapply spec_bind; [by apply tracks_pendingFor|]. intros [[pc|] s1] H1; [done|]. cbn beta iota.
  eapply spec_bind; [by apply pickWarmNode_frame|].
  intros [r s2] (Hp & _ & Hg). cbn [fst snd] in *.
  assert (tracks s s2) as H2.
  { eapply tracks_trans; [exact H1|]. apply tracks_same; [by eapply tracks_range|done..]. }
  destruct r as [[node addr]|e]; [|done]. cbn [bind call]. split; [done|].
  intros [res|e] _; cbn [bind]; [|by destruct (IsNodeAtCapacity e)].
  eapply (spec_bind _ _ (fun _ => True)); [by destruct (hasClaimObserver cfg)|].
  intros _ _. simpl. split; [done|]. intros now _.
  eapply tracks_trans; [exact H2|]. apply tracks_set_pending.
Qed.

Lemma tracks_Release cfg s node id :
  in_range s -> spec any_call any_answer (tracked s) (Release cfg s node id).
Proof.
  intros Hs. unfold Release. case_match; [by apply tracks_refl|].
  case_bool_decide; [by apply tracks_refl|]. cbn [bind call]. split; [done|].
  intros [inv|e] _; cbn [bind]; [|by apply tracks_refl].
  case_bool_decide; [by apply tracks_refl|]. cbn [bind call]. split; [done|].
  intros [e|] _; cbn [bind]; [by apply tracks_refl|].
  destruct (List.find _ _) as [[k pc]|]; [|by apply tracks_refl].
  apply (tracks_set_pending s (delete k (pending s))).
Qed.

(** The change counter is sound for change detection: whatever the outside
    world answers, each store operation advances [pendingGen] by some [k], and
    [k = 0] only if it left the pending index untouched. *)
Theorem pending_gen_tracks `{SelectorLib} cfg s opts ns name pool uid node id :
  in_range s ->
  spec any_call any_answer (tracked s) (List_ s opts) /\
  spec any_call any_answer (tracked s) (Get s ns name) /\
  spec any_call any_answer (tracked s) (Claim cfg s ns name pool uid) /\
  spec any_call any_answer (tracked s) (Release cfg s node id).
Proof.
  intros Hs. split_and!;
    [by apply tracks_List|by apply tracks_Get|by apply tracks_Claim|by apply tracks_Release].
Qed.

(** ** Overlays are read back *)

(** A client reads its own writes: after [Overlay], every later projection
    of the sandbox, from any node state, carries each written label and
    annotation, drops the keys written as empty, keeps every other synthesized
    key, serves the written spec, and leaves the node-derived identity and
    status alone. *)
Theorem overlay_read_back s ns name ov node e uid k :
  parseClaimRef (ieName e) = (ns, name, uid) ->
  let base := entryToSandbox node e in
  let sb := applyOverlay (Overlay s ns name ov) base in
  let read written synthesized :=
    match (written : strmap) !! k with
    | Some v => if decide (v = "") then None else Some v
    | None => (synthesized : strmap) !! k
    end in
  sbLabels sb !! k = read (ovLabels ov) (sbLabels base) /\
  sbAnnotations sb !! k = read (ovAnnotations ov) (sbAnnotations base) /\
  sbSpec sb = default (sbSpec base) (ovSpec ov) /\
  sbStatus sb = sbStatus base /\ sbUID sb = sbUID base /\
  sbNamespace sb = ns /\ sbName sb = name.
Proof.
  intros Hp base sb read. destruct (entryToSandbox_name node e ns name uid Hp) as [Hns Hname].
  assert (sb = let sb := set_sbMeta (set_mLabels (fun l => mergeOverlayMap l (ovLabels ov))) base in
               let sb := set_sbMeta (set_mAnnotations (fun a => mergeOverlayMap a (ovAnnotations ov))) sb in
               match ovSpec ov with Some spec => set_sbSpec spec sb | None => sb end) as ->.
  { unfold sb, applyOverlay, objKey, Overlay. cbn [overlays set_overlays].
    unfold base at 1 2. by rewrite Hns, Hname, lookup_insert_eq. }
  unfold read. fold base in Hns, Hname. clearbody base.
  destruct (ovSpec ov) as [spec|]; cbn; rewrite !mergeOverlayMap_lookup;
    (split_and!; [| |done..]; destruct (_ !! k); [|done| |done]; case_bool_decide; case_decide; done).
Qed.

(** ** Owner references *)

(** Owner references are restored, never forged: a synthesized sandbox
    carries a reference only when its claim reference records a non-empty UID
    for a claim of its own namespace, with exactly that name and UID; and a
    sandbox the store claimed for an owner is controlled by that owner's UID, as
    the claim controller checks it. *)
Theorem owner_refs_not_forged `{OwnerLaws} ns e :
  (forall r, r ∈ synthOwnerRefs ns e ->
     parseClaimRef (ieClaimRef e) = (ns, orName r, orUID r) /\ orUID r <> "" /\ orName r <> "") /\
  (forall node name owner uid id addr,
     plain ns -> plain name -> plain owner -> owner <> "" -> uid <> "" ->
     IsControlledBy
       (sbMeta (entryToSandbox node
                  (mkEntry (key_of ns name) id "Running" (formatClaimRef ns owner uid) addr))) uid = true).
Proof.
  split.
  - intros r. unfold synthOwnerRefs. destruct (parseClaimRef (ieClaimRef e)) as [[cns cname] uid].
    repeat case_bool_decide; simpl; intros Hr; try by apply not_elem_of_nil in Hr.
    apply list_elem_of_singleton in Hr as ->. subst. done.
  - intros node name owner uid id addr Hns Hname Howner Ho Hu.
    unfold entryToSandbox. cbn [ieName]. rewrite parse_key by done. cbn [sbMeta].
    unfold IsControlledBy, synthOwnerRefs. cbn [ieClaimRef]. rewrite parse_format by done.
    rewrite !bool_decide_false by (done || congruence). cbn [orb].
    match goal with |- context [GetControllerOf ?m] => destruct (GetControllerOf m) as [r|] eqn:E end.
    + apply controller_Some in E as [Hin _]. cbn [mOwnerReferences] in Hin.
      apply list_elem_of_singleton in Hin as ->. by apply bool_decide_eq_true.
    + apply controller_None in E. cbn [mOwnerReferences] in E.
      apply Forall_cons in E as [E _]. by destruct E.
Qed.

(** ** Object UIDs *)

Definition variant_char (c : ascii) : bool :=
  bool_decide (c = "8"%char) || bool_decide (c = "9"%char) || bool_decide (c = "a"%char)
  || bool_decide (c = "b"%char).

Definition uuid4 (u : string) : Prop :=
  exists a b c d e, u = a +:+ "-" +:+ b +:+ "-4" +:+ c +:+ "-" +:+ d +:+ "-" +:+ e /\
    String.length a = 8%nat /\ String.length b = 4%nat /\ String.length c = 3%nat /\
    String.length d = 4%nat /\ String.length e = 12%nat /\
    Forall (fun s => string_forall is_hex s = true) [a; b; c; d; e] /\
    match d with String v _ => variant_char v | EmptyString => false end = true.

Lemma land_ones_range x n : 0 <= n -> Z.land x (Z.ones n) ∈ seqZ 0 (2 ^ n).
Proof.
  intros Hn. rewrite Z.land_ones by done. apply elem_of_seqZ.
  pose proof (Z.mod_pos_bound x (2 ^ n)). lia.
Qed.

Lemma forallb_elem {A} (f : A -> bool) l x : forallb f l = true -> x ∈ l -> f x = true.
Proof. intros H Hx. rewrite forallb_forall in H. apply H. by apply list_elem_of_In. Qed.

(** The version nibble and the variant bits. *)
Lemma version_nibble x :
  hex_digits 2 (Z.lor (Z.land x 0x0f) 0x40) = "4" +:+ hex_digits 1 (Z.land x 0x0f).
Proof.
  assert (Hall : forallb (fun y =>
    if decide (hex_digits 2 (Z.lor y 0x40) = "4" +:+ hex_digits 1 y) then true else false)
    (seqZ 0 (2 ^ 4)) = true) by (vm_compute; reflexivity).
  pose proof (forallb_elem _ _ _ Hall (land_ones_range x 4 ltac:(lia))) as H. simpl in H.
  by destruct (decide _) in H.
Qed.

Lemma variant_bits x :
  match hex_digits 2 (Z.lor (Z.land x 0x3f) 0x80) with
  | String c _ => variant_char c
  | EmptyString => false
  end = true.
Proof.
  assert (Hall : forallb (fun y => match hex_digits 2 (Z.lor y 0x80) with
    | String c _ => variant_char c | EmptyString => false end) (seqZ 0 (2 ^ 6)) = true)
    by (vm_compute; reflexivity).
  exact (forallb_elem _ _ _ Hall (land_ones_range x 6 ltac:(lia))).
Qed.

(** A synthesized sandbox always has a UID, shaped as a version 4 RFC 4122
    UUID, and while the node reports a claim id the UID depends on that id
    alone. *)
Theorem sandbox_uid_uuid4 ns name e ns' name' e' :
  uuid4 (sandboxUID ns name e) /\
  (ieID e <> "" -> ieID e' = ieID e -> sandboxUID ns' name' e' = sandboxUID ns name e).
Proof.
  split.
  - unfold sandboxUID. set (seed := if bool_decide (ieID e = "") then _ else _).
    pose proof (Sha256.Sum256_length (bytes ("cocoon-sandbox-uid|" +:+ seed))) as Hl.
    destruct (Sha256.Sum256 (bytes ("cocoon-sandbox-uid|" +:+ seed))) as [|b0 sum]; [done|].
    do 15 (destruct sum as [|? sum]; [done|]).
    exists (hex_bytes [b0; z; z0; z1]), (hex_bytes [z2; z3]),
      (hex_digits 1 (Z.land z4 0x0f) +:+ hex_digits 2 z5),
      (hex_bytes [Z.lor (Z.land z6 0x3f) 0x80; z7]), (hex_bytes [z8; z9; z10; z11; z12; z13]).
    split_and!; [|by rewrite ?length_app_string, ?hex_bytes_length, ?hex_digits_length..| |].
    + cbn [nth take drop insert list_insert Nat.sub hex_bytes]. rewrite version_nibble.
      by rewrite !app_string_assoc, ?app_string_nil_r.
    + repeat constructor; rewrite ?string_forall_app, ?hex_digits_hex; apply hex_bytes_hex || done.
    + cbn [hex_bytes]. pose proof (variant_bits z6) as Hv.
      destruct (hex_digits 2 _) as [|c r]; [done|].
      by rewrite app_string_cons.
  - intros Hne Heq. unfold sandboxUID. by rewrite Heq, bool_decide_false.
Qed.

(** ** Concrete runs *)

Module Demo.

(** A selector library that accepts the empty selector only. *)
Definition parse_empty (s : string) : result (strmap -> bool) :=
  if bool_decide (s = "") then Ok (fun _ => true) else Err (Errorf "unsupported selector").

#[export] Instance selectors : SelectorLib := {|
  labels_Parse := parse_empty; fields_ParseSelector := parse_empty |}.

#[export] Instance selectors_laws : SelectorLaws.
Proof. split; exists (fun _ => true); by split. Qed.

Definition everything : ListOptions := mkListOptions "" "" "" true false.

Definition routed : config := mkConfig "fleet-token" true true.
Definition web_pool : PoolKey := mkPoolKey "img" "none" "small".

(** One node with two warm microVMs; its entries are the handler's state, with
    the number of sandboxd claims served. *)
Definition world : Type := list InventoryEntry * nat.

Definition node_inventory (w : world) : NodeInventory :=
  mkInventory "41" "n1" w.1 "10.0.0.1:7777" [mkPoolCapacity "img" "" "" 2 2].

Definition sandboxd_answer {X} (c : SandboxdCall X) (n : nat) : X :=
  match c in SandboxdCall X return X with
  | SdClaim _ => Ok (mkClaimResult ("sb_" +:+ pretty n) "tok" "10.0.0.1:9000")
  | SdRelease _ _ | SdHibernate _ | SdWake _ | SdDeleteCheckpoint _ => None
  | SdFork _ _ => Ok []
  | SdCheckpoint id name => Ok (mkCheckpoint "ck" name id web_pool 0)
  | SdCheckpoints => Ok []
  | SdClaimCheckpoint _ _ => Ok (mkClaimResult "sb_c" "tok" "10.0.0.1:9000")
  | SdPromote _ t => Ok (mkPoolKey t "none" "small")
  | SdStats _ => Err (Errorf "no stats")
  end.

Definition respond : handler StoreE world := fun X e =>
  match e in StoreE X return world -> X * world with
  | EListNodes => fun w => (Ok ["n1"], w)
  | ENodeInventory n => fun w =>
      (if bool_decide (n = "n1") then Ok (node_inventory w) else Err (Errorf "no inventory"), w)
  | ENow => fun w => (1000, w)
  | EIntN _ => fun w => (0, w)
  | ESandboxd _ _ c => fun w =>
      (sandboxd_answer c w.2, (w.1, match c with SdClaim _ => S w.2 | _ => w.2 end))
  | EClaimObserver _ => fun w => (tt, w)
  end.

Definition start : world := ([], O).

Definition claim_web (s : store) (w : world) :=
  run respond (Claim routed s "prod" "web" web_pool "uid-1") w.

(** The entry the node publishes once it has seen the claim. *)
Definition published : InventoryEntry :=
  mkEntry "prod/web#uid-1" "sb_0" "Running" "prod/web#uid-1" "10.0.0.1:9000".

(** A first claim succeeds, a second within the window is refused without a
    node call, and once a List has read an inventory that confirms the sandbox
    the same name is claimed a second time, from a second microVM. *)
Lemma reclaim_after_confirmation :
  let '(r1, s1, w1) := claim_web NewScatterGatherStore start in
  let '(r2, _, w2) := claim_web s1 w1 in
  let '(_, s3, w3) := run respond (List_ s1 everything) ([published], w1.2) in
  let '(r4, _, w4) := claim_web s3 w3 in
  r1 = Ok (mkAssignment "sb_0" "n1" "10.0.0.1:9000" "tok") /\
  (isOk r2 = false /\ w2.2 = 1%nat) /\
  (r4 = Ok (mkAssignment "sb_1" "n1" "10.0.0.1:9000" "tok") /\ w4.2 = 2%nat).
Proof. vm_compute. repeat split. Qed.

(** One node that keeps advertising [k] warm microVMs. *)
Definition warm_inventory (k : Z) : NodeInventory :=
  mkInventory "41" "n1" [] "10.0.0.1:7777" [mkPoolCapacity "img" "" "" k k].

Definition warm_node (k : Z) : handler StoreE unit := fun X e =>
  match e in StoreE X return unit -> X * unit with
  | EListNodes => fun w => (Ok ["n1"], w)
  | ENodeInventory _ => fun w => (Ok (warm_inventory k), w)
  | ENow | EIntN _ => fun w => (0, w)
  | ESandboxd _ _ c => fun w => (sandboxd_answer c 0, w)
  | EClaimObserver _ => fun w => (tt, w)
  end.

(** Two placements that both scan before either chooses are both sent to the
    last warm microVM. *)
Example overlapping_placements :
  let '(cs1, s1, _) := run (warm_node 1) (scan_nodes NewScatterGatherStore ["n1"] web_pool) tt in
  let '(cs2, s2, _) := run (warm_node 1) (scan_nodes s1 ["n1"] web_pool) tt in
  let '(r1, s3, _) := run (warm_node 1) (choose s2 web_pool cs1) tt in
  let '(r2, s4, _) := run (warm_node 1) (choose s3 web_pool cs2) tt in
  r1 = Ok ("n1", "10.0.0.1:7777") /\ r2 = Ok ("n1", "10.0.0.1:7777") /\
  (run (warm_node 1) (pickWarmNode s3 web_pool) tt).1.1 = Err ErrNoWarmCapacity.
Proof. vm_compute. repeat split. Qed.

End Demo.
Import (hints) Demo.

Lemma accepts_everything : accepts Demo.everything "prod" "web".
Proof. unfold accepts. simpl. intros sb _. reflexivity. Qed.

Lemma read_your_writes_witness :
  isOk (Demo.claim_web NewScatterGatherStore Demo.start).1.1 = true /\
  spec any_call (timely 0)
    (fun '(r, s') =>
       isOk r = true ->
       spec any_call (timely 0) (fun g => exists sb, g.1 = Ok sb /\ named "prod" "web" sb)
         (Get s' "prod" "web") /\
       spec any_call (timely 0)
         (fun l => exists items, l.1 = Ok items /\ exists sb, sb ∈ slItems items /\ named "prod" "web" sb)
         (List_ s' Demo.everything))
    (Claim Demo.routed NewScatterGatherStore "prod" "web" Demo.web_pool "uid-1").
Proof.
  split; [vm_compute; reflexivity|].
  apply (read_your_writes Demo.routed NewScatterGatherStore "prod" "web" Demo.web_pool "uid-1"
    Demo.everything 0); [split; reflexivity|split; reflexivity|exact accepts_everything].
Defined.

(** Two microVMs advertised: the third placement in a row is refused. *)
Lemma no_overcommit_witness :
  let picked := (run (Demo.warm_node 2) (placements Demo.web_pool 3 NewScatterGatherStore) tt).1.1 in
  picked = ["n1"; "n1"] /\
  Z.of_nat (length (filter (fun m => m = "n1") picked)) <= capacity (Demo.warm_inventory 2) Demo.web_pool.
Proof.
  split; [vm_compute; reflexivity|].
  pose proof (no_overcommit (fun _ => Ok (Demo.warm_inventory 2)) ["n1"] Demo.web_pool 3) as Hn.
  apply (spec_run _ _ _ (Demo.warm_node 2) _ tt) in Hn as [Hn _].
  - destruct (run _ _ _) as [[picked s] w]. exact (Hn "n1" _ eq_refl).
  - intros X e w. destruct e; try exact I; try reflexivity. cbn. lia.
Defined.

Lemma pending_gen_tracks_witness :
  tracked NewScatterGatherStore (Demo.claim_web NewScatterGatherStore Demo.start).1.
Proof.
  assert (in_range NewScatterGatherStore) as Hr by (vm_compute; split; [discriminate|reflexivity]).
  pose proof (pending_gen_tracks Demo.routed NewScatterGatherStore Demo.everything "prod" "web"
    Demo.web_pool "uid-1" "n1" "sb_0" Hr) as (_ & _ & Hc & _).
  exact (proj1 (spec_run any_call any_answer _ Demo.respond _ Demo.start (fun _ _ _ => I) Hc)).
Defined.

Lemma overlay_read_back_witness :
  sbLabels (applyOverlay (Overlay NewScatterGatherStore "prod" "web"
      (mkOverlay {["team" := "a"]} {[ClaimIDAnnotation := ""]} None))
    (entryToSandbox "n1" Demo.published)) !! "team" = Some "a" /\
  parseClaimRef (ieName Demo.published) = ("prod", "web", "uid-1").
Proof.
  assert (parseClaimRef (ieName Demo.published) = ("prod", "web", "uid-1")) as Hp
    by (vm_compute; reflexivity).
  split; [|exact Hp].
  pose proof (overlay_read_back NewScatterGatherStore "prod" "web"
    (mkOverlay {["team" := "a"]} {[ClaimIDAnnotation := ""]} None) "n1" Demo.published "uid-1" "team" Hp)
    as Ho.
  cbv zeta in Ho. destruct Ho as [Hl _]. etransitivity; [exact Hl|]. vm_compute. reflexivity.
Defined.

Lemma owner_refs_not_forged_witness :
  IsControlledBy (H:=Reference.owners) (sbMeta (entryToSandbox "n1"
    (mkEntry (key_of "prod" "web") "sb_0" "Running" (formatClaimRef "prod" "web" "uid-1") "a:1"))) "uid-1"
  = true.
Proof.
  apply (owner_refs_not_forged (H:=Reference.owners) (H0:=Reference.owners_laws) "prod" Demo.published);
    try (split; reflexivity); discriminate.
Defined.

Lemma sandbox_uid_uuid4_witness :
  sandboxUID "prod" "renamed" Demo.published = sandboxUID "prod" "web" Demo.published.
Proof.
  apply (sandbox_uid_uuid4 "prod" "web" Demo.published "prod" "renamed" Demo.published);
    [discriminate|reflexivity].
Defined.

End StoreFacts.
