(* ===== verification/StoreLifecycle.v ===== *)
(** * StoreLifecycle: the post-claim verbs of the aggregated store.

    Models [pkg/scale/sandboxstore_lifecycle.go]: each verb resolves the owning
    node's sandboxd address from its inventory and makes one call there.  None
    of them touches the store's state. *)

From S2P Require Import Prelude GoStrings K8s PoolKey SandboxId Types StoreModel StoreFacts.

Module StoreLifecycle.
Import Pool Store.
#[local] Open Scope prog_scope.

Record Snapshot_ := mkSnapshot {
  snID : string; snName : string; snSandboxID : string; snPool : PoolKey; snCreatedAt : Z;
  snNode : string
}.

Record SandboxStats := mkSandboxStats {
  ssCPUCount : Z; ssMemTotalBytes : Z; ssMemUsedBytes : Z; ssMemUsedMeasured : bool;
  ssPaused : bool; ssMeasuredAt : Z
}.

(** A sandboxd client is the address and token it was built with. *)
Definition SandboxdClient : Type := string * string.

Definition snapshotFrom (ck : Checkpoint) (node : string) : Snapshot_ :=
  mkSnapshot (ckID ck) (ckName ck) (ckSandboxID ck)
    (mkPoolKey (Template (ckKey ck)) (Net (ckKey ck)) (Size (ckKey ck))) (ckCreatedAt ck) node.

Definition assignmentFrom (node : string) (c : ClaimResult) : Assignment :=
  mkAssignment (crID c) node (crOwnerAddr c) (crToken c).

Section verbs.
Context (cfg : config).

Definition nodeClient (node : string) : prog StoreE (result SandboxdClient) :=
  if negb (hasSandboxdFactory cfg) then Ret (Err (Errorf "scale: claim routing not configured"))
  else if bool_decide (node = "") then Ret (Err (Errorf "scale: verb requires an owning node"))
  else
    r <- call (ENodeInventory node);;
    match r with
    | Err e => Ret (Err (Wrap "scale: resolve node for verb" e))
    | Ok inv =>
        if bool_decide (niAddress inv = "")
        then Ret (Err (Errorf "scale: node advertises no sandboxd address"))
        else Ret (Ok (niAddress inv, sandboxdToken cfg))
    end.

Definition Pause (node id : string) : prog StoreE (option gerror) :=
  cl <- nodeClient node;;
  match cl with
  | Err e => Ret (Some e)
  | Ok (addr, token) =>
      err <- call (ESandboxd addr token (SdHibernate id));;
      Ret (Wrap "scale: sandboxd pause" <$> err)
  end.

Definition Resume (node id : string) : prog StoreE (option gerror) :=
  cl <- nodeClient node;;
  match cl with
  | Err e => Ret (Some e)
  | Ok (addr, token) =>
      err <- call (ESandboxd addr token (SdWake id));;
      Ret (Wrap "scale: sandboxd resume" <$> err)
  end.

Definition Fork (node id : string) (count ttlSeconds : Z) : prog StoreE (result (list Assignment)) :=
  if bool_decide (count < 1) then Ret (Err (Errorf "scale: fork count must be >= 1"))
  else
    cl <- nodeClient node;;
    match cl with
    | Err e => Ret (Err e)
    | Ok (addr, token) =>
        res <- call (ESandboxd addr token (SdFork id (mkForkSpec count ttlSeconds)));;
        match res with
        | Err e => Ret (Err (Wrap "scale: sandboxd fork" e))
        | Ok children => Ret (Ok (assignmentFrom node <$> children))
        end
    end.

Definition Snapshot (node id name : string) : prog StoreE (result Snapshot_) :=
  cl <- nodeClient node;;
  match cl with
  | Err e => Ret (Err e)
  | Ok (addr, token) =>
      ck <- call (ESandboxd addr token (SdCheckpoint id name));;
      match ck with
      | Err e => Ret (Err (Wrap "scale: sandboxd snapshot" e))
      | Ok ck => Ret (Ok (snapshotFrom ck node))
      end
  end.

Definition Snapshots (node : string) : prog StoreE (result (list Snapshot_)) :=
  cl <- nodeClient node;;
  match cl with
  | Err e => Ret (Err e)
  | Ok (addr, token) =>
      cks <- call (ESandboxd addr token SdCheckpoints);;
      match cks with
      | Err e => Ret (Err (Wrap "scale: sandboxd list snapshots" e))
      | Ok cks => Ret (Ok ((fun ck => snapshotFrom ck node) <$> cks))
      end
  end.

Definition DeleteSnapshot (node snapshotID : string) : prog StoreE (option gerror) :=
  cl <- nodeClient node;;
  match cl with
  | Err e => Ret (Some e)
  | Ok (addr, token) =>
      err <- call (ESandboxd addr token (SdDeleteCheckpoint snapshotID));;
      Ret (Wrap "scale: sandboxd delete snapshot" <$> err)
  end.

Definition ClaimSnapshot (node snapshotID : string) (ttlSeconds : Z) :
    prog StoreE (result Assignment) :=
  cl <- nodeClient node;;
  match cl with
  | Err e => Ret (Err e)
  | Ok (addr, token) =>
      res <- call (ESandboxd addr token (SdClaimCheckpoint snapshotID ttlSeconds));;
      match res with
      | Err e => Ret (Err (Wrap "scale: sandboxd claim snapshot" e))
      | Ok res => Ret (Ok (assignmentFrom node res))
      end
  end.

Definition Promote (node id template : string) : prog StoreE (result PoolKey) :=
  if bool_decide (template = "") then Ret (Err (Errorf "scale: promote requires a template name"))
  else
    cl <- nodeClient node;;
    match cl with
    | Err e => Ret (Err e)
    | Ok (addr, token) =>
        key <- call (ESandboxd addr token (SdPromote id template));;
        match key with
        | Err e => Ret (Err (Wrap "scale: sandboxd promote" e))
        | Ok key => Ret (Ok (mkPoolKey (Template key) (Net key) (Size key)))
        end
    end.

Definition Stats (node id : string) : prog StoreE (result SandboxStats) :=
  cl <- nodeClient node;;
  match cl with
  | Err e => Ret (Err e)
  | Ok (addr, token) =>
      st <- call (ESandboxd addr token (SdStats id));;
      match st with
      | Err e => Ret (Err (Wrap "scale: sandboxd stats" e))
      | Ok st => Ret (Ok (mkSandboxStats (nsCPUCount st) (nsMemTotalBytes st) (nsMemUsedBytes st)
                            (nsMemUsedMeasured st) (nsHibernated st) (nsMeasuredAt st)))
      end
  end.
End verbs.

(** ** Routing *)

Section routing.
Context (cfg : config) (inv : string -> result NodeInventory) (node : string).

(** Inventory answers are [inv]'s. *)
Definition inventory_is (X : Type) (e : StoreE X) : X -> Prop :=
  match e in StoreE X return X -> Prop with
  | ENodeInventory n => fun r => r = inv n
  | _ => fun _ => True
  end.

(** The only sandboxd call allowed is [c], to the address [node]'s inventory
    advertises, with the fleet token, once routing is configured. *)
Definition routed {Y} (c : SandboxdCall Y) (X : Type) (e : StoreE X) : Prop :=
  match e with
  | @ESandboxd Z addr token c' =>
      existT Z c' = existT Y c :> sigT SandboxdCall /\
      hasSandboxdFactory cfg = true /\ token = sandboxdToken cfg /\ node <> "" /\
      exists i, inv node = Ok i /\ niAddress i = addr /\ addr <> ""
  | ENodeInventory n => n = node
  | _ => False
  end.

Lemma nodeClient_routed {Y} (c : SandboxdCall Y) :
  spec (routed c) inventory_is
    (fun r => match r with
              | Ok (addr, token) => routed c Y (ESandboxd addr token c)
              | Err _ => True
              end) (nodeClient cfg node).
Proof.
  unfold nodeClient. destruct (hasSandboxdFactory cfg) eqn:Hf; [|done]. cbn [negb].
  case_bool_decide as Hn; [done|]. simpl. split; [done|]. intros [i|e] Hi; [|done].
  case_bool_decide; [done|]. simpl in *. split_and!; try done. by exists i.
Qed.
End routing.

(** Resolve the client, then make the verb's one call. *)
Ltac route := eapply spec_bind; [apply nodeClient_routed|]; intros [[addr token]|e] Hr;
  [|done]; cbn [bind call]; (split; [exact Hr|]).
Ltac route_only := route; intros ans _; by destruct ans.

(** The lifecycle verbs fail closed and route to the owner: whatever the
    node answers, each verb makes no call but its own, on the sandbox it was
    given, to the address the named node's inventory advertises, with the fleet
    token; and children, snapshots and branched claims report that node. *)
Theorem lifecycle_verbs_routed cfg inv node id name template ttl count :
  spec (routed cfg inv node (SdHibernate id)) (inventory_is inv) (fun _ => True) (Pause cfg node id) /\
  spec (routed cfg inv node (SdWake id)) (inventory_is inv) (fun _ => True) (Resume cfg node id) /\
  spec (routed cfg inv node (SdFork id (mkForkSpec count ttl))) (inventory_is inv)
    (fun r => forall l, r = Ok l -> Forall (fun a => asNode a = node) l /\ 1 <= count)
    (Fork cfg node id count ttl) /\
  spec (routed cfg inv node (SdCheckpoint id name)) (inventory_is inv)
    (fun r => forall sn, r = Ok sn -> snNode sn = node) (Snapshot cfg node id name) /\
  spec (routed cfg inv node SdCheckpoints) (inventory_is inv)
    (fun r => forall l, r = Ok l -> Forall (fun sn => snNode sn = node) l) (Snapshots cfg node) /\
  spec (routed cfg inv node (SdDeleteCheckpoint id)) (inventory_is inv) (fun _ => True)
    (DeleteSnapshot cfg node id) /\
  spec (routed cfg inv node (SdClaimCheckpoint id ttl)) (inventory_is inv)
    (fun r => forall a, r = Ok a -> asNode a = node) (ClaimSnapshot cfg node id ttl) /\
  spec (routed cfg inv node (SdPromote id template)) (inventory_is inv)
    (fun r => isOk r = true -> template <> "") (Promote cfg node id template) /\
  spec (routed cfg inv node (SdStats id)) (inventory_is inv) (fun _ => True) (Stats cfg node id).
Proof.
  split_and!.
  - unfold Pause. route_only.
  - unfold Resume. route_only.
  - unfold Fork. case_bool_decide; [done|]. route. intros [l|e] _; simpl; [|done].
    intros ? [= <-]. split; [|lia]. by apply Forall_fmap, Forall_true.
  - unfold Snapshot. route. intros [l|e] _; simpl; [|done]. by intros ? [= <-].
  - unfold Snapshots. route. intros [l|e] _; simpl; [|done].
    intros ? [= <-]. by apply Forall_fmap, Forall_true.
  - unfold DeleteSnapshot. route_only.
  - unfold ClaimSnapshot. route. intros [l|e] _; simpl; [|done]. by intros ? [= <-].
  - unfold Promote. case_bool_decide; [done|]. route. by intros [k|e] _; simpl.
  - unfold Stats. route_only.
Qed.

End StoreLifecycle.
