(* ===== verification/Watch.v ===== *)
(** * Watch: the poll-and-diff watch of the aggregated store.

    Models [Watch], [runWatch], [nodesOf] and [inventoryWatcher] of
    [pkg/scale/sandboxstore_impl.go].  The result channel is the list of events
    delivered on it; whether a [send] reaches the channel, and what the shared
    store looks like when the ticker fires, are answers of the environment. *)

From S2P Require Import Prelude GoStrings K8s PoolKey SandboxId Types StoreModel StoreFacts.

Module Watch.
Import Pool ClaimRef Store StoreFacts.
#[local] Open Scope prog_scope.

Inductive EventType := Added | Modified | Deleted | Bookmark.
Record Event := mkEvent { evType : EventType; evObject : Sandbox }.

Inductive WatchE : Type -> Type :=
| WStore {X} (e : StoreE X) : WatchE X
| WSelect : WatchE bool            (* send's select: the channel took the event *)
| WTick : WatchE (option store).   (* the ticker fired on this store, or ctx/done ended the watch *)

Definition in_store {R} (p : prog StoreE R) : prog WatchE R := translate (@WStore) p.

(** [inventoryWatcher.send]. *)
Definition send (result : list Event) (ev : Event) : prog WatchE (bool * list Event) :=
  ok <- call WSelect;;
  Ret (if (ok : bool) then (true, result ++ [ev]) else (false, result)).

(** Consecutive [emit]s, returning at the first that fails. *)
Fixpoint emit_all (result : list Event) (evs : list Event) : prog WatchE (bool * list Event) :=
  match evs with
  | [] => Ret (true, result)
  | ev :: evs =>
      let! (ok, result) := send result ev in
      if (ok : bool) then emit_all result evs else Ret (false, result)
  end.

Definition index (items : list Sandbox) : gmap string Sandbox :=
  fold_left (fun m sb => <[objKey sb := sb]> m) items ∅.

(** The events of one poll: new and changed objects in list order, then the
    objects that are gone. *)
Definition item_event (known : gmap string Sandbox) (sb : Sandbox) : list Event :=
  match known !! objKey sb with
  | None => [mkEvent Added sb]
  | Some prev => if bool_decide (sbResourceVersion prev <> sbResourceVersion sb)
                 then [mkEvent Modified sb] else []
  end.

Definition gone_events (known cur : gmap string Sandbox) : list Event :=
  (fun kv => mkEvent Deleted kv.2) <$>
    filter (fun kv : string * Sandbox => cur !! kv.1 = None) (map_to_list known).

Definition diff_events (known : gmap string Sandbox) (items : list Sandbox) : list Event :=
  concat (item_event known <$> items) ++ gone_events known (index items).

Definition nodesOf (items : list Sandbox) : list string :=
  fold_left (fun out sb =>
    let n := stNodeName (sbStatus sb) in
    if bool_decide (n = "") || bool_decide (n ∈ out) then out else out ++ [n]) items [].

Definition InitialEventsAnnotationKey : string := "k8s.io/initial-events-end".

Definition bookmark (rv : string) (annotations : strmap) : Sandbox :=
  mkSandbox (mkMeta "" "" "" "" rv 0 0 None ∅ annotations []) emptySpec emptyStatus.

Record watcher := mkWatcher {
  wResult : list Event;
  wKnown : gmap string Sandbox;
  wLastGen : string;
  wInitialRV : string;
}.

Section watch.
Context `{SelectorLib} (opts : ListOptions).

(** Initial synchronization; [false] when a send failed. *)
Definition initial_sync (s : store) : prog WatchE (bool * watcher) :=
  let! (r, _) := in_store (List_ s opts) in
  match r with
  | Err _ => Ret (true, mkWatcher [] ∅ "" "1")
  | Ok list =>
      let rv := slResourceVersion list in
      let! (ok, result) := emit_all [] (mkEvent Added <$> slItems list) in
      let w result := mkWatcher result (index (slItems list)) "" rv in
      if negb ok then Ret (false, w result)
      else if loSendInitialEvents opts then
        let! (ok, result) := send result
          (mkEvent Bookmark (bookmark rv {[InitialEventsAnnotationKey := "true"]})) in
        Ret (ok, w result)
      else Ret (true, w result)
  end.

(** One firing of the ticker. *)
Definition poll (w : watcher) (s : store) : prog WatchE (bool * watcher) :=
  let! (gen, trusted) := in_store (collectionGeneration s) in
  if trusted && bool_decide (gen = wLastGen w) then Ret (true, w)
  else
    let! (r, _) := in_store (List_ s opts) in
    match r with
    | Err _ => Ret (true, w)
    | Ok list =>
        let lastGen := if (trusted : bool) then gen else wLastGen w in
        let! (ok, result) := emit_all (wResult w) (diff_events (wKnown w) (slItems list)) in
        if negb ok then Ret (false, mkWatcher result (wKnown w) lastGen (wInitialRV w))
        else
          let w result := mkWatcher result (index (slItems list)) lastGen (wInitialRV w) in
          if loAllowWatchBookmarks opts then
            rv <- in_store (collectionResourceVersion (nodesOf (slItems list)));;
            let rv := if bool_decide (rv = "1") then wInitialRV (w []) else rv in
            let! (ok, result) := send result (mkEvent Bookmark (bookmark rv ∅)) in
            Ret (ok, w result)
          else Ret (true, w result)
    end.

(** The ticker loop, for [ticks] firings; [false] once the watch ended. *)
Fixpoint watch_loop (ticks : nat) (w : watcher) : prog WatchE (bool * watcher) :=
  match ticks with
  | O => Ret (true, w)
  | S ticks =>
      t <- call WTick;;
      match t with
      | None => Ret (false, w)
      | Some s =>
          let! (ok, w) := poll w s in
          if (ok : bool) then watch_loop ticks w else Ret (false, w)
      end
  end.

Definition runWatch (ticks : nat) (s : store) : prog WatchE (bool * watcher) :=
  let! (ok, w) := initial_sync s in
  if (ok : bool) then watch_loop ticks w else Ret (false, w).

(** A malformed selector is reported before the watch starts. *)
Definition Watch_ (ticks : nat) (s : store) : prog WatchE (result (bool * watcher)) :=
  match parseSelectors opts with
  | Err e => Ret (Err e)
  | Ok _ => r <- runWatch ticks s;; Ret (Ok r)
  end.
End watch.

(** ** A client of the watch *)

(** The cache a client builds from the events it receives. *)
Definition observe (c : gmap string Sandbox) (ev : Event) : gmap string Sandbox :=
  match evType ev with
  | Added | Modified => <[objKey (evObject ev) := evObject ev]> c
  | Deleted => delete (objKey (evObject ev)) c
  | Bookmark => c
  end.

Definition client (evs : list Event) : gmap string Sandbox := fold_left observe evs ∅.

(** The same objects at the same versions. *)
Definition mirrors (c known : gmap string Sandbox) : Prop :=
  forall k, sbResourceVersion <$> c !! k = sbResourceVersion <$> known !! k.

Definition keyed (m : gmap string Sandbox) : Prop := forall k sb, m !! k = Some sb -> objKey sb = k.

Definition distinct (items : list Sandbox) : Prop := NoDup (objKey <$> items).

(** The last item of a key wins. *)
Definition last_item (k : string) (items : list Sandbox) (old : option Sandbox) : option Sandbox :=
  fold_left (fun o sb => if decide (objKey sb = k) then Some sb else o) items old.

Lemma last_item_cons k sb items old :
  last_item k (sb :: items) old = last_item k items (if decide (objKey sb = k) then Some sb else old).
Proof. done. Qed.

Lemma last_item_none k items old : k ∉ objKey <$> items -> last_item k items old = old.
Proof.
  revert old. induction items as [|sb items IH]; intros old; csimpl; [done|].
  rewrite not_elem_of_cons. intros [Hk Hn]. unfold last_item in *. cbn [fold_left].
  rewrite decide_False by congruence. by apply IH.
Qed.

Lemma index_fold items (m : gmap string Sandbox) k :
  fold_left (fun m sb => <[objKey sb := sb]> m) items m !! k = last_item k items (m !! k).
Proof.
  revert m. induction items as [|sb items IH]; intros m; simpl; [done|]. rewrite IH.
  unfold last_item. simpl. case_decide as Hk; [by rewrite <-Hk, lookup_insert_eq|by rewrite lookup_insert_ne].
Qed.

Lemma index_lookup items k : index items !! k = last_item k items None.
Proof. unfold index. by rewrite index_fold, lookup_empty. Qed.

Lemma index_keyed items : keyed (index items).
Proof.
  intros k sb. rewrite index_lookup. unfold last_item.
  assert (forall old, (forall x, old = Some x -> objKey x = k) ->
    forall x, fold_left (fun o sb => if decide (objKey sb = k) then Some sb else o) items old = Some x ->
    objKey x = k) as Hgo; [|by apply Hgo].
  induction items as [|y items IH]; intros old Hold x; simpl; [apply Hold|].
  apply IH. intros z. case_decide; [by intros [= <-]|apply Hold].
Qed.

(** Replaying the item events brings each listed key to its listed version and
    leaves the others. *)
Lemma observe_items known items c :
  distinct items -> mirrors c known ->
  forall k, sbResourceVersion <$> fold_left observe (concat (item_event known <$> items)) c !! k =
            sbResourceVersion <$> last_item k items (c !! k).
Proof.
  intros Hd Hm. assert (forall k, k ∈ objKey <$> items ->
    sbResourceVersion <$> c !! k = sbResourceVersion <$> known !! k) as Hc by (intros; apply Hm).
  clear Hm. revert c Hc. induction items as [|sb items IH]; intros c Hc k; [done|].
  rewrite last_item_cons. csimpl. apply NoDup_cons in Hd as [Hn Hd]. rewrite fold_left_app. set (c' := fold_left observe (item_event known sb) c).
  assert (forall k', k' <> objKey sb -> c' !! k' = c !! k') as Hother.
  { intros k' Hne. unfold c', item_event. repeat case_match; simpl; try done;
      unfold observe; simpl; by rewrite lookup_insert_ne. }
  assert (sbResourceVersion <$> c' !! objKey sb = Some (sbResourceVersion sb)) as Hsb.
  { unfold c', item_event. specialize (Hc (objKey sb) ltac:(left)).
    destruct (known !! objKey sb) as [prev|]; [case_bool_decide as Hv|]; simpl.
    - unfold observe. simpl. by rewrite lookup_insert_eq.
    - rewrite Hc. simpl. by rewrite Hv.
    - unfold observe. simpl. by rewrite lookup_insert_eq. }
  rewrite (IH Hd c').
  - case_decide as Hk; [|by rewrite Hother].
    subst k. rewrite !last_item_none by done. by rewrite Hsb.
  - intros k' Hk'. rewrite Hother; [apply Hc; by right|]. by intros ->.
Qed.

Lemma observe_gone (cur : gmap string Sandbox) l c k :
  (forall kv, kv ∈ l -> objKey kv.2 = kv.1) ->
  fold_left observe ((fun kv : string * Sandbox => mkEvent Deleted kv.2) <$> filter (fun kv : string * Sandbox => cur !! kv.1 = None) l) c !! k =
  if decide (k ∈ l.*1 /\ cur !! k = None) then None else c !! k.
Proof.
  revert c. induction l as [|[k' sb] l IH]; intros c Hk.
  { case_decide as Hd; [|done]. by destruct Hd as [Hx%not_elem_of_nil _]. }
  rewrite filter_cons. assert (objKey sb = k') as Hkey by (apply (Hk (k', sb)); left).
  assert (forall kv, kv ∈ l -> objKey kv.2 = kv.1) as Hk' by (intros; apply Hk; by right).
  rewrite fmap_cons. cbn [fst].
  destruct (decide (cur !! k' = None)) as [Hp|Hp]; [rewrite fmap_cons; cbn [fold_left]|]; rewrite IH by done.
  - unfold observe at 1. cbn [evType evObject snd]. rewrite Hkey.
    destruct (decide (k = k')) as [->|Hne].
    + rewrite lookup_delete_eq. rewrite (decide_True (P := k' ∈ k' :: l.*1 /\ cur !! k' = None)) by (split; [left|done]).
      by case_decide.
    + rewrite lookup_delete_ne by done. repeat case_decide; set_solver.
  - repeat case_decide; set_unfold; naive_solver.
Qed.

(** One poll's events bring a client that mirrored the known objects to the
    listed ones. *)
Lemma diff_mirrors known items c :
  keyed known -> distinct items -> mirrors c known ->
  mirrors (fold_left observe (diff_events known items) c) (index items).
Proof.
  intros Hk Hd Hm k. unfold diff_events. rewrite fold_left_app. unfold gone_events.
  rewrite observe_gone.
  2: { intros [k' sb] Hin. apply elem_of_map_to_list in Hin. by apply Hk. }
  case_decide as Hg; [by destruct Hg as [_ ->]|].
  rewrite (observe_items known items c Hd Hm k), index_lookup.
  destruct (decide (k ∈ objKey <$> items)) as [Hin|Hin].
  - apply list_elem_of_fmap in Hin as (sb & -> & Hin).
    assert (forall o1 o2, last_item (objKey sb) items o1 = last_item (objKey sb) items o2) as Heq.
    { clear -Hin. induction items as [|x items IH]; [by apply not_elem_of_nil in Hin|].
      intros o1 o2. rewrite !last_item_cons. apply elem_of_cons in Hin as [->|Hin].
      - by rewrite !decide_True.
      - by apply IH. }
    by rewrite (Heq (c !! objKey sb) None).
  - rewrite !last_item_none by done. rewrite Hm. destruct (known !! k) as [prev|] eqn:E; [|done].
    destruct Hg. split; [|by rewrite index_lookup, last_item_none].
    apply list_elem_of_fmap. exists (k, prev). split; [done|]. by apply elem_of_map_to_list.
Qed.

Lemma observe_added_items items c :
  fold_left observe (mkEvent Added <$> items) c = fold_left (fun m sb => <[objKey sb := sb]> m) items c.
Proof. revert c. induction items as [|sb items IH]; intros c; csimpl; [done|]. apply IH. Qed.

(** ** Distinct keys

    What makes the listed keys distinct: each name is published by one node,
    once, and a pending claim is filed under its own name. *)

Definition entry_key (e : InventoryEntry) : string :=
  let '(ns, name, _) := parseClaimRef (ieName e) in key_of ns name.

Definition wf_pending (s : store) : Prop :=
  forall k pc, pending s !! k = Some pc -> entry_key (pcEntry pc) = k.

Definition one_owner (owner : string -> string) (X : Type) (e : StoreE X) : X -> Prop :=
  match e in StoreE X return X -> Prop with
  | EListNodes => fun r => forall nodes, r = Ok nodes -> NoDup nodes
  | ENodeInventory n => fun r => forall i, r = Ok i ->
      NoDup (entry_key <$> niEntries i) /\ Forall (fun e => owner (entry_key e) = n) (niEntries i)
  | _ => fun _ => True
  end.

Lemma objKey_entry s node e : objKey (applyOverlay s (entryToSandbox node e)) = entry_key e.
Proof.
  rewrite applyOverlay_key. unfold objKey, entry_key.
  destruct (parseClaimRef (ieName e)) as [[ns name] uid] eqn:E.
  by destruct (entryToSandbox_name node e _ _ _ E) as [-> ->].
Qed.

Section distinct.
Context (owner : string -> string) (namespace : string) (labelSel fieldSel : strmap -> bool).

Lemma materialize_keys s inv :
  objKey <$> materialize s inv namespace labelSel fieldSel `sublist_of` entry_key <$> niEntries inv.
Proof.
  unfold materialize. induction (niEntries inv) as [|e l IH]; [done|].
  csimpl. rewrite filter_cons. case_decide; csimpl.
  - rewrite objKey_entry. by apply sublist_skip.
  - by apply sublist_cons.
Qed.

Lemma gather_distinct s nodes :
  NoDup nodes -> wf_pending s ->
  spec any_call (one_owner owner)
    (fun r => distinct r.1 /\ Forall (fun k => owner k ∈ nodes) (objKey <$> r.1) /\ wf_pending r.2)
    (gather s nodes namespace labelSel fieldSel).
Proof.
  revert s. induction nodes as [|n nodes IH]; intros s Hnd Hw; simpl; [by repeat constructor|].
  apply NoDup_cons in Hnd as [Hn Hnd]. split; [done|]. intros [inv|e] Hr.
  2: { eapply spec_mono; [done| |by apply IH]. intros [l s'] (? & HF & ?). split_and!; try done.
       eapply Forall_impl; [exact HF|]. intros k Hk. by right. }
  simpl in Hr. destruct (Hr inv eq_refl) as [Hnd' Hown].
  assert (wf_pending (reconcilePending s inv)) as Hw'.
  { unfold reconcilePending. generalize (niEntries inv). intros l. revert s Hw. clear.
    induction l as [|e l IH]; intros s Hw; simpl; [done|]. apply IH.
    destruct (parseClaimRef (ieName e)) as [[ns name] uid]. case_bool_decide; [|done].
    intros k pc. rewrite forgetClaim_lookup. case_decide; [done|]. apply Hw. }
  eapply spec_bind; [by apply IH|]. intros [rest s'] (Hd & HF & Hws). cbn [fst snd] in *.
  pose proof (materialize_keys (reconcilePending s inv) inv) as Hsub.
  set (chunk := materialize _ _ _ _ _) in *. simpl.
  assert (Forall (fun k => owner k = n) (objKey <$> chunk)) as Hchunk.
  { apply Forall_forall. intros k Hk. rewrite Forall_forall in Hown.
    pose proof (elem_of_sublist _ _ _ Hk Hsub) as (e & -> & He)%list_elem_of_fmap. by apply Hown. }
  unfold distinct in *. rewrite fmap_app. split; [|split; [apply Forall_app_2|done]].
  - apply NoDup_app. split_and!; [exact (sublist_NoDup _ _ Hnd' Hsub)| |done].
    intros k Hk Hk'. rewrite Forall_forall in HF, Hchunk. apply Hn.
    rewrite <-(Hchunk k Hk). by apply HF.
  - eapply Forall_impl; [exact Hchunk|]. intros k ->. left.
  - eapply Forall_impl; [exact HF|]. intros k Hk. by right.
Qed.

Lemma unconfirmed_distinct now seen l out s :
  NoDup (objKey <$> out) -> NoDup l.*1 ->
  Forall (fun kv => entry_key (pcEntry kv.2) = kv.1) l ->
  (forall k, k ∈ objKey <$> out -> (k ∉ seen) /\ (k ∉ l.*1)) ->
  let r := (fold_left (unconfirmed_step now seen namespace labelSel fieldSel) l (out, s)).1 in
  NoDup (objKey <$> r) /\ Forall (fun k => k ∉ seen) (objKey <$> r).
Proof.
  revert out s. induction l as [|[k pc] l IH]; intros out s Ho Hl Hk Hdis; cbn [fold_left].
  { split; [done|]. apply Forall_forall. intros k Hin. by apply Hdis. }
  rewrite fmap_cons in *. apply NoDup_cons in Hl as [Hkn Hl]. apply Forall_cons in Hk as [Hkk Hk].
  cbn [fst snd] in *.
  assert (forall s', let r := (fold_left (unconfirmed_step now seen namespace labelSel fieldSel) l (out, s')).1 in
    NoDup (objKey <$> r) /\ Forall (fun k => k ∉ seen) (objKey <$> r)) as Hskip.
  { intros s'. apply IH; try done. intros k' Hin. destruct (Hdis k' Hin) as [? Hn]. set_solver. }
  destruct (unconfirmed_step _ _ _ _ _ (out, s) (k, pc)) as [out' s'] eqn:Es.
  unfold unconfirmed_step in Es. destruct (expired now pc); [injection Es as <- _; apply Hskip|].
  case_bool_decide as Hseen; [injection Es as <- _; apply Hskip|].
  destruct (selected _ _ _ _); [injection Es as <- _|injection Es as <- _; apply Hskip].
  assert (k ∉ objKey <$> out) as Hnew. { intros Hin. destruct (Hdis k Hin) as [_ Hx]. apply Hx. left. }
  apply IH; try done.
  - rewrite fmap_app. csimpl. rewrite objKey_entry, Hkk. apply NoDup_app. split_and!; [done| |apply NoDup_singleton].
    intros k' Hin Heq%list_elem_of_singleton. by subst k'.
  - intros k'. rewrite fmap_app. csimpl. rewrite objKey_entry, Hkk, elem_of_app.
    intros [Hin|Heq%list_elem_of_singleton]; [|by subst k']. destruct (Hdis k' Hin). set_solver.
Qed.
End distinct.

Lemma List_distinct `{SelectorLib} owner s opts :
  wf_pending s ->
  spec any_call (one_owner owner) (fun r => forall l, r.1 = Ok l -> distinct (slItems l)) (List_ s opts).
Proof.
  intros Hw. unfold List_. destruct (parseSelectors opts) as [[ls fs]|e]; [|done].
  cbn [bind call]. split; [done|]. intros [nodes|e] Hn; [|done]. cbn [bind].
  eapply spec_bind; [apply gather_distinct; [by apply Hn|done]|].
  intros [items s1] (Hd & _ & Hw1). cbn [fst snd] in *. unfold unconfirmed. cbn [bind call].
  split; [done|]. intros now _. cbn [bind].
  pose proof (unconfirmed_distinct owner (loNamespace opts) ls fs now (list_to_set (objKey <$> items))
    (map_to_list (pending s1)) [] s1) as Hu.
  destruct (fold_left _ _ _) as [more s2]. cbn [fst] in Hu.
  destruct Hu as [Hmore Hout]; [constructor|apply NoDup_fst_map_to_list| |by intros k Hk%not_elem_of_nil|].
  { apply Forall_forall. intros [k pc] Hin. apply elem_of_map_to_list in Hin. by apply Hw1. }
  eapply spec_bind; [apply collectionResourceVersion_any|]. intros rv _ l [= <-]. cbn [slItems].
  unfold distinct. rewrite merge_sort_Permutation, fmap_app. apply NoDup_app. split_and!; [done| |done].
  intros k Hk Hk'. rewrite Forall_forall in Hout. apply (Hout k Hk'). by apply elem_of_list_to_set.
Qed.

(** ** The event stream *)

Definition any_watch_call (X : Type) (e : WatchE X) : Prop := True.

(** Inventories keep one owner per name, and the shared store files pending
    claims under their own names. *)
Definition calm (owner : string -> string) (X : Type) (e : WatchE X) : X -> Prop :=
  match e in WatchE X return X -> Prop with
  | @WStore Y e => one_owner owner Y e
  | WSelect => fun _ => True
  | WTick => fun t => forall s, t = Some s -> wf_pending s
  end.

Lemma client_app evs evs' : client (evs ++ evs') = fold_left observe evs' (client evs).
Proof. apply fold_left_app. Qed.

Lemma emit_all_spec owner result evs :
  spec any_watch_call (calm owner) (fun '(ok, r) => ok = true -> r = result ++ evs)
    (emit_all result evs).
Proof.
  revert result. induction evs as [|ev evs IH]; intros result; cbn [emit_all].
  { simpl. intros _. by rewrite app_nil_r. }
  unfold send. cbn [bind call]. split; [done|]. intros [] _; cbn [bind]; [|done].
  eapply spec_mono; [done| |apply IH]. intros [ok r] Hr Hok. rewrite (Hr Hok), <-app_assoc. done.
Qed.

Lemma in_store_spec {A} owner (post : A -> Prop) (p : prog StoreE A) :
  spec any_call (one_owner owner) post p -> spec any_watch_call (calm owner) post (in_store p).
Proof. intros Hp. apply spec_translate. exact Hp. Qed.

Lemma any_spec {A} owner (p : prog StoreE A) : spec any_call (one_owner owner) (fun _ => True) p.
Proof. induction p as [r|X e k IH]; simpl; [done|]. split; [done|]. auto. Qed.

Section stream.
Context `{SelectorLib} (opts : ListOptions) (owner : string -> string).

(** What holds of a live watcher: its client mirrors what it knows. *)
Definition synced (w : watcher) : Prop :=
  keyed (wKnown w) /\ mirrors (client (wResult w)) (wKnown w).

Definition live_synced (r : bool * watcher) : Prop := r.1 = true -> synced r.2.

Lemma initial_sync_synced s :
  wf_pending s -> spec any_watch_call (calm owner) live_synced (initial_sync opts s).
Proof.
  intros Hw. unfold initial_sync. eapply spec_bind; [by apply in_store_spec, List_distinct|].
  intros [[list|e] s'] Hd; [|intros _; by split]. cbn beta iota.
  eapply spec_bind; [apply emit_all_spec|]. intros [ok result] Hok. cbn beta iota.
  destruct ok; cbn [negb]; [|done].
  assert (forall w, wKnown w = index (slItems list) -> client (wResult w) = index (slItems list) ->
    synced w) as Hs.
  { intros w E1 E2. unfold synced. rewrite E1, E2. split; [apply index_keyed|done]. }
  assert (client result = index (slItems list)) as Hc.
  { rewrite (Hok eq_refl). apply observe_added_items. }
  destruct (loSendInitialEvents opts); [|by intros _; apply Hs].
  unfold send. cbn [bind call]. split; [done|]. intros [] _; [|done]. cbn [bind].
  intros _. apply Hs; [done|]. simpl. by rewrite client_app.
Qed.

Lemma poll_synced w s :
  wf_pending s -> synced w -> spec any_watch_call (calm owner) live_synced (poll opts w s).
Proof.
  intros Hw [Hk Hm]. unfold poll. eapply spec_bind; [apply in_store_spec, any_spec|].
  intros [gen trusted] _. cbn beta iota. destruct (trusted && _); [by intros _|].
  eapply spec_bind; [by apply in_store_spec, List_distinct|].
  intros [[list|e] s'] Hd; [|by intros _]. cbn beta iota. cbn [fst] in Hd.
  eapply spec_bind; [apply emit_all_spec|]. intros [ok result] Hok. cbn beta iota.
  destruct ok; cbn [negb]; [|done].
  assert (mirrors (client result) (index (slItems list))) as Hc.
  { rewrite (Hok eq_refl), client_app. apply diff_mirrors; [done|by apply Hd|done]. }
  destruct (loAllowWatchBookmarks opts); [|intros _; split; [apply index_keyed|done]].
  eapply spec_bind; [apply in_store_spec, any_spec|]. intros rv _. unfold send. cbn [bind call].
  split; [done|]. intros [] _; [|done]. intros _. split; [apply index_keyed|].
  cbn [bind wResult snd]. by rewrite client_app.
Qed.

Lemma watch_loop_synced ticks w :
  synced w -> spec any_watch_call (calm owner) live_synced (watch_loop opts ticks w).
Proof.
  revert w. induction ticks as [|n IH]; intros w Hs; cbn [watch_loop]; [by intros _|].
  cbn [bind call]. split; [done|]. intros [s|] Ht; cbn [bind]; [|done].
  eapply spec_bind; [apply poll_synced; [by apply Ht|done]|]. intros [[] w'] Hw; [|done].
  apply IH. by apply Hw.
Qed.
End stream.

(** C11.  The watch delivers the collection, while each name is published by one
    node only ([calm]: inventories that disagree about a name's owner, as after a
    second claim of the same name, are outside this).  Under that condition,
    however many times the ticker has fired, and whatever other requests did to
    the store in between, a client that has applied the delivered events holds
    exactly the objects of the watch's last poll, each at its current resource
    version, as long as the stream is open. *)
Theorem watch_mirrors_collection `{SelectorLib} opts owner ticks s :
  wf_pending s ->
  spec any_watch_call (calm owner)
    (fun '(alive, w) => alive = true -> mirrors (client (wResult w)) (wKnown w))
    (runWatch opts ticks s).
Proof.
  intros Hw. unfold runWatch. eapply spec_bind; [by apply initial_sync_synced|].
  intros [[] w] Hs; [|done]. cbn beta iota.
  eapply spec_mono; [done| |apply watch_loop_synced; by apply Hs].
  intros [[] w'] Hr; [|done]. intros _. by apply Hr.
Qed.

Lemma watch_mirrors_collection_witness :
  spec any_watch_call (calm (fun _ => "n1"))
    (fun '(alive, w) => alive = true -> mirrors (client (wResult w)) (wKnown w))
    (runWatch (H:=Demo.selectors) Demo.everything 3 NewScatterGatherStore).
Proof.
  apply (watch_mirrors_collection (H:=Demo.selectors) Demo.everything (fun _ => "n1") 3
    NewScatterGatherStore).
  intros k pc Hk. vm_compute in Hk. discriminate Hk.
Defined.

(** ** The fingerprint *)

(** Two nodes; [second] tells whether the second one's inventory still exists. *)
Definition fleet (second : bool) : handler StoreE unit := fun X e =>
  match e in StoreE X return unit -> X * unit with
  | EListNodes => fun w => (Ok (if second then ["n1"; "n2"] else ["n1"]), w)
  | ENodeInventory n => fun w =>
      (if bool_decide (n = "n1") then Ok (mkInventory "9" "n1" [] "10.0.0.1:7777" [])
       else Ok (mkInventory "5" "n2" [mkEntry "prod/db" "sb_7" "Running" "" ""] "10.0.0.2:7777" []), w)
  | ENow => fun w => (1000, w)
  | EIntN _ => fun w => (0, w)
  | ESandboxd _ _ c => fun w => (Demo.sandboxd_answer c O, w)
  | EClaimObserver _ => fun w => (tt, w)
  end.

(** An unchanged fingerprint does not mean an unchanged collection: when the
    inventory of a node that is not the newest disappears, its sandboxes leave
    the list while [collectionGeneration] stays the same. *)
Lemma fingerprint_misses_lost_node :
  let gen second := (run (fleet second) (collectionGeneration NewScatterGatherStore) tt).1 in
  let listed second :=
    match (run (fleet second) (List_ (H:=Demo.selectors) NewScatterGatherStore Demo.everything) tt).1.1 with
    | Ok l => objKey <$> slItems l
    | Err _ => []
    end in
  gen true = gen false /\ (gen true).2 = true /\ listed true = ["prod/db"] /\ listed false = [].
Proof. vm_compute. repeat split. Qed.

End Watch.
