(* ===== verification/Driver.v ===== *)
(** * Driver: the warm-pool driver of the aggregated deployment.

    Models [pkg/scale/warmpool/driver.go]: it resolves every SandboxWarmPool to
    a pool key, spreads the requested replicas over the schedulable nodes,
    replaces each node's pool set in one request, and writes the warm counts the
    nodes report back into pool status.  The per-node fan-out runs in node
    order. *)

From S2P Require Import Prelude GoStrings K8s PoolKey Types.

Module Driver.
Import Pool.
#[local] Open Scope prog_scope.

Definition netAnnotation : string := "sandbox.cocoonstack.io/net".

Record PoolSpec := mkPoolSpec { sdTemplate : string; sdNet : string; sdSize : string; sdWarm : Z }.
(** The response of PUT /v1/pools: live warm counts per key. *)
Definition NodeInfo : Type := list (PoolKey * Z).

Inductive DriverE : Type -> Type :=
| DListPools : DriverE (result (list SandboxWarmPool))
| DListNodes : DriverE (result (list string))
| DNodeInventory (node : string) : DriverE (result NodeInventory)
| DGetTemplate (namespace name : string) : DriverE (result SandboxTemplate)
| DSetPools (addr token : string) (specs : list PoolSpec) : DriverE (result (option NodeInfo))
| DStatusUpdate (pool : SandboxWarmPool) : DriverE (option gerror).

Record nodeView := mkNodeView { nvName : string; nvAddr : string; nvWarmBy : gmap PoolKey Z }.

Record desiredPool := mkDesiredPool {
  dpNamespace : string; dpName : string; dpKey : PoolKey; dpTargets : gmap string Z
}.

(** ** Spreading replicas *)

Fixpoint distribute_go (base remainder i : Z) (nodes : list nodeView) (targets : gmap string Z) :
    gmap string Z :=
  match nodes with
  | [] => targets
  | n :: nodes =>
      let t := if bool_decide (i < remainder) then base + 1 else base in
      distribute_go base remainder (i + 1) nodes (<[nvName n := t]> targets)
  end.

Definition distribute (replicas : Z) (nodes : list nodeView) : gmap string Z :=
  match nodes with
  | [] => ∅
  | _ =>
      let total := if bool_decide (replicas < 0) then 0 else replicas in
      let len := Z.of_nat (length nodes) in
      distribute_go (Z.quot total len) (Z.rem total len) 0 nodes ∅
  end.

(** ** One node's pool set *)

Definition key_of_capacity (pc : PoolCapacity) : PoolKey :=
  mkPoolKey (pcTemplate pc) (pcNet pc) (pcSize pc).

(** [byKey[dp.key] += dp.targets[node.name]]. *)
Definition targets_by_key (node : string) (desired : list desiredPool) : gmap PoolKey Z :=
  fold_left (fun m dp =>
    <[dpKey dp := default 0 (m !! dpKey dp) + default 0 (dpTargets dp !! node)]> m) desired ∅.

Definition spec_le (a b : PoolSpec) : Prop :=
  if decide (sdTemplate a = sdTemplate b) then
    if decide (sdNet a = sdNet b) then String.le (sdSize a) (sdSize b)
    else String.le (sdNet a) (sdNet b)
  else String.le (sdTemplate a) (sdTemplate b).

#[export] Instance spec_le_dec : RelDecision spec_le.
Proof. intros a b. unfold spec_le. repeat case_decide; apply _. Defined.

Definition spec_of (kw : PoolKey * Z) : PoolSpec :=
  mkPoolSpec (Template kw.1) (Net kw.1) (Size kw.1) kw.2.

Definition node_specs (node : string) (desired : list desiredPool) : list PoolSpec :=
  merge_sort spec_le (spec_of <$> map_to_list (targets_by_key node desired)).

Definition warmByFrom (info : NodeInfo) : gmap PoolKey Z :=
  fold_left (fun m kw => <[kw.1 := kw.2]> m) info ∅.

Section driver.
Context (token : string).

Fixpoint node_views (names : list string) : prog DriverE (list nodeView) :=
  match names with
  | [] => Ret []
  | name :: names =>
      r <- call (DNodeInventory name);;
      match r with
      | Err _ => node_views names
      | Ok inv =>
          if bool_decide (niAddress inv = "") then node_views names
          else
            let warmBy := fold_left (fun m pc => <[key_of_capacity pc := pcWarm pc]> m) (niPools inv) ∅ in
            views <- node_views names;;
            Ret (mkNodeView name (niAddress inv) warmBy :: views)
      end
  end.

Definition view_le (a b : nodeView) : Prop := String.le (nvName a) (nvName b).

#[global] Instance view_le_dec : RelDecision view_le.
Proof. intros a b. unfold view_le. apply _. Defined.

Definition schedulableNodes : prog DriverE (result (list nodeView)) :=
  r <- call DListNodes;;
  match r with
  | Err e => Ret (Err (Wrap "list node inventories" e))
  | Ok names => views <- node_views names;; Ret (Ok (merge_sort view_le views))
  end.

(** The key, and the error if any: on an error the key is the zero one. *)
Definition poolKey (p : SandboxWarmPool) : prog DriverE (PoolKey * option gerror) :=
  let zero := mkPoolKey "" "" "" in
  let name := wpTemplateRef p in
  if bool_decide (name = "") then
    Ret (zero, Some (Errorf "spec.sandboxTemplateRef.name is required"))
  else
    r <- call (DGetTemplate (mNamespace (wpMeta p)) name);;
    match r with
    | Err e => Ret (zero, Some (Wrap "get SandboxTemplate" e))
    | Ok tmpl =>
        let net := mget (mAnnotations (tplMeta tmpl)) netAnnotation in
        let podTemplate := bpPodTemplate (tplBlueprint tmpl) in
        let net := if bool_decide (net = "")
                   then mget (pmAnnotations (ptMeta podTemplate)) netAnnotation else net in
        Ret (PoolKeyFor (psContainers (ptSpec podTemplate)) net, None)
    end.

Definition writeStatus (p : SandboxWarmPool) (nodes : list nodeView) (key : PoolKey) :
    prog DriverE unit :=
  let total := foldr (fun n acc => default 0 (nvWarmBy n !! key) + acc) 0 nodes in
  let selector := "agents.x-k8s.io/warm-pool=" +:+ mName (wpMeta p) in
  if bool_decide (wpStatusReplicas p = int32 total) && bool_decide (wpStatusReadyReplicas p = int32 total)
     && bool_decide (wpStatusSelector p = selector)
  then Ret tt
  else
    call (DStatusUpdate (mkWarmPool (wpMeta p) (wpReplicas p) (wpTemplateRef p) (wpUpdateStrategy p)
                           (int32 total) (int32 total) selector));;;
    Ret tt.

Fixpoint resolve (pools : list SandboxWarmPool) (nodes : list nodeView) :
    prog DriverE (list desiredPool) :=
  match pools with
  | [] => Ret []
  | p :: pools =>
      let! (key, rerr) := poolKey p in
      match rerr with
      | Some _ => writeStatus p nodes key;;; resolve pools nodes
      | None =>
          let replicas := match wpReplicas p with Some r => r | None => 1 end in
          rest <- resolve pools nodes;;
          Ret (mkDesiredPool (mNamespace (wpMeta p)) (mName (wpMeta p)) key
                 (distribute replicas nodes) :: rest)
      end
  end.

Fixpoint apply_loop (nodes : list nodeView) (desired : list desiredPool) :
    prog DriverE (list nodeView) :=
  match nodes with
  | [] => Ret []
  | node :: nodes =>
      r <- call (DSetPools (nvAddr node) token (node_specs (nvName node) desired));;
      let node := match r with
                  | Ok (Some info) => mkNodeView (nvName node) (nvAddr node) (warmByFrom info)
                  | Ok None | Err _ => node
                  end in
      rest <- apply_loop nodes desired;;
      Ret (node :: rest)
  end.

Definition applyToNodes (nodes : list nodeView) (desired : list desiredPool) :
    prog DriverE (list nodeView) :=
  if bool_decide (token = "") then Ret nodes else apply_loop nodes desired.

Fixpoint write_statuses (pools : list SandboxWarmPool) (nodes : list nodeView) : prog DriverE unit :=
  match pools with
  | [] => Ret tt
  | p :: pools =>
      let! (key, kerr) := poolKey p in
      match kerr with
      | Some _ => write_statuses pools nodes
      | None => writeStatus p nodes key;;; write_statuses pools nodes
      end
  end.

Definition reconcileOnce : prog DriverE (option gerror) :=
  r <- call DListPools;;
  match r with
  | Err e => Ret (Some (Wrap "list SandboxWarmPools" e))
  | Ok pools =>
      r <- schedulableNodes;;
      match r with
      | Err e => Ret (Some e)
      | Ok nodes =>
          desired <- resolve pools nodes;;
          nodes <- applyToNodes nodes desired;;
          write_statuses pools nodes;;;
          Ret None
      end
  end.

(** The requeue delay on success, or the error. *)
Definition Reconcile (interval : Z) : prog DriverE (result Z) :=
  err <- reconcileOnce;;
  Ret (match err with Some e => Err e | None => Ok interval end).
End driver.

(** ** Distribution *)

Definition assigned (targets : gmap string Z) (n : nodeView) : Z := default 0 (targets !! nvName n).

Lemma distribute_go_other base remainder i nodes targets k :
  k ∉ nvName <$> nodes -> distribute_go base remainder i nodes targets !! k = targets !! k.
Proof.
  revert i targets. induction nodes as [|n nodes IH]; intros i targets Hk; [done|].
  cbn [distribute_go]. rewrite fmap_cons, not_elem_of_cons in Hk. destruct Hk.
  rewrite IH by done. by rewrite lookup_insert_ne.
Qed.

Lemma distribute_go_sum base remainder i nodes targets :
  NoDup (nvName <$> nodes) ->
  sum_over (assigned (distribute_go base remainder i nodes targets)) nodes =
  base * Z.of_nat (length nodes) + Z.max 0 (Z.min (Z.of_nat (length nodes)) (remainder - i)).
Proof.
  revert i targets. induction nodes as [|n nodes IH]; intros i targets Hd; [simpl; lia|].
  rewrite fmap_cons in Hd. apply NoDup_cons in Hd as [Hn Hd]. cbn [distribute_go].
  set (t := if bool_decide (i < remainder) then base + 1 else base).
  change (sum_over ?f (n :: nodes)) with (f n + sum_over f nodes). rewrite (IH (i + 1)) by done.
  unfold assigned. rewrite distribute_go_other by done. rewrite lookup_insert_eq. cbn [default length id].
  rewrite Nat2Z.inj_succ, Z.mul_succ_r. unfold id, t. case_bool_decide; lia.
Qed.

Lemma distribute_go_range base remainder i nodes targets n :
  NoDup (nvName <$> nodes) -> n ∈ nodes ->
  base <= assigned (distribute_go base remainder i nodes targets) n <= base + 1.
Proof.
  revert i targets. induction nodes as [|m nodes IH]; intros i targets Hd Hn; [by apply not_elem_of_nil in Hn|].
  rewrite fmap_cons in Hd. apply NoDup_cons in Hd as [Hm Hd]. cbn [distribute_go].
  apply elem_of_cons in Hn as [->|Hn]; [|by apply IH].
  unfold assigned. rewrite distribute_go_other by done. rewrite lookup_insert_eq.
  simpl. case_bool_decide; lia.
Qed.

Lemma distribute_total replicas nodes :
  nodes <> [] -> NoDup (nvName <$> nodes) ->
  sum_over (assigned (distribute replicas nodes)) nodes = Z.max 0 replicas.
Proof.
  intros Hne Hd. unfold distribute. destruct nodes as [|n nodes]; [done|]. clear Hne.
  set (ns := n :: nodes) in *. set (total := if bool_decide _ then _ else _).
  assert (total = Z.max 0 replicas) as Ht by (unfold total; case_bool_decide; lia).
  rewrite distribute_go_sum by done.
  assert (0 < Z.of_nat (length ns)) by (simpl; lia).
  pose proof (Z.quot_rem' total (Z.of_nat (length ns))).
  pose proof (Z.rem_bound_pos total (Z.of_nat (length ns))). lia.
Qed.

(** [distribute] asks the fleet for exactly the requested replicas (a
    negative count as zero), and evenly: any two nodes' targets differ by at
    most one. *)
Theorem distribute_exact_and_even replicas nodes n m :
  nodes <> [] -> NoDup (nvName <$> nodes) -> n ∈ nodes -> m ∈ nodes ->
  sum_over (assigned (distribute replicas nodes)) nodes = Z.max 0 replicas /\
  Z.abs (assigned (distribute replicas nodes) n - assigned (distribute replicas nodes) m) <= 1.
Proof.
  intros Hne Hd Hn Hm. split; [by apply distribute_total|].
  unfold distribute. destruct nodes as [|x nodes]; [done|].
  match goal with |- context [distribute_go ?b ?r ?i ?l ?t] =>
    pose proof (distribute_go_range b r i l t n Hd Hn); pose proof (distribute_go_range b r i l t m Hd Hm)
  end. lia.
Qed.

Lemma distribute_exact_and_even_witness :
  let nodes := [mkNodeView "a" "a:1" ∅; mkNodeView "b" "b:1" ∅; mkNodeView "c" "c:1" ∅] in
  sum_over (assigned (distribute 8 nodes)) nodes = 8.
Proof.
  intros nodes.
  apply (distribute_exact_and_even 8 nodes (mkNodeView "a" "a:1" ∅) (mkNodeView "b" "b:1" ∅)).
  - discriminate.
  - apply (bool_decide_unpack _). vm_compute. exact I.
  - left.
  - right. left.
Defined.

(** ** Pool sets *)

Definition spec_key (s : PoolSpec) : PoolKey := mkPoolKey (sdTemplate s) (sdNet s) (sdSize s).

(** What a pool set asks for one key. *)
Definition asked (specs : list PoolSpec) (k : PoolKey) : Z :=
  sum_over (fun s => if decide (spec_key s = k) then sdWarm s else 0) specs.

Lemma spec_key_of kw : spec_key (spec_of kw) = kw.1.
Proof. by destruct kw as [[]]. Qed.

Lemma spec_keys l : spec_key <$> (spec_of <$> l) = l.*1.
Proof.
  rewrite <-list_fmap_compose. apply list_fmap_ext. intros i kw _. apply spec_key_of.
Qed.

Lemma asked_map (m : gmap PoolKey Z) k : asked (spec_of <$> map_to_list m) k = default 0 (m !! k).
Proof.
  pose proof (NoDup_fst_map_to_list m) as Hd. rewrite <-(list_to_map_to_list m) at 2.
  induction (map_to_list m) as [|[k' w] l IH]; [done|].
  rewrite fmap_cons in Hd. apply NoDup_cons in Hd as [Hn Hd]. rewrite fmap_cons.
  unfold asked in *. cbn [sum_over foldr]. fold (sum_over (fun s => if decide (spec_key s = k) then sdWarm s else 0) (spec_of <$> l)).
  rewrite (IH Hd), spec_key_of. cbn [fst snd sdWarm spec_of list_to_map]. simpl.
  case_decide as Hk; [subst k'; rewrite lookup_insert_eq|rewrite lookup_insert_ne by done; done].
  rewrite (not_elem_of_list_to_map_1 l k Hn). simpl. lia.
Qed.

Lemma node_specs_asked node desired k :
  asked (node_specs node desired) k = default 0 (targets_by_key node desired !! k).
Proof.
  unfold node_specs, asked. rewrite (sum_over_perm _ _ _ (merge_sort_Permutation _ _)). apply asked_map.
Qed.

Lemma node_specs_keys node desired : NoDup (spec_key <$> node_specs node desired).
Proof.
  unfold node_specs. rewrite merge_sort_Permutation, spec_keys. apply NoDup_fst_map_to_list.
Qed.

Lemma targets_by_key_sum node desired k :
  default 0 (targets_by_key node desired !! k) =
  sum_over (fun dp => if decide (dpKey dp = k) then default 0 (dpTargets dp !! node) else 0) desired.
Proof.
  unfold targets_by_key.
  assert (forall m : gmap PoolKey Z, default 0 (fold_left (fun (m : gmap PoolKey Z) dp =>
    <[dpKey dp := default 0 (m !! dpKey dp) + default 0 (dpTargets dp !! node)]> m) desired m !! k) =
    default 0 (m !! k) +
    sum_over (fun dp => if decide (dpKey dp = k) then default 0 (dpTargets dp !! node) else 0) desired) as Hgo.
  { induction desired as [|dp desired IH]; intros m; simpl; [lia|]. rewrite IH.
    case_decide as Hk; [subst k; rewrite lookup_insert_eq; simpl; lia|]. by rewrite lookup_insert_ne. }
  rewrite Hgo. by rewrite lookup_empty.
Qed.

Lemma sum_over_swap {A B} (f : A -> B -> Z) (l : list A) (l' : list B) :
  sum_over (fun a => sum_over (f a) l') l = sum_over (fun b => sum_over (fun a => f a b) l) l'.
Proof.
  induction l as [|a l IH]; simpl; [by rewrite sum_over_zero|]. by rewrite IH, <-sum_over_plus.
Qed.

(** A resolved pool as [resolve] builds it. *)
Definition resolved (nodes : list nodeView) (kr : PoolKey * Z) : desiredPool :=
  mkDesiredPool "" "" kr.1 (distribute kr.2 nodes).

Lemma fleet_asked nodes pools k :
  nodes <> [] -> NoDup (nvName <$> nodes) ->
  sum_over (fun n => asked (node_specs (nvName n) (resolved nodes <$> pools)) k) nodes =
  sum_over (fun kr => if decide (kr.1 = k) then Z.max 0 kr.2 else 0) pools.
Proof.
  intros Hne Hd. set (desired := resolved nodes <$> pools).
  rewrite (sum_over_ext _ (fun n => sum_over (fun dp =>
    if decide (dpKey dp = k) then default 0 (dpTargets dp !! nvName n) else 0) desired)).
  2: { intros n _. by rewrite node_specs_asked, targets_by_key_sum. }
  rewrite sum_over_swap. unfold desired. clear desired.
  induction pools as [|[k' r] pools IH]; csimpl; [done|]. rewrite IH. f_equal.
  case_decide; [by apply distribute_total|apply sum_over_zero].
Qed.

(** Each node's pool set names every key once, and the node pool sets
    together ask for exactly the replicas of all the pools with that key, also
    when several SandboxWarmPools resolve to the same key. *)
Theorem fleet_targets_exact nodes pools node k :
  nodes <> [] -> NoDup (nvName <$> nodes) ->
  let desired := resolved nodes <$> pools in
  NoDup (spec_key <$> node_specs node desired) /\
  sum_over (fun n => asked (node_specs (nvName n) desired) k) nodes =
  sum_over (fun kr => if decide (kr.1 = k) then Z.max 0 kr.2 else 0) pools.
Proof.
  intros Hne Hd desired. split; [apply node_specs_keys|]. by apply fleet_asked.
Qed.

Lemma fleet_targets_exact_witness :
  let nodes := [mkNodeView "a" "a:1" ∅; mkNodeView "b" "b:1" ∅] in
  let k := mkPoolKey "img" "none" "small" in
  sum_over (fun n => asked (node_specs (nvName n) (resolved nodes <$> [(k, 3); (k, 2)])) k) nodes = 5.
Proof.
  intros nodes k.
  pose proof (fleet_targets_exact nodes [(k, 3); (k, 2)] "a" k) as H.
  destruct H as [_ ->].
  - discriminate.
  - apply (bool_decide_unpack _). vm_compute. exact I.
  - vm_compute. reflexivity.
Defined.

(** ** What a tick does to the outside world *)

Section calls.
Context (token : string) (pools : list SandboxWarmPool).

Definition listed (X : Type) (e : DriverE X) : X -> Prop :=
  match e in DriverE X return X -> Prop with
  | DListPools => fun r => r = Ok pools
  | _ => fun _ => True
  end.

Definition tick_ok (X : Type) (e : DriverE X) : Prop :=
  match e with
  | DSetPools addr tok specs =>
      tok = token /\ token <> "" /\ addr <> "" /\ NoDup (spec_key <$> specs)
  | DStatusUpdate p' => exists p n, p ∈ pools /\
      p' = mkWarmPool (wpMeta p) (wpReplicas p) (wpTemplateRef p) (wpUpdateStrategy p) n n
             ("agents.x-k8s.io/warm-pool=" +:+ mName (wpMeta p))
  | _ => True
  end.

Lemma poolKey_ok p : spec tick_ok listed (fun _ => True) (poolKey p).
Proof.
  unfold poolKey. case_bool_decide; [done|]. simpl. split; [done|]. by intros [t|e] _.
Qed.

Lemma writeStatus_ok p nodes key :
  p ∈ pools -> spec tick_ok listed (fun _ => True) (writeStatus p nodes key).
Proof.
  intros Hp. unfold writeStatus. case_match; [done|]. simpl. split; [|done].
  eexists p, _. split; [done|]. reflexivity.
Qed.

Lemma resolve_ok ps nodes :
  (forall p, p ∈ ps -> p ∈ pools) -> spec tick_ok listed (fun _ => True) (resolve ps nodes).
Proof.
  induction ps as [|p ps IH]; intros Hs; cbn [resolve]; [done|].
  assert (spec tick_ok listed (fun _ => True) (resolve ps nodes)) as Hrest.
  { apply IH. intros. apply Hs. by right. }
  eapply spec_bind; [apply poolKey_ok|]. intros [key [e|]] _; cbn beta iota.
  - eapply spec_bind; [apply writeStatus_ok, Hs; left|]. by intros _ _.
  - eapply spec_bind; [exact Hrest|]. done.
Qed.

Lemma write_statuses_ok ps nodes :
  (forall p, p ∈ ps -> p ∈ pools) -> spec tick_ok listed (fun _ => True) (write_statuses ps nodes).
Proof.
  induction ps as [|p ps IH]; intros Hs; cbn [write_statuses]; [done|].
  assert (spec tick_ok listed (fun _ => True) (write_statuses ps nodes)) as Hrest.
  { apply IH. intros. apply Hs. by right. }
  eapply spec_bind; [apply poolKey_ok|]. intros [key [e|]] _; cbn beta iota; [done|].
  eapply spec_bind; [apply writeStatus_ok, Hs; left|]. by intros _ _.
Qed.

Lemma node_views_ok names :
  spec tick_ok listed (fun vs => Forall (fun v => nvAddr v <> "") vs) (node_views names).
Proof.
  induction names as [|n names IH]; simpl; [by constructor|]. split; [done|].
  intros [inv|e] _; [|done]. case_bool_decide; [done|].
  eapply spec_bind; [apply IH|]. intros vs Hvs. by constructor.
Qed.

Lemma apply_loop_ok nodes desired :
  token <> "" -> Forall (fun v => nvAddr v <> "") nodes ->
  spec tick_ok listed (fun _ => True) (apply_loop token nodes desired).
Proof.
  intros Ht. induction nodes as [|n nodes IH]; intros HF; cbn [apply_loop]; [done|].
  apply Forall_cons in HF as [Hn HF]. cbn [bind call].
  split; [by split_and!; try apply node_specs_keys|]. intros r _.
  eapply spec_bind; [by apply IH|]. done.
Qed.
End calls.

(** A driver tick is safe for the nodes and for the API objects: it talks
    to sandboxd only with a non-empty fleet token and a non-empty node address,
    always with one entry per pool key, and the only API writes are status
    updates of listed pools that change nothing but the status counts and
    selector. *)
Theorem tick_calls_safe token pools :
  spec (tick_ok token pools) (listed pools) (fun _ => True) (reconcileOnce token).
Proof.
  unfold reconcileOnce. cbn [bind call]. split; [done|]. intros r Hr. cbn in Hr. subst r. cbn [bind].
  unfold schedulableNodes. eapply (spec_bind _ _
    (fun r => forall vs, r = Ok vs -> Forall (fun v => nvAddr v <> "") vs)).
  { cbn [bind call]. split; [done|]. intros [names|e] _; cbn [bind]; [|done].
    eapply spec_bind; [apply node_views_ok|]. intros vs Hvs ? [= <-].
    by rewrite merge_sort_Permutation. }
  intros [nodes|e] Hn; [|done]. cbn beta iota.
  eapply spec_bind; [by apply resolve_ok|]. intros desired _. cbn beta.
  eapply (spec_bind _ _ (fun _ => True)).
  { unfold applyToNodes. case_bool_decide; [done|]. apply apply_loop_ok; [done|]. by apply Hn. }
  intros nodes' _. cbn beta. eapply spec_bind; [by apply write_statuses_ok|]. done.
Qed.

(** A pool whose template cannot be read gets its status set from the zero key,
    not from the warm microVMs it has: with 3 warm on the node and status 3, the
    tick writes 0. *)
Lemma unresolved_pool_status_zeroed :
  let pool := mkWarmPool (mkMeta "web" "" "prod" "" "" 0 0 None ∅ ∅ []) (Some 3) "tmpl" None 3 3
                "agents.x-k8s.io/warm-pool=web" in
  let node := mkNodeView "a" "a:1" {[mkPoolKey "img" "none" "small" := 3]} in
  exists k, resolve [pool] [node] = Vis (DGetTemplate "prod" "tmpl") k /\
  exists k', k (Err (Errorf "timeout")) =
    Vis (DStatusUpdate (mkWarmPool (wpMeta pool) (Some 3) "tmpl" None 0 0
                          "agents.x-k8s.io/warm-pool=web")) k'.
Proof. eexists. split; [reflexivity|]. eexists. vm_compute. reflexivity. Qed.

End Driver.
