(* ===== verification/Rest.v ===== *)
(** * Rest: the REST storage of the aggregated apiserver.

    Models [pkg/scale/apiserver/storage.go] and
    [pkg/scale/apiserver/lifecycle_storage.go] over the store.  Admission
    validation and the request's object transformation are arguments, as the
    request pipeline passes them in; the request namespace is an argument. *)

From S2P Require Import Prelude GoStrings K8s PoolKey SandboxId Types StoreModel StoreFacts StoreLifecycle.

Module Rest.
Import Pool ClaimRef Store.
#[local] Open Scope prog_scope.

Definition NetAnnotation : string := "sandbox.cocoonstack.io/net".
Definition AddressAnnotation : string := "sandbox.cocoonstack.io/address".
Definition TokenAnnotation : string := "sandbox.cocoonstack.io/token".

(** A decoded request object: a Sandbox or something else. *)
Inductive Object := OSandbox (sb : Sandbox) | OOther.

Inductive RestE : Type -> Type :=
| RStore {X} (e : StoreE X) : RestE X
| RGenerateName (base : string) : RestE string
| RUUID : RestE string
| RNow : RestE Z.

Definition in_store {R} (p : prog StoreE R) : prog RestE R := translate (@RStore) p.

Definition NewBadRequest : gerror := APIStatus ReasonBadRequest "".
Definition NewServiceUnavailable : gerror := APIStatus ReasonServiceUnavailable "".
Definition NewInternalError (e : gerror) : gerror := APIStatus ReasonInternalError "".
Definition NewAlreadyExists (name : string) : gerror := APIStatus ReasonAlreadyExists name.

Definition poolKeyForSandbox (sb : Sandbox) : PoolKey :=
  PoolKeyFor (sbContainers sb) (mget (sbAnnotations sb) NetAnnotation).

Definition addressHosts (addr : string) : list string :=
  if bool_decide (addr = "") then []
  else match SplitHostPort addr with
       | Some (host, _) => if bool_decide (host <> "") then [host] else [addr]
       | None => [addr]
       end.

Definition diffMap (current updated : strmap) : strmap :=
  let changed := filter (fun kv => current !! kv.1 <> Some kv.2) updated in
  let removed := (fun _ => "") <$> filter (fun kv => updated !! kv.1 = None) current in
  removed ∪ changed.

Definition changedSpec (current updated : Sandbox) : option SandboxSpec :=
  if decide (sbSpec current = sbSpec updated) then None else Some (sbSpec updated).

(** [metainternalversion.ListOptions]: the parsed selectors render as strings. *)
Record RequestListOptions := mkRequestListOptions {
  rlLabelSelector : option string; rlFieldSelector : option string;
  rlAllowWatchBookmarks : bool; rlSendInitialEvents : option bool
}.

Definition toScaleListOptions (namespace : string) (options : option RequestListOptions) : ListOptions :=
  match options with
  | None => mkListOptions namespace "" "" false false
  | Some o => mkListOptions namespace (default "" (rlLabelSelector o)) (default "" (rlFieldSelector o))
                (rlAllowWatchBookmarks o) (bool_decide (rlSendInitialEvents o = Some true))
  end.

Section rest.
Context `{ConditionLib} `{OwnerLib} (cfg : config) (namespace : string).

Definition synthesizeClaimedSandbox (namespace name : string) (inp : Sandbox) (a : Assignment)
    (uid : string) (now : Z) : Sandbox :=
  let m := sbMeta inp in
  let ann := <[ClaimIDAnnotation := asSandboxName a]> (mAnnotations m) in
  let ann := if bool_decide (asAddress a <> "") then <[AddressAnnotation := asAddress a]> ann else ann in
  let ann := if bool_decide (asToken a <> "") then <[TokenAnnotation := asToken a]> ann else ann in
  mkSandbox
    (mkMeta name "" namespace uid "" (mGeneration m) now (mDeletionTimestamp m) (mLabels m) ann
       (mOwnerReferences m))
    (sbSpec inp)
    (mkSandboxStatus "" "" 
       (SetStatusCondition now [] (newCondition SandboxConditionReady ConditionTrue
          SandboxReasonDependenciesReady "warm sandbox delivered by node" 0))
       "" (addressHosts (asAddress a)) (asNode a)).

(** The UID of the controlling SandboxClaim, "" when there is none. *)
Definition ownerUIDOf (sb : Sandbox) : string :=
  match GetControllerOf (sbMeta sb) with
  | Some owner => if bool_decide (orKind owner = "SandboxClaim") then orUID owner else ""
  | None => ""
  end.

Definition Create (s : store) (obj : Object) (createValidation : option (Object -> option gerror)) :
    prog RestE (result Sandbox * store) :=
  match obj with
  | OOther => Ret (Err NewBadRequest, s)
  | OSandbox sb =>
      match match createValidation with Some f => f obj | None => None end with
      | Some e => Ret (Err e, s)
      | None =>
          let namespace := if bool_decide (namespace = "") then sbNamespace sb else namespace in
          name <- (if bool_decide (sbName sb = "") && bool_decide (mGenerateName (sbMeta sb) <> "")
                   then call (RGenerateName (mGenerateName (sbMeta sb)))
                   else Ret (sbName sb));;
          if bool_decide (name = "") then Ret (Err NewBadRequest, s)
          else
            let pool := poolKeyForSandbox sb in
            let! (r, s) := in_store (Claim cfg s namespace name pool (ownerUIDOf sb)) in
            match r with
            | Err e =>
                if IsClaimExists e then Ret (Err (NewAlreadyExists name), s)
                else if IsNoWarmCapacity e then Ret (Err NewServiceUnavailable, s)
                else Ret (Err (NewInternalError (Wrap "claim sandbox" e)), s)
            | Ok a =>
                uid <- call RUUID;;
                now <- call RNow;;
                Ret (Ok (synthesizeClaimedSandbox namespace name sb a uid now), s)
            end
      end
  end.

(** [updatedObject] is [objInfo.UpdatedObject]; the boolean is "created". *)
Definition Update (s : store) (name : string) (updatedObject : Sandbox -> result Object)
    (updateValidation : option (Sandbox -> Sandbox -> option gerror)) :
    prog RestE (result (Sandbox * bool) * store) :=
  let! (r, s) := in_store (Get s namespace name) in
  match r with
  | Err e => Ret (Err e, s)
  | Ok current =>
      match updatedObject current with
      | Err e => Ret (Err e, s)
      | Ok OOther => Ret (Err NewBadRequest, s)
      | Ok (OSandbox sb) =>
          match match updateValidation with Some f => f sb current | None => None end with
          | Some e => Ret (Err e, s)
          | None =>
              let s := Overlay s namespace name
                (mkOverlay (diffMap (sbLabels current) (sbLabels sb))
                   (diffMap (sbAnnotations current) (sbAnnotations sb)) (changedSpec current sb)) in
              let m := sbMeta sb in
              let m := mkMeta (mName m) (mGenerateName m) (mNamespace m) (mUID m)
                         (sbResourceVersion current) (mGeneration m) (mCreationTimestamp m)
                         (mDeletionTimestamp m) (mLabels m) (mAnnotations m) (mOwnerReferences m) in
              Ret (Ok (mkSandbox m (sbSpec sb) (sbStatus current), false), s)
          end
      end
  end.

Definition claimID (sb : Sandbox) : string := mget (sbAnnotations sb) ClaimIDAnnotation.

Definition Delete (s : store) (name : string) (deleteValidation : option (Sandbox -> option gerror)) :
    prog RestE (result (Sandbox * bool) * store) :=
  let! (r, s) := in_store (Get s namespace name) in
  match r with
  | Err e => Ret (Err e, s)
  | Ok sb =>
      match match deleteValidation with Some f => f sb | None => None end with
      | Some e => Ret (Err e, s)
      | None =>
          let node := stNodeName (sbStatus sb) in
          if bool_decide (node = "") then Ret (Ok (sb, true), s)
          else if bool_decide (claimID sb = "") then
            Ret (Err (NewInternalError (Errorf "cannot delete sandbox: no claim id")), s)
          else
            let! (err, s) := in_store (Release cfg s node (claimID sb)) in
            match err with
            | Some e => Ret (Err (NewInternalError (Wrap "release sandbox" e)), s)
            | None => Ret (Ok (sb, true), s)
            end
      end
  end.

(** ** Lifecycle subresources *)

(** [lifecycleREST.Create] around a verb on (node, claim id). *)
Definition lifecycleCreate {B R} (s : store) (name : string) (body : B)
    (createValidation : option (B -> option gerror))
    (verb : Sandbox -> B -> prog StoreE (result R)) : prog RestE (result R * store) :=
  match match createValidation with Some f => f body | None => None end with
  | Some e => Ret (Err e, s)
  | None =>
      let! (r, s) := in_store (Get s namespace name) in
      match r with
      | Err e => Ret (Err e, s)
      | Ok sb =>
          if bool_decide (stNodeName (sbStatus sb) = "") then
            Ret (Err (NewInternalError (Errorf "sandbox has no owning node")), s)
          else if bool_decide (claimID sb = "") then
            Ret (Err (NewInternalError (Errorf "sandbox carries no claim id")), s)
          else
            r <- in_store (verb sb body);;
            Ret (r, s)
      end
  end.

Definition pauseVerb (sb : Sandbox) (_ : unit) : prog StoreE (result unit) :=
  err <- StoreLifecycle.Pause cfg (stNodeName (sbStatus sb)) (claimID sb);;
  Ret (match err with Some e => Err (NewInternalError e) | None => Ok tt end).

Definition resumeVerb (sb : Sandbox) (_ : unit) : prog StoreE (result unit) :=
  err <- StoreLifecycle.Resume cfg (stNodeName (sbStatus sb)) (claimID sb);;
  Ret (match err with Some e => Err (NewInternalError e) | None => Ok tt end).

Record ForkedSandbox := mkForked { fkSandboxID : string; fkNodeName : string; fkAddress : string }.

(** The body is (count, ttlSeconds), or something else. *)
Definition forkVerb (sb : Sandbox) (body : option (Z * Z)) : prog StoreE (result (list ForkedSandbox)) :=
  match body with
  | None => Ret (Err NewBadRequest)
  | Some (count, ttl) =>
      let count := if bool_decide (count = 0) then 1 else count in
      if bool_decide (count < 0) then Ret (Err NewBadRequest)
      else
        children <- StoreLifecycle.Fork cfg (stNodeName (sbStatus sb)) (claimID sb) count ttl;;
        Ret (match children with
             | Err e => Err (NewInternalError e)
             | Ok l => Ok ((fun c => mkForked (asSandboxName c) (asNode c) (asAddress c)) <$> l)
             end)
  end.

Record SnapshotResult := mkSnapshotResult {
  srSnapshotID : string; srName : string; srNodeName : string; srCreationTimestamp : Z
}.

Definition snapshotVerb (sb : Sandbox) (body : option string) : prog StoreE (result SnapshotResult) :=
  match body with
  | None => Ret (Err NewBadRequest)
  | Some name =>
      snap <- StoreLifecycle.Snapshot cfg (stNodeName (sbStatus sb)) (claimID sb) name;;
      Ret (match snap with
           | Err e => Err (NewInternalError e)
           | Ok sn => Ok (mkSnapshotResult (StoreLifecycle.snID sn) (StoreLifecycle.snName sn)
                            (StoreLifecycle.snNode sn) (StoreLifecycle.snCreatedAt sn))
           end)
  end.
End rest.

(** ** Create *)

Definition any_rest_call (X : Type) (e : RestE X) : Prop := True.

(** The only node call of a create is a claim for the submitted workload's pool,
    naming the object and its owner. *)
Definition create_calls `{OwnerLib} (sb : Sandbox) (ns : string) (X : Type) (e : RestE X) : Prop :=
  match e with
  | RStore (ESandboxd _ _ (SdClaim spec)) =>
      exists name, name <> "" /\
      spec = mkClaimSpec (Template (poolKeyForSandbox sb)) (Net (poolKeyForSandbox sb))
               (Size (poolKeyForSandbox sb)) 0 (formatClaimRef ns name (ownerUIDOf sb))
  | RStore (ESandboxd _ _ _) => False
  | _ => True
  end.

(** The clock the store reads runs within one [pendingTTL]. *)
Definition rest_timely (t0 : Z) (X : Type) (e : RestE X) : X -> Prop :=
  match e in RestE X return X -> Prop with
  | @RStore Y e => StoreFacts.timely t0 Y e
  | _ => fun _ => True
  end.

(** The delivered sandbox: the submitted spec under the request identity, with
    the claim's id and node, and the store remembering the same claim. *)
Definition delivered `{ConditionLib} (sb out : Sandbox) (ns : string) (s' : store) : Prop :=
  sbSpec out = sbSpec sb /\ sbNamespace out = ns /\ sbName out <> "" /\
  (exists c, FindStatusCondition (sbConditions out) SandboxConditionReady = Some c /\
             cStatus c = ConditionTrue) /\
  exists pc, pending s' !! key_of ns (sbName out) = Some pc /\
    sbAnnotations out !! ClaimIDAnnotation = Some (ieID (pcEntry pc)) /\
    stNodeName (sbStatus out) = pcNode pc.

Lemma synthesize_delivered `{ConditionLaws} ns name sb a uid now s' pc :
  name <> "" -> pending s' !! key_of ns name = Some pc ->
  pcNode pc = asNode a -> ieID (pcEntry pc) = asSandboxName a ->
  delivered sb (synthesizeClaimedSandbox ns name sb a uid now) ns s'.
Proof.
  intros Hname Hp Hn Hid. unfold synthesizeClaimedSandbox, delivered.
  cbn [sbSpec sbNamespace sbName sbMeta mName mNamespace sbConditions sbStatus stConditions
    sbAnnotations mAnnotations stNodeName].
  split_and!; try done.
  - destruct (find_set_same now [] (newCondition SandboxConditionReady ConditionTrue
      SandboxReasonDependenciesReady "warm sandbox delivered by node" 0)) as (c & Hc & _ & Hs & _).
    by exists c.
  - exists pc. split_and!; [done| |done]. unfold sbAnnotations. cbn [sbMeta mAnnotations]. rewrite Hid.
    repeat case_bool_decide;
      rewrite ?(lookup_insert_ne _ TokenAnnotation), ?(lookup_insert_ne _ AddressAnnotation) by done;
      apply lookup_insert_eq.
Qed.

(** *** What a create is told

    The answers that decide a create's status, oldest first: the generated name,
    the clock, the node listing and the sandboxd claim. *)
Inductive seen :=
| SeenName (name : string)
| SeenClock (now : Z)
| SeenNodes (r : result (list string))
| SeenClaim (r : result ClaimResult).

Definition seen_store (X : Type) (e : StoreE X) : X -> option seen :=
  match e in StoreE X return X -> option seen with
  | EListNodes => fun r => Some (SeenNodes r)
  | ENow => fun now => Some (SeenClock now)
  | ESandboxd _ _ c =>
      match c in SandboxdCall Y return Y -> option seen with
      | SdClaim _ => fun r => Some (SeenClaim r)
      | _ => fun _ => None
      end
  | _ => fun _ => None
  end.

Definition seen_rest (X : Type) (e : RestE X) : X -> option seen :=
  match e in RestE X return X -> option seen with
  | @RStore Y e => seen_store Y e
  | RGenerateName _ => fun name => Some (SeenName name)
  | _ => fun _ => None
  end.

(** The status an error of the claim is turned into. *)
Definition reason_of (e : gerror) : StatusReason :=
  if errors_Is e textClaimExists then ReasonAlreadyExists
  else if errors_Is e textNoWarmCapacity then ReasonServiceUnavailable else ReasonInternalError.

(** The cause of a claim's failure, from what it was told: nothing configured; a
    pending claim of that name, not expired; the node listing failed; no node
    had a warm microVM, or the chosen one answered that it is at capacity; the
    node's own error. *)
Definition placed_verdict (l : list seen) : option StatusReason :=
  match l with
  | [SeenNodes (Ok _)] => Some ReasonServiceUnavailable
  | [SeenNodes (Err e)] => Some (reason_of e)
  | [SeenNodes (Ok _); SeenClaim (Err e)] =>
      Some (if errors_Is e textNodeAtCapacity then ReasonServiceUnavailable else reason_of e)
  | [SeenNodes (Ok _); SeenClaim (Ok _); SeenClock _] => None
  | _ => Some ReasonBadRequest
  end.

Definition claim_verdict (cfg : config) (s : store) (ns name : string) (l : list seen) : option StatusReason :=
  if negb (hasSandboxdFactory cfg) then Some ReasonInternalError
  else match pending s !! key_of ns name, l with
       | Some pc, SeenClock now :: l => if expired now pc then placed_verdict l else Some ReasonAlreadyExists
       | _, l => placed_verdict l
       end.

Definition create_verdict (cfg : config) (s : store) (ns : string) (sb : Sandbox) (l : list seen) :
    option StatusReason :=
  let '(name, l) := match l with SeenName name :: l => (name, l) | _ => (sbName sb, l) end in
  if bool_decide (name = "") then Some ReasonBadRequest else claim_verdict cfg s ns name l.

(** The claim id of the microVM the node handed over. *)
Definition handed_over (l : list seen) (id : string) : Prop :=
  exists res, SeenClaim (Ok res) ∈ l /\ crID res = id.

Lemma scan_unseen s nodes pool : calls (ignores seen_store) (scan_nodes s nodes pool).
Proof.
  revert s. induction nodes as [|n nodes IH]; intros s; cbn [scan_nodes]; solve_calls; try done; apply IH.
Qed.

Lemma picked_seen s pool h :
  history any_answer
    (fun '(r, _) h' => exists nodes, witnessed seen_store h' = witnessed seen_store h ++ [SeenNodes nodes] /\
       match nodes with
       | Err e => exists m, r = Err (Wrap m e)
       | Ok _ => match r with Ok _ => True | Err e => e = ErrNoWarmCapacity end
       end)
    (pickWarmNode s pool) h.
Proof.
  unfold pickWarmNode. cbn [bind call history]. intros [nodes|e] _; cbn [bind history].
  - eapply history_bind; [apply (calls_unseen seen_store), scan_unseen|]. intros [cs s'] h' Hh. cbn beta iota.
    rewrite witnessed_app in Hh. destruct (merge_sort candidate_le cs) as [|c0 cs'].
    + cbn [history]. by exists (Ok nodes).
    + cbn [bind call history]. intros draw _. destruct (debitFor _ _ _ _ _). cbn [history].
      exists (Ok nodes). by rewrite witnessed_app, Hh, app_nil_r.
  - exists (Err e). rewrite witnessed_app. split; [done|by eexists].
Qed.

Lemma pendingFor_seen cfg s ns name :
  hasSandboxdFactory cfg = true ->
  history any_answer
    (fun '(pc, _) h =>
       match pc with
       | Some _ => claim_verdict cfg s ns name (witnessed seen_store h) = Some ReasonAlreadyExists
       | None => forall l, claim_verdict cfg s ns name (witnessed seen_store h ++ l) = placed_verdict l
       end)
    (pendingFor s ns name) [].
Proof.
  intros Hf. unfold pendingFor, claim_verdict. rewrite Hf. cbn [negb].
  destruct (pending s !! key_of ns name) as [pc|] eqn:E; cbn [bind call history]; [|done].
  intros now _. destruct (expired now pc) eqn:Ex; cbn; by rewrite ?Ex.
Qed.

Lemma Claim_told cfg s ns name pool uid :
  history any_answer
    (fun '(r, _) h => match r with
       | Ok a => claim_verdict cfg s ns name (witnessed seen_store h) = None /\
                 handed_over (witnessed seen_store h) (asSandboxName a)
       | Err e => claim_verdict cfg s ns name (witnessed seen_store h) = Some (reason_of e)
       end)
    (Claim cfg s ns name pool uid) [].
Proof.
  unfold Claim. destruct (hasSandboxdFactory cfg) eqn:Hf; cbn [negb];
    [|by cbn; unfold claim_verdict; rewrite Hf].
  eapply history_bind; [by apply pendingFor_seen|]. intros [[pc|] s1] h Hp; [by cbn; rewrite Hp|].
  eapply history_bind; [apply picked_seen|]. intros [[[node addr]|e] s2] h2 (nodes & Hh2 & Hn).
  2:{ cbn [history]. rewrite Hh2, Hp. destruct nodes as [ns'|e']; [by subst e|]. by destruct Hn as [m [= ->]]. }
  destruct nodes as [nodes|e]; [|by destruct Hn]. cbn [bind call history]. intros [res|e] _.
  - eapply history_bind; [apply (calls_unseen seen_store); by destruct (hasClaimObserver cfg)|].
    intros u h3 Hh3. cbn [bind call rememberClaim history]. intros now Hnow.
    rewrite witnessed_app, Hh3, witnessed_app, Hh2, <-!app_assoc, Hp. split; [done|]. exists res. split; [|done].
    cbn. apply elem_of_app. right. by right; left.
  - unfold IsNodeAtCapacity. destruct (errors_Is e textNodeAtCapacity) eqn:Ec; cbn [history];
      rewrite witnessed_app, Hh2, <-app_assoc, Hp; cbn; by rewrite Ec.
Qed.

Lemma synthesize_claim_id `{ConditionLib} ns name sb a uid now :
  sbAnnotations (synthesizeClaimedSandbox ns name sb a uid now) !! ClaimIDAnnotation = Some (asSandboxName a).
Proof.
  unfold sbAnnotations, synthesizeClaimedSandbox. cbn [sbMeta mAnnotations].
  repeat case_bool_decide;
    rewrite ?(lookup_insert_ne _ TokenAnnotation), ?(lookup_insert_ne _ AddressAnnotation) by done;
    apply lookup_insert_eq.
Qed.

Lemma Create_delivers `{ConditionLaws} `{OwnerLib} cfg ns s sb t0 :
  ns <> "" ->
  spec (create_calls sb ns) (rest_timely t0)
    (fun '(r, s') => forall out, r = Ok out -> delivered sb out ns s')
    (Create cfg ns s (OSandbox sb) None).
Proof.
  intros Hns. unfold Create. rewrite (bool_decide_false (ns = "")) by done.
  eapply (spec_bind _ _ (fun _ => True)).
  { case_match; [|done]. simpl. by split. }
  intros name _. case_bool_decide as Hname; [done|].
  eapply spec_bind.
  { apply spec_translate. eapply spec_mono; [| |apply (StoreFacts.Claim_spec cfg t0)]; [|intros a Ha; exact Ha].
    intros X e He. destruct e as [| | | |Y addr tok c|]; try done. destruct c; try done.
    exists name. split; [done|]. exact He. }
  intros [[a|e] s'] Hpost; cbn beta iota; cbn [fst snd] in Hpost; [|by repeat case_match].
  destruct Hpost as (pc & (Hp & _) & Hn & Hid & _). cbn [bind call]. split; [done|].
  intros uid _. split; [done|]. intros now _ out [= <-].
  by apply (synthesize_delivered ns name sb a uid now s' pc).
Qed.

(** The store generates no names. *)
Lemma no_name_seen (h : list (event StoreE)) n : hd_error (witnessed seen_store h) <> Some (SeenName n).
Proof.
  induction h as [|[X e x] h IH]; [done|]. cbn.
  destruct e as [| | | |Y addr tok c|]; try done. destruct c; done.
Qed.

Lemma Create_told `{ConditionLib} `{OwnerLib} cfg ns s sb :
  ns <> "" ->
  history any_answer
    (fun '(r, _) h =>
       let l := witnessed seen_rest h in
       match r with
       | Ok out => create_verdict cfg s ns sb l = None /\
                   exists id, sbAnnotations out !! ClaimIDAnnotation = Some id /\ handed_over l id
       | Err e => exists reason name, e = APIStatus reason name /\ create_verdict cfg s ns sb l = Some reason
       end)
    (Create cfg ns s (OSandbox sb) None) [].
Proof.
  intros Hns. unfold Create. rewrite (bool_decide_false (ns = "")) by done.
  eapply (history_bind _ (fun name h => forall l, (forall n, hd_error l <> Some (SeenName n)) ->
    create_verdict cfg s ns sb (witnessed seen_rest h ++ l) =
      if bool_decide (name = "") then Some ReasonBadRequest else claim_verdict cfg s ns name l)).
  { case_match; cbn [call history]; [by intros name _ l _|]. intros [|[]] Hl; try done. by destruct (Hl name). }
  intros name h Hv. case_bool_decide as Hname.
  { cbn [history]. eexists _, _. split; [reflexivity|]. specialize (Hv [] ltac:(done)).
    by rewrite app_nil_r in Hv. }
  eapply history_bind.
  { apply history_translate. eapply history_mono; [|apply (Claim_told cfg s ns name)].
    intros [r s'] new Hr. instantiate (1 := fun '(r, _) h' => exists l,
      witnessed seen_rest h' = witnessed seen_rest h ++ l /\ (forall n, hd_error l <> Some (SeenName n)) /\
      match r with
      | Ok a => claim_verdict cfg s ns name l = None /\ handed_over l (asSandboxName a)
      | Err e => claim_verdict cfg s ns name l = Some (reason_of e)
      end). exists (witnessed seen_store new).
    rewrite witnessed_app, witnessed_emap. split_and!; [done|apply no_name_seen|exact Hr]. }
  intros [[a|e] s'] h' (l & Hl & Hn & Hr); specialize (Hv l Hn); rewrite <-Hl in Hv.
  - destruct Hr as [Hr (res & Hin & Hid)]. cbn [bind call history]. intros uid _ now _.
    rewrite !witnessed_app, !app_nil_r, Hv. split; [done|].
    eexists. split; [apply synthesize_claim_id|]. exists res. split; [|done].
    rewrite Hl. apply elem_of_app. by right.
  - rewrite Hr in Hv. unfold reason_of, IsClaimExists, IsNoWarmCapacity in *.
    destruct (errors_Is e textClaimExists), (errors_Is e textNoWarmCapacity);
      cbn [history]; eexists _, _; (split; [reflexivity|exact Hv]).
Qed.


(** ** Update *)

Lemma diffMap_lookup current updated k :
  diffMap current updated !! k =
  match updated !! k with
  | Some v => if decide (current !! k = Some v) then None else Some v
  | None => match current !! k with Some _ => Some "" | None => None end
  end.
Proof.
  unfold diffMap. rewrite lookup_union, lookup_fmap, !map_lookup_filter.
  destruct (updated !! k) as [v|] eqn:Eu, (current !! k) as [c|] eqn:Ec; simpl;
    repeat (rewrite ?Eu, ?Ec; case_guard || case_decide || simpl); try done; congruence.
Qed.

(** Replaying a diff gives what the client wrote, except for a key written with
    an empty value, which reads back as absent. *)
Lemma merge_diff current updated k :
  updated !! k <> Some "" -> mergeOverlayMap current (diffMap current updated) !! k = updated !! k.
Proof.
  intros Hk. rewrite StoreFacts.mergeOverlayMap_lookup, diffMap_lookup.
  destruct (updated !! k) as [v|]; [case_decide as Hc; [done|rewrite bool_decide_false by congruence; done]|].
  destruct (current !! k); [by rewrite bool_decide_true|done].
Qed.

(** What [Get] serves: an inventory entry of that name, or the pending claim,
    under the recorded overlay. *)
Definition served (inv : string -> result NodeInventory) (s : store) (ns name : string)
    (node : string) (e : InventoryEntry) : Prop :=
  (exists n i, inv n = Ok i /\ niNode i = node /\ e ∈ niEntries i /\ entry_is ns name e = true) \/
  (exists pc, pending s !! key_of ns name = Some pc /\ pcNode pc = node /\ pcEntry pc = e).

Definition rest_inventory (inv : string -> result NodeInventory) (X : Type) (e : RestE X) : X -> Prop :=
  match e in RestE X return X -> Prop with
  | @RStore Y e => StoreLifecycle.inventory_is inv Y e
  | _ => fun _ => True
  end.

Lemma get_from_nodes_served (ok : forall X, StoreE X -> Prop) inv s nodes ns name :
  (forall X e, StoreFacts.no_sandboxd X e -> ok X e) ->
  spec ok (StoreLifecycle.inventory_is inv)
    (fun r => forall node e, r = Some (node, e) -> served inv s ns name node e)
    (get_from_nodes nodes ns name).
Proof.
  intros Hok. induction nodes as [|n nodes IH]; simpl; [done|]. split; [by apply Hok|].
  intros [i|err] Hi; [|done]. simpl in Hi.
  destruct (List.find (entry_is ns name) (niEntries i)) as [e|] eqn:E; [|done].
  simpl. intros node e' [= <- <-]. apply find_some in E as [Hin He]. left. exists n, i.
  by rewrite list_elem_of_In.
Qed.

Lemma Get_served (ok : forall X, StoreE X -> Prop) inv s ns name :
  (forall X e, StoreFacts.no_sandboxd X e -> ok X e) ->
  spec ok (StoreLifecycle.inventory_is inv)
    (fun '(r, s') => overlays s' = overlays s /\
       forall sb, r = Ok sb -> exists node e, served inv s ns name node e /\
         sb = applyOverlay s (entryToSandbox node e))
    (Get s ns name).
Proof.
  intros Hok. unfold Get. cbn [bind call]. split; [by apply Hok|]. intros [nodes|err] _; [|done].
  cbn [bind]. eapply spec_bind; [by apply (get_from_nodes_served ok inv s)|].
  intros [[node e]|] He; cbn beta iota.
  - split; [apply StoreFacts.forgetClaim_overlays|]. intros sb [= <-]. exists node, e.
    split; [by apply He|]. unfold applyOverlay. by rewrite StoreFacts.forgetClaim_overlays.
  - eapply spec_bind; [by apply StoreFacts.pendingFor_frame|]. intros [[pc|] s1] [Ho H1]; cbn [fst snd] in *.
    + destruct H1 as [-> Hp]. split; [done|]. intros sb [= <-]. exists (pcNode pc), (pcEntry pc).
      split; [|done]. right. by exists pc.
    + by split.
Qed.

(** Every projection of the sandbox has the object key of its name. *)
Definition names_ok (s : store) (ns name : string) : Prop :=
  forall pc, pending s !! key_of ns name = Some pc -> entry_is ns name (pcEntry pc) = true.

Lemma served_key inv s s' ns name node e :
  names_ok s ns name -> served inv s ns name node e ->
  objKey (applyOverlay s' (entryToSandbox node e)) = key_of ns name /\
  objKey (entryToSandbox node e) = key_of ns name.
Proof.
  intros Hok Hs. assert (entry_is ns name e = true) as He.
  { destruct Hs as [(_ & _ & _ & _ & _ & ?)|(pc & Hp & _ & <-)]; [done|by apply Hok]. }
  rewrite StoreFacts.applyOverlay_key. apply StoreFacts.entry_is_parse in He as [uid Hp].
  unfold objKey. by destruct (StoreFacts.entryToSandbox_name node e ns name uid Hp) as [-> ->].
Qed.

(** The first write to a sandbox is read back: after a successful Update
    of a sandbox with no recorded overlay, projecting the same node state again
    gives every label and annotation the client wrote (those without an empty
    value), lacks the ones it removed, and serves the spec it wrote; status stays
    the node's. *)
Theorem first_update_read_back ns s name upd inv :
  names_ok s ns name -> overlays s !! key_of ns name = None ->
  spec any_rest_call (rest_inventory inv)
    (fun '(r, s') => forall out created, r = Ok (out, created) ->
       exists node e, served inv s ns name node e /\
       let sb := applyOverlay s' (entryToSandbox node e) in
       created = false /\ sbSpec sb = sbSpec upd /\ sbStatus out = sbStatus sb /\
       (forall k, sbLabels upd !! k <> Some "" -> sbLabels sb !! k = sbLabels upd !! k) /\
       (forall k, sbAnnotations upd !! k <> Some "" -> sbAnnotations sb !! k = sbAnnotations upd !! k))
    (Update ns s name (fun _ => Ok (OSandbox upd)) None).
Proof.
  intros Hok Hov. unfold Update.
  eapply spec_bind; [apply spec_translate, (Get_served StoreFacts.any_call inv s ns name); done|].
  intros [[current|err] s1] [Ho Hg]; [|done]. cbn beta iota.
  destruct (Hg current eq_refl) as (node & e & Hs & Hcur). clear Hg. simpl. intros out created [= <- <-].
  exists node, e. split; [done|]. destruct (served_key inv s s ns name node e Hok Hs) as [_ Hkey].
  assert (current = entryToSandbox node e) as ->.
  { rewrite Hcur. unfold applyOverlay. by rewrite Hkey, Hov. }
  clear Hcur. set (base := entryToSandbox node e) in *. clearbody base.
  unfold applyOverlay, Overlay. cbn [overlays set_overlays]. rewrite Hkey, lookup_insert_eq.
  cbn [ovLabels ovAnnotations ovSpec]. unfold changedSpec.
  destruct (decide (sbSpec base = sbSpec upd)) as [Heq|]; split_and!; try done;
    intros k Hk; by apply merge_diff.
Qed.

(** ** Delete *)

(** The claim id the store shows for an entry: the one the node published,
    unless a client's update wrote the claim-id annotation itself. *)
Definition shown_id (s : store) (ns name : string) (e : InventoryEntry) : string :=
  match overlays s !! key_of ns name with
  | Some ov => default (ieID e) (ovAnnotations ov !! ClaimIDAnnotation)
  | None => ieID e
  end.

(** A delete's only node call releases the claim id shown for the sandbox, at
    the address its node advertises. *)
Definition release_calls (inv : string -> result NodeInventory) (s : store) (ns name : string)
    (X : Type) (e : RestE X) : Prop :=
  match e with
  | RStore (ESandboxd addr _ (SdRelease id _)) =>
      exists node en i, served inv s ns name node en /\ id = shown_id s ns name en /\ id <> "" /\
        inv node = Ok i /\ addr = niAddress i
  | RStore (ESandboxd _ _ _) => False
  | _ => True
  end.

Lemma served_shown s ns name node e :
  objKey (entryToSandbox node e) = key_of ns name ->
  let sb := applyOverlay s (entryToSandbox node e) in
  claimID sb = shown_id s ns name e /\ stNodeName (sbStatus sb) = node.
Proof.
  intros Hkey. cbv zeta. unfold applyOverlay, shown_id. rewrite Hkey.
  assert (sbAnnotations (entryToSandbox node e) = synthAnnotations e /\
          stNodeName (sbStatus (entryToSandbox node e)) = node) as [Hbase Hnode].
  { unfold entryToSandbox. by destruct (parseClaimRef (ieName e)) as [[? ?] ?]. }
  assert (claimID (entryToSandbox node e) = ieID e) as Hid.
  { unfold claimID, mget. rewrite Hbase. unfold synthAnnotations. case_bool_decide as He.
    - by rewrite lookup_empty.
    - by rewrite lookup_singleton_eq. }
  destruct (overlays s !! key_of ns name) as [ov|]; [|done]. split; [|by destruct (ovSpec ov)].
  rewrite <-Hid. unfold claimID, mget, sbAnnotations.
  destruct (ovSpec ov); cbn; rewrite StoreFacts.mergeOverlayMap_lookup;
    (destruct (ovAnnotations ov !! ClaimIDAnnotation) as [v|]; [|done]); by case_bool_decide; subst.
Qed.

(** C26.  Delete releases the sandbox it names and nothing else: the only node
    call a delete makes is a release, sent to the node that node inventory (or
    the store's pending claim) publishes for that very namespace and name, of
    the claim id published there; without an id it makes none.  One exception is
    in the code: where a client's update has overlaid the claim-id annotation,
    the id released is the one the client wrote ([overlaid_claim_id_released]). *)
Theorem delete_releases_published cfg ns s name validation inv :
  names_ok s ns name ->
  spec (release_calls inv s ns name) (rest_inventory inv) (fun _ => True)
    (Delete cfg ns s name validation).
Proof.
  intros Hok. unfold Delete.
  eapply spec_bind; [apply spec_translate, (Get_served _ inv s ns name)|].
  { intros X e He. by destruct e. }
  intros [[sb|err] s1] [Ho Hg]; [|done]. cbn beta iota.
  case_match; [done|]. case_bool_decide; [done|]. case_bool_decide as Hid; [done|].
  destruct (Hg sb eq_refl) as (node & e & Hs & Hsb).
  destruct (served_key inv s s ns name node e Hok Hs) as [_ Hkey].
  destruct (served_shown s ns name node e Hkey) as [Hc Hn]. rewrite <-Hsb in Hc, Hn. rewrite Hn.
  eapply (spec_bind _ _ (fun _ => True)).
  { apply spec_translate. unfold Release. destruct (negb _); [done|]. rewrite bool_decide_false by done.
    cbn [bind call]. split; [done|]. intros [i|er] Hi; cbn [bind]; [|done].
    case_bool_decide; [done|]. cbn [bind call]. split.
    - exists node, e, i. by rewrite <-Hc.
    - intros [er|] _; cbn [bind]; [done|]. by destruct (List.find _ _) as [[]|]. }
  intros [[er|] s2] _; done.
Qed.

(** ** Concrete runs *)

Module RestDemo.
Import StoreFacts.

(** One node that publishes sandbox prod/web with claim id sb_0; the state
    records the claim ids it was asked to release. *)
Definition respond : handler RestE (list string) := fun X e =>
  match e in RestE X return list string -> X * list string with
  | @RStore Y e => fun w =>
      ((Demo.respond Y e ([Demo.published], O)).1,
       match e with ESandboxd _ _ (SdRelease id _) => w ++ [id] | _ => w end)
  | RGenerateName base => fun w => (base +:+ "x7k2p", w)
  | RUUID => fun w => ("9b2f", w)
  | RNow => fun w => (1000, w)
  end.

Definition with_label (k v : string) (sb : Sandbox) : result Object :=
  Ok (OSandbox (set_sbMeta (set_mLabels (fun l => <[k := v]> l)) sb)).
Definition with_annotation (k v : string) (sb : Sandbox) : result Object :=
  Ok (OSandbox (set_sbMeta (set_mAnnotations (fun l => <[k := v]> l)) sb)).

Definition labels_of (s : store) : strmap :=
  match (run respond (in_store (Get s "prod" "web")) []).1.1 with Ok sb => sbLabels sb | Err _ => ∅ end.

(** A second update is diffed against the object with the first update on it,
    and its overlay replaces the first: the label written first is gone. *)
Lemma second_update_drops_first :
  let s1 := (run respond (Update "prod" NewScatterGatherStore "web" (with_label "team" "a") None) []).1.2 in
  let s2 := (run respond (Update "prod" s1 "web" (with_label "tier" "b") None) []).1.2 in
  labels_of s1 !! "team" = Some "a" /\
  labels_of s2 !! "tier" = Some "b" /\ labels_of s2 !! "team" = None.
Proof. vm_compute. repeat split. Qed.

(** An update may overwrite the claim-id annotation, and a later delete then
    releases the id the client wrote instead of the sandbox's own. *)
Lemma overlaid_claim_id_released :
  let s1 := (run respond (Update "prod" NewScatterGatherStore "web"
               (with_annotation ClaimIDAnnotation "sb_victim") None) []).1.2 in
  (run respond (Delete Demo.routed "prod" s1 "web" None) []).2 = ["sb_victim"] /\
  (run respond (Delete Demo.routed "prod" NewScatterGatherStore "web" None) []).2 = ["sb_0"].
Proof. vm_compute. split; reflexivity. Qed.

(** The same node, at capacity by the time the claim reaches it. *)
Definition full : handler RestE (list string) := fun X e =>
  match e in RestE X return list string -> X * list string with
  | @RStore Y e => fun w =>
      (match e in StoreE Y return Y -> Y with
       | ESandboxd _ _ c => match c in SandboxdCall Z return Z -> Z with
                            | SdClaim _ => fun _ => Err ErrNodeAtCapacity
                            | _ => fun x => x
                            end
       | _ => fun x => x
       end (respond Y (RStore e) w).1, w)
  | e => respond _ e
  end.

Definition web : Sandbox :=
  mkSandbox (mkMeta "web" "" "prod" "" "" 1 0 None ∅ ∅ [])
    (mkSandboxSpec (mkBlueprint (mkPodTemplate
      (mkPodSpec [mkContainer "main" "img" (mkResources None None) (mkResources None None) [] []] [] [] "" ∅ [] None None None "" None "")
      (mkPodMetadata ∅ ∅)) [] None) None None ModeUnset) emptyStatus.

Definition create_web : prog RestE (result Sandbox * store) :=
  Create (H:=Reference.conditions) (H0:=Reference.owners) Demo.routed "prod" NewScatterGatherStore (OSandbox web) None.

End RestDemo.


Lemma first_update_read_back_witness :
  spec any_rest_call (rest_inventory (fun _ => Err (Errorf "down")))
    (fun '(r, s') => forall out created, r = Ok (out, created) ->
       exists node e, served (fun _ => Err (Errorf "down")) NewScatterGatherStore "prod" "web" node e /\
       let sb := applyOverlay s' (entryToSandbox node e) in
       created = false /\ sbSpec sb = sbSpec emptySandbox /\ sbStatus out = sbStatus sb /\
       (forall k, sbLabels emptySandbox !! k <> Some "" -> sbLabels sb !! k = sbLabels emptySandbox !! k) /\
       (forall k, sbAnnotations emptySandbox !! k <> Some "" ->
          sbAnnotations sb !! k = sbAnnotations emptySandbox !! k))
    (Update "prod" NewScatterGatherStore "web" (fun _ => Ok (OSandbox emptySandbox)) None).
Proof.
  apply (first_update_read_back "prod" NewScatterGatherStore "web" emptySandbox
    (fun _ => Err (Errorf "down"))).
  - intros pc Hp. vm_compute in Hp. discriminate Hp.
  - vm_compute. reflexivity.
Defined.

Lemma delete_releases_published_witness :
  spec (release_calls (fun _ => Ok (StoreFacts.Demo.node_inventory ([StoreFacts.Demo.published], O)))
          NewScatterGatherStore "prod" "web")
    (rest_inventory (fun _ => Ok (StoreFacts.Demo.node_inventory ([StoreFacts.Demo.published], O))))
    (fun _ => True) (Delete StoreFacts.Demo.routed "prod" NewScatterGatherStore "web" None).
Proof.
  apply (delete_releases_published StoreFacts.Demo.routed "prod" NewScatterGatherStore "web" None
    (fun _ => Ok (StoreFacts.Demo.node_inventory ([StoreFacts.Demo.published], O)))).
  intros pc Hp. vm_compute in Hp. discriminate Hp.
Defined.

End Rest.
