(* ===== verification/SandboxModel.v ===== *)
(** * SandboxModel: the Sandbox controller.

    Models [controllers/sandbox_controller.go]: Reconcile and everything it
    runs on a Sandbox, its pod, service and volume claims.  The Kubernetes API
    is an event signature; a create or patch answers the object as the server
    returned it, which replaces the in-memory one.  Tracing is observational:
    the trace context is an argument and span events are left out.  The clock is
    read once for the conditions set together. *)

From S2P Require Import Prelude GoStrings K8s Types.

Module SandboxController.
#[local] Open Scope prog_scope.

Definition sandboxLabel : string := "agents.x-k8s.io/sandbox-name-hash".
Definition immediateRequeueDelay : Z := time_millisecond.
Definition TraceContextAnnotation : string := "opentelemetry.io/trace-context".

(** ** Child objects *)

Record Pod := mkPod {
  podMeta : ObjectMeta;
  podSpec : PodSpec;
  podPhase : string;
  podIPs : list string;
  podConditions : list (string * string);   (* type, status *)
}.

Record Service := mkService { svcMeta : ObjectMeta; svcClusterIP : string; svcSelector : strmap }.

Record PVC := mkPVC { pvcMeta : ObjectMeta; pvcSpec : string }.

Definition set_podMeta (m : ObjectMeta) (p : Pod) : Pod :=
  mkPod m (podSpec p) (podPhase p) (podIPs p) (podConditions p).

(** The API calls the controller makes. *)
Inductive ClientE : Type -> Type :=
| KNow : ClientE Z
| KGetSandbox (ns name : string) : ClientE (result Sandbox)
| KPatchSandbox (sb : Sandbox) : ClientE (result Sandbox)
| KUpdateSandboxStatus (sb : Sandbox) : ClientE (option gerror)
| KDeleteSandbox (sb : Sandbox) : ClientE (option gerror)
| KListPods (ns hash : string) : ClientE (result (list Pod))
| KGetPod (ns name : string) : ClientE (result Pod)
| KCreatePod (p : Pod) : ClientE (result Pod)
| KPatchPod (old new : Pod) : ClientE (result Pod)
| KDeletePod (p : Pod) : ClientE (option gerror)
| KGetService (ns name : string) : ClientE (result Service)
| KCreateService (s : Service) : ClientE (result Service)
| KUpdateService (s : Service) : ClientE (result Service)
| KPatchService (old new : Service) : ClientE (result Service)
| KDeleteService (s : Service) : ClientE (option gerror)
| KGetPVC (ns name : string) : ClientE (result PVC)
| KCreatePVC (p : PVC) : ClientE (result PVC)
| KPatchPVC (old new : PVC) : ClientE (result PVC).

(** ** Names, hashes and reserved keys *)

Definition GetNumericHash (input : string) : Z := fnv32a input.
Definition NameHash (objectName : string) : string := hex_digits 8 (GetNumericHash objectName).

Definition hasSystemReservedPrefix (key : string) : bool :=
  HasPrefix key "agents.x-k8s.io/" || HasPrefix key "extensions.agents.x-k8s.io/".
Definition isSystemLabel (key : string) : bool := hasSystemReservedPrefix key.
Definition isSystemAnnotation (key : string) : bool :=
  hasSystemReservedPrefix key || bool_decide (key = TraceContextAnnotation).
Definition isControllerManagedPodAnnotation (key : string) : bool :=
  bool_decide (key = SandboxPropagatedLabelsAnnotation)
  || bool_decide (key = SandboxPropagatedAnnotationsAnnotation).

Definition NormalizeCreatedBy (createdBy : string) : string :=
  if bool_decide (createdBy ∈ ["go-client"; "python-client"; "controller"; "loadgen"])
  then createdBy else "unknown".

Definition resolvePodName (sb : Sandbox) : string :=
  match sbAnnotations sb !! SandboxPodNameAnnotation with
  | Some name => if bool_decide (name <> "") then name else sbName sb
  | None => sbName sb
  end.

(** [schema.FromAPIVersionAndKind]'s group. *)
Definition group_of (apiVersion : string) : string :=
  match split_byte "/"%char apiVersion with
  | [g; _] => g
  | _ => ""
  end.
Definition extensionsGroup : string := "extensions.agents.x-k8s.io".

Definition MergeVolumeClaimVolumes (existing pvcVolumes : list Volume) : list Volume :=
  match pvcVolumes with
  | [] => existing
  | _ => filter (fun v => volName v ∉ volName <$> pvcVolumes) existing ++ pvcVolumes
  end.

Definition podIPsFromStatus (ips : list string) : list string := ips.

Definition sandboxOwner (sb : Sandbox) : Owner :=
  mkOwner "agents.x-k8s.io/v1beta1" "Sandbox" (sbName sb) (sbUID sb).

(** ** Expiry *)

Definition checkSandboxExpiry (sb : Sandbox) (now : Z) : bool * Z :=
  match ssShutdownTime (sbSpec sb) with
  | None => (false, 0)
  | Some shutdownTime =>
      if negb (time_Before now shutdownTime) then (true, 0)
      else (false, Z.max (time_Sub shutdownTime now) (2 * time_second))
  end.

(** ** Conditions *)

Definition isSuspended (sb : Sandbox) : bool := bool_decide (ssOperatingMode (sbSpec sb) = ModeSuspended).

Definition computeSuspendedCondition (sb : Sandbox) (pod : option Pod) : option Condition :=
  if negb (isSuspended sb) then None
  else Some (match pod with
    | None => newCondition SandboxConditionSuspended ConditionTrue SandboxReasonSuspendedPodTerminated
                "Pod has been terminated. Sandbox is not operational." (mGeneration (sbMeta sb))
    | Some _ => newCondition SandboxConditionSuspended ConditionFalse SandboxReasonSuspendedPodNotTerminated
                  "Pod has not been terminated. Sandbox is operational." (mGeneration (sbMeta sb))
    end).

Definition computeFinishedCondition (sb : Sandbox) (pod : option Pod) : option Condition :=
  match pod with
  | None => None
  | Some pod =>
      let cond reason message :=
        Some (newCondition SandboxConditionFinished ConditionTrue reason message (mGeneration (sbMeta sb))) in
      if bool_decide (podPhase pod = "Succeeded") then cond SandboxReasonPodSucceeded "Pod completed successfully"
      else if bool_decide (podPhase pod = "Failed") then cond SandboxReasonPodFailed "Pod failed"
      else None
  end.

(** The message and readiness the pod contributes: the first Ready condition of
    a Running pod decides. *)
Definition podReadiness (pod : option Pod) : string * bool :=
  match pod with
  | None => ("Pod does not exist", false)
  | Some pod =>
      if bool_decide (podPhase pod = "Running") then
        match List.find (fun c => bool_decide (c.1 = "Ready")) (podConditions pod) with
        | Some (_, status) =>
            if bool_decide (status = ConditionTrue) then
              match podIPs pod with
              | [] => ("Pod is Ready but has no podIPs yet", false)
              | _ => ("Pod is Ready", true)
              end
            else ("Pod is Running but not Ready", false)
        | None => ("Pod is Running but not Ready", false)
        end
      else ("Pod exists with phase: " +:+ podPhase pod, false)
  end.

Definition computeReadyCondition (sb : Sandbox) (err : option gerror) (svc : option Service)
    (pod : option Pod) : Condition :=
  let gen := mGeneration (sbMeta sb) in
  let notReady reason message := newCondition SandboxConditionReady ConditionFalse reason message gen in
  match err with
  | Some _ => notReady "ReconcilerError" "Error seen"
  | None =>
      if isSuspended sb then
        notReady SandboxReasonSuspended
          (match pod with Some _ => "Sandbox is suspending" | None => "Sandbox is suspended" end)
      else
        let phase := match pod with Some p => podPhase p | None => "" end in
        if bool_decide (phase = "Succeeded") then
          notReady SandboxReasonPodSucceeded "Pod completed successfully"
        else if bool_decide (phase = "Failed") then notReady SandboxReasonPodFailed "Pod failed"
        else
          let '(message, podReady) := podReadiness pod in
          let svcRequired := match ssService (sbSpec sb) with
                             | Some b => b
                             | None => bool_decide (is_Some svc)
                             end in
          let '(message, svcReady) :=
            if svcRequired then
              match svc with
              | Some _ => (message +:+ "; Service Exists", true)
              | None => (message +:+ "; Service does not exist", false)
              end
            else (message, true) in
          if podReady && svcReady
          then newCondition SandboxConditionReady ConditionTrue SandboxReasonDependenciesReady message gen
          else notReady SandboxReasonDependenciesNotReady message
  end.

Definition computeConditions (sb : Sandbox) (err : option gerror) (svc : option Service)
    (pod : option Pod) : list Condition :=
  option_list (computeSuspendedCondition sb pod) ++ option_list (computeFinishedCondition sb pod)
  ++ [computeReadyCondition sb err svc pod].

(** ** Pod metadata *)

(** The template entries a user may set. *)
Definition userLabels (sb : Sandbox) : strmap :=
  filter (fun kv => isSystemLabel kv.1 = false) (pmLabels (ptMeta (ssPodTemplate (sbSpec sb)))).
Definition userAnnotations (sb : Sandbox) : strmap :=
  filter (fun kv => isSystemAnnotation kv.1 = false) (pmAnnotations (ptMeta (ssPodTemplate (sbSpec sb)))).

(** [strings.Join(sorted keys, ",")]. *)
Definition joinedKeys (m : strmap) : string := String.concat "," (sort_strings (map_to_list m).*1).

(** [if m[k] != v { m[k] = v }] for every template entry, key by key. *)
Definition propagate (user m : strmap) : strmap :=
  merge (fun u b => match u with
                    | None => b
                    | Some v => if decide (default "" b = v) then b else Some v
                    end) user m.

Definition propagates (user m : strmap) : bool :=
  existsb (fun kv => bool_decide (mget m kv.1 <> kv.2)) (map_to_list user).

(** One iteration over a previously propagated key; [keep] are the system keys
    the controller itself owns. *)
Definition scrub_step (isSystem keep : string -> bool) (template : strmap) (acc : strmap * bool) (k : string) :
    strmap * bool :=
  let '(m, updated) := acc in
  if bool_decide (k = "") then acc
  else if isSystem k then
    if keep k then acc
    else if mhas m k then (delete k m, true) else acc
  else if mhas template k then acc
  else (delete k m, true).

Definition scrub (isSystem keep : string -> bool) (template : strmap) (propagated : string) (m : strmap) :
    strmap * bool :=
  if bool_decide (propagated <> "")
  then fold_left (scrub_step isSystem keep template) (split_byte ","%char propagated) (m, false)
  else (m, false).

(** Hold one system label at its expected value, absent when that is empty. *)
Definition hold (key expected : string) (acc : strmap * bool) : strmap * bool :=
  let '(m, updated) := acc in
  if bool_decide (expected <> "") then
    if bool_decide (mget m key <> expected) then (<[key := expected]> m, true) else acc
  else if mhas m key then (delete key m, true) else acc.

(** The trackers are always written when they differ. *)
Definition track (key v : string) (acc : strmap * bool) : strmap * bool :=
  let '(m, updated) := acc in
  if bool_decide (mget m key <> v) then (<[key := v]> m, true) else acc.

Section controller.
Context `{ConditionLib} `{OwnerLib}.

Inductive resourceOwnership := resourceOwnedBySandbox | resourceUnowned | resourceOwnedByOther.

Definition checkOwnership (obj : ObjectMeta) (sb : Sandbox) : resourceOwnership :=
  match GetControllerOf obj with
  | None => resourceUnowned
  | Some ref => if bool_decide (orUID ref = sbUID sb) then resourceOwnedBySandbox else resourceOwnedByOther
  end.

(** The extension-owned labels a sandbox of the extensions group passes on. *)
Definition expectedWarmPoolHash (sb : Sandbox) : string :=
  match GetControllerOf (sbMeta sb) with
  | Some ref =>
      if bool_decide (group_of (orAPIVersion ref) = extensionsGroup)
         && bool_decide (orKind ref = "SandboxWarmPool")
      then mget (sbLabels sb) SandboxWarmPoolLabel else ""
  | None => ""
  end.
Definition expectedTemplateRefHash (sb : Sandbox) : string :=
  match GetControllerOf (sbMeta sb) with
  | Some ref =>
      if bool_decide (group_of (orAPIVersion ref) = extensionsGroup)
      then mget (sbLabels sb) SandboxTemplateRefHashLabel else ""
  | None => ""
  end.
Definition expectedCreatedBy (sb : Sandbox) : string :=
  let val := mget (sbLabels sb) CreatedByLabel in
  if bool_decide (val <> "") then NormalizeCreatedBy val else "".

Definition updatePodLabels (labels annotations : strmap) (sb : Sandbox) (nameHash : string) : strmap * bool :=
  let '(labels, u1) := track sandboxLabel nameHash (labels, false) in
  let template := pmLabels (ptMeta (ssPodTemplate (sbSpec sb))) in
  let u2 := propagates (userLabels sb) labels in
  let labels := propagate (userLabels sb) labels in
  let '(labels, u3) := scrub isSystemLabel (fun k => bool_decide (k = sandboxLabel)) template
                         (mget annotations SandboxPropagatedLabelsAnnotation) labels in
  hold CreatedByLabel (expectedCreatedBy sb)
    (hold SandboxTemplateRefHashLabel (expectedTemplateRefHash sb)
       (hold SandboxWarmPoolLabel (expectedWarmPoolHash sb) (labels, u1 || u2 || u3))).

Definition updatePodAnnotations (annotations : strmap) (sb : Sandbox) : strmap * bool :=
  let template := pmAnnotations (ptMeta (ssPodTemplate (sbSpec sb))) in
  let u1 := propagates (userAnnotations sb) annotations in
  let annotations := propagate (userAnnotations sb) annotations in
  let '(annotations, u2) := scrub isSystemAnnotation isControllerManagedPodAnnotation template
                              (mget annotations SandboxPropagatedAnnotationsAnnotation) annotations in
  track SandboxPropagatedAnnotationsAnnotation (joinedKeys (userAnnotations sb))
    (track SandboxPropagatedLabelsAnnotation (joinedKeys (userLabels sb)) (annotations, u1 || u2)).

Definition updatePodMetadata (pod : Pod) (sb : Sandbox) (nameHash : string) : Pod * bool :=
  let m := podMeta pod in
  let '(labels, u1) := updatePodLabels (mLabels m) (mAnnotations m) sb nameHash in
  let '(annotations, u2) := updatePodAnnotations (mAnnotations m) sb in
  (set_podMeta (set_mAnnotations (fun _ => annotations) (set_mLabels (fun _ => labels) m)) pod, u1 || u2).

(** The labels and annotations of a new pod. *)
Definition newPodLabels (sb : Sandbox) (nameHash : string) : strmap :=
  let l := <[sandboxLabel := nameHash]> (userLabels sb) in
  let l := match GetControllerOf (sbMeta sb) with
           | Some ref =>
               if bool_decide (group_of (orAPIVersion ref) = extensionsGroup) then
                 let l := if bool_decide (orKind ref = "SandboxWarmPool") then
                            match sbLabels sb !! SandboxWarmPoolLabel with
                            | Some v => <[SandboxWarmPoolLabel := v]> l
                            | None => l
                            end
                          else l in
                 match sbLabels sb !! SandboxTemplateRefHashLabel with
                 | Some v => <[SandboxTemplateRefHashLabel := v]> l
                 | None => l
                 end
               else l
           | None => l
           end in
  let val := mget (sbLabels sb) CreatedByLabel in
  if bool_decide (val <> "") then <[CreatedByLabel := NormalizeCreatedBy val]> l else l.

Definition newPodAnnotations (sb : Sandbox) : strmap :=
  let a := userAnnotations sb in
  let a := if bool_decide (userLabels sb <> ∅)
           then <[SandboxPropagatedLabelsAnnotation := joinedKeys (userLabels sb)]> a else a in
  if bool_decide (userAnnotations sb <> ∅)
  then <[SandboxPropagatedAnnotationsAnnotation := joinedKeys (userAnnotations sb)]> a else a.

Definition pvcName (t : VolumeClaimTemplate) (sb : Sandbox) : string := vctName t +:+ "-" +:+ sbName sb.

Definition newPod (sb : Sandbox) (nameHash : string) : Pod :=
  let spec := ptSpec (ssPodTemplate (sbSpec sb)) in
  let pvcVolumes := (fun t => mkVolume (vctName t) ("pvc:" +:+ pvcName t sb))
                      <$> ssVolumeClaimTemplates (sbSpec sb) in
  mkPod (mkMeta (sbName sb) "" (sbNamespace sb) "" "" 0 0 None (newPodLabels sb nameHash)
           (newPodAnnotations sb) [])
    (set_psVolumes (MergeVolumeClaimVolumes (psVolumes spec) pvcVolumes) spec) "" [] [].

Definition setExpired (now : Z) (sb : Sandbox) : Sandbox :=
  set_sbStatus (set_stConditions (fun cs => SetStatusCondition now cs
    (newCondition SandboxConditionReady ConditionFalse SandboxReasonExpired "Sandbox has expired"
       (mGeneration (sbMeta sb)))) (sbStatus sb)) sb.
Definition setSandboxExpiredCondition := setExpired.

Definition sandboxMarkedExpired (sb : Sandbox) : bool :=
  match FindStatusCondition (sbConditions sb) SandboxConditionReady with
  | Some c => bool_decide (cReason c = SandboxReasonExpired)
  | None => false
  end.

(** ** Reconciling the children *)

Context (clusterDomain : string) (mutatePod : option (Sandbox -> Pod -> result Pod)).

Definition setServiceStatus (sb : Sandbox) (svc : Service) : Sandbox :=
  let name := mName (svcMeta svc) in
  set_sbStatus (set_stService name
    (name +:+ "." +:+ mNamespace (svcMeta svc) +:+ ".svc." +:+ clusterDomain) (sbStatus sb)) sb.
Definition clearServiceStatus (sb : Sandbox) : Sandbox :=
  set_sbStatus (set_stService "" "" (sbStatus sb)) sb.

(** Whether an unowned object may be adopted. *)
Definition adoptable (m : ObjectMeta) (nameHash : string) : bool :=
  bool_decide (mget (mLabels m) SandboxAdoptableLabel = "true")
  || bool_decide (mget (mLabels m) sandboxLabel = nameHash).

Definition set_svcMeta (f : ObjectMeta -> ObjectMeta) (s : Service) : Service :=
  mkService (f (svcMeta s)) (svcClusterIP s) (svcSelector s).

(** The adoption of an unowned service: relabel, reselect, own, update. *)
Definition adoptService (sb : Sandbox) (svc : Service) (nameHash : string) :
    prog ClientE (result Service) :=
  let svc := mkService (set_mLabels (fun l => <[sandboxLabel := nameHash]> l) (svcMeta svc))
               (svcClusterIP svc) {[sandboxLabel := nameHash]} in
  match SetControllerReference (sandboxOwner sb) (svcMeta svc) with
  | Err e => Ret (Err (Wrap "SetControllerReference for Service failed" e))
  | Ok m =>
      r <- call (KUpdateService (set_svcMeta (fun _ => m) svc));;
      Ret (match r with
           | Err e => Err (Wrap "failed to update service with owner reference" e)
           | Ok s => Ok s
           end)
  end.

(** Drift of an owned service: its tracking label and selector. *)
Definition repairService (svc : Service) (nameHash : string) : prog ClientE (result Service) :=
  let new := mkService (set_mLabels (fun l => if bool_decide (mget l sandboxLabel <> nameHash)
                                              then <[sandboxLabel := nameHash]> l else l) (svcMeta svc))
               (svcClusterIP svc) {[sandboxLabel := nameHash]} in
  if bool_decide (mget (mLabels (svcMeta svc)) sandboxLabel <> nameHash)
     || bool_decide (svcSelector svc <> {[sandboxLabel := nameHash]})
  then r <- call (KPatchService svc new);;
       Ret (match r with Err e => Err (Wrap "failed to patch owned service" e) | Ok s => Ok s end)
  else Ret (Ok svc).

Definition reconcileService (sb : Sandbox) (nameHash : string) :
    prog ClientE (Sandbox * option Service * option gerror) :=
  let desired := ssService (sbSpec sb) in
  r <- call (KGetService (sbNamespace sb) (sbName sb));;
  match r with
  | Err e =>
      if negb (IsNotFound e) then Ret (sb, None, Some (Wrap "service get failed" e))
      else if bool_decide (desired = Some true) then
        let svc := mkService (mkMeta (sbName sb) "" (sbNamespace sb) "" "" 0 0 None
                                {[sandboxLabel := nameHash]} ∅ []) "None" {[sandboxLabel := nameHash]} in
        match SetControllerReference (sandboxOwner sb) (svcMeta svc) with
        | Err e => Ret (sb, None, Some (Wrap "SetControllerReference for Service failed" e))
        | Ok m =>
            r <- call (KCreateService (set_svcMeta (fun _ => m) svc));;
            match r with
            | Err e => Ret (sb, None, Some e)
            | Ok svc => Ret (setServiceStatus sb svc, Some svc, None)
            end
        end
      else Ret (clearServiceStatus sb, None, None)
  | Ok svc =>
      let ownership := checkOwnership (svcMeta svc) sb in
      if bool_decide (desired = Some false) then
        err <- (match ownership with
                | resourceOwnedBySandbox => call (KDeleteService svc)
                | _ => Ret None
                end);;
        match IgnoreNotFound err with
        | Some e => Ret (sb, None, Some (Wrap "failed to delete service" e))
        | None => Ret (clearServiceStatus sb, None, None)
        end
      else
        match ownership with
        | resourceOwnedByOther =>
            Ret (sb, None, Some (Errorf "service is owned by a different controller"))
        | resourceUnowned =>
            if bool_decide (desired = None) then Ret (clearServiceStatus sb, None, None)
            else if negb (adoptable (svcMeta svc) nameHash) then
              Ret (sb, None, Some (Errorf "cannot adopt unowned service: missing label"))
            else if bool_decide (svcClusterIP svc <> "None") && bool_decide (svcClusterIP svc <> "") then
              Ret (sb, None, Some (Errorf "cannot adopt service: ClusterIP mismatch"))
            else
              r <- adoptService sb svc nameHash;;
              match r with
              | Err e => Ret (sb, None, Some e)
              | Ok svc => Ret (setServiceStatus sb svc, Some svc, None)
              end
        | resourceOwnedBySandbox =>
            r <- repairService svc nameHash;;
            match r with
            | Err e => Ret (sb, None, Some e)
            | Ok svc => Ret (setServiceStatus sb svc, Some svc, None)
            end
        end
  end.

Definition clearPodNameAnnotation (sb : Sandbox) : prog ClientE (Sandbox * option gerror) :=
  match sbAnnotations sb !! SandboxPodNameAnnotation with
  | None => Ret (sb, None)
  | Some _ =>
      let new := set_sbMeta (set_mAnnotations (delete SandboxPodNameAnnotation)) sb in
      r <- call (KPatchSandbox new);;
      match r with
      | Err e => Ret (new, Some (Wrap "failed to clear pod name annotation" e))
      | Ok sb => Ret (sb, None)
      end
  end.

Definition ensurePodNameAnnotation (sb : Sandbox) (podName : string) :
    prog ClientE (Sandbox * option gerror) :=
  let annotated := mget (sbAnnotations sb) SandboxPodNameAnnotation in
  if bool_decide (annotated = podName) || bool_decide (annotated <> "") then Ret (sb, None)
  else
    let new := set_sbMeta (set_mAnnotations (fun a => <[SandboxPodNameAnnotation := podName]> a)) sb in
    r <- call (KPatchSandbox new);;
    match r with
    | Err e => Ret (new, Some (Wrap "failed to set pod name annotation" e))
    | Ok sb => Ret (sb, None)
    end.

(** The label and owner checks of an existing pod: the pod to go on with and
    whether it now needs an update. *)
Definition adoptPod (sb : Sandbox) (pod : Pod) (nameHash : string) : result (Pod * bool) :=
  match checkOwnership (podMeta pod) sb with
  | resourceOwnedByOther => Err (Errorf "pod is owned by a different controller")
  | resourceUnowned =>
      if negb (adoptable (podMeta pod) nameHash) then
        Err (Errorf "cannot adopt unowned pod: missing label")
      else
        match SetControllerReference (sandboxOwner sb) (podMeta pod) with
        | Err e => Err (Wrap "SetControllerReference for Pod failed" e)
        | Ok m => Ok (set_podMeta m pod, true)
        end
  | resourceOwnedBySandbox => Ok (pod, false)
  end.

Definition reconcileExistingPod (sb : Sandbox) (pod : Pod) (nameHash : string) :
    prog ClientE (Sandbox * option Pod * option gerror) :=
  match adoptPod sb pod nameHash with
  | Err e =>
      match checkOwnership (podMeta pod) sb with
      | resourceOwnedByOther =>
          let! (sb, err) := clearPodNameAnnotation sb in
          Ret (sb, None, Some (default e err))
      | _ => Ret (sb, None, Some e)
      end
  | Ok (adopted, needsUpdate) =>
      let '(new, metadataUpdated) := updatePodMetadata adopted sb nameHash in
      r <- (if metadataUpdated || needsUpdate then call (KPatchPod pod new) else Ret (Ok new));;
      match r with
      | Err e => Ret (sb, None, Some (Wrap "failed to patch pod" e))
      | Ok pod =>
          let! (sb, err) := ensurePodNameAnnotation sb (mName (podMeta pod)) in
          match err with
          | Some e => Ret (sb, None, Some e)
          | None => Ret (sb, Some pod, None)
          end
      end
  end.

Definition createPod (sb : Sandbox) (nameHash : string) :
    prog ClientE (Sandbox * option Pod * option gerror) :=
  match match mutatePod with Some f => f sb (newPod sb nameHash) | None => Ok (newPod sb nameHash) end with
  | Err e => Ret (sb, None, Some (Wrap "mutate sandbox pod" e))
  | Ok pod =>
      match SetControllerReference (sandboxOwner sb) (podMeta pod) with
      | Err e => Ret (sb, None, Some (Wrap "SetControllerReference for Pod failed" e))
      | Ok m =>
          let pod := set_podMeta m pod in
          r <- call (KCreatePod pod);;
          match r with
          | Err e =>
              if IsAlreadyExists e then
                r <- call (KGetPod (mNamespace m) (mName m));;
                match r with
                | Err e => Ret (sb, None, Some (Wrap "pod already exists but failed to fetch" e))
                | Ok existing => reconcileExistingPod sb existing nameHash
                end
              else Ret (sb, None, Some e)
          | Ok pod =>
              let! (sb, err) := ensurePodNameAnnotation sb (mName (podMeta pod)) in
              match err with
              | Some e => Ret (sb, None, Some e)
              | None => Ret (sb, Some pod, None)
              end
          end
      end
  end.

(** A suspended sandbox: delete the pod if it is ours, then forget its name. *)
Definition suspendPod (sb : Sandbox) (pod : option Pod) :
    prog ClientE (Sandbox * option Pod * option gerror) :=
  err <- (match pod with
          | Some p =>
              match checkOwnership (podMeta p) sb with
              | resourceOwnedBySandbox =>
                  match mDeletionTimestamp (podMeta p) with
                  | None => call (KDeletePod p)
                  | Some _ => Ret None
                  end
              | _ => Ret None
              end
          | None => Ret None
          end);;
  match err with
  | Some e => Ret (sb, None, Some (Wrap "failed to delete pod" e))
  | None =>
      let! (sb, err) := clearPodNameAnnotation sb in
      Ret (sb, None, err)
  end.

Definition reconcilePod (sb : Sandbox) (nameHash : string) :
    prog ClientE (Sandbox * option Pod * option gerror) :=
  r <- call (KListPods (sbNamespace sb) nameHash);;
  match r with
  | Err e => Ret (sb, None, Some (Wrap "pod list failed" e))
  | Ok _ =>
      r <- call (KGetPod (sbNamespace sb) (resolvePodName sb));;
      match r with
      | Ok pod =>
          if isSuspended sb then suspendPod sb (Some pod)
          else reconcileExistingPod sb pod nameHash
      | Err e =>
          if negb (IsNotFound e) then Ret (sb, None, Some (Wrap "pod get failed" e))
          else
            let! (sb, err) := clearPodNameAnnotation sb in
            match err with
            | Some e => Ret (sb, None, Some e)
            | None => if isSuspended sb then suspendPod sb None else createPod sb nameHash
            end
      end
  end.

Fixpoint reconcilePVCs (sb : Sandbox) (nameHash : string) (templates : list VolumeClaimTemplate) :
    prog ClientE (option gerror) :=
  match templates with
  | [] => Ret None
  | t :: templates =>
      r <- call (KGetPVC (sbNamespace sb) (pvcName t sb));;
      match r with
      | Ok pvc =>
          match checkOwnership (pvcMeta pvc) sb with
          | resourceOwnedByOther => Ret (Some (Errorf "PVC is owned by a different controller"))
          | resourceUnowned =>
              if negb (adoptable (pvcMeta pvc) nameHash) then
                Ret (Some (Errorf "cannot adopt unowned PVC: missing label"))
              else
                match SetControllerReference (sandboxOwner sb) (pvcMeta pvc) with
                | Err e => Ret (Some (Wrap "SetControllerReference for PVC failed" e))
                | Ok m =>
                    r <- call (KPatchPVC pvc (mkPVC m (pvcSpec pvc)));;
                    match r with
                    | Err e => Ret (Some (Wrap "failed to patch PVC with owner reference" e))
                    | Ok _ => reconcilePVCs sb nameHash templates
                    end
                end
          | resourceOwnedBySandbox => reconcilePVCs sb nameHash templates
          end
      | Err e =>
          if negb (IsNotFound e) then Ret (Some (Wrap "failed to get PVC" e))
          else
            let meta := mkMeta (pvcName t sb) "" (sbNamespace sb) "" "" 0 0 None
                          (<[sandboxLabel := nameHash]> (vctLabels t)) (vctAnnotations t) [] in
            match SetControllerReference (sandboxOwner sb) meta with
            | Err e => Ret (Some (Wrap "SetControllerReference for PVC failed" e))
            | Ok m =>
                r <- call (KCreatePVC (mkPVC m (vctSpec t)));;
                match r with
                | Err e => Ret (Some e)
                | Ok _ => reconcilePVCs sb nameHash templates
                end
            end
      end
  end.

(** Setting the computed conditions, and dropping a stale Finished. *)
Definition applyConditions (now : Z) (conditions : list Condition) (cs : list Condition) : list Condition :=
  let cs := fold_left (SetStatusCondition now) conditions cs in
  if existsb (fun c => bool_decide (cType c = SandboxConditionFinished)) conditions then cs
  else RemoveStatusCondition cs SandboxConditionFinished.

Definition setPodStatus (sb : Sandbox) (pod : option Pod) : Sandbox :=
  set_sbStatus
    (match pod with
     | None => set_stPod (stLabelSelector (sbStatus sb)) [] "" (sbStatus sb)
     | Some p => set_stPod (sandboxLabel +:+ "=" +:+ NameHash (sbName sb)) (podIPsFromStatus (podIPs p))
                   (psNodeName (podSpec p)) (sbStatus sb)
     end) sb.

Definition reconcileChildResources (sb : Sandbox) : prog ClientE (Sandbox * option gerror) :=
  let nameHash := NameHash (sbName sb) in
  e1 <- reconcilePVCs sb nameHash (ssVolumeClaimTemplates (sbSpec sb));;
  let! (sb, pod, e2) := reconcilePod sb nameHash in
  let allErrors := errors_Join e1 e2 in
  let sb := setPodStatus sb pod in
  let! (sb, svc, e3) := reconcileService sb nameHash in
  let allErrors := errors_Join allErrors e3 in
  now <- call KNow;;
  let conditions := computeConditions sb allErrors svc pod in
  Ret (set_sbStatus (set_stConditions (applyConditions now conditions) (sbStatus sb)) sb, allErrors).

Definition updateStatus (oldStatus : SandboxStatus) (sb : Sandbox) : prog ClientE (option gerror) :=
  if bool_decide (oldStatus = sbStatus sb) then Ret None else call (KUpdateSandboxStatus sb).

(** One child's deletion on expiry, when it is ours. *)
Definition expirePod (sb : Sandbox) : prog ClientE (option gerror) :=
  r <- call (KGetPod (sbNamespace sb) (resolvePodName sb));;
  match r with
  | Err e => Ret (Wrap "failed to get pod" <$> IgnoreNotFound (Some e))
  | Ok pod =>
      match checkOwnership (podMeta pod) sb with
      | resourceOwnedBySandbox =>
          err <- call (KDeletePod pod);; Ret (Wrap "failed to delete pod" <$> IgnoreNotFound err)
      | _ => Ret None
      end
  end.

Definition expireService (sb : Sandbox) : prog ClientE (option gerror) :=
  r <- call (KGetService (sbNamespace sb) (sbName sb));;
  match r with
  | Err e => Ret (Wrap "failed to get service" <$> IgnoreNotFound (Some e))
  | Ok svc =>
      match checkOwnership (svcMeta svc) sb with
      | resourceOwnedBySandbox =>
          err <- call (KDeleteService svc);; Ret (Wrap "failed to delete service" <$> IgnoreNotFound err)
      | _ => Ret None
      end
  end.

Definition handleSandboxExpiry (sb : Sandbox) : prog ClientE (Sandbox * bool * option gerror) :=
  e1 <- expirePod sb;;
  e2 <- expireService sb;;
  let allErrors := errors_Join e1 e2 in
  let! (deleted, allErrors) :=
    (if bool_decide (ssShutdownPolicy (sbSpec sb) = Some PolicyDelete) then
       err <- call (KDeleteSandbox sb);;
       match IgnoreNotFound err with
       | Some e => Ret (false, errors_Join allErrors (Some (Wrap "failed to delete sandbox" e)))
       | None => Ret (true, None)
       end
     else Ret (false, allErrors)) in
  if (deleted : bool) then Ret (sb, true, None)
  else match allErrors with
       | Some _ => Ret (sb, false, allErrors)
       | None =>
           now <- call KNow;;
           let sb := set_sbStatus (mkSandboxStatus "" "" (sbConditions sb) "" [] "") sb in
           Ret (setExpired now sb, false, None)
       end.

(** The trace annotation of a sandbox that has none. *)
Definition ensureTrace (traceContext : string) (sb : Sandbox) : prog ClientE (result Sandbox) :=
  if bool_decide (traceContext <> "") && bool_decide (mget (sbAnnotations sb) TraceContextAnnotation = "")
  then call (KPatchSandbox (set_sbMeta (set_mAnnotations
               (fun a => <[TraceContextAnnotation := traceContext]> a)) sb))
  else Ret (Ok sb).

(** The requeue delay (0 for none) and the error, as [Reconcile] returns them. *)
Definition Reconcile (traceContext ns name : string) : prog ClientE (Z * option gerror) :=
  r <- call (KGetSandbox ns name);;
  match r with
  | Err e => Ret (0, IgnoreNotFound (Some e))
  | Ok sb =>
      match mDeletionTimestamp (sbMeta sb) with
      | Some _ => Ret (0, None)
      | None =>
          r <- ensureTrace traceContext sb;;
          match r with
          | Err e => Ret (0, Some e)
          | Ok sb =>
              let oldStatus := sbStatus sb in
              now <- call KNow;;
              let '(expired, _) := checkSandboxExpiry sb now in
              if (expired : bool) then
                if negb (sandboxMarkedExpired sb) then
                  now <- call KNow;;
                  err <- updateStatus oldStatus (setSandboxExpiredCondition now sb);;
                  Ret (match err with Some e => (0, Some e) | None => (immediateRequeueDelay, None) end)
                else
                  let! (sb, deleted, err) := handleSandboxExpiry sb in
                  if (deleted : bool) then Ret (0, err)
                  else uerr <- updateStatus oldStatus sb;; Ret (0, errors_Join err uerr)
              else
                let! (sb, err) := reconcileChildResources sb in
                now <- call KNow;;
                let '(expiredAfter, requeueAfter) := checkSandboxExpiry sb now in
                let! (sb, requeueAfter) :=
                  (if (expiredAfter : bool) then
                     now <- call KNow;;
                     Ret (setSandboxExpiredCondition now sb, immediateRequeueDelay)
                   else Ret (sb, requeueAfter)) in
                uerr <- updateStatus oldStatus sb;;
                Ret (requeueAfter, errors_Join err uerr)
          end
      end
  end.
End controller.

End SandboxController.
