(* ===== verification/SandboxFacts.v ===== *)
(** * SandboxFacts: what the Sandbox controller guarantees.

    Ownership safety of every API write for all API answers, the conditions it
    reports, convergence of the pod metadata, and the isolation of the reserved
    label keys from user templates. *)

From S2P Require Import Prelude GoStrings K8s Types SandboxModel.

Module SandboxFacts.
Import SandboxController.
#[local] Open Scope prog_scope.

(** ** Ownership safety *)

Section ownership.
Context `{ConditionLaws} `{OwnerLaws}.
Context (clusterDomain : string) (mutatePod : option (Sandbox -> Pod -> result Pod)).
(** The sandbox's UID and name hash, and the services the API serves. *)
Context (uid hash : string) (served : Service -> Prop).

Definition controlled (m : ObjectMeta) : Prop := IsControlledBy m uid = true.

(** May be taken over: already ours, or unowned and marked as adoptable, by the
    adoption label or by the tracking label with this sandbox's own name hash. *)
Definition ours_or_adoptable (m : ObjectMeta) : Prop :=
  controlled m \/ (GetControllerOf m = None /\ adoptable m hash = true).

Definition writes_safe (X : Type) (e : ClientE X) : Prop :=
  match e with
  | KDeletePod p => controlled (podMeta p)
  | KDeleteService s => controlled (svcMeta s)
  | KCreatePod p => controlled (podMeta p)
  | KCreateService s => controlled (svcMeta s)
  | KCreatePVC p => controlled (pvcMeta p)
  | KPatchPod old new => ours_or_adoptable (podMeta old) /\ controlled (podMeta new)
  | KPatchService old new => controlled (svcMeta old) /\ controlled (svcMeta new)
  | KUpdateService s =>
      controlled (svcMeta s) /\
      exists old, served old /\ ours_or_adoptable (svcMeta old) /\
        mName (svcMeta old) = mName (svcMeta s) /\ mNamespace (svcMeta old) = mNamespace (svcMeta s)
  | KPatchPVC old new => ours_or_adoptable (pvcMeta old) /\ controlled (pvcMeta new)
  | KPatchSandbox sb | KUpdateSandboxStatus sb => sbUID sb = uid
  | KDeleteSandbox sb =>
      sbUID sb = uid /\ ssShutdownPolicy (sbSpec sb) = Some PolicyDelete /\
      sandboxMarkedExpired sb = true
  | _ => True
  end.

(** The API serves the sandbox it was asked for, which keeps its UID and its
    name across a patch. *)
Definition same_sandbox (X : Type) (e : ClientE X) : X -> Prop :=
  match e in ClientE X return X -> Prop with
  | KGetSandbox _ n => fun r => forall sb, r = Ok sb -> sbUID sb = uid /\ sbName sb = n
  | KPatchSandbox sb => fun r => forall sb', r = Ok sb' -> sbUID sb' = sbUID sb /\ sbName sb' = sbName sb
  | KGetService _ _ => fun r => forall s, r = Ok s -> served s
  | _ => fun _ => True
  end.

Lemma owned_controlled m sb :
  sbUID sb = uid -> checkOwnership m sb = resourceOwnedBySandbox -> controlled m.
Proof.
  intros Hu. unfold checkOwnership, controlled, IsControlledBy.
  destruct (GetControllerOf m) as [r|]; [|done]. rewrite Hu. by case_bool_decide.
Qed.

Lemma unowned_none m sb : checkOwnership m sb = resourceUnowned -> GetControllerOf m = None.
Proof.
  unfold checkOwnership. destruct (GetControllerOf m); [by case_bool_decide|done].
Qed.

Lemma set_controlled sb m m' :
  sbUID sb = uid -> SetControllerReference (sandboxOwner sb) m = Ok m' -> controlled m'.
Proof.
  intros Hu Hs. destruct (set_controller_Ok _ _ _ Hs) as (r & Hr & Huid & _).
  unfold controlled, IsControlledBy. rewrite Hr, Huid. by apply bool_decide_eq_true.
Qed.

Lemma controlled_refs m m' :
  mOwnerReferences m = mOwnerReferences m' -> controlled m -> controlled m'.
Proof. intros Hr. unfold controlled, IsControlledBy. by rewrite (controller_refs m m' Hr). Qed.

(** The sandbox a step hands on is still the one under reconciliation. *)
Definition kept {A} (r : Sandbox * A * option gerror) : Prop := sbUID r.1.1 = uid.

Lemma clear_safe sb :
  sbUID sb = uid ->
  spec writes_safe same_sandbox (fun r => sbUID r.1 = uid) (clearPodNameAnnotation sb).
Proof.
  intros Hu. unfold clearPodNameAnnotation. destruct (sbAnnotations sb !! _); simpl; [|done].
  split; [done|]. intros [sb'|e] Hr; simpl; [|done]. by rewrite (proj1 (Hr sb' eq_refl)).
Qed.

Lemma ensure_safe sb podName :
  sbUID sb = uid ->
  spec writes_safe same_sandbox (fun r => sbUID r.1 = uid) (ensurePodNameAnnotation sb podName).
Proof.
  intros Hu. unfold ensurePodNameAnnotation. case_match; simpl; [done|].
  split; [done|]. intros [sb'|e] Hr; simpl; [|done]. by rewrite (proj1 (Hr sb' eq_refl)).
Qed.

Lemma updatePodMetadata_refs pod sb h :
  mOwnerReferences (podMeta (updatePodMetadata pod sb h).1) = mOwnerReferences (podMeta pod).
Proof.
  unfold updatePodMetadata. by destruct (updatePodLabels _ _ _ _), (updatePodAnnotations _ _).
Qed.

Lemma adoptPod_controlled sb pod pod' needs :
  sbUID sb = uid -> adoptPod sb pod hash = Ok (pod', needs) ->
  ours_or_adoptable (podMeta pod) /\ controlled (podMeta pod').
Proof.
  intros Hu. unfold adoptPod. destruct (checkOwnership (podMeta pod) sb) eqn:Eo; [| |done].
  - intros [= <- _]. assert (controlled (podMeta pod)) by (by eapply owned_controlled).
    split; [by left|done].
  - destruct (adoptable (podMeta pod) hash) eqn:Ea; simpl; [|done].
    destruct (SetControllerReference _ _) as [m|e] eqn:Es; [|done]. intros [= <- _].
    split; [right; split; [by eapply unowned_none|done]|by eapply set_controlled].
Qed.

Lemma reconcileExistingPod_safe sb pod :
  sbUID sb = uid -> spec writes_safe same_sandbox kept (reconcileExistingPod sb pod hash).
Proof.
  intros Hu. unfold reconcileExistingPod.
  destruct (adoptPod sb pod hash) as [[adopted needs]|e] eqn:Ea.
  - destruct (adoptPod_controlled sb pod adopted needs Hu Ea) as [Hold Hnew].
    pose proof (updatePodMetadata_refs adopted sb hash) as Hrefs.
    destruct (updatePodMetadata adopted sb hash) as [new updated]. cbn [fst] in Hrefs.
    eapply (spec_bind _ _ (fun _ => True)).
    { destruct (updated || needs); simpl; [|done]. split; [|done].
      split; [done|]. by eapply controlled_refs. }
    intros [p|er] _; [|done]. eapply spec_bind; [by apply ensure_safe|].
    intros [sb' [er|]] Hu'; done.
  - destruct (checkOwnership (podMeta pod) sb); [done..|].
    eapply spec_bind; [by apply clear_safe|]. by intros [sb' er] Hu'.
Qed.

Lemma createPod_safe sb :
  sbUID sb = uid -> spec writes_safe same_sandbox kept (createPod mutatePod sb hash).
Proof.
  intros Hu. unfold createPod. destruct (match mutatePod with Some _ => _ | None => _ end) as [pod|e]; [|done].
  destruct (SetControllerReference _ _) as [m|e] eqn:Es; [|done]. cbn [bind call].
  split; [by eapply set_controlled|]. intros [p|e] _; cbn [bind].
  - eapply spec_bind; [by apply ensure_safe|]. intros [sb' [er|]] Hu'; done.
  - destruct (IsAlreadyExists e); [|done]. cbn [bind call]. split; [done|].
    intros [p|er] _; cbn [bind]; [by apply reconcileExistingPod_safe|done].
Qed.

Lemma suspendPod_safe sb pod :
  sbUID sb = uid -> spec writes_safe same_sandbox kept (suspendPod sb pod).
Proof.
  intros Hu. unfold suspendPod. eapply (spec_bind _ _ (fun _ => True)).
  { destruct pod as [p|]; [|done]. destruct (checkOwnership (podMeta p) sb) eqn:Eo; [|done..].
    destruct (mDeletionTimestamp (podMeta p)); [done|]. simpl. split; [|done]. by eapply owned_controlled. }
  intros [e|] _; [done|]. eapply spec_bind; [by apply clear_safe|]. by intros [sb' er] Hu'.
Qed.

Lemma reconcilePod_safe sb :
  sbUID sb = uid -> spec writes_safe same_sandbox kept (reconcilePod mutatePod sb hash).
Proof.
  intros Hu. unfold reconcilePod. cbn [bind call]. split; [done|]. intros [ps|e] _; cbn [bind]; [|done].
  split; [done|]. intros [pod|e] _; cbn [bind].
  - destruct (isSuspended sb); [by apply suspendPod_safe|by apply reconcileExistingPod_safe].
  - destruct (negb _); [done|]. eapply spec_bind; [by apply clear_safe|].
    intros [sb' [er|]] Hu'; [done|]. cbn beta iota.
    destruct (isSuspended sb'); [by apply suspendPod_safe|by apply createPod_safe].
Qed.

Lemma reconcileService_safe sb :
  sbUID sb = uid -> spec writes_safe same_sandbox kept (reconcileService clusterDomain sb hash).
Proof.
  intros Hu. unfold reconcileService. cbn [bind call]. split; [done|]. intros [svc|e] Hsv; cbn [bind].
  - destruct (bool_decide (ssService (sbSpec sb) = Some false)).
    { eapply (spec_bind _ _ (fun _ => True)).
      - destruct (checkOwnership (svcMeta svc) sb) eqn:Eo; [|done..]. simpl. split; [|done].
        by eapply owned_controlled.
      - intros err _. cbn beta. by destruct (IgnoreNotFound err). }
    destruct (checkOwnership (svcMeta svc) sb) eqn:Eo.
    + eapply (spec_bind _ _ (fun _ => True)); [|intros [s|er] _; done].
      unfold repairService. destruct (_ || _); [|done]. cbn [bind call]. split.
      * assert (controlled (svcMeta svc)) by (by eapply owned_controlled).
        split; [done|]. eapply controlled_refs; [|done]. done.
      * intros [s|er] _; done.
    + case_bool_decide; [done|]. destruct (adoptable (svcMeta svc) hash) eqn:Ea; cbn [negb]; [|done].
      destruct (_ && _); [done|]. eapply (spec_bind _ _ (fun _ => True)); [|intros [s|er] _; done].
      unfold adoptService. destruct (SetControllerReference _ _) as [m|er] eqn:Es; [|done].
      cbn [bind call]. split; [|intros [s|er] _; done]. split; [by eapply set_controlled|].
      exists svc. split; [by apply Hsv|]. split; [right; split; [by eapply unowned_none|done]|].
      destruct (set_controller_frame _ _ _ Es) as [rs ->]. done.
    + done.
  - destruct (negb _); [done|]. case_bool_decide; [|done].
    destruct (SetControllerReference _ _) as [m|er] eqn:Es; [|done]. cbn [bind call].
    split; [by eapply set_controlled|]. intros [s|er] _; done.
Qed.

Lemma reconcilePVCs_safe sb ts :
  sbUID sb = uid -> spec writes_safe same_sandbox (fun _ => True) (reconcilePVCs sb hash ts).
Proof.
  intros Hu. induction ts as [|t ts IH]; cbn [reconcilePVCs]; [done|]. cbn [bind call].
  split; [done|]. intros [pvc|e] _; cbn [bind].
  - destruct (checkOwnership (pvcMeta pvc) sb) eqn:Eo; [done| |done].
    destruct (adoptable (pvcMeta pvc) hash) eqn:Ea; [|done]. cbn [negb].
    destruct (SetControllerReference _ _) as [m|er] eqn:Es; [|done]. cbn [bind call]. split.
    + split; [|by eapply set_controlled]. right. split; [by eapply unowned_none|done].
    + intros [p|er] _; done.
  - destruct (negb _); [done|]. destruct (SetControllerReference _ _) as [m|er] eqn:Es; [|done].
    cbn [bind call]. split; [by eapply set_controlled|]. intros [p|er] _; done.
Qed.

Lemma reconcileChildResources_safe sb :
  sbUID sb = uid -> NameHash (sbName sb) = hash ->
  spec writes_safe same_sandbox (fun r => sbUID r.1 = uid)
    (reconcileChildResources clusterDomain mutatePod sb).
Proof.
  intros Hu Hn. unfold reconcileChildResources. rewrite Hn. eapply spec_bind; [by apply reconcilePVCs_safe|].
  intros e1 _. cbn beta. eapply spec_bind; [by apply reconcilePod_safe|].
  intros [[sb1 pod] e2] Hu1. cbn beta iota. eapply spec_bind; [by apply reconcileService_safe|].
  intros [[sb2 svc] e3] Hu2. cbn beta iota. cbn [bind call]. by split.
Qed.

Lemma updateStatus_safe old sb :
  sbUID sb = uid -> spec writes_safe same_sandbox (fun _ => True) (updateStatus old sb).
Proof. intros Hu. unfold updateStatus. case_bool_decide; [done|]. simpl. by split. Qed.

Lemma handleSandboxExpiry_safe sb :
  sbUID sb = uid -> sandboxMarkedExpired sb = true ->
  spec writes_safe same_sandbox kept (handleSandboxExpiry sb).
Proof.
  intros Hu Hm. unfold handleSandboxExpiry. eapply (spec_bind _ _ (fun _ => True)).
  { unfold expirePod. cbn [bind call]. split; [done|]. intros [p|e] _; cbn [bind]; [|done].
    destruct (checkOwnership (podMeta p) sb) eqn:Eo; [|done..]. simpl. split; [|done]. by eapply owned_controlled. }
  intros e1 _. cbn beta. eapply (spec_bind _ _ (fun _ => True)).
  { unfold expireService. cbn [bind call]. split; [done|]. intros [p|e] _; cbn [bind]; [|done].
    destruct (checkOwnership (svcMeta p) sb) eqn:Eo; [|done..]. simpl. split; [|done]. by eapply owned_controlled. }
  intros e2 _. cbn beta. eapply (spec_bind _ _ (fun _ => True)).
  { case_bool_decide; [|done]. cbn [bind call]. split; [done|].
    intros err _. cbn [bind]. by destruct (IgnoreNotFound err). }
  intros [[] all] _; cbn beta iota; [done|]. destruct all; [done|]. simpl. by split.
Qed.
End ownership.

(** C1.  Ownership safety: whatever the API server answers to a reconcile of
    the sandbox [name], every pod, service and volume claim it creates, deletes
    or rewrites is one the sandbox controls.  The exception is adoption, which
    leaves the object controlled by the sandbox: it happens only to an object
    nobody controls that carries the adoption label or the tracking label with
    the hash of this very name.  The sandbox itself is deleted only under the
    Delete policy after it was marked expired.  (The API server serves the
    sandbox asked for, and a patch keeps its UID and name.) *)
Theorem reconcile_writes_owned `{ConditionLaws} `{OwnerLaws} clusterDomain mutatePod uid served trace ns name :
  spec (writes_safe uid (NameHash name) served) (same_sandbox uid served) (fun _ => True)
    (Reconcile clusterDomain mutatePod trace ns name).
Proof.
  unfold Reconcile. cbn [bind call]. split; [done|]. intros [sb|e] Hg; cbn [bind]; [|done].
  cbn in Hg. pose proof (Hg sb eq_refl) as [Hu Hn]. destruct (mDeletionTimestamp (sbMeta sb)); [done|].
  eapply (spec_bind _ _ (fun r => forall sb', r = Ok sb' -> sbUID sb' = uid /\ sbName sb' = name)).
  { unfold ensureTrace. destruct (_ && _); simpl; [|by intros ? [= <-]].
    split; [done|]. intros [sb'|e] Hr; [|done]. intros ? [= <-]. by destruct (Hr sb' eq_refl) as [-> ->]. }
  intros [sb1|e] Hs1; [|done]. cbn beta iota. destruct (Hs1 sb1 eq_refl) as [Hu1 Hn1]. cbn [bind call].
  split; [done|]. intros now _. cbn [bind].
  destruct (checkSandboxExpiry sb1 now) as [[] ?].
  - destruct (sandboxMarkedExpired sb1) eqn:Em; cbn [negb].
    + eapply spec_bind; [by apply (handleSandboxExpiry_safe uid)|].
      intros [[sb2 []] err] Hu2; cbn beta iota; [done|].
      eapply spec_bind; [by apply updateStatus_safe|]. done.
    + cbn [bind call]. split; [done|]. intros t _. cbn [bind].
      eapply spec_bind; [by apply updateStatus_safe|]. done.
  - eapply spec_bind; [apply (reconcileChildResources_safe clusterDomain mutatePod uid); [done|by rewrite Hn1]|].
    intros [sb2 err] Hu2. cbn beta iota. cbn [bind call fst] in *. split; [done|]. intros t _. cbn [bind].
    destruct (checkSandboxExpiry sb2 t) as [[] requeue]; cbn [bind call].
    + split; [done|]. intros t' _. cbn [bind]. eapply spec_bind; [by apply updateStatus_safe|]. done.
    + eapply spec_bind; [by apply updateStatus_safe|]. done.
Qed.

(** ** Convergence of the pod metadata *)

Lemma propagate_lookup user m k :
  propagate user m !! k =
  match user !! k with
  | None => m !! k
  | Some v => if decide (mget m k = v) then m !! k else Some v
  end.
Proof.
  unfold propagate, mget. rewrite lookup_merge.
  destruct (user !! k) as [v|], (m !! k) as [b|]; simpl; try done; by case_decide.
Qed.

Lemma propagate_get user m k v : user !! k = Some v -> mget (propagate user m) k = v.
Proof.
  intros Hk. unfold mget at 1. rewrite propagate_lookup, Hk. case_decide; [done|done].
Qed.

Lemma propagates_false user m :
  propagates user m = false <-> forall k v, user !! k = Some v -> mget m k = v.
Proof.
  unfold propagates. rewrite <-not_true_iff_false, existsb_exists. split.
  - intros Hn k v Hk. destruct (decide (mget m k = v)) as [|Hne]; [done|]. destruct Hn.
    exists (k, v). rewrite <-list_elem_of_In, elem_of_map_to_list. split; [done|].
    by apply bool_decide_eq_true.
  - intros Hall ([k v] & Hin & Hb). rewrite <-list_elem_of_In, elem_of_map_to_list in Hin.
    apply bool_decide_eq_true in Hb. simpl in Hb. by rewrite (Hall k v Hin) in Hb.
Qed.

Lemma propagate_id user m :
  (forall k v, user !! k = Some v -> mget m k = v) -> propagate user m = m.
Proof.
  intros Hall. apply map_eq. intros k. rewrite propagate_lookup.
  destruct (user !! k) as [v|] eqn:Hk; [|done]. by rewrite decide_True by (by apply Hall).
Qed.

Section scrub.
Context (isSystem keep : string -> bool) (template : strmap).

(** A key the scrubbing never removes. *)
Definition protected (k : string) : Prop :=
  if isSystem k then keep k = true else mhas template k = true.

Lemma scrub_step_protected acc k k' :
  protected k' -> (scrub_step isSystem keep template acc k).1 !! k' = acc.1 !! k'.
Proof.
  destruct acc as [m u]. unfold scrub_step, protected. intros Hp.
  case_bool_decide; [done|]. destruct (decide (k = k')) as [->|Hne].
  - destruct (isSystem k'); by rewrite Hp.
  - repeat case_match; simpl; try done; by rewrite lookup_delete_ne.
Qed.

Lemma scrub_protected s m k : protected k -> (scrub isSystem keep template s m).1 !! k = m !! k.
Proof.
  intros Hp. unfold scrub. case_bool_decide; [|done].
  assert (forall l acc, (fold_left (scrub_step isSystem keep template) l acc).1 !! k = acc.1 !! k) as Hgo.
  { induction l as [|x l IH]; intros acc; simpl; [done|]. by rewrite IH, scrub_step_protected. }
  apply Hgo.
Qed.

Lemma scrub_quiet user m :
  (forall k, is_Some (user !! k) -> protected k) ->
  (forall k, is_Some (user !! k) -> has_byte ","%char k = false) ->
  scrub isSystem keep template (joinedKeys user) m = (m, false).
Proof.
  intros Hp Hc. unfold scrub. case_bool_decide as Hj; [|done].
  assert (forall k, k ∈ sort_strings (map_to_list user).*1 -> is_Some (user !! k)) as Hin.
  { intros k. rewrite sort_strings_perm. intros ([k' v] & -> & Hkv)%list_elem_of_fmap.
    apply elem_of_map_to_list in Hkv. by eexists. }
  unfold joinedKeys in *. set (ks := sort_strings (map_to_list user).*1) in *. clearbody ks.
  rewrite split_join; [|by intros ->|apply Forall_forall; auto].
  clear Hj. induction ks as [|k ks IH]; simpl; [done|].
  assert (protected k) as Hk by (apply Hp, Hin; left). unfold protected in Hk.
  assert (scrub_step isSystem keep template (m, false) k = (m, false)) as Hstep.
  { unfold scrub_step. case_bool_decide; [done|]. destruct (isSystem k); by rewrite Hk. }
  cbn [scrub_step] in Hstep. unfold scrub_step in Hstep. simpl in Hstep. rewrite Hstep.
  apply IH. intros k' ?. apply Hin. by right.
Qed.
End scrub.

(** The label is at its expected value. *)
Definition held (key expected : string) (m : strmap) : Prop :=
  if decide (expected = "") then m !! key = None else mget m key = expected.

Lemma hold_other key expected acc k : k <> key -> (hold key expected acc).1 !! k = acc.1 !! k.
Proof.
  intros Hne. destruct acc as [m u]. unfold hold.
  destruct (bool_decide (expected <> "")); [destruct (bool_decide (_ <> _))|destruct (mhas m key)];
    simpl; rewrite ?lookup_insert_ne, ?lookup_delete_ne by done; done.
Qed.

Lemma hold_held key expected acc : held key expected (hold key expected acc).1.
Proof.
  destruct acc as [m u]. unfold held, hold. case_decide as He.
  - rewrite bool_decide_false by tauto. destruct (mhas m key) eqn:Hm; simpl; [apply lookup_delete_eq|].
    apply bool_decide_eq_false in Hm. by apply eq_None_not_Some.
  - rewrite bool_decide_true by done. case_bool_decide as Hm; simpl; [|done].
    unfold mget. by rewrite lookup_insert_eq.
Qed.

Lemma held_hold key expected m u : held key expected m -> hold key expected (m, u) = (m, u).
Proof.
  unfold held, hold. case_decide as He; intros Hm.
  - rewrite bool_decide_false by tauto. unfold mhas. by rewrite Hm.
  - rewrite bool_decide_true by done. by rewrite bool_decide_false by tauto.
Qed.

Lemma held_same key expected m m' : m' !! key = m !! key -> held key expected m -> held key expected m'.
Proof. intros He. unfold held, mget. by rewrite He. Qed.

Lemma track_get key v acc : mget (track key v acc).1 key = v.
Proof.
  destruct acc as [m u]. unfold track. case_bool_decide as Hm; simpl; [|done].
  unfold mget. by rewrite lookup_insert_eq.
Qed.

Lemma track_other key v acc k : k <> key -> (track key v acc).1 !! k = acc.1 !! k.
Proof.
  intros Hne. destruct acc as [m u]. unfold track. case_bool_decide; simpl; [|done].
  by rewrite lookup_insert_ne.
Qed.

Lemma track_id key v m u : mget m key = v -> track key v (m, u) = (m, u).
Proof. intros Hm. unfold track. by rewrite bool_decide_false by tauto. Qed.

Lemma user_label sb k v :
  userLabels sb !! k = Some v ->
  isSystemLabel k = false /\ mhas (pmLabels (ptMeta (ssPodTemplate (sbSpec sb)))) k = true.
Proof.
  unfold userLabels. rewrite map_lookup_filter_Some. intros [Hk Hs]. split; [done|].
  apply bool_decide_eq_true. by eexists.
Qed.

Lemma user_annotation sb k v :
  userAnnotations sb !! k = Some v ->
  isSystemAnnotation k = false /\ mhas (pmAnnotations (ptMeta (ssPodTemplate (sbSpec sb)))) k = true.
Proof.
  unfold userAnnotations. rewrite map_lookup_filter_Some. intros [Hk Hs]. split; [done|].
  apply bool_decide_eq_true. by eexists.
Qed.

(** A reserved key is none of the user's. *)
Lemma system_key_ne isSystem (k key : string) : isSystem k = false -> isSystem key = true -> k <> key.
Proof. intros Hk Hs ->. congruence. Qed.

Section labels.
Context `{OwnerLib} (sb : Sandbox) (hash : string).

Abbreviation label_keep := (fun k => bool_decide (k = sandboxLabel)).
Abbreviation template_labels := (pmLabels (ptMeta (ssPodTemplate (sbSpec sb)))).

(** The stages of [updatePodLabels]. *)
Lemma updatePodLabels_stages labels annotations :
  exists m u, (m, u) = scrub isSystemLabel label_keep template_labels
                (mget annotations SandboxPropagatedLabelsAnnotation)
                (propagate (userLabels sb) (track sandboxLabel hash (labels, false)).1) /\
  updatePodLabels labels annotations sb hash =
  hold CreatedByLabel (expectedCreatedBy sb)
    (hold SandboxTemplateRefHashLabel (expectedTemplateRefHash sb)
       (hold SandboxWarmPoolLabel (expectedWarmPoolHash sb)
          (m, (track sandboxLabel hash (labels, false)).2 ||
              propagates (userLabels sb) (track sandboxLabel hash (labels, false)).1 || u))).
Proof.
  unfold updatePodLabels. destruct (track sandboxLabel hash (labels, false)) as [l1 u1]. cbn [fst snd].
  destruct (scrub _ _ _ _ _) as [m u]. by exists m, u.
Qed.

(** Label facts that make a second pass a no-op. *)
Definition settled (l : strmap) : Prop :=
  mget l sandboxLabel = hash /\
  (forall k v, userLabels sb !! k = Some v -> mget l k = v) /\
  held SandboxWarmPoolLabel (expectedWarmPoolHash sb) l /\
  held SandboxTemplateRefHashLabel (expectedTemplateRefHash sb) l /\
  held CreatedByLabel (expectedCreatedBy sb) l.

Lemma updatePodLabels_other labels annotations k :
  protected isSystemLabel label_keep template_labels k ->
  k <> SandboxWarmPoolLabel -> k <> SandboxTemplateRefHashLabel -> k <> CreatedByLabel ->
  (updatePodLabels labels annotations sb hash).1 !! k =
  propagate (userLabels sb) (track sandboxLabel hash (labels, false)).1 !! k.
Proof.
  intros Hp H1 H2 H3. destruct (updatePodLabels_stages labels annotations) as (m & u & Hs & ->).
  rewrite !hold_other by done. cbn [fst].
  pose proof (scrub_protected isSystemLabel label_keep template_labels
    (mget annotations SandboxPropagatedLabelsAnnotation)
    (propagate (userLabels sb) (track sandboxLabel hash (labels, false)).1) k Hp) as Hk.
  by rewrite <-Hs in Hk.
Qed.

Lemma updatePodLabels_settled labels annotations :
  settled (updatePodLabels labels annotations sb hash).1.
Proof.
  unfold settled. split_and!.
  - unfold mget. rewrite updatePodLabels_other by done. rewrite propagate_lookup.
    destruct (userLabels sb !! sandboxLabel) as [v|] eqn:Hu; [by apply user_label in Hu as [? _]|].
    apply (track_get sandboxLabel hash (labels, false)).
  - intros k v Hk. destruct (user_label sb k v Hk) as [Hs Ht]. unfold mget.
    rewrite updatePodLabels_other; [by apply propagate_get|unfold protected; by rewrite Hs|..];
      by eapply (system_key_ne isSystemLabel).
  - destruct (updatePodLabels_stages labels annotations) as (m & u & _ & ->).
    eapply held_same; [by rewrite !hold_other by done|]. apply hold_held.
  - destruct (updatePodLabels_stages labels annotations) as (m & u & _ & ->).
    eapply held_same; [by rewrite hold_other by done|]. apply hold_held.
  - destruct (updatePodLabels_stages labels annotations) as (m & u & _ & ->). apply hold_held.
Qed.

Lemma updatePodLabels_quiet l annotations :
  (forall k, is_Some (userLabels sb !! k) -> has_byte ","%char k = false) ->
  mget annotations SandboxPropagatedLabelsAnnotation = joinedKeys (userLabels sb) ->
  settled l -> updatePodLabels l annotations sb hash = (l, false).
Proof.
  intros Hc Ha (H1 & H2 & H3 & H4 & H5). unfold updatePodLabels. rewrite track_id by done.
  rewrite (proj2 (propagates_false (userLabels sb) l) H2), (propagate_id (userLabels sb) l H2), Ha.
  rewrite scrub_quiet; [|intros k [v Hk]; unfold protected; by destruct (user_label sb k v Hk) as [-> ->]|done].
  by rewrite !held_hold.
Qed.
End labels.

Section annotations.
Context (sb : Sandbox).

Definition settled_annotations (a : strmap) : Prop :=
  (forall k v, userAnnotations sb !! k = Some v -> mget a k = v) /\
  mget a SandboxPropagatedLabelsAnnotation = joinedKeys (userLabels sb) /\
  mget a SandboxPropagatedAnnotationsAnnotation = joinedKeys (userAnnotations sb).

Lemma updatePodAnnotations_settled a : settled_annotations (updatePodAnnotations a sb).1.
Proof.
  unfold settled_annotations, updatePodAnnotations.
  destruct (scrub _ _ _ _ _) as [m u] eqn:Es. split_and!.
  - intros k v Hk. destruct (user_annotation sb k v Hk) as [Hs Ht]. unfold mget.
    rewrite !track_other by (by eapply (system_key_ne isSystemAnnotation)). cbn [fst].
    assert (m = (scrub isSystemAnnotation isControllerManagedPodAnnotation
      (pmAnnotations (ptMeta (ssPodTemplate (sbSpec sb))))
      (mget (propagate (userAnnotations sb) a) SandboxPropagatedAnnotationsAnnotation)
      (propagate (userAnnotations sb) a)).1) as -> by (by rewrite Es).
    rewrite scrub_protected; [by apply propagate_get|]. unfold protected. by rewrite Hs.
  - unfold mget. rewrite track_other by done. apply track_get.
  - apply track_get.
Qed.

Lemma updatePodAnnotations_quiet a :
  (forall k, is_Some (userAnnotations sb !! k) -> has_byte ","%char k = false) ->
  settled_annotations a -> updatePodAnnotations a sb = (a, false).
Proof.
  intros Hc (H1 & H2 & H3). unfold updatePodAnnotations.
  rewrite (proj2 (propagates_false _ a) H1), (propagate_id _ a H1), H3.
  rewrite scrub_quiet;
    [|intros k [v Hk]; unfold protected; by destruct (user_annotation sb k v Hk) as [-> ->]|done].
  by rewrite !track_id.
Qed.
End annotations.

(** Pod metadata converges: after one [updatePodMetadata], from any labels
    and annotations and any previously recorded propagation, a second pass with
    the same sandbox changes nothing and reports no update, so the controller
    does not keep patching the pod. *)
Theorem pod_metadata_converges `{OwnerLib} pod sb hash :
  (forall k, is_Some (userLabels sb !! k) -> has_byte ","%char k = false) ->
  (forall k, is_Some (userAnnotations sb !! k) -> has_byte ","%char k = false) ->
  let pod1 := (updatePodMetadata pod sb hash).1 in
  updatePodMetadata pod1 sb hash = (pod1, false).
Proof.
  intros Hl Ha pod1. unfold pod1, updatePodMetadata.
  pose proof (updatePodLabels_settled sb hash (mLabels (podMeta pod)) (mAnnotations (podMeta pod))) as Hs.
  pose proof (updatePodAnnotations_settled sb (mAnnotations (podMeta pod))) as Hsa.
  destruct (updatePodLabels (mLabels (podMeta pod)) _ sb hash) as [l u1].
  destruct (updatePodAnnotations (mAnnotations (podMeta pod)) sb) as [a u2]. cbn [fst] in *.
  cbn [podMeta set_podMeta mLabels mAnnotations set_mLabels set_mAnnotations].
  destruct Hsa as (H1 & H2 & H3).
  rewrite (updatePodLabels_quiet sb hash l a Hl H2 Hs).
  rewrite (updatePodAnnotations_quiet sb a Ha (conj H1 (conj H2 H3))). done.
Qed.

(** ** Reserved keys *)

Lemma newPodLabels_system `{OwnerLib} sb hash k :
  isSystemLabel k = true -> k <> sandboxLabel -> k <> SandboxWarmPoolLabel ->
  k <> SandboxTemplateRefHashLabel -> k <> CreatedByLabel -> newPodLabels sb hash !! k = None.
Proof.
  intros Hs H1 H2 H3 H4. unfold newPodLabels.
  assert (userLabels sb !! k = None) as Hu.
  { destruct (userLabels sb !! k) as [v|] eqn:E; [|done]. apply user_label in E as [? _]. congruence. }
  repeat case_match; rewrite ?lookup_insert_ne by done; done.
Qed.

(** A template cannot set reserved labels: on a new pod every reserved
    label other than the four the controller owns is absent, and on an existing
    pod it is left as it was or removed; and the tracking label that selects the
    sandbox's service is the sandbox's own name hash in both cases, whatever the
    template says. *)
Theorem reserved_labels_isolated `{OwnerLib} pod sb hash k :
  isSystemLabel k = true ->
  k <> SandboxWarmPoolLabel -> k <> SandboxTemplateRefHashLabel -> k <> CreatedByLabel ->
  let existing := mLabels (podMeta (updatePodMetadata pod sb hash).1) in
  (mget (newPodLabels sb hash) sandboxLabel = hash /\ mget existing sandboxLabel = hash) /\
  (k <> sandboxLabel ->
     newPodLabels sb hash !! k = None /\
     (existing !! k = mLabels (podMeta pod) !! k \/ existing !! k = None)).
Proof.
  intros Hs H2 H3 H4 existing.
  assert (existing = (updatePodLabels (mLabels (podMeta pod)) (mAnnotations (podMeta pod)) sb hash).1) as ->.
  { unfold existing, updatePodMetadata.
    by destruct (updatePodLabels _ _ _ _), (updatePodAnnotations _ _). }
  split; [split|].
  - unfold newPodLabels, mget. repeat case_match; rewrite ?lookup_insert_ne by done; by rewrite lookup_insert_eq.
  - exact (proj1 (updatePodLabels_settled sb hash _ _)).
  - intros H1. split; [by apply newPodLabels_system|].
    destruct (updatePodLabels_stages sb hash (mLabels (podMeta pod)) (mAnnotations (podMeta pod)))
      as (m & u & Hm & ->).
    rewrite !hold_other by done. cbn [fst].
    assert (propagate (userLabels sb) (track sandboxLabel hash (mLabels (podMeta pod), false)).1 !! k
      = mLabels (podMeta pod) !! k) as Hk.
    { rewrite propagate_lookup. destruct (userLabels sb !! k) as [v|] eqn:E.
      - apply user_label in E as [? _]. congruence.
      - by rewrite track_other. }
    rewrite <-Hk. generalize dependent (propagate (userLabels sb) (track sandboxLabel hash (mLabels (podMeta pod), false)).1).
    intros base Hm _. assert (m = (scrub isSystemLabel (fun k => bool_decide (k = sandboxLabel))
      (pmLabels (ptMeta (ssPodTemplate (sbSpec sb))))
      (mget (mAnnotations (podMeta pod)) SandboxPropagatedLabelsAnnotation) base).1) as -> by (by rewrite <-Hm).
    clear. unfold scrub. case_bool_decide; [|by left].
    set (P := fun acc : strmap * bool => acc.1 !! k = base !! k \/ acc.1 !! k = None).
    assert (forall l acc, P acc -> P (fold_left (scrub_step isSystemLabel
      (fun k => bool_decide (k = sandboxLabel)) (pmLabels (ptMeta (ssPodTemplate (sbSpec sb))))) l acc)) as Hgo.
    { induction l as [|x l IH]; intros acc Hacc; simpl; [done|]. apply IH.
      destruct acc as [m0 u0]. unfold scrub_step, P in *.
      repeat case_match; simpl; try done;
        (destruct (decide (x = k)) as [->|]; [right; apply lookup_delete_eq|by rewrite lookup_delete_ne]). }
    apply Hgo. by left.
Qed.

(** ** Conditions *)

(** The pod is up: Running, its first Ready condition true, with an address. *)
Definition pod_up (p : Pod) : Prop :=
  podPhase p = "Running" /\ podIPs p <> [] /\
  exists t, List.find (fun c => bool_decide (c.1 = "Ready")) (podConditions p) = Some (t, ConditionTrue).

Lemma podReadiness_true pod : (podReadiness pod).2 = true <-> exists p, pod = Some p /\ pod_up p.
Proof.
  unfold podReadiness, pod_up. destruct pod as [p|]; [|by split; [|intros (? & ? & _)]].
  case_bool_decide as Hph; [|split; [done|]; by intros (? & [= <-] & ? & _)].
  destruct (List.find _ _) as [[t status]|] eqn:Ef;
    [|split; [done|]; intros (? & [= <-] & _ & _ & ? & ?); congruence].
  case_bool_decide as Hs; [|split; [done|]; intros (? & [= <-] & _ & _ & ? & ?); congruence].
  destruct (podIPs p) as [|ip ips] eqn:Eip; [split; [done|]; by intros (? & [= <-] & _ & ? & _)|].
  split; [|done]. intros _. exists p. rewrite Eip, Ef, Hs. split_and!; try done. by eexists.
Qed.

(** C34.  Ready is truthful: the computed Ready condition is True exactly when
    the reconcile saw no error, the sandbox is not suspended, its pod is running,
    ready and addressed, and the service exists if the sandbox asks for one. *)
Theorem ready_condition_truthful sb err svc pod :
  cStatus (computeReadyCondition sb err svc pod) = ConditionTrue <->
  err = None /\ isSuspended sb = false /\ (exists p, pod = Some p /\ pod_up p) /\
  (ssService (sbSpec sb) = Some true -> svc <> None).
Proof.
  rewrite <-podReadiness_true. unfold computeReadyCondition.
  destruct err as [e|]; [simpl; naive_solver|].
  destruct (isSuspended sb); [simpl; naive_solver|].
  set (phase := match pod with Some p => podPhase p | None => "" end).
  assert (phase = "Succeeded" \/ phase = "Failed" -> (podReadiness pod).2 = false) as Hdone.
  { intros Hp. apply not_true_iff_false. rewrite podReadiness_true. intros (p & -> & Hr & _).
    unfold phase in Hp. rewrite Hr in Hp. destruct Hp; discriminate. }
  case_bool_decide as H1; [simpl; rewrite Hdone by tauto; naive_solver|].
  case_bool_decide as H2; [simpl; rewrite Hdone by tauto; naive_solver|].
  destruct (podReadiness pod) as [msg ready]. cbn [snd].
  destruct (ssService (sbSpec sb)) as [[]|], svc as [s|], ready; simpl; naive_solver.
Qed.

Section recorded.
Context `{ConditionLaws} (now : Z).

Lemma fold_set_other l cs t :
  t ∉ cType <$> l -> FindStatusCondition (fold_left (SetStatusCondition now) l cs) t = FindStatusCondition cs t.
Proof.
  revert cs. induction l as [|c l IH]; intros cs Ht; simpl; [done|].
  rewrite fmap_cons, not_elem_of_cons in Ht. destruct Ht. rewrite IH by done. by apply find_set_other.
Qed.

Lemma fold_set_in l cs c :
  NoDup (cType <$> l) -> c ∈ l ->
  exists c', FindStatusCondition (fold_left (SetStatusCondition now) l cs) (cType c) = Some c' /\ same_condition c' c.
Proof.
  revert cs. induction l as [|x l IH]; intros cs Hd Hc; [by apply not_elem_of_nil in Hc|].
  rewrite fmap_cons in Hd. apply NoDup_cons in Hd as [Hx Hd]. simpl.
  apply elem_of_cons in Hc as [->|Hc]; [|by apply IH]. rewrite fold_set_other by done. apply find_set_same.
Qed.
End recorded.

Lemma ready_type sb err svc pod : cType (computeReadyCondition sb err svc pod) = SandboxConditionReady.
Proof. unfold computeReadyCondition. repeat (case_match; try done). Qed.

Lemma finished_type sb pod f : computeFinishedCondition sb pod = Some f -> cType f = SandboxConditionFinished.
Proof. unfold computeFinishedCondition. repeat case_match; intros; simplify_eq; done. Qed.

Lemma suspended_type sb pod f : computeSuspendedCondition sb pod = Some f -> cType f = SandboxConditionSuspended.
Proof. unfold computeSuspendedCondition. repeat case_match; intros; simplify_eq; done. Qed.

(** The status carries the computed conditions: after a pass, Ready holds
    the computed one, Finished is present exactly when the pod is in a terminal
    phase, and Suspended holds the computed one when the sandbox is suspended;
    when it is not, the pass leaves whatever Suspended condition was there. *)
Theorem conditions_recorded `{ConditionLaws} now cs sb err svc pod :
  let cs' := applyConditions now (computeConditions sb err svc pod) cs in
  let found t c := exists c', FindStatusCondition cs' t = Some c' /\ same_condition c' c in
  found SandboxConditionReady (computeReadyCondition sb err svc pod) /\
  match computeFinishedCondition sb pod with
  | Some f => found SandboxConditionFinished f
  | None => FindStatusCondition cs' SandboxConditionFinished = None
  end /\
  match computeSuspendedCondition sb pod with
  | Some f => found SandboxConditionSuspended f
  | None => FindStatusCondition cs' SandboxConditionSuspended = FindStatusCondition cs SandboxConditionSuspended
  end.
Proof.
  intros cs' found. unfold found, cs', applyConditions, computeConditions. clear cs' found.
  pose proof (ready_type sb err svc pod) as Hr. set (ready := computeReadyCondition sb err svc pod) in *.
  pose proof (finished_type sb pod) as Hf. pose proof (suspended_type sb pod) as Hs. clearbody ready.
  set (l := option_list _ ++ option_list _ ++ [ready]).
  assert (NoDup (cType <$> l)) as Hd.
  { unfold l. destruct (computeSuspendedCondition sb pod) as [sp|], (computeFinishedCondition sb pod) as [fi|];
      simpl; rewrite ?(Hs _ eq_refl), ?(Hf _ eq_refl), Hr; apply (bool_decide_unpack _); by vm_compute. }
  assert (ready ∈ l) as Hin by (unfold l; set_solver).
  assert (forall c, c ∈ l -> cType c <> SandboxConditionFinished -> exists c',
    FindStatusCondition (if existsb (fun c => bool_decide (cType c = SandboxConditionFinished)) l
      then fold_left (SetStatusCondition now) l cs
      else RemoveStatusCondition (fold_left (SetStatusCondition now) l cs) SandboxConditionFinished) (cType c)
    = Some c' /\ same_condition c' c) as Hfind.
  { intros c Hc Hne. destruct (existsb _ l); [|rewrite find_remove_other by done]; by apply fold_set_in. }
  split_and!.
  - rewrite <-Hr. apply Hfind; [done|]. by rewrite Hr.
  - destruct (computeFinishedCondition sb pod) as [fi|] eqn:Efi.
    + assert (fi ∈ l) as Hfi by (unfold l; set_solver).
      assert (existsb (fun c => bool_decide (cType c = SandboxConditionFinished)) l = true) as ->.
      { apply existsb_exists. exists fi. rewrite <-list_elem_of_In. split; [done|].
        apply bool_decide_eq_true. by apply Hf. }
      rewrite <-(Hf fi eq_refl). by apply fold_set_in.
    + assert (existsb (fun c => bool_decide (cType c = SandboxConditionFinished)) l = false) as ->.
      { unfold l. destruct (computeSuspendedCondition sb pod) as [sp|]; simpl; rewrite ?(Hs _ eq_refl), Hr; done. }
      apply find_remove_same.
  - destruct (computeSuspendedCondition sb pod) as [sp|] eqn:Esp.
    + rewrite <-(Hs sp eq_refl). apply Hfind; [unfold l; set_solver|]. by rewrite (Hs sp eq_refl).
    + assert (SandboxConditionSuspended ∉ cType <$> l) as Hnot.
      { unfold l. destruct (computeFinishedCondition sb pod) as [fi|]; simpl; rewrite ?(Hf _ eq_refl), Hr;
          apply (bool_decide_unpack _); by vm_compute. }
      destruct (existsb _ l); [|rewrite find_remove_other by done]; by apply fold_set_other.
Qed.

(** ** Suspension *)

Definition no_pod_write (X : Type) (e : ClientE X) : Prop :=
  match e with KCreatePod _ | KPatchPod _ _ => False | _ => True end.

(** Patches of the sandbox's metadata leave its spec alone. *)
Definition spec_kept (X : Type) (e : ClientE X) : X -> Prop :=
  match e in ClientE X return X -> Prop with
  | KPatchSandbox sb => fun r => forall sb', r = Ok sb' -> sbSpec sb' = sbSpec sb
  | _ => fun _ => True
  end.

Lemma clear_spec_kept sb :
  spec no_pod_write spec_kept (fun r => sbSpec r.1 = sbSpec sb) (clearPodNameAnnotation sb).
Proof.
  unfold clearPodNameAnnotation. destruct (sbAnnotations sb !! _); simpl; [|done].
  split; [done|]. intros [sb'|e] Hr; simpl; [|done]. by rewrite (Hr sb').
Qed.

(** A suspended sandbox stays without a pod: whatever the API answers, the
    pod step of a suspended sandbox never creates or patches a pod, and reports
    none. *)
Theorem suspended_creates_no_pod `{OwnerLib} mutatePod sb hash :
  isSuspended sb = true ->
  spec no_pod_write spec_kept (fun '(_, pod, _) => pod = None) (reconcilePod mutatePod sb hash).
Proof.
  intros Hs.
  assert (forall sb' pod, spec no_pod_write spec_kept (fun '(_, pod, _) => pod = None) (suspendPod sb' pod)) as Hsp.
  { intros sb' pod. unfold suspendPod. eapply (spec_bind _ _ (fun _ => True)).
    { destruct pod as [p|]; [|done]. destruct (checkOwnership _ _); [|done..].
      destruct (mDeletionTimestamp _); [done|]. simpl. by split. }
    intros [e|] _; [done|]. eapply spec_bind; [apply clear_spec_kept|]. by intros [? ?] _. }
  unfold reconcilePod. cbn [bind call]. split; [done|]. intros [ps|e] _; cbn [bind]; [|done].
  split; [done|]. intros [pod|e] _; cbn [bind]; [by rewrite Hs|].
  destruct (negb _); [done|]. eapply spec_bind; [apply clear_spec_kept|].
  intros [sb' [er|]] Hsp'; [done|]. cbn beta iota. cbn [fst] in Hsp'.
  assert (isSuspended sb' = true) as -> by (unfold isSuspended in *; by rewrite Hsp'). done.
Qed.

(** ** Expiry *)

Definition no_delete (X : Type) (e : ClientE X) : Prop :=
  match e with KDeleteSandbox _ => False | _ => True end.

(** Every clock reading is before [deadline], which is no later than the
    sandbox's shutdown time. *)
Definition before (deadline : Z) (X : Type) (e : ClientE X) : X -> Prop :=
  match e in ClientE X return X -> Prop with
  | KNow => fun now => now < deadline
  | KGetSandbox _ _ => fun r => forall sb, r = Ok sb ->
      forall t, ssShutdownTime (sbSpec sb) = Some t -> deadline <= t
  | KPatchSandbox sb => fun r => forall sb', r = Ok sb' -> sbSpec sb' = sbSpec sb
  | _ => fun _ => True
  end.

Section no_delete.
Context `{ConditionLib} `{OwnerLib} (deadline : Z) (sb : Sandbox).
Abbreviation quiet p := (spec no_delete (before deadline) (fun _ => True) p).

Lemma quiet_bind {A B} (p : prog ClientE A) (f : A -> prog ClientE B) :
  quiet p -> (forall a, quiet (f a)) -> quiet (bind p f).
Proof. intros Hp Hf. eapply spec_bind; [exact Hp|]. auto. Qed.
End no_delete.

(** Walk a child step: no call of it deletes the sandbox. *)
Ltac quiet_walk :=
  repeat first
    [ done
    | progress cbn beta iota
    | apply quiet_bind; [|intros ?]
    | match goal with
      | |- spec _ _ _ (call _) => split; [done|done]
      | |- spec _ _ _ (match ?x with _ => _ end) => destruct x
      end ].

Lemma children_no_delete `{ConditionLib} `{OwnerLib} deadline clusterDomain mutatePod sb :
  spec no_delete (before deadline) (fun _ => True) (reconcileChildResources clusterDomain mutatePod sb).
Proof.
  assert (forall h ts, spec no_delete (before deadline) (fun _ => True) (reconcilePVCs sb h ts)) as Hpvc.
  { intros h ts. induction ts as [|t ts IH]; cbn [reconcilePVCs]; [done|]. quiet_walk. }
  assert (forall sb, spec no_delete (before deadline) (fun _ => True) (clearPodNameAnnotation sb)) as Hc.
  { intros sb'. unfold clearPodNameAnnotation. quiet_walk. }
  assert (forall sb n, spec no_delete (before deadline) (fun _ => True) (ensurePodNameAnnotation sb n)) as He.
  { intros sb' n. unfold ensurePodNameAnnotation. quiet_walk. }
  assert (forall sb p h, spec no_delete (before deadline) (fun _ => True) (reconcileExistingPod sb p h)) as Hx.
  { intros sb' p h. unfold reconcileExistingPod. quiet_walk. }
  assert (forall sb h, spec no_delete (before deadline) (fun _ => True) (reconcilePod mutatePod sb h)) as Hp.
  { intros sb' h. unfold reconcilePod, suspendPod, createPod. quiet_walk. }
  assert (forall sb h, spec no_delete (before deadline) (fun _ => True) (reconcileService clusterDomain sb h)) as Hs.
  { intros sb' h. unfold reconcileService, adoptService, repairService. quiet_walk. }
  unfold reconcileChildResources. quiet_walk.
Qed.

(** Nothing is torn down early: while every clock reading is before the
    shutdown time, or there is none, a reconcile never deletes the sandbox; and
    a sandbox that is not yet due is requeued no earlier than its shutdown time
    and no sooner than two seconds. *)
Theorem expiry_not_early `{ConditionLib} `{OwnerLib} clusterDomain mutatePod trace ns name deadline :
  spec no_delete (before deadline) (fun _ => True) (Reconcile clusterDomain mutatePod trace ns name) /\
  (forall sb now t, ssShutdownTime (sbSpec sb) = Some t -> now < t -> t - now <= int64_max ->
     exists d, checkSandboxExpiry sb now = (false, d) /\ t <= now + d /\ 2 * time_second <= d).
Proof.
  split.
  - unfold Reconcile. cbn [bind call]. split; [done|]. intros [sb|e] Hg; cbn [bind]; [|done].
    cbn in Hg. destruct (mDeletionTimestamp (sbMeta sb)); [done|].
    eapply (spec_bind _ _ (fun r => forall sb', r = Ok sb' -> sbSpec sb' = sbSpec sb)).
    { unfold ensureTrace. destruct (_ && _); simpl; [|by intros ? [= <-]].
      split; [done|]. intros [sb'|e] Hr; [|done]. intros ? [= <-]. by rewrite (Hr sb'). }
    intros [sb1|e] Hsp; [|done]. cbn beta iota. specialize (Hsp sb1 eq_refl). cbn [bind call].
    split; [done|]. intros now Hnow. cbn in Hnow. cbn [bind].
    assert (checkSandboxExpiry sb1 now = (false, (checkSandboxExpiry sb1 now).2)) as ->.
    { unfold checkSandboxExpiry. rewrite Hsp. destruct (ssShutdownTime (sbSpec sb)) as [t|] eqn:Et; [|done].
      specialize (Hg sb eq_refl t Et). unfold time_Before. by rewrite bool_decide_true by lia. }
    eapply spec_bind; [apply children_no_delete|].
    intros [sb2 err] _. cbn beta iota. cbn [bind call]. split; [done|]. intros t _. cbn [bind].
    destruct (checkSandboxExpiry sb2 t) as [[] requeue]; cbn [bind call]; [split; [done|]; intros t' _; cbn [bind]|];
      (unfold updateStatus; case_bool_decide; [done|]; cbn [bind call]; split; [done|]; done).
  - intros sb now t Ht Hlt Hmax. unfold checkSandboxExpiry. rewrite Ht. unfold time_Before.
    rewrite bool_decide_true by done. cbn [negb]. eexists. split; [reflexivity|].
    unfold time_Sub, int64_min, int64_max in *. lia.
Qed.

(** ** Concrete runs *)

Module SandboxDemo.
#[local] Existing Instance Reference.conditions.
#[local] Existing Instance Reference.owners.

Definition meta (name uid : string) (owners : list OwnerReference) : ObjectMeta :=
  mkMeta name "" "prod" uid "1" 1 0 None ∅ ∅ owners.

Definition suspended_spec : SandboxSpec :=
  mkSandboxSpec (ssBlueprint emptySpec) None None ModeSuspended.

(** A suspended sandbox whose pod name is taken by another controller's pod. *)
Definition box : Sandbox := mkSandbox (meta "web" "u-1" []) suspended_spec emptyStatus.
Definition foreign_pod : Pod :=
  mkPod (meta "web" "p-9" [mkOwnerRef "apps/v1" "ReplicaSet" "rs" "u-77" (Some true) None])
    emptyPodSpec "Running" ["10.0.0.9"] [("Ready", "True")].

Definition not_found {A} : result A := Err (APIStatus ReasonNotFound "web").

(** The API server: the state counts pod deletions. *)
Definition api : handler ClientE nat := fun X e =>
  match e in ClientE X return nat -> X * nat with
  | KNow => fun n => (1000, n)
  | KGetSandbox _ name => fun n => (if bool_decide (name = "web") then Ok box else not_found, n)
  | KPatchSandbox sb => fun n => (Ok sb, n)
  | KUpdateSandboxStatus _ | KDeleteSandbox _ | KDeleteService _ => fun n => (None, n)
  | KListPods _ _ => fun n => (Ok [foreign_pod], n)
  | KGetPod _ _ => fun n => (Ok foreign_pod, n)
  | KCreatePod p | KPatchPod _ p => fun n => (Ok p, n)
  | KDeletePod _ => fun n => (None, S n)
  | KGetService _ _ => fun n => (not_found, n)
  | KCreateService s | KUpdateService s | KPatchService _ s => fun n => (Ok s, n)
  | KGetPVC _ _ => fun n => (not_found, n)
  | KCreatePVC p | KPatchPVC _ p => fun n => (Ok p, n)
  end.

(** Suspension reports the pod terminated although the pod is still running and
    was not deleted. *)
Lemma suspended_reports_terminated :
  let '(sb, err, n) := run api (reconcileChildResources "cluster.local" None box) 0%nat in
  err = None /\ n = 0%nat /\
  (cStatus <$> FindStatusCondition (sbConditions sb) SandboxConditionSuspended) = Some ConditionTrue /\
  (cReason <$> FindStatusCondition (sbConditions sb) SandboxConditionSuspended)
    = Some SandboxReasonSuspendedPodTerminated.
Proof. vm_compute. repeat split. Qed.

Definition template : PodTemplate :=
  mkPodTemplate emptyPodSpec (mkPodMetadata {["team" := "a"; sandboxLabel := "stolen"]} {["note" := "x"]}).
Definition running : Sandbox :=
  mkSandbox (meta "web" "u-1" []) (mkSandboxSpec (mkBlueprint template [] None) None None ModeRunning) emptyStatus.
End SandboxDemo.

#[local] Existing Instance Reference.conditions.
#[local] Existing Instance Reference.conditions_laws.
#[local] Existing Instance Reference.owners.
#[local] Existing Instance Reference.owners_laws.

(** The run below sees somebody else's pod under the sandbox's name; its calls
    are all safe, and it writes nothing but the sandbox's own status. *)
Lemma reconcile_writes_owned_witness :
  Forall (fun c => writes_safe "u-1" (NameHash "web") (fun _ => True) (projT1 c) (projT2 c))
    (trace SandboxDemo.api (Reconcile "cluster.local" None "" "prod" "web") 0%nat).
Proof.
  eapply (spec_run _ (same_sandbox "u-1" (fun _ => True))); [|apply (reconcile_writes_owned
    "cluster.local" None "u-1" (fun _ => True) "" "prod" "web")].
  intros X e n. destruct e; try exact I; cbn; try (intros ? [= <-]; done); try done.
  case_bool_decide; [|done]. intros ? [= <-]. by subst.
Defined.

Lemma pod_metadata_converges_witness :
  let pod1 := (updatePodMetadata SandboxDemo.foreign_pod SandboxDemo.running "00c0ffee").1 in
  mLabels (podMeta pod1) !! "team" = Some "a" /\
  updatePodMetadata pod1 SandboxDemo.running "00c0ffee" = (pod1, false).
Proof.
  split; [vm_compute; reflexivity|].
  apply (pod_metadata_converges SandboxDemo.foreign_pod SandboxDemo.running "00c0ffee").
  - assert (userLabels SandboxDemo.running = {["team" := "a"]}) as -> by (vm_compute; reflexivity).
    intros k [v Hk]. apply lookup_singleton_Some in Hk as [<- _]. reflexivity.
  - assert (userAnnotations SandboxDemo.running = {["note" := "x"]}) as -> by (vm_compute; reflexivity).
    intros k [v Hk]. apply lookup_singleton_Some in Hk as [<- _]. reflexivity.
Defined.

Lemma reserved_labels_isolated_witness :
  mget (newPodLabels SandboxDemo.running "00c0ffee") sandboxLabel = "00c0ffee" /\
  newPodLabels SandboxDemo.running "00c0ffee" !! SandboxAdoptableLabel = None.
Proof.
  assert (isSystemLabel SandboxAdoptableLabel = true) as Hs by (vm_compute; reflexivity).
  assert (SandboxAdoptableLabel <> SandboxWarmPoolLabel) as H1 by (intros E; vm_compute in E; discriminate E).
  assert (SandboxAdoptableLabel <> SandboxTemplateRefHashLabel) as H2
    by (intros E; vm_compute in E; discriminate E).
  assert (SandboxAdoptableLabel <> CreatedByLabel) as H3 by (intros E; vm_compute in E; discriminate E).
  assert (SandboxAdoptableLabel <> sandboxLabel) as H4 by (intros E; vm_compute in E; discriminate E).
  destruct (reserved_labels_isolated SandboxDemo.foreign_pod SandboxDemo.running "00c0ffee"
    SandboxAdoptableLabel Hs H1 H2 H3) as [[Hnew _] Hk].
  split; [exact Hnew|]. exact (proj1 (Hk H4)).
Defined.

Lemma conditions_recorded_witness :
  FindStatusCondition
    (applyConditions 7
       (computeConditions SandboxDemo.running None None None) []) SandboxConditionFinished = None.
Proof.
  pose proof (conditions_recorded 7 []
    SandboxDemo.running None None None) as Hr.
  cbv zeta in Hr. destruct Hr as (_ & Hf & _). exact Hf.
Defined.

Lemma suspended_creates_no_pod_witness :
  spec no_pod_write spec_kept (fun '(_, pod, _) => pod = None)
    (reconcilePod None SandboxDemo.box "00c0ffee").
Proof.
  apply (suspended_creates_no_pod None SandboxDemo.box "00c0ffee").
  vm_compute. reflexivity.
Defined.

End SandboxFacts.
