(* ===== verification/WarmPool.v ===== *)
(** * WarmPool: the SandboxWarmPool controller.

    Models [extensions/controllers/sandboxwarmpool_controller.go] and
    [extensions/controllers/utils.go]: the whole Reconcile, with staleness,
    adoption of orphans, removal of stuck members, and scaling by slow-start
    batches.  The API is the event signature [PoolE]; an update answers the
    object as the server returned it.  The goroutines of one batch run in index
    order, and the error reported is the one with the least index.  The JSON
    encoding of a template is an argument: its struct tags are those of the
    Kubernetes types.  Semantic equality of specs is equality here, as
    quantities are values and a nil map is an empty one. *)

From S2P Require Import Prelude GoStrings K8s Types SandboxModel.

Module WarmPoolController.
Import SandboxController (NameHash).
#[local] Open Scope prog_scope.

Definition sandboxTemplateRefHash : string := SandboxTemplateRefHashLabel.
Definition warmPoolSandboxLabel : string := SandboxWarmPoolLabel.
Definition sandboxCreateDeleteMaxBatchSize : Z := 300.
Definition warmPoolEvictionAnnotation : string := "cluster-autoscaler.kubernetes.io/safe-to-evict".
Definition warmPoolReadinessGracePeriod : Z := 5 * time_minute.
Definition NetworkPolicyManagementManaged : string := "Managed".

Record SandboxWarmPoolReconciler := mkReconciler {
  MaxBatchSize : Z;
  EnableWarmPoolEviction : bool;
  DisableSandboxCRManagement : bool;
}.

(** The guard of [SetupWithManager]. *)
Definition setupReconciler (r : SandboxWarmPoolReconciler) : SandboxWarmPoolReconciler :=
  if MaxBatchSize r <=? 0
  then mkReconciler sandboxCreateDeleteMaxBatchSize (EnableWarmPoolEviction r) (DisableSandboxCRManagement r)
  else r.

Inductive PoolE : Type -> Type :=
| WNow : PoolE Z
| WCtxErr : PoolE (option gerror)
| WGetPool (ns name : string) : PoolE (result SandboxWarmPool)
| WListSandboxes (ns poolNameHash : string) : PoolE (result (list Sandbox))
| WGetTemplate (ns name : string) : PoolE (result SandboxTemplate)
| WListPools (ns templateName : string) : PoolE (result (list SandboxWarmPool))
| WCreateSandbox (sb : Sandbox) : PoolE (option gerror)
| WUpdateSandbox (sb : Sandbox) : PoolE (result Sandbox)
| WDeleteSandbox (sb : Sandbox) : PoolE (option gerror)
| WPatchPoolStatus (wp : SandboxWarmPool) : PoolE (option gerror).

(** ** Batches *)

Section batches.
Context {E : Type -> Type} (ctxErr : prog E (option gerror)) (fn : Z -> prog E (option gerror)).

(** One errgroup: every call is made; successes are counted. *)
Fixpoint run_batch (start : Z) (n : nat) : prog E (Z * option gerror) :=
  match n with
  | O => Ret (0, None)
  | S n' =>
      e <- fn start;;
      let! (ok, rest) := run_batch (start + 1) n' in
      Ret (match e with None => (ok + 1, rest) | Some x => (ok, Some x) end)
  end.

Fixpoint slow_start (fuel : nat) (batchSize remaining successes : Z) : prog E (Z * option gerror) :=
  match fuel with
  | O => Ret (successes, Some (Errorf "out of fuel"))
  | S fuel' =>
      if batchSize <=? 0 then Ret (successes, None)
      else
        c <- ctxErr;;
        match c with
        | Some e => Ret (successes, Some e)
        | None =>
            let! (batchSuccesses, err) := run_batch successes (Z.to_nat batchSize) in
            match err with
            | Some e => Ret (successes + batchSuccesses, Some e)
            | None =>
                let remaining := remaining - batchSize in
                slow_start fuel' (Z.min (2 * batchSize) remaining) remaining (successes + batchSuccesses)
            end
        end
  end.

(** Every batch takes at least one of [count], so [count] rounds and the final
    test are enough fuel. *)
Definition slowStartBatch (count initialBatchSize : Z) : prog E (Z * option gerror) :=
  slow_start (S (Z.to_nat count)) (Z.min count initialBatchSize) count 0.
End batches.

(** ** Secure defaults and staleness *)

Definition SandboxTemplateRefHash (templateRefName : string) : string := NameHash templateRefName.

Definition ApplySandboxSecureDefaults (template : SandboxTemplate) (spec : PodSpec) : PodSpec :=
  let automount := match psAutomountServiceAccountToken spec with
                   | None => Some false
                   | Some b => Some b
                   end in
  let management := tplNetworkPolicyManagement template in
  let isManaged := bool_decide (management = "") || bool_decide (management = NetworkPolicyManagementManaged) in
  let isSecureByDefault := isManaged && bool_decide (tplNetworkPolicy template = None) in
  let dns := if isSecureByDefault && bool_decide (psDNSPolicy spec = "")
             then ("None", Some ["8.8.8.8"; "1.1.1.1"])
             else (psDNSPolicy spec, psDNSNameservers spec) in
  mkPodSpec (psContainers spec) (psInitContainers spec) (psVolumes spec) (psNodeName spec)
    (psNodeSelector spec) (psTolerations spec) (psRuntimeClassName spec) (psOS spec)
    automount dns.1 dns.2 (psRest spec).

Definition comparePodSpecs (template : SandboxTemplate) (actual : PodSpec) : bool :=
  bool_decide (ApplySandboxSecureDefaults template (ptSpec (bpPodTemplate (tplBlueprint template))) = actual).

Fixpoint compareVCTs (tmpl actual : list VolumeClaimTemplate) : bool :=
  match tmpl, actual with
  | t :: ts, a :: rest =>
      if bool_decide (vctName t <> vctName a) || bool_decide (vctSpec t <> vctSpec a) then false
      else compareVCTs ts rest
  | _, _ => true
  end.

Definition compareVolumeClaimTemplates (template : SandboxTemplate) (actual : list VolumeClaimTemplate) : bool :=
  let tmpl := bpVolumeClaimTemplates (tplBlueprint template) in
  if bool_decide (length tmpl <> length actual) then false else compareVCTs tmpl actual.

Definition compareSandboxBlueprint (template : SandboxTemplate) (actual : SandboxBlueprint) : bool :=
  comparePodSpecs template (ptSpec (bpPodTemplate actual))
  && compareVolumeClaimTemplates template (bpVolumeClaimTemplates actual)
  && bool_decide (bpService (tplBlueprint template) = bpService actual).

Definition isSandboxReady (sb : Sandbox) : bool :=
  existsb (fun c => bool_decide (cType c = SandboxConditionReady) && bool_decide (cStatus c = ConditionTrue))
    (sbConditions sb).

Definition setWarmLaunchTypeLabelIfNeeded (sb : Sandbox) : Sandbox * bool :=
  if bool_decide (mget (sbLabels sb) SandboxLaunchTypeLabel = SandboxLaunchTypeWarm) then (sb, false)
  else (set_sbMeta (set_mLabels <[SandboxLaunchTypeLabel := SandboxLaunchTypeWarm]>) sb, true).

(** The field indexers the list calls go through. *)
Definition sandboxWarmPoolLabelIndexer (sb : Sandbox) : list string :=
  option_list (sbLabels sb !! warmPoolSandboxLabel).
Definition sandboxTemplateRefNameIndexer (wp : SandboxWarmPool) : list string :=
  if bool_decide (wpTemplateRef wp = "") then [] else [wpTemplateRef wp].

Definition wpName (wp : SandboxWarmPool) : string := mName (wpMeta wp).
Definition wpNamespace (wp : SandboxWarmPool) : string := mNamespace (wpMeta wp).

Definition warmPoolOwner (wp : SandboxWarmPool) : Owner :=
  mkOwner "extensions.agents.x-k8s.io/v1beta1" "SandboxWarmPool" (wpName wp) (mUID (wpMeta wp)).

Definition set_wpStatus (replicas ready : Z) (selector : string) (wp : SandboxWarmPool) : SandboxWarmPool :=
  mkWarmPool (wpMeta wp) (wpReplicas wp) (wpTemplateRef wp) (wpUpdateStrategy wp) replicas ready selector.

(** [labels.SelectorFromSet] of the one pool label, printed. *)
Definition poolSelector (poolNameHash : string) : string := warmPoolSandboxLabel +:+ "=" +:+ poolNameHash.

Definition countReady (sbs : list Sandbox) : Z :=
  int32 (Z.of_nat (length (filter (fun sb => isSandboxReady sb = true) sbs))).

(** A template with its pod-template and blueprint hashes. *)
Record HashedTemplate := mkHashed {
  htTemplate : SandboxTemplate; htPodTemplateHash : string; htBlueprintHash : string;
}.

(** ** Reconcile *)

Section controller.
Context `{OwnerLib}.
Context (marshalPodTemplate : PodTemplate -> result string).
Context (marshalBlueprint : SandboxBlueprint -> result string).

Definition computePodTemplateHash (t : SandboxTemplate) : result string :=
  match marshalPodTemplate (bpPodTemplate (tplBlueprint t)) with
  | Err e => Err (Wrap "failed to marshal pod template for hashing" e)
  | Ok json => Ok (NameHash json)
  end.

Definition computeSandboxBlueprintHash (t : SandboxTemplate) : result string :=
  match marshalBlueprint (tplBlueprint t) with
  | Err e => Err (Wrap "failed to marshal sandbox blueprint for hashing" e)
  | Ok json => Ok (NameHash json)
  end.

Definition getTemplate (wp : SandboxWarmPool) : prog PoolE (result SandboxTemplate) :=
  r <- call (WGetTemplate (wpNamespace wp) (wpTemplateRef wp));;
  Ret (match r with
       | Err e => Err (if IsNotFound e then e else Wrap "failed to get sandbox template" e)
       | Ok t => Ok t
       end).

Definition fetchTemplateAndHash (wp : SandboxWarmPool) : prog PoolE (result HashedTemplate) :=
  r <- getTemplate wp;;
  Ret (match r with
       | Err e => Err e
       | Ok t =>
           match computePodTemplateHash t with
           | Err e => Err e
           | Ok podHash =>
               match computeSandboxBlueprintHash t with
               | Err e => Err e
               | Ok hash => Ok (mkHashed t podHash hash)
               end
           end
       end).

(** The answer and the cache of vetted hashes. *)
Definition isSandboxStale (sb : Sandbox) (t : HashedTemplate) (vetted : gmap string bool) :
    bool * gmap string bool :=
  let sandboxHash := mget (sbLabels sb) SandboxTemplateHashLabel in
  let template := htTemplate t in
  if bool_decide (mget (sbLabels sb) sandboxTemplateRefHash <> SandboxTemplateRefHash (mName (tplMeta template)))
  then (true, vetted)
  else if bool_decide (GetControllerOf (sbMeta sb) = None)
  then (negb (compareSandboxBlueprint template (ssBlueprint (sbSpec sb))), vetted)
  else if bool_decide (sandboxHash <> "") && bool_decide (sandboxHash = htBlueprintHash t)
  then (false, vetted)
  else if bool_decide (htBlueprintHash t = "") then (false, vetted)
  else
    match (if bool_decide (sandboxHash <> "") then vetted !! sandboxHash else None) with
    | Some isStale => (isStale, vetted)
    | None =>
        let isStale := negb (compareSandboxBlueprint template (ssBlueprint (sbSpec sb))) in
        (isStale, if bool_decide (sandboxHash <> "") then <[sandboxHash := isStale]> vetted else vetted)
    end.

Definition updateStrategyOf (wp : SandboxWarmPool) : string :=
  if bool_decide (wpUpdateStrategy wp = Some UpdateStrategyRecreate)
  then UpdateStrategyRecreate else UpdateStrategyOnReplenish.

Definition adoptSandbox (wp : SandboxWarmPool) (sb : Sandbox) : prog PoolE (result Sandbox) :=
  match SetControllerReference (warmPoolOwner wp) (sbMeta sb) with
  | Err e => Ret (Err e)
  | Ok m => call (WUpdateSandbox (setWarmLaunchTypeLabelIfNeeded (set_sbMeta (fun _ => m) sb)).1)
  end.

(** What becomes of a listed member: whether it stays, with the server's copy,
    and the error to report. *)
Definition keepMember (wp : SandboxWarmPool) (isOrphan : bool) (sb : Sandbox) :
    prog PoolE (option Sandbox * option gerror) :=
  if isOrphan then
    r <- adoptSandbox wp sb;;
    Ret (match r with Ok sb' => (Some sb', None) | Err e => (None, Some e) end)
  else
    let '(sb', changed) := setWarmLaunchTypeLabelIfNeeded sb in
    if changed then
      r <- call (WUpdateSandbox sb');;
      Ret (match r with Ok sb'' => (Some sb'', None) | Err e => (None, Some e) end)
    else Ret (Some sb, None).

Fixpoint filter_members (wp : SandboxWarmPool) (tmpl : result HashedTemplate) (vetted : gmap string bool)
    (allErrors : option gerror) (sandboxes : list Sandbox) : prog PoolE (list Sandbox * option gerror) :=
  match sandboxes with
  | [] => Ret ([], allErrors)
  | sb :: rest =>
      let controllerRef := GetControllerOf (sbMeta sb) in
      let isOrphan := bool_decide (controllerRef = None) in
      let isControlledByPool := IsControlledBy (sbMeta sb) (mUID (wpMeta wp)) in
      if bool_decide (mDeletionTimestamp (sbMeta sb) <> None) || (negb isOrphan && negb isControlledByPool)
      then filter_members wp tmpl vetted allErrors rest
      else
        let '(stale, vetted) :=
          match tmpl with
          | Ok t =>
              if bool_decide (updateStrategyOf wp = UpdateStrategyRecreate) || isOrphan
              then isSandboxStale sb t vetted else (false, vetted)
          | Err _ => (false, vetted)
          end in
        let! (kept, err) :=
          (if stale then
             e <- call (WDeleteSandbox sb);; Ret (None, e)
           else keepMember wp isOrphan sb) in
        let! (more, errs) := filter_members wp tmpl vetted (errors_Join allErrors err) rest in
        Ret (option_list kept ++ more, errs)
  end.

Definition filterActiveSandboxes (wp : SandboxWarmPool) (sandboxes : list Sandbox)
    (tmpl : result HashedTemplate) : prog PoolE (list Sandbox * option gerror) :=
  filter_members wp tmpl ∅ None sandboxes.

(** Members that never became ready within the grace period are deleted. *)
Fixpoint deleteStuck (now : Z) (allErrors : option gerror) (sandboxes : list Sandbox) :
    prog PoolE (list Sandbox * option gerror) :=
  match sandboxes with
  | [] => Ret ([], allErrors)
  | sb :: rest =>
      let created := mCreationTimestamp (sbMeta sb) in
      if negb (isSandboxReady sb) && negb (time_IsZero created)
         && (warmPoolReadinessGracePeriod <? time_Sub now created) then
        e <- call (WDeleteSandbox sb);;
        deleteStuck now (errors_Join allErrors e) rest
      else let! (more, errs) := deleteStuck now allErrors rest in Ret (sb :: more, errs)
  end.

Definition buildSandboxCR (r : SandboxWarmPoolReconciler) (wp : SandboxWarmPool) (poolNameHash : string)
    (t : HashedTemplate) : result Sandbox :=
  let refHash := SandboxTemplateRefHash (wpTemplateRef wp) in
  let labels : strmap :=
    <[warmPoolSandboxLabel := poolNameHash]>
    (<[sandboxTemplateRefHash := refHash]>
    (<[SandboxLaunchTypeLabel := SandboxLaunchTypeWarm]>
    (<[DeprecatedSandboxPodTemplateHashLabel := htPodTemplateHash t]>
    (<[SandboxTemplateHashLabel := htBlueprintHash t]>
    (<[CreatedByLabel := "controller"]> ∅))))) in
  let annotations : strmap := {[SandboxTemplateRefAnnotation := wpTemplateRef wp]} in
  let bp := tplBlueprint (htTemplate t) in
  let pm := ptMeta (bpPodTemplate bp) in
  let podLabels :=
    <[SandboxTemplateHashLabel := htBlueprintHash t]>
    (<[DeprecatedSandboxPodTemplateHashLabel := htPodTemplateHash t]>
    (<[sandboxTemplateRefHash := refHash]>
    (<[warmPoolSandboxLabel := poolNameHash]> (pmLabels pm)))) in
  let podAnnotations :=
    if negb (mhas (pmAnnotations pm) warmPoolEvictionAnnotation) && EnableWarmPoolEviction r
    then <[warmPoolEvictionAnnotation := "true"]> (pmAnnotations pm) else pmAnnotations pm in
  let podSpec := ApplySandboxSecureDefaults (htTemplate t) (ptSpec (bpPodTemplate bp)) in
  let meta := mkMeta "" (wpName wp +:+ "-") (wpNamespace wp) "" "" 0 0 None labels annotations [] in
  match SetControllerReference (warmPoolOwner wp) meta with
  | Err e => Err (Wrap "SetControllerReference for Sandbox failed" e)
  | Ok meta =>
      Ok (mkSandbox meta
            (mkSandboxSpec
               (mkBlueprint (mkPodTemplate podSpec (mkPodMetadata podLabels podAnnotations))
                  (bpVolumeClaimTemplates bp) (bpService bp))
               None None ModeUnset)
            emptyStatus)
  end.

Definition createPoolSandbox (sandboxCR : Sandbox) : prog PoolE (option gerror) :=
  call (WCreateSandbox sandboxCR).

Definition deletePoolSandbox (sb : Sandbox) : prog PoolE (option gerror) :=
  e <- call (WDeleteSandbox sb);; Ret (IgnoreNotFound e).

Definition createMissing (r : SandboxWarmPoolReconciler) (wp : SandboxWarmPool) (poolNameHash : string)
    (tmpl : result HashedTemplate) (desired current : Z) : prog PoolE (option gerror) :=
  match tmpl with
  | Ok t =>
      if current <? desired then
        let sandboxesToCreate := Z.min (int32 (desired - current)) (int32 (MaxBatchSize r)) in
        match buildSandboxCR r wp poolNameHash t with
        | Err e => Ret (Some e)
        | Ok sandboxCR =>
            let! (_, err) := slowStartBatch (call WCtxErr) (fun _ => createPoolSandbox sandboxCR)
                               sandboxesToCreate 1 in
            Ret err
        end
      else Ret None
  | Err _ => Ret None
  end.

(** Deletion order: unready before ready, then newest first. *)
Definition excess_le (a b : Sandbox) : Prop :=
  if bool_decide (isSandboxReady a <> isSandboxReady b) then isSandboxReady a = false
  else mCreationTimestamp (sbMeta b) <= mCreationTimestamp (sbMeta a).

#[global] Instance excess_le_dec : RelDecision excess_le.
Proof. intros a b. unfold excess_le. destruct (bool_decide _); apply _. Defined.

Definition deleteExcess (r : SandboxWarmPoolReconciler) (active : list Sandbox) (desired current : Z) :
    prog PoolE (option gerror) :=
  if desired <? current then
    let sandboxesToDelete := Z.min (int32 (current - desired)) (int32 (MaxBatchSize r)) in
    let sorted := merge_sort excess_le active in
    let toDeleteCount := Z.min sandboxesToDelete (int32 (Z.of_nat (length sorted))) in
    let! (_, err) :=
      slowStartBatch (call WCtxErr)
        (fun idx => match sorted !! Z.to_nat idx with
                    | Some sb => deletePoolSandbox sb
                    | None => Ret (Some (Errorf "index out of range"))
                    end) toDeleteCount 1 in
    Ret err
  else Ret None.

Definition reconcilePoolStatusOnly (wp : SandboxWarmPool) : prog PoolE (SandboxWarmPool * option gerror) :=
  let poolNameHash := NameHash (wpName wp) in
  l <- call (WListSandboxes (wpNamespace wp) poolNameHash);;
  Ret (match l with
       | Err e => (wp, Some e)
       | Ok items =>
           (set_wpStatus (int32 (Z.of_nat (length items))) (countReady items) (poolSelector poolNameHash) wp, None)
       end).

Definition reconcilePool (r : SandboxWarmPoolReconciler) (wp : SandboxWarmPool) :
    prog PoolE (SandboxWarmPool * option gerror) :=
  if DisableSandboxCRManagement r then reconcilePoolStatusOnly wp
  else
    let poolNameHash := NameHash (wpName wp) in
    l <- call (WListSandboxes (wpNamespace wp) poolNameHash);;
    match l with
    | Err e => Ret (wp, Some e)
    | Ok items =>
        tmpl <- fetchTemplateAndHash wp;;
        let! (active, allErrors) := filterActiveSandboxes wp items tmpl in
        now <- call WNow;;
        let! (active, allErrors) := deleteStuck now allErrors active in
        let desired := default 1 (wpReplicas wp) in
        let current := int32 (Z.of_nat (length active)) in
        let wp := set_wpStatus current (countReady active) (poolSelector poolNameHash) wp in
        createErr <- createMissing r wp poolNameHash tmpl desired current;;
        let allErrors := errors_Join allErrors createErr in
        deleteErr <- deleteExcess r active desired current;;
        let allErrors := errors_Join allErrors deleteErr in
        Ret (wp, match tmpl with
                 | Err e => if IsNotFound e then allErrors else errors_Join allErrors (Some e)
                 | Ok _ => allErrors
                 end)
    end.

Definition sameStatus (a b : SandboxWarmPool) : bool :=
  bool_decide (wpStatusReplicas a = wpStatusReplicas b)
  && bool_decide (wpStatusReadyReplicas a = wpStatusReadyReplicas b)
  && bool_decide (wpStatusSelector a = wpStatusSelector b).

Definition updateStatus (old wp : SandboxWarmPool) : prog PoolE (option gerror) :=
  if sameStatus old wp then Ret None
  else
    e <- call (WPatchPoolStatus wp);;
    Ret (match e with
         | Some x => Some (Wrap "failed to update SandboxWarmPool status" x)
         | None => None
         end).

Definition Reconcile (r : SandboxWarmPoolReconciler) (ns name : string) : prog PoolE (option gerror) :=
  g <- call (WGetPool ns name);;
  match g with
  | Err e => Ret (if IsNotFound e then None else Some e)
  | Ok wp =>
      if bool_decide (mDeletionTimestamp (wpMeta wp) <> None) then Ret None
      else
        let! (wp', err) := reconcilePool r wp in
        match err with
        | Some e => Ret (Some e)
        | None => updateStatus wp wp'
        end
  end.

Definition findWarmPoolsForTemplate (t : SandboxTemplate) : prog PoolE (list (string * string)) :=
  l <- call (WListPools (mNamespace (tplMeta t)) (mName (tplMeta t)));;
  Ret (match l with
       | Err _ => []
       | Ok pools => (fun wp => (wpNamespace wp, wpName wp)) <$> pools
       end).

End controller.

End WarmPoolController.
