(* ===== verification/WarmPoolFacts.v ===== *)
(** * WarmPoolFacts: what the SandboxWarmPool controller guarantees.

    The slow-start batches make each call once and stop early on errors; the
    controller touches only its own members; scaling is exact and deletes the
    least useful members first; a pool in its desired state is left alone. *)

From S2P Require Import Prelude GoStrings K8s Types SandboxModel WarmPool.

Module WarmPoolFacts.
Import SandboxController (NameHash).
Import WarmPoolController.
#[local] Open Scope prog_scope.

(** ** Slow-start batches *)

Section slow_start.
Context {E : Type -> Type} (ctxErr : prog E (option gerror)) (fn : Z -> prog E (option gerror)).

Lemma run_batch_spec ok rsp start n :
  (forall i, spec ok rsp (fun _ => True) (fn i)) -> spec ok rsp (fun _ => True) (run_batch fn start n).
Proof.
  intros Hfn. revert start; induction n as [|n IH]; intros start; [done|]. cbn [run_batch].
  eapply spec_bind; [apply Hfn|]. intros e _. eapply spec_bind; [apply IH|]. by intros [? ?] _.
Qed.

Lemma slowStartBatch_spec ok rsp count init :
  spec ok rsp (fun _ => True) ctxErr -> (forall i, spec ok rsp (fun _ => True) (fn i)) ->
  spec ok rsp (fun _ => True) (slowStartBatch ctxErr fn count init).
Proof.
  intros Hc Hfn. unfold slowStartBatch.
  assert (forall fuel b rem s, spec ok rsp (fun _ => True) (slow_start ctxErr fn fuel b rem s)) as Hs; [|apply Hs].
  induction fuel as [|fuel IH]; intros b rem s; [done|].
  cbn [slow_start]. destruct (b <=? 0); [done|]. eapply spec_bind; [apply Hc|]. intros [e|] _; [done|].
  eapply spec_bind; [by apply run_batch_spec|]. intros [k [e|]] _; [done|]. apply IH.
Qed.

(** The observed calls: [w] picks the ones that matter, and each [fn i] makes
    exactly one of them, [a i]. *)
Context {St A : Type} (h : handler E St) (w : forall X, E X -> option A) (a : Z -> A) (limit : Z).
Hypothesis ctx_silent : forall s, observed w (trace h ctxErr s) = [].
Hypothesis fn_once : forall i s, 0 <= i < limit -> observed w (trace h (fn i) s) = [a i].

Lemma run_batch_calls n start s :
  0 <= start -> start + Z.of_nat n <= limit ->
  let r := (run h (run_batch fn start n) s).1 in
  observed w (trace h (run_batch fn start n) s) = a <$> seqZ start (Z.of_nat n) /\
  0 <= r.1 <= Z.of_nat n /\ (r.2 = None -> r.1 = Z.of_nat n).
Proof.
  revert start s; induction n as [|n IH]; intros start s H0 Hl; [done|]. cbn [run_batch].
  rewrite trace_bind, run_bind. destruct (run h (fn start) s) as [e s1] eqn:E1. cbn [fst snd].
  rewrite trace_bind, run_bind. destruct (IH (start + 1) s1) as (Ht & Hr & Hn); [lia..|].
  destruct (run h (run_batch fn (start + 1) n) s1) as [[ok err] s2]. cbn [fst snd run trace] in *.
  rewrite !observed_app, fn_once, Ht, app_nil_r by lia.
  rewrite (seqZ_cons start) by lia. replace (Z.pred (Z.of_nat (S n))) with (Z.of_nat n) by lia.
  split; [done|]. destruct e; cbn [fst snd]; (split; [lia|]); [done|]. intros ?. rewrite Hn by done. lia.
Qed.

Lemma slow_start_calls fuel b rem s0 s :
  (Z.to_nat rem < fuel)%nat -> 0 <= s0 -> s0 + rem <= limit -> b <= rem ->
  (0 < rem -> 0 < b) -> b <= s0 + 1 ->
  let r := (run h (slow_start ctxErr fn fuel b rem s0) s).1 in
  exists k, 0 <= k <= Z.max 0 rem /\
    observed w (trace h (slow_start ctxErr fn fuel b rem s0) s) = a <$> seqZ s0 k /\
    s0 <= r.1 <= s0 + k /\ s0 + k <= 2 * r.1 + 1 /\ (r.2 = None -> k = Z.max 0 rem).
Proof.
  revert b rem s0 s; induction fuel as [|fuel IH]; intros b rem s0 s Hf H0 Hl Hb Hp Hd; [lia|].
  cbn [slow_start]. destruct (Z.leb_spec b 0) as [Hb0|Hb0].
  { exists 0. cbn. assert (rem <= 0) by lia. split_and!; [lia..|done|lia|lia|lia|]. intros _; lia. }
  rewrite trace_bind, run_bind. destruct (run h ctxErr s) as [c s1] eqn:Ec. cbn [fst snd].
  rewrite observed_app, ctx_silent. cbn [app].
  destruct c as [e|]; [exists 0; cbn; split_and!; done || lia|].
  rewrite trace_bind, run_bind.
  destruct (run_batch_calls (Z.to_nat b) s0 s1) as (Ht & Hr & Hn); [lia..|].
  destruct (run h (run_batch fn s0 (Z.to_nat b)) s1) as [[ok err] s2]. cbn [fst snd] in *.
  rewrite observed_app, Ht. rewrite Z2Nat.id in * by lia.
  destruct err as [e|].
  { exists b. cbn. rewrite app_nil_r. split_and!; [lia..|done|lia|lia|lia|done]. }
  rewrite Hn by done.
  destruct (IH (Z.min (2 * b) (rem - b)) (rem - b) (s0 + b) s2) as (k & Hk & Hw & Hs & Hc & He); [lia..|].
  exists (b + k). rewrite Hw, seqZ_app, fmap_app by lia.
  split_and!; [lia..|done|lia|lia|lia|]. intros Hz. rewrite He by done. lia.
Qed.

(** Each index is called at most once, in order from zero; without an error all
    of them are; and at most one more call than twice the successes is made. *)
Lemma slowStartBatch_calls count s :
  count <= limit ->
  let r := (run h (slowStartBatch ctxErr fn count 1) s).1 in
  exists k, 0 <= k <= Z.max 0 count /\
    observed w (trace h (slowStartBatch ctxErr fn count 1) s) = a <$> seqZ 0 k /\
    k <= 2 * r.1 + 1 /\ (r.2 = None -> k = Z.max 0 count).
Proof.
  intros Hl. unfold slowStartBatch.
  destruct (slow_start_calls (S (Z.to_nat count)) (Z.min count 1) count 0 s)
    as (k & Hk & Hw & _ & Hc & He); [lia..|]. by exists k.
Qed.
End slow_start.

(** ** What a built member is *)

Section members.
Context `{OwnerLaws}.
Context (marshalPodTemplate : PodTemplate -> result string).
Context (marshalBlueprint : SandboxBlueprint -> result string).

Lemma set_pool_controller wp m m' :
  SetControllerReference (warmPoolOwner wp) m = Ok m' -> IsControlledBy m' (mUID (wpMeta wp)) = true.
Proof.
  intros Hs. destruct (set_controller_Ok _ _ _ Hs) as (r & Hr & Hu & _).
  unfold IsControlledBy. rewrite Hr, Hu. by apply bool_decide_eq_true.
Qed.

Lemma no_refs_no_controller m : mOwnerReferences m = [] -> GetControllerOf m = None.
Proof.
  intros Hm. destruct (GetControllerOf m) as [r|] eqn:Er; [|done].
  destruct (controller_Some _ _ Er) as [Hin _]. rewrite Hm in Hin. by apply elem_of_nil in Hin.
Qed.

(** Building never fails, and what is built belongs to the pool. *)
Lemma buildSandboxCR_ok r wp hash t :
  exists cr, buildSandboxCR r wp hash t = Ok cr /\
    IsControlledBy (sbMeta cr) (mUID (wpMeta wp)) = true /\ sbNamespace cr = wpNamespace wp /\
    sbLabels cr !! warmPoolSandboxLabel = Some hash /\
    mget (sbLabels cr) SandboxLaunchTypeLabel = SandboxLaunchTypeWarm /\
    mget (sbLabels cr) sandboxTemplateRefHash = SandboxTemplateRefHash (wpTemplateRef wp) /\
    mget (sbLabels cr) SandboxTemplateHashLabel = htBlueprintHash t.
Proof.
  unfold buildSandboxCR.
  set (meta := mkMeta "" _ _ _ _ _ _ _ _ _ _).
  pose proof (set_controller_free (warmPoolOwner wp) meta (no_refs_no_controller meta eq_refl)) as Hok.
  destruct (SetControllerReference (warmPoolOwner wp) meta) as [m|e] eqn:Es; [|done].
  eexists; split; [done|]. split; [by eapply set_pool_controller|].
  destruct (set_controller_frame _ _ _ Es) as [rs ->].
  unfold sbNamespace, sbLabels, mget. cbn [sbMeta mLabels mNamespace set_mOwnerReferences].
  subst meta; cbn [mLabels mNamespace]. split; [done|].
  by repeat (rewrite lookup_insert_eq || rewrite lookup_insert_ne by done).
Qed.

Lemma compareVCTs_refl l : compareVCTs l l = true.
Proof. induction l; simpl; [done|]. by rewrite !bool_decide_false by (intros Hne; done). Qed.

Lemma built_matches r wp hash t cr :
  buildSandboxCR r wp hash t = Ok cr ->
  compareSandboxBlueprint (htTemplate t) (ssBlueprint (sbSpec cr)) = true.
Proof.
  unfold buildSandboxCR. destruct (SetControllerReference _ _); [|done]. intros [= <-].
  unfold compareSandboxBlueprint, comparePodSpecs, compareVolumeClaimTemplates. cbn.
  rewrite bool_decide_true by done.
  rewrite (bool_decide_false (length _ <> length _)) by (intros Hne; done).
  rewrite compareVCTs_refl. by apply bool_decide_eq_true.
Qed.

(** A sandbox with the spec and labels of a built one is not stale, owned or
    not, whatever the cache holds. *)
Lemma built_not_stale r wp hash t cr sb vetted :
  buildSandboxCR r wp hash t = Ok cr -> sbSpec sb = sbSpec cr -> sbLabels sb = sbLabels cr ->
  mName (tplMeta (htTemplate t)) = wpTemplateRef wp -> htBlueprintHash t <> "" ->
  isSandboxStale sb t vetted = (false, vetted).
Proof.
  intros Hb Hs Hl Hn Hh. destruct (buildSandboxCR_ok r wp hash t) as (cr' & Hb' & _ & _ & _ & _ & Href & Hhash).
  rewrite Hb in Hb'; injection Hb' as <-.
  unfold isSandboxStale. rewrite Hl, Href, Hn, Hhash, Hs.
  rewrite bool_decide_false by (intros Hne; done). case_bool_decide.
  - by rewrite (built_matches _ _ _ _ _ Hb).
  - rewrite (bool_decide_true (htBlueprintHash t <> "")) by done.
    by rewrite (bool_decide_true (htBlueprintHash t = htBlueprintHash t)).
Qed.
(** ** Ownership safety *)

Section safety.
Context (r : SandboxWarmPoolReconciler) (uid ns name : string).

Definition ours (sb : Sandbox) : Prop := IsControlledBy (sbMeta sb) uid = true.

(** Carries the pool's label but has no controller. *)
Definition orphan_of_pool (sb : Sandbox) : Prop :=
  GetControllerOf (sbMeta sb) = None /\ sbLabels sb !! warmPoolSandboxLabel = Some (NameHash name).

Definition pool_writes_ok (X : Type) (e : PoolE X) : Prop :=
  match e with
  | WDeleteSandbox sb => DisableSandboxCRManagement r = false /\ (ours sb \/ orphan_of_pool sb)
  | WUpdateSandbox sb =>
      DisableSandboxCRManagement r = false /\ ours sb
      /\ mget (sbLabels sb) SandboxLaunchTypeLabel = SandboxLaunchTypeWarm
  | WCreateSandbox sb =>
      DisableSandboxCRManagement r = false /\ ours sb /\ sbNamespace sb = ns
      /\ sbLabels sb !! warmPoolSandboxLabel = Some (NameHash name)
  | WPatchPoolStatus wp => mUID (wpMeta wp) = uid
  | _ => True
  end.

(** The API answers the pool that was asked for, lists by the pool label, and an
    update leaves the owner references as sent. *)
Definition pool_answers (X : Type) (e : PoolE X) : X -> Prop :=
  match e in PoolE X return X -> Prop with
  | WGetPool ns' name' => fun a => forall wp, a = Ok wp ->
      mUID (wpMeta wp) = uid /\ wpNamespace wp = ns' /\ wpName wp = name'
  | WListSandboxes _ hash => fun a => forall l, a = Ok l ->
      Forall (fun sb => hash ∈ sandboxWarmPoolLabelIndexer sb) l
  | WUpdateSandbox sb => fun a => forall sb', a = Ok sb' ->
      mOwnerReferences (sbMeta sb') = mOwnerReferences (sbMeta sb)
  | _ => fun _ => True
  end.

Hypothesis managed : DisableSandboxCRManagement r = false.

Lemma ours_same sb sb' : mOwnerReferences (sbMeta sb') = mOwnerReferences (sbMeta sb) -> ours sb -> ours sb'.
Proof. intros Hr. unfold ours, IsControlledBy. by rewrite (controller_refs _ _ Hr). Qed.

Lemma setWarm_ok sb :
  mOwnerReferences (sbMeta (setWarmLaunchTypeLabelIfNeeded sb).1) = mOwnerReferences (sbMeta sb) /\
  mget (sbLabels (setWarmLaunchTypeLabelIfNeeded sb).1) SandboxLaunchTypeLabel = SandboxLaunchTypeWarm.
Proof.
  unfold setWarmLaunchTypeLabelIfNeeded. case_bool_decide; [done|]. split; [done|].
  unfold mget, sbLabels. cbn. by rewrite lookup_insert_eq.
Qed.

Lemma update_ok sb (k : result Sandbox -> option Sandbox * option gerror) :
  ours sb -> mget (sbLabels sb) SandboxLaunchTypeLabel = SandboxLaunchTypeWarm ->
  (forall sb', k (Ok sb') = (Some sb', None)) -> (forall e, (k (Err e)).1 = None) ->
  spec pool_writes_ok pool_answers (fun m => forall sb', m.1 = Some sb' -> ours sb')
    (r <- call (WUpdateSandbox sb);; Ret (k r)).
Proof.
  intros Ho Hl Hk He. split; [done|]. intros [sb'|e] Ha; simpl.
  - rewrite Hk. intros ? [= <-]. eapply ours_same; [by apply Ha|done].
  - rewrite He. done.
Qed.

Lemma keepMember_ok wp sb :
  mUID (wpMeta wp) = uid ->
  (GetControllerOf (sbMeta sb) = None \/ ours sb) ->
  spec pool_writes_ok pool_answers (fun m => forall sb', m.1 = Some sb' -> ours sb')
    (keepMember wp (bool_decide (GetControllerOf (sbMeta sb) = None)) sb).
Proof.
  intros Hu Ho. unfold keepMember. case_bool_decide as Hc.
  - unfold adoptSandbox. destruct (SetControllerReference _ _) as [m|e] eqn:Es; [|done].
    destruct (setWarm_ok (set_sbMeta (fun _ => m) sb)) as [Hr Hl].
    apply update_ok; [|done..]. eapply ours_same; [done|]. unfold ours. rewrite <-Hu. by eapply set_pool_controller.
  - destruct Ho as [|Ho]; [done|]. destruct (setWarm_ok sb) as [Hr Hl].
    destruct (setWarmLaunchTypeLabelIfNeeded sb) as [sb' []]; cbn [fst] in *.
    + apply update_ok; [|done..]. by eapply ours_same.
    + simpl. by intros ? [= <-].
Qed.

Lemma filter_members_ok wp tmpl vetted errs l :
  mUID (wpMeta wp) = uid ->
  Forall (fun sb => NameHash name ∈ sandboxWarmPoolLabelIndexer sb) l ->
  spec pool_writes_ok pool_answers (fun m => Forall ours m.1) (filter_members wp tmpl vetted errs l).
Proof.
  intros Hu Hl. revert vetted errs. induction Hl as [|sb l Hsb Hl IH]; intros vetted errs; [by constructor|].
  cbn [filter_members]. destruct (_ || _) eqn:Eskip; [apply IH|].
  assert (GetControllerOf (sbMeta sb) = None \/ ours sb) as Ho.
  { apply orb_false_iff in Eskip as [_ Eo]. unfold ours. rewrite <-Hu.
    apply andb_false_iff in Eo as [Eo|Eo]; apply negb_false_iff in Eo; [left; by apply bool_decide_eq_true in Eo|by right]. }
  destruct (match tmpl with Ok _ => _ | Err _ => _ end) as [stale vetted'].
  eapply (spec_bind _ _ (fun m => forall sb', m.1 = Some sb' -> ours sb')).
  - destruct stale; [|by apply keepMember_ok]. simpl. split; [|done]. split; [done|].
    destruct Ho as [Hc|]; [right|by left]. split; [done|].
    unfold sandboxWarmPoolLabelIndexer in Hsb. destruct (sbLabels sb !! _); set_solver.
  - intros [kept err] Hk. eapply spec_bind; [apply IH|]. intros [more errs'] Hm. simpl in *.
    apply Forall_app; split; [|done]. destruct kept; simpl; [|done]. constructor; [by apply Hk|done].
Qed.

Lemma deleteStuck_ok now errs l :
  Forall ours l -> spec pool_writes_ok pool_answers (fun m => Forall ours m.1) (deleteStuck now errs l).
Proof.
  intros Hl. revert errs. induction Hl as [|sb l Hsb Hl IH]; intros errs; [by constructor|].
  cbn [deleteStuck]. case_match.
  - simpl. split; [by split; [|left]|]. intros e _. apply IH.
  - eapply spec_bind; [apply IH|]. intros [more errs'] Hm. by constructor.
Qed.

Lemma createMissing_ok wp tmpl desired current :
  mUID (wpMeta wp) = uid -> wpNamespace wp = ns ->
  spec pool_writes_ok pool_answers (fun _ => True) (createMissing r wp (NameHash name) tmpl desired current).
Proof.
  intros Hu Hn. unfold createMissing. destruct tmpl as [t|e]; [|done]. destruct (_ <? _); [|done].
  destruct (buildSandboxCR_ok r wp (NameHash name) t) as (cr & -> & Hc & Hns & Hl & _).
  eapply spec_bind; [apply slowStartBatch_spec; [done|]|by intros [? ?] _].
  intros i. simpl. split; [|done]. unfold ours. rewrite <-Hu, <-Hn. done.
Qed.

Lemma deleteExcess_ok active desired current :
  Forall ours active -> spec pool_writes_ok pool_answers (fun _ => True) (deleteExcess r active desired current).
Proof.
  intros Ha. unfold deleteExcess. destruct (_ <? _); [|done].
  eapply spec_bind; [apply slowStartBatch_spec; [done|]|by intros [? ?] _].
  intros i. destruct (_ !! _) as [sb|] eqn:El; [|done]. simpl. split; [|done]. split; [done|]. left.
  apply list_elem_of_lookup_2 in El. rewrite merge_sort_Permutation in El.
  by rewrite Forall_forall in Ha; apply Ha.
Qed.
End safety.

(** C21.  The pool controller touches only its own: whatever the API answers, a
    reconcile deletes only sandboxes the pool controls or that carry its label
    without a controller, updates and creates only sandboxes the pool controls,
    and with CR management disabled writes nothing but the pool's status. *)
Theorem pool_writes_safe r uid ns name :
  spec (pool_writes_ok r uid ns name) (pool_answers uid) (fun _ => True)
    (Reconcile marshalPodTemplate marshalBlueprint r ns name).
Proof.
  unfold Reconcile. cbn [bind call]. split; [done|]. intros [wp|e] Hg; [|done].
  destruct (Hg wp eq_refl) as (Hu & Hns & Hn). case_bool_decide; [done|].
  eapply (spec_bind _ _ (fun m => wpMeta m.1 = wpMeta wp)).
  2: { intros [wp' [e|]] Hm; [done|]. unfold updateStatus. destruct (sameStatus wp wp'); simpl; [done|].
       split; [|done]. simpl in Hm. by rewrite Hm. }
  unfold reconcilePool. destruct (DisableSandboxCRManagement r) eqn:Ed.
  { unfold reconcilePoolStatusOnly. split; [done|]. by intros [l|e] _. }
  cbn [bind call]. split; [done|]. intros [l|e] Hl; [|done]. specialize (Hl l eq_refl). rewrite Hn in Hl.
  eapply (spec_bind _ _ (fun _ => True)). { unfold fetchTemplateAndHash, getTemplate. by split. }
  intros tmpl _. eapply spec_bind; [by apply filter_members_ok|]. intros [active errs] Ha.
  cbn [bind call]. split; [done|]. intros now _.
  eapply spec_bind; [by apply deleteStuck_ok|]. intros [active' errs'] Ha'.
  eapply spec_bind; [rewrite Hn; by apply createMissing_ok|]. intros e1 _.
  eapply spec_bind; [by apply deleteExcess_ok|]. by intros e2 _.
Qed.
(** ** Scaling *)

Lemma excess_le_cases a b :
  excess_le a b <->
  (isSandboxReady a = false /\ isSandboxReady b = true) \/
  (isSandboxReady a = isSandboxReady b /\ mCreationTimestamp (sbMeta b) <= mCreationTimestamp (sbMeta a)).
Proof. unfold excess_le. case_bool_decide; destruct (isSandboxReady a), (isSandboxReady b); naive_solver. Qed.

#[local] Instance excess_le_total : Total excess_le.
Proof. intros a b. rewrite !excess_le_cases. destruct (isSandboxReady a), (isSandboxReady b); lia || tauto. Qed.

#[local] Instance excess_le_trans : Transitive excess_le.
Proof.
  intros a b c. rewrite !excess_le_cases.
  destruct (isSandboxReady a), (isSandboxReady b), (isSandboxReady c); naive_solver lia.
Qed.

(** [d] is no more useful than [e]: not ready while [e] is, or as ready and no
    older. *)
Definition no_better (d e : Sandbox) : Prop :=
  (isSandboxReady d = true -> isSandboxReady e = true) /\
  (isSandboxReady d = isSandboxReady e -> mCreationTimestamp (sbMeta e) <= mCreationTimestamp (sbMeta d)).

Lemma first_deleted_worst (l : list Sandbox) n :
  Forall (fun d => Forall (no_better d) (drop n (merge_sort excess_le l))) (take n (merge_sort excess_le l)).
Proof.
  pose proof (StronglySorted_merge_sort excess_le l) as Hs.
  rewrite <-(take_drop n (merge_sort excess_le l)) in Hs at 1.
  rewrite Forall_forall. intros d Hd. rewrite Forall_forall. intros e He.
  assert (excess_le d e) as [[H1 H2]|[H1 H2]]%excess_le_cases by (by eapply StronglySorted_app_1_elem_of);
    split; congruence || done.
Qed.

Lemma fmap_seqZ_take (l : list Sandbox) k :
  0 <= k <= Z.of_nat (length l) ->
  (fun i => default emptySandbox (l !! Z.to_nat i)) <$> seqZ 0 k = take (Z.to_nat k) l.
Proof.
  intros Hk. apply list_eq. intros i. rewrite list_lookup_fmap.
  destruct (decide (Z.of_nat i < k)) as [Hi|Hi].
  - rewrite lookup_seqZ_lt, lookup_take_lt by lia. cbn [fmap option_fmap option_map]. rewrite Z.add_0_l, Nat2Z.id.
    destruct (lookup_lt_is_Some_2 l i) as [x Hx]; [lia|]. by rewrite Hx.
  - rewrite lookup_seqZ_ge, lookup_take_ge by lia. done.
Qed.

Definition creation (X : Type) (e : PoolE X) : option Sandbox :=
  match e with WCreateSandbox sb => Some sb | _ => None end.
Definition deletion (X : Type) (e : PoolE X) : option Sandbox :=
  match e with WDeleteSandbox sb => Some sb | _ => None end.

Lemma createMissing_calls {St} (h : handler PoolE St) s r wp hash t desired current :
  0 <= desired <= int32_max -> 0 <= current <= int32_max -> 0 < MaxBatchSize r <= int32_max ->
  let up := createMissing r wp hash (Ok t) desired current in
  let missing := Z.to_nat (Z.min (desired - current) (MaxBatchSize r)) in
  exists k cr, buildSandboxCR r wp hash t = Ok cr /\ observed creation (trace h up s) = replicate k cr /\
    (k <= missing)%nat /\ ((run h up s).1 = None -> k = missing).
Proof.
  intros Hd Hc Hm. cbn zeta. unfold createMissing.
  destruct (buildSandboxCR_ok r wp hash t) as (cr & -> & _).
  destruct (Z.ltb_spec current desired) as [Hlt|Hge]; [|exists 0%nat, cr; simpl; lia || split_and!; done || lia].
  unfold int32_max in *. rewrite !int32_id by (unfold int32_min, int32_max; lia).
  destruct (slowStartBatch_calls (call WCtxErr) (fun _ => createPoolSandbox cr) h creation (fun _ => cr)
              (Z.min (desired - current) (MaxBatchSize r))) with (count := Z.min (desired - current) (MaxBatchSize r)) (s := s)
    as (k & Hk & Ht & _ & He).
  { intros s'. simpl. by destruct (h _ WCtxErr s'). }
  { intros i s' _. simpl. by destruct (h _ (WCreateSandbox cr) s'). }
  { lia. }
  exists (Z.to_nat k), cr. rewrite trace_bind, run_bind.
  destruct (run h (slowStartBatch _ _ _ _) s) as [[n e] s']. cbn [fst snd run trace] in *.
  rewrite app_nil_r, Ht. split_and!; [done| |lia|intros Hn; rewrite (He Hn); lia].
  rewrite <-(Z2Nat.id k) at 1 by lia. clear. generalize (Z.to_nat k) as n. intros n.
  apply list_eq. intros i. rewrite list_lookup_fmap.
  destruct (decide (i < n)%nat); [rewrite lookup_seqZ_lt, lookup_replicate_2|
    rewrite lookup_seqZ_ge, (proj2 (lookup_ge_None _ _)) by (rewrite ?length_replicate; lia)]; done || lia.
Qed.

Lemma deleteExcess_calls {St} (h : handler PoolE St) s r active desired :
  0 <= desired <= int32_max -> Z.of_nat (length active) <= int32_max -> 0 < MaxBatchSize r <= int32_max ->
  let current := Z.of_nat (length active) in
  let down := deleteExcess r active desired current in
  let excess := Z.to_nat (Z.min (current - desired) (MaxBatchSize r)) in
  exists k, observed deletion (trace h down s) = take k (merge_sort excess_le active) /\
    (k <= excess)%nat /\ ((run h down s).1 = None -> k = excess).
Proof.
  intros Hd Hc Hm. cbn zeta. unfold deleteExcess.
  destruct (Z.ltb_spec desired (Z.of_nat (length active))) as [Hlt|Hge];
    [|exists 0%nat; simpl; split_and!; done || lia].
  set (sorted := merge_sort excess_le active).
  assert (length sorted = length active) as Hlen by apply Permutation_length, merge_sort_Permutation.
  unfold int32_max in *. rewrite Hlen, !int32_id by (unfold int32_min, int32_max; lia).
  set (count := Z.min (Z.min _ _) _). 
  set (del := fun idx : Z => match sorted !! Z.to_nat idx with
                             | Some sb => deletePoolSandbox sb
                             | None => Ret (Some (Errorf "index out of range"))
                             end).
  destruct (slowStartBatch_calls (call WCtxErr) del h deletion (fun i => default emptySandbox (sorted !! Z.to_nat i))
              (Z.of_nat (length sorted))) with (count := count) (s := s) as (k & Hk & Ht & _ & He).
  { intros s'. simpl. by destruct (h _ WCtxErr s'). }
  { intros i s' Hi. destruct (lookup_lt_is_Some_2 sorted (Z.to_nat i)) as [sb Hsb]; [lia|].
    unfold del. rewrite Hsb. simpl. by destruct (h _ (WDeleteSandbox sb) s'). }
  { lia. }
  exists (Z.to_nat k). rewrite trace_bind, run_bind.
  destruct (run h (slowStartBatch _ _ _ _) s) as [[n e] s']. cbn [fst snd run trace] in *.
  rewrite app_nil_r, Ht, fmap_seqZ_take by lia.
  split_and!; [done|lia|]. intros Hn. rewrite (He Hn). lia.
Qed.

(** C22.  Scaling is exact and gentle: whatever the API answers, a pass creates
    at most the missing members (and exactly them when no error is reported), all
    equal to the one built from the template, deletes at most the excess ones
    (exactly them without an error), never more than the batch limit; and it
    never deletes a member while keeping a worse one, unready before ready and
    newest first. *)
Theorem scaling_exact {St} (h : handler PoolE St) s r wp hash t active desired :
  0 <= desired <= int32_max -> Z.of_nat (length active) <= int32_max -> 0 < MaxBatchSize r <= int32_max ->
  let current := Z.of_nat (length active) in
  let up := createMissing r wp hash (Ok t) desired current in
  let down := deleteExcess r active desired current in
  let missing := Z.to_nat (Z.min (desired - current) (MaxBatchSize r)) in
  let excess := Z.to_nat (Z.min (current - desired) (MaxBatchSize r)) in
  (exists k cr, buildSandboxCR r wp hash t = Ok cr /\ observed creation (trace h up s) = replicate k cr /\
     (k <= missing)%nat /\ ((run h up s).1 = None -> k = missing)) /\
  (exists deleted kept, observed deletion (trace h down s) = deleted /\ deleted ++ kept ≡ₚ active /\
     (length deleted <= excess)%nat /\ ((run h down s).1 = None -> length deleted = excess) /\
     Forall (fun d => Forall (no_better d) kept) deleted).
Proof.
  intros Hd Hc Hm. cbn zeta. split; [apply createMissing_calls; lia|].
  destruct (deleteExcess_calls h s r active desired Hd Hc Hm) as (k & Ht & Hk & He).
  assert (length (merge_sort excess_le active) = length active) as Hlen
    by apply Permutation_length, merge_sort_Permutation.
  exists (take k (merge_sort excess_le active)), (drop k (merge_sort excess_le active)).
  rewrite length_take, Hlen. split_and!; [done| |lia| |apply first_deleted_worst].
  - rewrite take_drop. apply merge_sort_Permutation.
  - intros Hn. rewrite (He Hn). lia.
Qed.

(** ** Steady state *)

Section steady.
Context (r : SandboxWarmPoolReconciler) (wp : SandboxWarmPool) (t : SandboxTemplate) (items : list Sandbox) (now : Z).

(** A live member as the controller created it from [t], ready or still within
    the grace period. *)
Definition healthy_member (sb : Sandbox) : Prop :=
  exists cr ht, buildSandboxCR r wp (NameHash (wpName wp)) ht = Ok cr /\ htTemplate ht = t /\
    computePodTemplateHash marshalPodTemplate t = Ok (htPodTemplateHash ht) /\
    computeSandboxBlueprintHash marshalBlueprint t = Ok (htBlueprintHash ht) /\
    sbSpec sb = sbSpec cr /\ sbLabels sb = sbLabels cr /\
    IsControlledBy (sbMeta sb) (mUID (wpMeta wp)) = true /\ mDeletionTimestamp (sbMeta sb) = None /\
    (isSandboxReady sb = true \/ now - mCreationTimestamp (sbMeta sb) <= warmPoolReadinessGracePeriod).

Definition settled_api (X : Type) (e : PoolE X) : X -> Prop :=
  match e in PoolE X return X -> Prop with
  | WNow => fun a => a = now
  | WGetPool _ _ => fun a => a = Ok wp
  | WListSandboxes _ _ => fun a => a = Ok items
  | WGetTemplate _ _ => fun a => a = Ok t
  | _ => fun _ => True
  end.

Definition leaves_alone (X : Type) (e : PoolE X) : Prop :=
  match e with
  | WCreateSandbox _ | WUpdateSandbox _ | WDeleteSandbox _ => False
  | WPatchPoolStatus wp' => wpStatusReplicas wp' = Z.of_nat (length items)
  | _ => True
  end.

Lemma NameHash_nonempty x : NameHash x <> "".
Proof.
  unfold NameHash. intros Hn. pose proof (hex_digits_length 8 (SandboxController.GetNumericHash x)) as Hl.
  by rewrite Hn in Hl.
Qed.

Hypothesis template_named : mName (tplMeta t) = wpTemplateRef wp.

Lemma healthy_kept ht vetted errs l :
  computePodTemplateHash marshalPodTemplate t = Ok (htPodTemplateHash ht) ->
  computeSandboxBlueprintHash marshalBlueprint t = Ok (htBlueprintHash ht) -> htTemplate ht = t ->
  Forall healthy_member l -> filter_members wp (Ok ht) vetted errs l = Ret (l, errs).
Proof.
  intros Hp Hb Ht Hl. revert vetted errs. induction Hl as [|sb l Hm Hl IH]; intros vetted errs; [done|].
  destruct Hm as (cr & ht' & Hcr & Ht' & Hp' & Hb' & Hs & Hlab & Hc & Hdel & _).
  assert (ht' = ht) as -> by (destruct ht, ht'; simpl in *; congruence).
  assert (htBlueprintHash ht <> "") as Hne.
  { revert Hb. unfold computeSandboxBlueprintHash. destruct (marshalBlueprint _); [|done].
    intros [= <-]. apply NameHash_nonempty. }
  destruct (buildSandboxCR_ok r wp (NameHash (wpName wp)) ht) as (cr' & Hcr' & _ & _ & _ & Hw & _).
  rewrite Hcr in Hcr'; injection Hcr' as <-.
  cbn [filter_members]. rewrite Hc, Hdel. cbn [negb]. rewrite andb_false_r.
  rewrite (bool_decide_false (None <> None)) by (intros Hn; done). cbn [orb].
  rewrite (built_not_stale _ _ _ _ _ sb vetted Hcr Hs Hlab) by congruence.
  assert (bool_decide (GetControllerOf (sbMeta sb) = None) = false) as ->.
  { apply bool_decide_eq_false. intros Hn. unfold IsControlledBy in Hc. by rewrite Hn in Hc. }
  rewrite orb_false_r.
  destruct (bool_decide (updateStrategyOf wp = _)); unfold keepMember, setWarmLaunchTypeLabelIfNeeded;
    rewrite Hlab, (bool_decide_true _ Hw); cbn [bind]; rewrite IH; by destruct errs.
Qed.

Lemma healthy_not_stuck errs l :
  Forall healthy_member l -> deleteStuck now errs l = Ret (l, errs).
Proof.
  induction 1 as [|sb l Hm Hl IH]; [done|]. cbn [deleteStuck]. rewrite IH.
  destruct Hm as (_ & _ & _ & _ & _ & _ & _ & _ & _ & _ & [-> | Hg]); [done|].
  destruct (isSandboxReady sb), (time_IsZero _); [done..|]. simpl.
  destruct (Z.ltb_spec warmPoolReadinessGracePeriod (time_Sub now (mCreationTimestamp (sbMeta sb)))) as [Hlt|];
    [|done].
  unfold time_Sub, warmPoolReadinessGracePeriod, time_minute, time_second, int64_min, int64_max in *. lia.
Qed.
End steady.

(** A pool in its desired state is left alone: when the listed members are
    live, built from the current template and ready or young, and as many as
    asked for, then under either update strategy a reconcile creates, updates
    and deletes nothing, reports no error of its own, and writes the status only
    with that count. *)
Theorem pool_steady r wp t items now ns name :
  DisableSandboxCRManagement r = false -> mName (tplMeta t) = wpTemplateRef wp ->
  isOk (computePodTemplateHash marshalPodTemplate t) = true ->
  isOk (computeSandboxBlueprintHash marshalBlueprint t) = true ->
  Forall (healthy_member r wp t now) items ->
  Z.of_nat (length items) = default 1 (wpReplicas wp) -> Z.of_nat (length items) <= int32_max ->
  spec (leaves_alone items) (settled_api wp t items now)
    (fun err => forall e, err = Some e -> exists x, e = Wrap "failed to update SandboxWarmPool status" x)
    (Reconcile marshalPodTemplate marshalBlueprint r ns name).
Proof.
  intros Hman Hname Hp Hb Hall Hn Hmax. unfold Reconcile. cbn [bind call]. split; [done|].
  intros g Hg; cbn in Hg; subst g. case_bool_decide; [done|].
  eapply (spec_bind _ _ (fun m => m.2 = None /\ wpStatusReplicas m.1 = Z.of_nat (length items))).
  2: { intros [wp' err]; cbn [fst snd]; intros [-> Hs]. unfold updateStatus. destruct (sameStatus wp wp'); simpl; [done|].
       split; [done|]. intros [x|] _; simpl; [|done]. intros ? [= <-]. by eexists. }
  unfold reconcilePool. rewrite Hman. cbn [bind call]. split; [done|]. intros l Hl; cbn in Hl; subst l.
  destruct (computePodTemplateHash marshalPodTemplate t) as [h1|] eqn:E1; [|done].
  destruct (computeSandboxBlueprintHash marshalBlueprint t) as [h2|] eqn:E2; [|done].
  eapply (spec_bind _ _ (fun x => x = Ok (mkHashed t h1 h2))).
  { unfold fetchTemplateAndHash, getTemplate. split; [done|]. intros x Hx; cbn in Hx; subst x.
    simpl. by rewrite E1, E2. }
  intros tmpl ->. unfold filterActiveSandboxes.
  rewrite (healthy_kept r wp t now Hname (mkHashed t h1 h2)) by done. cbn [bind call].
  split; [done|]. intros n Hnow; cbn in Hnow; subst n. rewrite (healthy_not_stuck r wp t now) by done. cbn [bind].
  rewrite int32_id by (unfold int32_min; lia). rewrite Hn.
  unfold createMissing, deleteExcess. rewrite !Z.ltb_irrefl. cbn [bind spec fst snd]. done.
Qed.

End members.

(** ** Concrete runs *)

#[local] Existing Instance Reference.owners.
#[local] Existing Instance Reference.owners_laws.

Module PoolDemo.
#[local] Existing Instance Reference.owners.

Definition marshal (pt : PodTemplate) : result string := Ok (psRest (ptSpec pt)).
Definition marshal_blueprint (bp : SandboxBlueprint) : result string := marshal (bpPodTemplate bp).

Definition reconciler : SandboxWarmPoolReconciler := setupReconciler (mkReconciler 0 true false).
Definition meta (name uid : string) : ObjectMeta := mkMeta name "" "prod" uid "1" 1 0 None ∅ ∅ [].
Definition pool : SandboxWarmPool := mkWarmPool (meta "fast" "u-p") (Some 2) "py" (Some "Recreate") 0 0 "".
Definition template : SandboxTemplate :=
  mkTemplate (meta "py" "u-t") (ssBlueprint emptySpec) None "" "" "".
Definition hashed : HashedTemplate := mkHashed template (NameHash "") (NameHash "").
Definition built : Sandbox :=
  match buildSandboxCR reconciler pool (NameHash "fast") hashed with Ok cr => cr | Err _ => emptySandbox end.

(** A member as the server stores it. *)
Definition member (name : string) (created : Z) (ready : string) : Sandbox :=
  let m := sbMeta built in
  mkSandbox (mkMeta name (mGenerateName m) "prod" name "1" 1 created None (mLabels m) (mAnnotations m) (mOwnerReferences m))
    (sbSpec built) (set_stConditions (fun _ => [newCondition SandboxConditionReady ready "" "" 1]) emptyStatus).

Definition listed : list Sandbox :=
  [member "a" 1 ConditionTrue; member "b" 2 ConditionFalse; member "c" 3 ConditionTrue].

(** An API server that accepts every write and has one pool with three members. *)
Definition api : handler PoolE unit := fun X e =>
  match e in PoolE X return unit -> X * unit with
  | WNow => fun s => (20 * time_second, s)
  | WCtxErr | WCreateSandbox _ | WDeleteSandbox _ | WPatchPoolStatus _ => fun s => (None, s)
  | WGetPool ns name => fun s =>
      (if decide (ns = "prod" /\ name = "fast") then Ok pool else Err (APIStatus ReasonNotFound name), s)
  | WListSandboxes ns hash => fun s => (Ok (if decide (hash = NameHash "fast") then listed else []), s)
  | WGetTemplate _ _ => fun s => (Ok template, s)
  | WListPools _ _ => fun s => (Ok [pool], s)
  | WUpdateSandbox sb => fun s => (Ok sb, s)
  end.

(** With three members and two asked for, the unready one goes. *)
Example unready_goes_first :
  mName ∘ sbMeta <$> observed deletion (trace api (Reconcile marshal marshal_blueprint reconciler "prod" "fast") tt)
  = ["b"].
Proof. vm_compute. reflexivity. Qed.

Lemma pool_api_answers X e s : pool_answers "u-p" X e (api X e s).1.
Proof.
  destruct e; cbn; try done.
  - case_decide as Hd; [|done]. destruct Hd as [-> ->]. by intros wp [= <-].
  - intros l Hl. apply Ok_inj in Hl. rewrite <-Hl. case_decide as Hd; [|done]. rewrite Hd.
    apply (bool_decide_eq_true (Forall _ _)). vm_compute. reflexivity.
  - intros sb' Hs. apply Ok_inj in Hs. by rewrite Hs.
Qed.
End PoolDemo.
Import PoolDemo.

Lemma pool_writes_safe_witness :
  Forall (fun c => pool_writes_ok reconciler "u-p" "prod" "fast" (projT1 c) (projT2 c))
    (trace api (Reconcile marshal marshal_blueprint reconciler "prod" "fast") tt).
Proof.
  apply (spec_run (pool_writes_ok reconciler "u-p" "prod" "fast") (pool_answers "u-p") (fun _ => True) api
           _ tt pool_api_answers (pool_writes_safe marshal marshal_blueprint reconciler "u-p" "prod" "fast")).
Defined.

Lemma scaling_exact_witness :
  exists deleted kept, observed deletion (trace api (deleteExcess reconciler listed 1 3) tt) = deleted /\
    deleted ++ kept ≡ₚ listed /\ (length deleted <= 2)%nat /\
    ((run api (deleteExcess reconciler listed 1 3) tt).1 = None -> length deleted = 2%nat) /\
    Forall (fun d => Forall (no_better d) kept) deleted.
Proof.
  refine (proj2 (scaling_exact api tt reconciler pool (NameHash "fast") hashed listed 1 _ _ _));
    [split|..|split]; vm_compute; (reflexivity || discriminate).
Defined.

Lemma pool_steady_witness :
  let members := [member "a" 1 ConditionTrue; member "b" 2 ConditionFalse] in
  spec (leaves_alone members) (settled_api pool template members (20 * time_second))
    (fun err => forall e, err = Some e -> exists x, e = Wrap "failed to update SandboxWarmPool status" x)
    (Reconcile marshal marshal_blueprint reconciler "prod" "fast").
Proof.
  intros members. apply pool_steady; [reflexivity..| |reflexivity|vm_compute; discriminate].
  repeat constructor; exists built, hashed; repeat split; try (vm_compute; reflexivity);
    [left; vm_compute; reflexivity|right; vm_compute; discriminate].
Defined.

End WarmPoolFacts.
