(* ===== verification/ClaimModel.v ===== *)
(** * ClaimModel: the SandboxClaim controller.

    Models [extensions/controllers/sandboxclaim_controller.go]: Reconcile and
    everything it runs to bind a claim to a sandbox, from the warm pool's queue
    or by a cold start, and the event handlers that feed the queue.  The API and
    the shared queue are the event signature [ClaimE]; the two in-memory maps are
    the state [ClaimState].  Label validation of the Kubernetes library, the
    formatting of a timestamp in the process's time zone and the trace context
    are arguments.  Go's iteration over a metadata map follows [map_to_list].
    Events, logs and metrics are left out. *)

From S2P Require Import Prelude GoStrings Queue K8s Expiry Types SandboxModel WarmPool.

Module ClaimController.
Import SandboxController (TraceContextAnnotation, NameHash).
Import WarmPoolController.
Import SandboxQueue.
#[local] Open Scope prog_scope.

Definition ObservabilityAnnotation : string := "agents.x-k8s.io/controller-first-observed-at".
Definition immediateRequeueDelay : Z := time_millisecond.
Definition adoptionCacheLagRequeueDelay : Z := 5 * time_millisecond.
Definition ClaimExpiredReason : string := "ClaimExpired".
Definition DeprecatedAssignedSandboxNameLabel : string := "agents.x-k8s.io/sandbox-name".
Definition AssignedSandboxNameAnnotation : string := "agents.x-k8s.io/sandbox-name".
Definition SandboxIDLabel : string := "agents.x-k8s.io/claim-uid".
Definition EnvVarsInjectionPolicyAllowed : string := "Allowed".
Definition EnvVarsInjectionPolicyOverrides : string := "Overrides".
Definition VolumeClaimTemplatesPolicyDisallowed : string := "Disallowed".
Definition VolumeClaimTemplatesPolicyAllowed : string := "Allowed".
Definition VolumeClaimTemplatesPolicyOverrides : string := "Overrides".

Definition ErrTemplateNotFound : string := "SandboxTemplate not found".
Definition ErrInvalidMetadata : string := "invalid additionalPodMetadata".
Definition ErrSandboxNotOwned : string := "sandbox not owned by this claim".
Definition ErrWarmPoolNotFound : string := "SandboxWarmPool not found".
Definition errAdoptionTriggeredRetry : string := "triggered adoption completion, retry".
Definition ErrCrossNamespaceAdoption : string := "cross-namespace adoption forbidden".
Definition ErrEnvVarsInjectionRejected : string := "environment variable injection rejected".
Definition ErrVolumeClaimTemplatesDisallowed : string := "volume claim templates are disallowed by the template".
Definition ErrVolumeClaimTemplatesOverrideForbidden : string :=
  "overriding volume claim templates is forbidden by the template".
Definition ErrVolumeClaimTemplatesInvalid : string := "invalid volume claim templates".

Definition restrictedDomains : list string := ["kubernetes.io"; "k8s.io"; "agents.x-k8s.io"].

Definition suppressErrors : list string :=
  [ErrInvalidMetadata; ErrSandboxNotOwned; ErrEnvVarsInjectionRejected; ErrVolumeClaimTemplatesDisallowed;
   ErrVolumeClaimTemplatesOverrideForbidden; ErrVolumeClaimTemplatesInvalid].

Definition shouldSuppressError (err : option gerror) : bool :=
  match err with
  | Some e => existsb (errors_Is e) suppressErrors
  | None => false
  end.

Definition errIs (err : option gerror) (target : string) : bool :=
  match err with Some e => errors_Is e target | None => false end.

(** ** Claims *)

Definition scName (c : SandboxClaim) : string := mName (scMeta c).
Definition scNamespace (c : SandboxClaim) : string := mNamespace (scMeta c).
Definition scUID (c : SandboxClaim) : string := mUID (scMeta c).
Definition scLabels (c : SandboxClaim) : strmap := mLabels (scMeta c).
Definition scAnnotations (c : SandboxClaim) : strmap := mAnnotations (scMeta c).

Definition set_scMeta (f : ObjectMeta -> ObjectMeta) (c : SandboxClaim) : SandboxClaim :=
  mkClaim (f (scMeta c)) (scWarmPoolRef c) (scLifecycle c) (scAdditionalPodMetadata c) (scEnv c)
    (scVolumeClaimTemplates c) (scConditions c) (scSandboxName c) (scPodIPs c).
Definition set_scConditions (f : list Condition -> list Condition) (c : SandboxClaim) : SandboxClaim :=
  mkClaim (scMeta c) (scWarmPoolRef c) (scLifecycle c) (scAdditionalPodMetadata c) (scEnv c)
    (scVolumeClaimTemplates c) (f (scConditions c)) (scSandboxName c) (scPodIPs c).
Definition set_scBound (name : string) (ips : list string) (c : SandboxClaim) : SandboxClaim :=
  mkClaim (scMeta c) (scWarmPoolRef c) (scLifecycle c) (scAdditionalPodMetadata c) (scEnv c)
    (scVolumeClaimTemplates c) (scConditions c) name ips.

Definition claimOwner (c : SandboxClaim) : Owner :=
  mkOwner "extensions.agents.x-k8s.io/v1beta1" "SandboxClaim" (scName c) (scUID c).
Definition claimKey (c : SandboxClaim) : string * string := (scNamespace c, scName c).

Definition podTemplateMeta (sb : Sandbox) : PodMetadata := ptMeta (ssPodTemplate (sbSpec sb)).
Definition set_podTemplate (f : PodTemplate -> PodTemplate) (sb : Sandbox) : Sandbox :=
  let s := sbSpec sb in
  let b := ssBlueprint s in
  set_sbSpec (mkSandboxSpec (mkBlueprint (f (bpPodTemplate b)) (bpVolumeClaimTemplates b) (bpService b))
                (ssShutdownTime s) (ssShutdownPolicy s) (ssOperatingMode s)) sb.
Definition set_podTemplateMeta (f : PodMetadata -> PodMetadata) (sb : Sandbox) : Sandbox :=
  set_podTemplate (fun t => mkPodTemplate (ptSpec t) (f (ptMeta t))) sb.

(** The two [sync.Map]s, keyed by namespace and name. *)
Record ClaimState := mkClaimState {
  observedTimes : gmap (string * string) (Z * string);            (* timestamp, uid *)
  triggeredAdoptions : gmap (string * string) (string * string);  (* uid, sandbox *)
}.
Definition set_observed (f : gmap (string * string) (Z * string) -> gmap (string * string) (Z * string))
    (st : ClaimState) : ClaimState :=
  mkClaimState (f (observedTimes st)) (triggeredAdoptions st).
Definition set_triggered (f : gmap (string * string) (string * string) -> gmap (string * string) (string * string))
    (st : ClaimState) : ClaimState :=
  mkClaimState (observedTimes st) (f (triggeredAdoptions st)).

(** Calls to the API server and to the shared queue. *)
Inductive ClaimE : Type -> Type :=
| CNow : ClaimE Z
| CGetClaim (ns name : string) : ClaimE (result SandboxClaim)
| CPatchClaim (c : SandboxClaim) : ClaimE (result SandboxClaim)
| CUpdateClaim (c : SandboxClaim) : ClaimE (result SandboxClaim)
| CPatchClaimStatus (c : SandboxClaim) : ClaimE (option gerror)
| CDeleteClaim (c : SandboxClaim) (foreground : bool) : ClaimE (option gerror)
| CGetSandbox (ns name : string) : ClaimE (result Sandbox)
| CPatchSandbox (old new : Sandbox) : ClaimE (result Sandbox)
| CCreateSandbox (sb : Sandbox) : ClaimE (result Sandbox)
| CDeleteSandbox (sb : Sandbox) : ClaimE (option gerror)
| CGetWarmPool (ns name : string) : ClaimE (result SandboxWarmPool)
| CGetTemplate (ns name : string) : ClaimE (result SandboxTemplate)
| CGetNetworkPolicy (ns name : string) : ClaimE (result ObjectMeta)
| CDeleteNetworkPolicy (m : ObjectMeta) : ClaimE (option gerror)
| CQueueGet (pool : string) (pick : strategy) : ClaimE (SandboxKey * bool)
| CQueueAdd (pool : string) (key : SandboxKey) : ClaimE unit.

(** ** Additional pod metadata *)

(** [strings.EqualFold] against an ASCII string: beside the letters' other case,
    U+017F folds to s and U+212A to k. *)
Definition fold_rune (r : Z) : Z :=
  if bool_decide (65 <= r <= 90) then r + 32
  else if bool_decide (r = 383) then 115
  else if bool_decide (r = 8490) then 107 else r.
Definition EqualFold (s t : string) : bool := bool_decide (fold_rune <$> runes s = fold_rune <$> runes t).

Definition inDomain (domain d : string) : bool :=
  bool_decide (domain = d) || HasSuffix domain ("." +:+ d).
Definition isRestrictedDomain (domain : string) : bool := existsb (inDomain domain) restrictedDomains.

Section metadata.
Context (IsQualifiedName IsValidLabelValue : string -> bool) (AllowedLabelDomains : list string).

Definition allowedDomains : list string :=
  match AllowedLabelDomains with [] => ["sandbox.users.io"] | l => l end.

Definition validate (key value : string) (isLabel : bool) : option gerror :=
  if negb (IsQualifiedName key) then Some (Errorf "invalid key")
  else if isLabel && EqualFold key "app" && EqualFold value "sandbox-router"
  then Some (Errorf "restricted system label value")
  else
    let after (domain : string) :=
      if isLabel then
        if negb (existsb (inDomain domain) allowedDomains) then Some (Errorf "label domain is not in the allowlist")
        else if negb (IsValidLabelValue value) then Some (Errorf "invalid label value")
        else None
      else if isRestrictedDomain domain then Some (Errorf "restricted system domain")
      else None in
    match cut_byte "/"%char key with
    | Some (prefix, _) => after (lower_ascii prefix)
    | None => if isLabel then Some (Errorf "label must have a domain prefix") else after ""
    end.

Fixpoint validate_all (isLabel : bool) (kvs : list (string * string)) : option gerror :=
  match kvs with
  | [] => None
  | (k, v) :: rest =>
      match validate k v isLabel with
      | Some e => Some (Wrap (if isLabel then "failed to validate label" else "failed to validate annotation") e)
      | None => validate_all isLabel rest
      end
  end.

Definition validateAdditionalPodMetadata (claimMeta : PodMetadata) : option gerror :=
  match validate_all true (map_to_list (pmLabels claimMeta)) with
  | Some e => Some e
  | None => validate_all false (map_to_list (pmAnnotations claimMeta))
  end.

Definition overrides (template claim : strmap) : bool :=
  existsb (fun kv => match template !! kv.1 with
                     | Some tv => bool_decide (tv <> kv.2)
                     | None => false
                     end) (map_to_list claim).

Definition mergePodMetadata (templateMeta claimMeta : PodMetadata) : result PodMetadata :=
  match validateAdditionalPodMetadata claimMeta with
  | Some e => Err e
  | None =>
      if overrides (pmLabels templateMeta) (pmLabels claimMeta)
      then Err (Errorf "metadata override conflict: label")
      else if overrides (pmAnnotations templateMeta) (pmAnnotations claimMeta)
      then Err (Errorf "metadata override conflict: annotation")
      else Ok (mkPodMetadata (pmLabels claimMeta ∪ pmLabels templateMeta)
                 (pmAnnotations claimMeta ∪ pmAnnotations templateMeta))
  end.
End metadata.

(** ** Environment variables *)

(** Replace the first variable of that name; [None] when there is none. *)
Fixpoint replace_env (name value : string) (l : list EnvVar) : option (list EnvVar) :=
  match l with
  | [] => None
  | e :: l' =>
      if bool_decide (evName e = name) then Some (mkEnv name value :: l')
      else match replace_env name value l' with Some r => Some (e :: r) | None => None end
  end.

Fixpoint inject_loop (policy : string) (envs : list ClaimEnvVar) (l : list EnvVar) : result (list EnvVar) :=
  match envs with
  | [] => Ok l
  | c :: rest =>
      match replace_env (ceName c) (ceValue c) l with
      | Some l' =>
          if bool_decide (policy <> EnvVarsInjectionPolicyOverrides)
          then Err (Errorf "environment variable override is not allowed by the template policy")
          else inject_loop policy rest l'
      | None => inject_loop policy rest (l ++ [mkEnv (ceName c) (ceValue c)])
      end
  end.

Definition injectEnvs (policy : string) (envs : list ClaimEnvVar) (c : Container) : result Container :=
  if bool_decide (policy = EnvVarsInjectionPolicyAllowed) && bool_decide (cnEnvFrom c <> [])
  then Err (Wrap "container uses EnvFrom sources" (Sentinel ErrEnvVarsInjectionRejected))
  else
    match inject_loop policy envs (cnEnv c) with
    | Err e => Err e
    | Ok env => Ok (mkContainer (cnName c) (cnImage c) (cnRequests c) (cnLimits c) env (cnEnvFrom c))
    end.

(** The variables a claim targets at a container by name. *)
Definition envsFor (envs : list ClaimEnvVar) (name : string) : list ClaimEnvVar :=
  filter (fun e => ceContainerName e = name /\ ceContainerName e <> "") envs.
Definition defaultEnvs (envs : list ClaimEnvVar) : list ClaimEnvVar :=
  filter (fun e => ceContainerName e = "") envs.

(** [first] marks the container that also gets the untargeted variables. *)
Fixpoint inject_containers (policy : string) (envs : list ClaimEnvVar) (first : bool) (cs : list Container) :
    result (list Container) :=
  match cs with
  | [] => Ok []
  | c :: rest =>
      let todo := envsFor envs (cnName c) ++ (if first then defaultEnvs envs else []) in
      match (match todo with [] => Ok c | _ => injectEnvs policy todo c end) with
      | Err e => Err e
      | Ok c' =>
          match inject_containers policy envs false rest with
          | Err e => Err e
          | Ok rest' => Ok (c' :: rest')
          end
      end
  end.

Definition set_psContainers (init main : list Container) (p : PodSpec) : PodSpec :=
  mkPodSpec main init (psVolumes p) (psNodeName p) (psNodeSelector p) (psTolerations p)
    (psRuntimeClassName p) (psOS p) (psAutomountServiceAccountToken p) (psDNSPolicy p)
    (psDNSNameservers p) (psRest p).

Definition injectClaimEnvs (policy : string) (envs : list ClaimEnvVar) (p : PodSpec) : result PodSpec :=
  match envs with
  | [] => Ok p
  | _ =>
      if bool_decide (policy <> EnvVarsInjectionPolicyAllowed) && bool_decide (policy <> EnvVarsInjectionPolicyOverrides)
      then Err (Wrap "environment variable injection is not allowed by the template policy"
                  (Sentinel ErrEnvVarsInjectionRejected))
      else
        let names := cnName <$> psInitContainers p ++ psContainers p in
        if existsb (fun e => bool_decide (ceContainerName e <> "") && bool_decide (ceContainerName e ∉ names)) envs
        then Err (Errorf "target container not found in template")
        else
          match inject_containers policy envs false (psInitContainers p) with
          | Err e => Err e
          | Ok init =>
              match inject_containers policy envs true (psContainers p) with
              | Err e => Err e
              | Ok main => Ok (set_psContainers init main p)
              end
          end
  end.

(** ** Volume claim templates *)

Fixpoint validate_vcts (names : list string) (vcts : list VolumeClaimTemplate) : option gerror :=
  match vcts with
  | [] => None
  | v :: rest =>
      if bool_decide (vctName v = "") then Some (Wrap "name is empty" (Sentinel ErrVolumeClaimTemplatesInvalid))
      else if bool_decide (vctName v ∈ names) then Some (Wrap "duplicate name" (Sentinel ErrVolumeClaimTemplatesInvalid))
      else validate_vcts (vctName v :: names) rest
  end.
Definition validateVolumeClaimTemplates (vcts : list VolumeClaimTemplate) : option gerror := validate_vcts [] vcts.

(** The claim's template of that name: the map keeps the last one. *)
Definition claim_vct (claimVCTs : list VolumeClaimTemplate) (name : string) : option VolumeClaimTemplate :=
  List.find (fun v => bool_decide (vctName v = name)) (rev claimVCTs).

(** Template entries are taken in order; an override is used once. *)
Fixpoint override_vcts (claimVCTs : list VolumeClaimTemplate) (used : list string) (templateVCTs : list VolumeClaimTemplate) :
    list VolumeClaimTemplate * list string :=
  match templateVCTs with
  | [] => ([], used)
  | v :: rest =>
      match (if bool_decide (vctName v ∈ used) then None else claim_vct claimVCTs (vctName v)) with
      | Some o =>
          let '(l, used') := override_vcts claimVCTs (vctName v :: used) rest in (o :: l, used')
      | None => let '(l, used') := override_vcts claimVCTs used rest in (v :: l, used')
      end
  end.

Definition mergeVolumeClaimTemplates (templateVCTs claimVCTs : list VolumeClaimTemplate) (policy : string) :
    result (list VolumeClaimTemplate) :=
  match validateVolumeClaimTemplates templateVCTs with
  | Some e => Err (Wrap "template" e)
  | None =>
      match claimVCTs with
      | [] => Ok templateVCTs
      | _ =>
          match validateVolumeClaimTemplates claimVCTs with
          | Some e => Err (Wrap "claim" e)
          | None =>
              if bool_decide (policy = VolumeClaimTemplatesPolicyDisallowed) || bool_decide (policy = "")
              then Err (Sentinel ErrVolumeClaimTemplatesDisallowed)
              else if bool_decide (policy = VolumeClaimTemplatesPolicyAllowed) then
                if existsb (fun v => bool_decide (vctName v ∈ vctName <$> templateVCTs)) claimVCTs
                then Err (Wrap "cannot override template volume" (Sentinel ErrVolumeClaimTemplatesOverrideForbidden))
                else Ok (templateVCTs ++ claimVCTs)
              else if bool_decide (policy = VolumeClaimTemplatesPolicyOverrides) then
                let '(kept, used) := override_vcts claimVCTs [] templateVCTs in
                Ok (kept ++ filter (fun v => vctName v ∉ used) claimVCTs)
              else Err (Errorf "unknown volume claim templates policy")
          end
      end
  end.

(** ** Conditions *)

Section controller.
Context `{ConditionLib} `{OwnerLib}.
Context (IsQualifiedName IsValidLabelValue : string -> bool) (AllowedLabelDomains : list string).
Context (formatTime : Z -> string) (traceContext : string).

#[local] Abbreviation validateMetadata :=
  (validateAdditionalPodMetadata IsQualifiedName IsValidLabelValue AllowedLabelDomains).
#[local] Abbreviation mergeMetadata :=
  (mergePodMetadata IsQualifiedName IsValidLabelValue AllowedLabelDomains).

Definition hasSandboxExpiredCondition (cs : list Condition) : bool :=
  match FindStatusCondition cs SandboxConditionReady with
  | Some c => bool_decide (cReason c = SandboxReasonExpired)
  | None => false
  end.
Definition hasClaimExpiredCondition (cs : list Condition) : bool :=
  match FindStatusCondition cs SandboxConditionReady with
  | Some c => bool_decide (cReason c = ClaimExpiredReason)
  | None => false
  end.

Definition errorReason (e : gerror) : string * string :=
  if errors_Is e ErrTemplateNotFound then ("TemplateNotFound", "SandboxTemplate not found")
  else if errors_Is e ErrWarmPoolNotFound then ("WarmPoolNotFound", "SandboxWarmPool not found")
  else if errors_Is e errAdoptionTriggeredRetry
  then ("AdoptionPending", "Warm-pool sandbox adoption triggered; waiting for cache to converge")
  else if errors_Is e ErrInvalidMetadata then ("InvalidMetadata", ErrInvalidMetadata)
  else if errors_Is e ErrEnvVarsInjectionRejected then ("EnvVarsInjectionRejected", ErrEnvVarsInjectionRejected)
  else if errors_Is e ErrSandboxNotOwned then (ClaimExpiredReason, "Claim expired. deletion skipped.")
  else if errors_Is e ErrVolumeClaimTemplatesDisallowed || errors_Is e ErrVolumeClaimTemplatesOverrideForbidden
          || errors_Is e ErrVolumeClaimTemplatesInvalid
  then ("VolumeClaimTemplatesError", "volume claim templates")
  else ("ReconcilerError", "Error seen").

Definition computeReadyCondition (claim : SandboxClaim) (sandbox : option Sandbox) (err : option gerror)
    (isClaimExpired : bool) : Condition :=
  let notReady reason message :=
    newCondition SandboxConditionReady ConditionFalse reason message (mGeneration (scMeta claim)) in
  match err with
  | Some e => notReady (errorReason e).1 (errorReason e).2
  | None =>
      if isClaimExpired then notReady ClaimExpiredReason "Claim expired. Sandbox cleanup initiated."
      else
        match sandbox with
        | None => notReady "SandboxMissing" "Sandbox does not exist"
        | Some sb =>
            if hasSandboxExpiredCondition (sbConditions sb)
            then notReady SandboxReasonExpired "Underlying Sandbox resource has expired independently of the Claim."
            else
              match List.find (fun c => bool_decide (cType c = SandboxConditionReady)) (sbConditions sb) with
              | Some c => c
              | None => notReady "SandboxNotReady" "Sandbox is not ready"
              end
        end
  end.

Definition syncFinishedCondition (now : Z) (claim : SandboxClaim) (sandbox : option Sandbox) (isClaimExpired : bool) :
    SandboxClaim :=
  let remove := set_scConditions (fun cs => RemoveStatusCondition cs SandboxConditionFinished) claim in
  match sandbox with
  | Some sb =>
      match FindStatusCondition (sbConditions sb) SandboxConditionFinished with
      | Some c => set_scConditions (fun cs => SetStatusCondition now cs c) claim
      | None => remove
      end
  | None => if isClaimExpired then claim else remove
  end.

Definition computeAndSetStatus (now : Z) (claim : SandboxClaim) (sandbox : option Sandbox) (err : option gerror)
    (isClaimExpired : bool) : SandboxClaim :=
  if bool_decide (sandbox = None) && errIs err errAdoptionTriggeredRetry && bool_decide (scSandboxName claim <> "")
  then claim
  else
    let ready := computeReadyCondition claim sandbox err isClaimExpired in
    let claim := set_scConditions (fun cs => SetStatusCondition now cs ready) claim in
    let claim := syncFinishedCondition now claim sandbox isClaimExpired in
    match sandbox with
    | Some sb => set_scBound (sbName sb) (stPodIPs (sbStatus sb)) claim
    | None =>
        if bool_decide (err = None) || errIs err ErrSandboxNotOwned then set_scBound "" [] claim else claim
    end.

Definition condition_le (a b : Condition) : Prop := String.le (cType a) (cType b).
#[global] Instance condition_le_dec : RelDecision condition_le.
Proof. intros a b. unfold condition_le. apply _. Defined.

Definition updateStatus (old claim : SandboxClaim) : prog ClaimE (SandboxClaim * option gerror) :=
  let sorted := set_scConditions (merge_sort condition_le) claim in
  if bool_decide (merge_sort condition_le (scConditions old) = scConditions sorted)
     && bool_decide (scSandboxName old = scSandboxName claim) && bool_decide (scPodIPs old = scPodIPs claim)
  then Ret (sorted, None)
  else e <- call (CPatchClaimStatus sorted);; Ret (sorted, e).

Definition checkExpiration (now : Z) (claim : SandboxClaim) : bool * Z :=
  match scLifecycle claim with
  | None => (false, 0)
  | Some l =>
      Lifecycle.TimeLeft now (clShutdownTime l) (clTTLSecondsAfterFinished l)
        (Lifecycle.FinishedCondition (scConditions claim) SandboxConditionFinished)
  end.

(** ** In-memory maps *)

Definition getOrRecordObservedTime (now : Z) (m : ObjectMeta) (st : ClaimState) : Z * ClaimState :=
  let key := (mNamespace m, mName m) in
  match observedTimes st !! key with
  | Some (t, uid) =>
      if bool_decide (uid = mUID m) then (t, st) else (now, set_observed <[key := (now, mUID m)]> st)
  | None => (now, set_observed <[key := (now, mUID m)]> st)
  end.

(** The predicate of the claim watch: a claim is remembered when it is first seen,
    created or updated, and its entry goes with it. *)
Definition claimSeen (now : Z) (m : ObjectMeta) (st : ClaimState) : ClaimState := (getOrRecordObservedTime now m st).2.

Definition claimDeleted (m : ObjectMeta) (st : ClaimState) : ClaimState :=
  let key := (mNamespace m, mName m) in
  match observedTimes st !! key with
  | Some (_, uid) => if bool_decide (uid = mUID m) then set_observed (delete key) st else st
  | None => st
  end.

Definition recordCreationLatencyMetric (old claim : SandboxClaim) (st : ClaimState) : ClaimState :=
  let isTrue cs := match FindStatusCondition cs SandboxConditionReady with
                   | Some c => bool_decide (cStatus c = ConditionTrue)
                   | None => false
                   end in
  if negb (isTrue (scConditions claim)) then st
  else if isTrue (scConditions old) then
    match observedTimes st !! claimKey claim with
    | Some (_, uid) => if bool_decide (uid = scUID claim) then set_observed (delete (claimKey claim)) st else st
    | None => st
    end
  else if bool_decide (mget (scAnnotations claim) ObservabilityAnnotation <> "")
  then set_observed (delete (claimKey claim)) st else st.

(** The clock reading is used for a timestamp not yet recorded. *)
Definition initializeAnnotations (claim : SandboxClaim) (st : ClaimState) :
    prog ClaimE (SandboxClaim * option gerror * ClaimState) :=
  let needObs := bool_decide (mget (scAnnotations claim) ObservabilityAnnotation = "") in
  let needTrace := bool_decide (traceContext <> "")
                   && bool_decide (mget (scAnnotations claim) TraceContextAnnotation = "") in
  if needObs || needTrace then
    now <- call CNow;;
    let '(t, st) := if needObs then getOrRecordObservedTime now (scMeta claim) st else (0, st) in
    let claim := if needObs then set_scMeta (set_mAnnotations <[ObservabilityAnnotation := formatTime t]>) claim else claim in
    let claim := if needTrace then set_scMeta (set_mAnnotations <[TraceContextAnnotation := traceContext]>) claim else claim in
    r <- call (CPatchClaim claim);;
    Ret (match r with Ok c => (c, None, st) | Err e => (claim, Some e, st) end)
  else Ret (claim, None, st).

(** ** Candidates *)

Definition getWarmPoolName (m : ObjectMeta) : string :=
  match GetControllerOf m with
  | Some r => if bool_decide (orKind r = "SandboxWarmPool") then orName r
              else match List.find (fun r => bool_decide (orKind r = "SandboxWarmPool")) (mOwnerReferences m) with
                   | Some r' => orName r'
                   | None => ""
                   end
  | None => match List.find (fun r => bool_decide (orKind r = "SandboxWarmPool")) (mOwnerReferences m) with
            | Some r' => orName r'
            | None => ""
            end
  end.

Definition isAdoptable (sb : Sandbox) : option gerror :=
  if bool_decide (mDeletionTimestamp (sbMeta sb) <> None) then Some (Errorf "sandbox is deleted")
  else if negb (mhas (sbLabels sb) warmPoolSandboxLabel)
  then Some (Errorf "sandbox is missing the warm pool sandbox label")
  else if negb (mhas (sbLabels sb) sandboxTemplateRefHash)
  then Some (Errorf "sandbox is missing the sandbox template ref hash label")
  else
    match GetControllerOf (sbMeta sb) with
    | None => Some (Errorf "sandbox is unowned and cannot be safely adopted")
    | Some r =>
        if bool_decide (orAPIVersion r <> "extensions.agents.x-k8s.io/v1beta1")
           || bool_decide (orKind r <> "SandboxWarmPool")
        then Some (Errorf "sandbox is not managed by warm pool") else None
    end.

Definition verifySandboxCandidate (sb : Sandbox) (claim : SandboxClaim) : option gerror :=
  if bool_decide (sbNamespace sb <> scNamespace claim)
  then Some (Wrap "sandbox is in another namespace" (Sentinel ErrCrossNamespaceAdoption))
  else
    match isAdoptable sb with
    | Some e => Some e
    | None =>
        let warmPoolName := getWarmPoolName (sbMeta sb) in
        if bool_decide (warmPoolName = "") || bool_decide (warmPoolName <> scWarmPoolRef claim)
        then Some (Errorf "incorrect warm pool") else None
    end.

(** The scheduled keys of each node, and the most any node has. *)
Definition nodeCount (keys : list SandboxKey) (node : string) : nat :=
  length (filter (fun k => NodeName k = node) keys).
Definition maxCount (keys : list SandboxKey) : nat :=
  fold_right Nat.max 0%nat ((fun k => nodeCount keys (NodeName k)) <$> keys).

Definition pickSmart : strategy := fun keys =>
  match keys with
  | [] => (zeroKey, false)
  | [k] => (k, true)
  | _ =>
      let scheduledKeys := filter (fun k => NodeName k <> "") keys in
      let unscheduledKeys := filter (fun k => NodeName k = "") keys in
      match scheduledKeys with
      | [] => (hd zeroKey unscheduledKeys, true)
      | _ =>
          let best := filter (fun k => nodeCount scheduledKeys (NodeName k) = maxCount scheduledKeys) scheduledKeys in
          (hd zeroKey best, true)
      end
  end.

Fixpoint addAll (pool : string) (keys : list SandboxKey) : prog ClaimE unit :=
  match keys with
  | [] => Ret tt
  | k :: rest => call (CQueueAdd pool k);;; addAll pool rest
  end.

(** The deferred requeue, then the answer. *)
Definition requeue {A} (pool : string) (skipped : list SandboxKey) (parked : option SandboxKey) (r : A) : prog ClaimE A :=
  addAll pool skipped;;; addAll pool (option_list parked);;; Ret r.

(** [fallback] is the first valid but unready candidate. *)
Fixpoint candidate_loop (fuel : nat) (claim : SandboxClaim) (pool : string) (skipped : list SandboxKey)
    (fallback : option (Sandbox * SandboxKey)) : prog ClaimE (result (option (Sandbox * SandboxKey))) :=
  match fuel with
  | O => requeue pool skipped (snd <$> fallback) (Err (Errorf "out of fuel"))
  | S fuel' =>
      let! (key, ok) := call (CQueueGet pool pickSmart) in
      if negb ok then requeue pool skipped None (Ok fallback)
      else
        r <- call (CGetSandbox (Namespace key) (Name key));;
        match r with
        | Err e =>
            if IsNotFound e then candidate_loop fuel' claim pool skipped fallback
            else call (CQueueAdd pool key);;; requeue pool skipped (snd <$> fallback) (Err e)
        | Ok sb =>
            match verifySandboxCandidate sb claim with
            | Some e =>
                candidate_loop fuel' claim pool
                  (if errors_Is e ErrCrossNamespaceAdoption then skipped ++ [key] else skipped) fallback
            | None =>
                if isSandboxReady sb then requeue pool skipped (snd <$> fallback) (Ok (Some (sb, key)))
                else
                  match fallback with
                  | None => candidate_loop fuel' claim pool skipped (Some (sb, key))
                  | Some _ => candidate_loop fuel' claim pool (skipped ++ [key]) fallback
                  end
            end
        end
  end.

Definition warmPoolKey (claim : SandboxClaim) : string :=
  GetNamespacedWarmPoolName (scNamespace claim) (scWarmPoolRef claim).

Definition getCandidate (fuel : nat) (claim : SandboxClaim) : prog ClaimE (result (option (Sandbox * SandboxKey))) :=
  candidate_loop fuel claim (warmPoolKey claim) [] None.

(** ** Templates *)

Definition getTemplate (claim : SandboxClaim) : prog ClaimE (result SandboxTemplate) :=
  w <- call (CGetWarmPool (scNamespace claim) (scWarmPoolRef claim));;
  match w with
  | Err e => Ret (Err (if IsNotFound e then Sentinel ErrWarmPoolNotFound else Wrap "failed to get sandbox warm pool" e))
  | Ok wp =>
      t <- call (CGetTemplate (scNamespace claim) (wpTemplateRef wp));;
      Ret (match t with
           | Err e => Err (if IsNotFound e then Wrap "SandboxTemplate not found" (Sentinel ErrTemplateNotFound)
                           else Wrap "failed to get sandbox template" e)
           | Ok t => Ok t
           end)
  end.

(** [labels[created-by]] follows the claim: set when it has one, else dropped. *)
Definition syncCreatedBy (claim : SandboxClaim) (labels : strmap) : strmap :=
  let val := mget (scLabels claim) CreatedByLabel in
  if bool_decide (val <> "") then <[CreatedByLabel := val]> labels else delete CreatedByLabel labels.

Definition ensureClaimIdentityLabels (labels : strmap) (claim : SandboxClaim) : strmap :=
  syncCreatedBy claim (<[SandboxIDLabel := scUID claim]> labels).

(** ** Adoption *)

(** The sandbox as it is patched, before the pod template's metadata. *)
Definition adoptedObject (claim : SandboxClaim) (sb : Sandbox) : result Sandbox :=
  let labels := <[SandboxLaunchTypeLabel := SandboxLaunchTypeWarm]>
                  (delete SandboxTemplateHashLabel (delete DeprecatedSandboxPodTemplateHashLabel
                     (delete warmPoolSandboxLabel (sbLabels sb)))) in
  let pm := podTemplateMeta sb in
  let podAnnotations :=
    if bool_decide (mget (pmAnnotations pm) warmPoolEvictionAnnotation = "true")
    then delete warmPoolEvictionAnnotation (pmAnnotations pm) else pmAnnotations pm in
  let meta := set_mOwnerReferences [] (set_mLabels (fun _ => labels) (sbMeta sb)) in
  match SetControllerReference (claimOwner claim) meta with
  | Err e => Err (Wrap "failed to set controller reference on adopted sandbox" e)
  | Ok meta =>
      let annotations := <[SandboxPodNameAnnotation := mName meta]> (mAnnotations meta) in
      let annotations := match scAnnotations claim !! TraceContextAnnotation with
                         | Some t => <[TraceContextAnnotation := t]> annotations
                         | None => annotations
                         end in
      let meta := set_mAnnotations (fun _ => annotations)
                    (set_mLabels (fun l => ensureClaimIdentityLabels l claim) meta) in
      Ok (set_podTemplateMeta
            (fun _ => mkPodMetadata (ensureClaimIdentityLabels (pmLabels pm) claim) podAnnotations)
            (set_sbMeta (fun _ => meta) sb))
  end.

Definition withRefHash (hash : string) (labels : strmap) : strmap :=
  if bool_decide (hash <> "") then <[sandboxTemplateRefHash := hash]> labels else labels.

Definition completeAdoption (claim : SandboxClaim) (sb : Sandbox) : prog ClaimE (result Sandbox) :=
  match adoptedObject claim sb with
  | Err e => Ret (Err e)
  | Ok adopted =>
      template <- getTemplate claim;;
      let labelHash := mget (sbLabels sb) sandboxTemplateRefHash in
      let templateHash :=
        match template with
        | Ok t => if bool_decide (labelHash = "") then SandboxTemplateRefHash (mName (tplMeta t)) else labelHash
        | Err _ => labelHash
        end in
      let adopted := set_sbMeta (set_mLabels (withRefHash templateHash)) adopted in
      let base :=
        match template with
        | Ok t =>
            let tm := ptMeta (bpPodTemplate (tplBlueprint t)) in
            mkPodMetadata (syncCreatedBy claim (withRefHash templateHash (<[SandboxIDLabel := scUID claim]> (pmLabels tm))))
              (pmAnnotations tm)
        | Err _ =>
            let pm := podTemplateMeta adopted in
            mkPodMetadata (withRefHash templateHash (pmLabels pm)) (pmAnnotations pm)
        end in
      match mergeMetadata base (scAdditionalPodMetadata claim) with
      | Err e => Ret (Err e)
      | Ok merged => call (CPatchSandbox sb (set_podTemplateMeta (fun _ => merged) adopted))
      end
  end.

(** One adoption attempt: [Ok None] means try the next candidate. *)
Definition tryAdopt (pool : string) (claim : SandboxClaim) (sb : Sandbox) (key : SandboxKey) (st : ClaimState) :
    prog ClaimE (result (option Sandbox) * SandboxClaim * ClaimState) :=
  let claim := set_scMeta (set_mAnnotations <[AssignedSandboxNameAnnotation := sbName sb]>) claim in
  u <- call (CUpdateClaim claim);;
  match u with
  | Err e => call (CQueueAdd pool key);;; Ret (Err e, claim, st)
  | Ok claim =>
      a <- completeAdoption claim sb;;
      match a with
      | Err e =>
          if IsNotFound e then Ret (Ok None, claim, st)
          else
            call (CQueueAdd pool key);;;
            Ret (if IsConflict e then Ok None else Err e, claim, st)
      | Ok adopted =>
          Ret (Ok (Some adopted), claim, set_triggered <[claimKey claim := (scUID claim, sbName adopted)]> st)
      end
  end.

Fixpoint adopt_loop (fuel : nat) (pool : string) (tries : nat) (claim : SandboxClaim) (st : ClaimState) :
    prog ClaimE (result (option Sandbox) * SandboxClaim * ClaimState) :=
  match tries with
  | O => Ret (Ok None, claim, st)
  | S tries' =>
      c <- getCandidate fuel claim;;
      match c with
      | Err e => Ret (Err e, claim, st)
      | Ok None => Ret (Ok None, claim, st)
      | Ok (Some (sb, key)) =>
          let! (r, claim, st) := tryAdopt pool claim sb key st in
          match r with
          | Ok None => adopt_loop fuel pool tries' claim st
          | _ => Ret (r, claim, st)
          end
      end
  end.

Definition adoptSandboxFromCandidates (fuel : nat) (claim : SandboxClaim) (st : ClaimState) :
    prog ClaimE (result (option Sandbox) * SandboxClaim * ClaimState) :=
  adopt_loop fuel (warmPoolKey claim) 3 claim st.

(** ** Cold start *)

Definition createSandbox (claim : SandboxClaim) (t : SandboxTemplate) : prog ClaimE (result Sandbox) :=
  let bp := tplBlueprint t in
  let annotations : strmap :=
    <[SandboxTemplateRefAnnotation := mName (tplMeta t)]>
      (match scAnnotations claim !! TraceContextAnnotation with
       | Some tc => {[TraceContextAnnotation := tc]}
       | None => ∅
       end) in
  let vcts :=
    match scVolumeClaimTemplates claim with
    | [] =>
        match validateVolumeClaimTemplates (bpVolumeClaimTemplates bp) with
        | Some e => Err (Wrap "invalid volume claim templates in template" e)
        | None => Ok (bpVolumeClaimTemplates bp)
        end
    | claimVCTs =>
        match mergeVolumeClaimTemplates (bpVolumeClaimTemplates bp) claimVCTs (tplVolumeClaimTemplatesPolicy t) with
        | Err e => Err (Wrap "failed to merge volume claim templates" e)
        | Ok [] => Ok (bpVolumeClaimTemplates bp)
        | Ok l => Ok l
        end
    end in
  match vcts with
  | Err e => Ret (Err e)
  | Ok vcts =>
      let templateHash := SandboxTemplateRefHash (mName (tplMeta t)) in
      let labels := <[sandboxTemplateRefHash := templateHash]>
                      (<[SandboxLaunchTypeLabel := SandboxLaunchTypeCold]> (ensureClaimIdentityLabels ∅ claim)) in
      let pm := ptMeta (bpPodTemplate bp) in
      let podLabels := <[sandboxTemplateRefHash := templateHash]> (ensureClaimIdentityLabels (pmLabels pm) claim) in
      match mergeMetadata (mkPodMetadata podLabels (pmAnnotations pm)) (scAdditionalPodMetadata claim) with
      | Err e => Ret (Err e)
      | Ok merged =>
          match injectClaimEnvs (tplEnvVarsInjectionPolicy t) (scEnv claim) (ptSpec (bpPodTemplate bp)) with
          | Err e => Ret (Err e)
          | Ok podSpec =>
              let meta := mkMeta (scName claim) "" (scNamespace claim) "" "" 0 0 None labels annotations [] in
              match SetControllerReference (claimOwner claim) meta with
              | Err e => Ret (Err (Wrap "failed to set controller reference for sandbox" e))
              | Ok meta =>
                  let sb := mkSandbox meta
                    (mkSandboxSpec
                       (mkBlueprint (mkPodTemplate (ApplySandboxSecureDefaults t podSpec) merged) vcts (bpService bp))
                       None None ModeUnset) emptyStatus in
                  r <- call (CCreateSandbox sb);;
                  Ret (match r with Err e => Err (Wrap "sandbox create error" e) | Ok sb => Ok sb end)
              end
          end
      end
  end.

(** ** Finding or adopting the sandbox *)

Definition initializeSandboxLaunchTypeLabel (sb : Sandbox) (launchType : string) : prog ClaimE (result Sandbox) :=
  if mhas (sbLabels sb) SandboxLaunchTypeLabel then Ret (Ok sb)
  else
    r <- call (CPatchSandbox sb (set_sbMeta (set_mLabels <[SandboxLaunchTypeLabel := launchType]>) sb));;
    Ret (match r with Ok sb' => Ok sb' | Err e => Err (Wrap "failed to initialize launch type label on sandbox" e) end).

(** A failed migration leaves the local changes in place. *)
Definition migrateLegacyAssignedSandboxLabel (claim : SandboxClaim) (name : string) : prog ClaimE SandboxClaim :=
  let claim := set_scMeta (fun m => set_mLabels (delete DeprecatedAssignedSandboxNameLabel)
                                      (set_mAnnotations <[AssignedSandboxNameAnnotation := name]> m)) claim in
  r <- call (CPatchClaim claim);;
  Ret (match r with Ok c => c | Err _ => claim end).

Definition controlledBy (sb : Sandbox) (claim : SandboxClaim) : bool := IsControlledBy (sbMeta sb) (scUID claim).

Definition forgetAdoption (claim : SandboxClaim) (st : ClaimState) : ClaimState :=
  set_triggered (delete (claimKey claim)) st.

(** [None]: undecided, go on with the next source of the name. *)
Definition fromStatus (claim : SandboxClaim) (st : ClaimState) : prog ClaimE (option (result Sandbox) * ClaimState) :=
  let statusName := scSandboxName claim in
  if bool_decide (statusName = "") then Ret (None, st)
  else
    r <- call (CGetSandbox (scNamespace claim) statusName);;
    match r with
    | Ok sb =>
        if controlledBy sb claim then
          let warm := bool_decide (mget (scAnnotations claim) AssignedSandboxNameAnnotation = statusName)
                      || bool_decide (mget (scLabels claim) DeprecatedAssignedSandboxNameLabel = statusName)
                      || bool_decide (statusName <> scName claim) in
          r <- initializeSandboxLaunchTypeLabel sb (if warm then SandboxLaunchTypeWarm else SandboxLaunchTypeCold);;
          Ret (Some r, forgetAdoption claim st)
        else Ret (None, st)
    | Err e => Ret (if IsNotFound e then None else Some (Err (Wrap "failed to get sandbox from status" e)), st)
    end.

Definition removeReference (fromLabel : bool) (msg : string) (claim : SandboxClaim) :
    prog ClaimE (SandboxClaim * option gerror) :=
  let claim := set_scMeta (if fromLabel then set_mLabels (delete DeprecatedAssignedSandboxNameLabel)
                           else set_mAnnotations (delete AssignedSandboxNameAnnotation)) claim in
  r <- call (CPatchClaim claim);;
  Ret (match r with Ok c => (c, None) | Err e => (claim, Some (Wrap msg e)) end).

(** A recorded sandbox that a warm pool still controls. *)
Definition finishAdoption (claim : SandboxClaim) (st : ClaimState) (fromLabel : bool) (name : string) (sb : Sandbox) :
    prog ClaimE (option (result Sandbox) * SandboxClaim * ClaimState) :=
  let retry := Some (Err (Wrap name (Sentinel errAdoptionTriggeredRetry))) in
  match verifySandboxCandidate sb claim with
  | Some _ =>
      let! (claim, err) := removeReference fromLabel "failed to remove invalid sandbox reference" claim in
      Ret (match err with Some e => Some (Err e) | None => None end, claim, st)
  | None =>
      if bool_decide (triggeredAdoptions st !! claimKey claim = Some (scUID claim, name)) then Ret (retry, claim, st)
      else
        a <- completeAdoption claim sb;;
        match a with
        | Err e =>
            if IsNotFound e || IsConflict e then Ret (None, claim, st)
            else Ret (Some (Err (Wrap "failed to complete adoption" e)), claim, st)
        | Ok _ =>
            let st := set_triggered <[claimKey claim := (scUID claim, name)]> st in
            claim <- (if fromLabel then migrateLegacyAssignedSandboxLabel claim name else Ret claim);;
            Ret (retry, claim, st)
        end
  end.

Definition fromAssigned (claim : SandboxClaim) (st : ClaimState) :
    prog ClaimE (option (result Sandbox) * SandboxClaim * ClaimState) :=
  let annotated := mget (scAnnotations claim) AssignedSandboxNameAnnotation in
  let name := if bool_decide (annotated = "") then mget (scLabels claim) DeprecatedAssignedSandboxNameLabel
              else annotated in
  let fromLabel := bool_decide (annotated = "") in
  if bool_decide (name = "") then Ret (None, claim, st)
  else
    r <- call (CGetSandbox (scNamespace claim) name);;
    match r with
    | Ok sb =>
        if controlledBy sb claim then
          let st := forgetAdoption claim st in
          claim <- (if fromLabel then migrateLegacyAssignedSandboxLabel claim name else Ret claim);;
          r <- initializeSandboxLaunchTypeLabel sb SandboxLaunchTypeWarm;;
          Ret (Some r, claim, st)
        else
          match GetControllerOf (sbMeta sb) with
          | Some ref =>
              if bool_decide (orKind ref = "SandboxWarmPool") then finishAdoption claim st fromLabel name sb
              else Ret (None, claim, st)
          | None => Ret (None, claim, st)
          end
    | Err e =>
        if IsNotFound e then
          let! (claim, err) := removeReference fromLabel "failed to remove stale sandbox reference from claim metadata" claim in
          Ret (match err with Some e => Some (Err e) | None => None end, claim, st)
        else Ret (Some (Err (Wrap "failed to get sandbox for sandbox name lookup" e)), claim, st)
    end.

Definition fromName (claim : SandboxClaim) : prog ClaimE (option (result Sandbox)) :=
  r <- call (CGetSandbox (scNamespace claim) (scName claim));;
  match r with
  | Err e => Ret (if IsNotFound e then None else Some (Err (Wrap "failed to get sandbox" e)))
  | Ok sb =>
      if controlledBy sb claim then
        r <- initializeSandboxLaunchTypeLabel sb SandboxLaunchTypeCold;; Ret (Some r)
      else Ret (Some (Err (Errorf "sandbox is not controlled by claim")))
  end.

Definition some_result (r : result Sandbox) : result (option Sandbox) :=
  match r with Ok sb => Ok (Some sb) | Err e => Err e end.

Definition getOrCreateSandbox (fuel : nat) (claim : SandboxClaim) (st : ClaimState) :
    prog ClaimE (result (option Sandbox) * SandboxClaim * ClaimState) :=
  let! (found, st) := fromStatus claim st in
  match found with
  | Some r => Ret (some_result r, claim, st)
  | None =>
      let! (found, claim, st) := fromAssigned claim st in
      match found with
      | Some r => Ret (some_result r, claim, st)
      | None =>
          found <- fromName claim;;
          match found with
          | Some r => Ret (some_result r, claim, st)
          | None =>
              if bool_decide (scEnv claim <> []) || bool_decide (scVolumeClaimTemplates claim <> [])
              then Ret (Ok None, claim, st)
              else adoptSandboxFromCandidates fuel claim st
          end
      end
  end.

(** ** Reconcile *)

(** The pod metadata the template and the claim ask for. *)
Definition desiredPodMeta (claim : SandboxClaim) (t : SandboxTemplate) : result PodMetadata :=
  let tm := ptMeta (bpPodTemplate (tplBlueprint t)) in
  mergeMetadata
    (mkPodMetadata (syncCreatedBy claim (<[sandboxTemplateRefHash := SandboxTemplateRefHash (mName (tplMeta t))]>
                      (<[SandboxIDLabel := scUID claim]> (pmLabels tm)))) (pmAnnotations tm))
    (scAdditionalPodMetadata claim).

(** Bring a found sandbox's metadata in line with the template and the claim. *)
Definition syncMetadata (claim : SandboxClaim) (t : SandboxTemplate) (sb : Sandbox) :
    prog ClaimE (option Sandbox * option gerror) :=
  match desiredPodMeta claim t with
  | Err e => Ret (None, Some e)
  | Ok merged =>
      let labels := syncCreatedBy claim (<[sandboxTemplateRefHash := SandboxTemplateRefHash (mName (tplMeta t))]> (sbLabels sb)) in
      if bool_decide (merged = podTemplateMeta sb) && bool_decide (labels = sbLabels sb) then Ret (Some sb, None)
      else
        let new := set_podTemplateMeta (fun _ => merged) (set_sbMeta (set_mLabels (fun _ => labels)) sb) in
        r <- call (CPatchSandbox sb new);;
        Ret (match r with
             | Ok sb' => (Some sb', None)
             | Err e => (Some new, Some (Wrap "failed to patch sandbox metadata for claim" e))
             end)
  end.

Definition reconcileActive (fuel : nat) (claim : SandboxClaim) (st : ClaimState) :
    prog ClaimE (option Sandbox * option gerror * SandboxClaim * ClaimState) :=
  match validateMetadata (scAdditionalPodMetadata claim) with
  | Some e => Ret (None, Some (Join (Sentinel ErrInvalidMetadata) e), claim, st)
  | None =>
      let! (r, claim, st) := getOrCreateSandbox fuel claim st in
      match r with
      | Err e => Ret (None, Some e, claim, st)
      | Ok (Some sb) =>
          template <- getTemplate claim;;
          match template with
          | Err e =>
              let extra := scAdditionalPodMetadata claim in
              if bool_decide (pmLabels extra <> ∅) || bool_decide (pmAnnotations extra <> ∅)
              then Ret (None, Some (Wrap "failed to get template for metadata propagation" e), claim, st)
              else Ret (Some sb, None, claim, st)
          | Ok t => let! (sb, err) := syncMetadata claim t sb in Ret (sb, err, claim, st)
          end
      | Ok None =>
          template <- getTemplate claim;;
          match template with
          | Err e => Ret (None, Some e, claim, st)
          | Ok t =>
              r <- createSandbox claim t;;
              Ret (match r with Ok sb => (Some sb, None, claim, st) | Err e => (None, Some e, claim, st) end)
          end
      end
  end.

Definition reconcileExpired (claim : SandboxClaim) : prog ClaimE (option Sandbox * option gerror) :=
  let statusName := if bool_decide (scSandboxName claim <> "") then scSandboxName claim else scName claim in
  r <- call (CGetSandbox (scNamespace claim) statusName);;
  match r with
  | Err e => Ret (None, if IsNotFound e then None else Some e)
  | Ok sb =>
      if negb (controlledBy sb claim)
      then Ret (None, Some (Wrap "sandbox is not owned by claim" (Sentinel ErrSandboxNotOwned)))
      else if bool_decide (mDeletionTimestamp (sbMeta sb) = None) then
        e <- call (CDeleteSandbox sb);;
        Ret (Some sb, match e with Some x => Some (Wrap "failed to delete expired sandbox" x) | None => None end)
      else Ret (Some sb, None)
  end.

(** Errors here are logged only. *)
Definition cleanupLegacyNetworkPolicy (claim : SandboxClaim) : prog ClaimE unit :=
  r <- call (CGetNetworkPolicy (scNamespace claim) (scName claim +:+ "-network-policy"));;
  match r with
  | Err _ => Ret tt
  | Ok np =>
      match GetControllerOf np with
      | Some ref =>
          if bool_decide (orUID ref = scUID claim) && bool_decide (orKind ref = "SandboxClaim")
          then call (CDeleteNetworkPolicy np);;; Ret tt
          else Ret tt
      | None => Ret tt
      end
  end.

Record Result := mkResult { RequeueAfter : Z; resultErr : option gerror }.

Definition bounded (delay : Z) (r : Z) : Z := if (0 <? r) && (r <? delay) then r else delay.

(** The end of a pass whose status was written. *)
Definition finishResult (claimExpired postExpiration : bool) (postTimeLeft : Z) (reconcileErr : option gerror) : Result :=
  let requeueAfter := if claimExpired then 0
                      else if postExpiration then immediateRequeueDelay
                      else if 0 <? postTimeLeft then postTimeLeft else 0 in
  if errIs reconcileErr ErrWarmPoolNotFound || errIs reconcileErr ErrTemplateNotFound
  then mkResult (bounded time_minute requeueAfter) None
  else if errIs reconcileErr errAdoptionTriggeredRetry
  then mkResult (bounded adoptionCacheLagRequeueDelay requeueAfter) None
  else if shouldSuppressError reconcileErr then mkResult requeueAfter None
  else mkResult requeueAfter reconcileErr.

(** Record the expiry and look again. *)
Definition markExpired (now : Z) (original claim : SandboxClaim) (sandbox : option Sandbox)
    (reconcileErr : option gerror) : prog ClaimE Result :=
  let claim := set_scConditions
                 (fun cs => SetStatusCondition now cs (computeReadyCondition claim sandbox reconcileErr true)) claim in
  let! (_, updateErr) := updateStatus original claim in
  Ret (match updateErr with
       | Some e => mkResult 0 (errors_Join reconcileErr (Some e))
       | None => mkResult immediateRequeueDelay None
       end).

Definition deletesClaim (claim : SandboxClaim) : option bool :=
  match scLifecycle claim with
  | Some l =>
      match clShutdownPolicy l with
      | PolicyDelete => Some false
      | PolicyDeleteForeground => Some true
      | _ => None
      end
  | None => None
  end.

Definition reconcileLive (fuel : nat) (original claim : SandboxClaim) (claimExpired : bool) (st : ClaimState) :
    prog ClaimE (Result * ClaimState) :=
  let! (sandbox, reconcileErr, claim, st) :=
    (if claimExpired then
       let! (sb, err) := reconcileExpired claim in Ret (sb, err, claim, st)
     else reconcileActive fuel claim st) in
  now <- call CNow;;
  let claim := computeAndSetStatus now claim sandbox reconcileErr claimExpired in
  let '(postExpiration, postTimeLeft) := checkExpiration now claim in
  if postExpiration && negb (hasClaimExpiredCondition (scConditions claim)) then
    r <- markExpired now original claim sandbox reconcileErr;; Ret (r, st)
  else
    let! (claim, updateErr) := updateStatus original claim in
    match updateErr with
    | Some e => Ret (mkResult 0 (errors_Join reconcileErr (Some e)), st)
    | None =>
        Ret (finishResult claimExpired postExpiration postTimeLeft reconcileErr,
             recordCreationLatencyMetric original claim st)
    end.

Definition Reconcile (fuel : nat) (ns name : string) (st : ClaimState) : prog ClaimE (Result * ClaimState) :=
  g <- call (CGetClaim ns name);;
  match g with
  | Err e =>
      if IsNotFound e
      then Ret (mkResult 0 None, set_triggered (delete (ns, name)) (set_observed (delete (ns, name)) st))
      else Ret (mkResult 0 (Some (Wrap "failed to get sandbox claim" e)), st)
  | Ok claim =>
      cleanupLegacyNetworkPolicy claim;;;
      if bool_decide (mDeletionTimestamp (scMeta claim) <> None) then Ret (mkResult 0 None, st)
      else
        let! (claim, err, st) := initializeAnnotations claim st in
        match err with
        | Some e => Ret (mkResult 0 (Some e), st)
        | None =>
            now <- call CNow;;
            let '(claimExpired, _) := checkExpiration now claim in
            if claimExpired && negb (hasClaimExpiredCondition (scConditions claim))
            then r <- markExpired now claim claim None None;; Ret (r, st)
            else
              match (if claimExpired then deletesClaim claim else None) with
              | Some foreground =>
                  e <- call (CDeleteClaim claim foreground);; Ret (mkResult 0 (IgnoreNotFound e), st)
              | None => reconcileLive fuel claim claim claimExpired st
              end
        end
  end.

(** ** Event handlers *)

Definition sandboxUpdated (old new : Sandbox) (q : SimpleSandboxQueue) : SimpleSandboxQueue :=
  let adoptable sb := bool_decide (isAdoptable sb = None) in
  let poolChanged := bool_decide (getWarmPoolName (sbMeta old) <> getWarmPoolName (sbMeta new)) in
  let nodeScheduled := bool_decide (stNodeName (sbStatus old) <> stNodeName (sbStatus new)) in
  if (negb (adoptable old) && adoptable new) || (adoptable new && poolChanged) || (adoptable new && nodeScheduled) then
    let pool := getWarmPoolName (sbMeta new) in
    if bool_decide (pool <> "")
    then Add (GetNamespacedWarmPoolName (sbNamespace new) pool)
           (mkKey (sbNamespace new) (sbName new) (stNodeName (sbStatus new))) q
    else q
  else q.

Definition sandboxCreated (new : Sandbox) (q : SimpleSandboxQueue) : SimpleSandboxQueue :=
  sandboxUpdated emptySandbox new q.

Definition sandboxDeleted (sb : Sandbox) (q : SimpleSandboxQueue) : SimpleSandboxQueue :=
  let pool := getWarmPoolName (sbMeta sb) in
  if bool_decide (pool <> "")
  then RemoveItem (GetNamespacedWarmPoolName (sbNamespace sb) pool) (mkKey (sbNamespace sb) (sbName sb) "") q
  else q.

Definition warmPoolDeleted (wp : SandboxWarmPool) (q : SimpleSandboxQueue) : SimpleSandboxQueue :=
  RemoveQueue (GetNamespacedWarmPoolName (wpNamespace wp) (wpName wp)) q.

(** The index over the claims, and the claims a pool's event is mapped to, given
    the indexed listing of the pool's namespace. *)
Definition indexWarmPoolRef (claim : SandboxClaim) : list string :=
  if bool_decide (scWarmPoolRef claim = "") then [] else [scWarmPoolRef claim].

Definition mapWarmPoolToClaims (listed : result (list SandboxClaim)) : list (string * string) :=
  match listed with
  | Err _ => []
  | Ok claims => (fun c => (scNamespace c, scName c)) <$> claims
  end.

End controller.

End ClaimController.
