(* ===== verification/ClaimFacts.v ===== *)
(** * ClaimFacts: what the SandboxClaim controller guarantees.

    Every write it makes is to its own claim, to a sandbox it controls or to a
    warm candidate it may adopt; the search for a candidate loses no sandbox of
    the queue and prefers ready ones; a claim's metadata, variables and volumes
    stay within what the template allows.  The search is proved against the
    class [WarmQueue] of what a queue promises, which the queue of Queue.v
    implements. *)

From S2P Require Import Prelude GoStrings Queue K8s Types SandboxModel WarmPool ClaimModel.

Module ClaimFacts.
Import SandboxController (NameHash, hasSystemReservedPrefix).
Import WarmPoolController SandboxQueue ClaimController.
#[local] Open Scope prog_scope.

(** ** The queue interface *)

Class WarmQueue (Q : Type) := {
  qGet : string -> strategy -> Q -> (SandboxKey * bool) * Q;
  qAdd : string -> SandboxKey -> Q -> Q;
  qKeys : Q -> string -> list SandboxKey;
  qOk : Q -> Prop;
}.

Class WarmQueueLaws (Q : Type) `{WarmQueue Q} : Prop := {
  qKeys_ok q pool : qOk q -> Forall valid_key (qKeys q pool) /\ NoDup (uniqueID <$> qKeys q pool);
  qGet_spec q pool pick :
    qOk q -> (forall l k, pick l = (k, true) -> k ∈ l) ->
    (qGet pool pick q).1 = (spec_pick pick (qKeys q pool)).1 /\
    qKeys (qGet pool pick q).2 pool = (spec_pick pick (qKeys q pool)).2 /\
    qOk (qGet pool pick q).2;
  qAdd_spec q pool k :
    qOk q -> valid_key k ->
    qKeys (qAdd pool k q) pool = spec_push k (qKeys q pool) /\ qOk (qAdd pool k q);
}.

(** The queue of the repository; its loop needs one round. *)
#[export] Instance simple_queue : WarmQueue SimpleSandboxQueue := {|
  qGet pool pick q := default ((zeroKey, false), q) (GetWithStrategy 1 pool pick q);
  qAdd := Add;
  qKeys q pool := items (default newSynchronizedQueue (q !! pool));
  qOk q := forall pool, wf (default newSynchronizedQueue (q !! pool));
|}.

#[export] Instance simple_queue_laws : WarmQueueLaws SimpleSandboxQueue.
Proof.
  split; cbn [qGet qAdd qKeys qOk simple_queue].
  - intros q pool Hq. by destruct (Hq pool).
  - intros q pool pick Hq Hp. unfold GetWithStrategy.
    destruct (q !! pool) as [sq|] eqn:E; [|by cbn; rewrite E].
    pose proof (Hq pool) as Hw. rewrite E in Hw. cbn in Hw |- *.
    destruct (PopWithStrategy_spec pick sq Hw Hp) as (sq' & He & Hi & Hw'). cbn in He. rewrite He. cbn.
    rewrite lookup_insert_eq. split_and!; [done|done|]. intros pool'.
    destruct (decide (pool' = pool)) as [->|]; [by rewrite lookup_insert_eq|].
    rewrite lookup_insert_ne by done. apply Hq.
  - intros q pool k Hq Hk. unfold Add.
    destruct (exec_spec (OpPush k) _ (Hq pool) Hk) as (sq' & He & Hi & Hw'). injection He as <-.
    rewrite lookup_insert_eq. split; [done|]. intros pool'.
    destruct (decide (pool' = pool)) as [->|]; [by rewrite lookup_insert_eq|].
    rewrite lookup_insert_ne by done. apply Hq.
Qed.

(** ** Picking *)

Lemma fold_max_in (f : SandboxKey -> nat) l :
  l <> [] -> exists k, k ∈ l /\ f k = fold_right Nat.max 0%nat (f <$> l).
Proof.
  induction l as [|k l IH]; [done|]. intros _. csimpl.
  destruct l as [|k' l']; [exists k; split; [by left|]; simpl; lia|].
  destruct IH as (k2 & Hin & Hk2); [done|].
  destruct (Nat.max_spec (f k) (fold_right Nat.max 0%nat (f <$> k' :: l'))) as [[_ ->]|[_ ->]];
    [exists k2; split; [by right|done]|exists k; split; [by left|done]].
Qed.

Lemma maxCount_in l : l <> [] -> exists k, k ∈ l /\ nodeCount l (NodeName k) = maxCount l.
Proof. apply (fold_max_in (fun k => nodeCount l (NodeName k))). Qed.

Lemma hd_filter_in (P : SandboxKey -> Prop) `{!forall k, Decision (P k)} l :
  (exists k, k ∈ l /\ P k) -> hd zeroKey (filter P l) ∈ l.
Proof.
  intros (k & Hin & HP). assert (k ∈ filter P l) as Hk by (by apply list_elem_of_filter).
  destruct (filter P l) as [|k0 l0] eqn:E; [by apply elem_of_nil in Hk|]. simpl.
  assert (k0 ∈ filter P l) as H0 by (rewrite E; by left). by apply list_elem_of_filter in H0 as [_ ?].
Qed.

(** A non-empty snapshot always yields one of its keys. *)
Lemma pickSmart_total l : l <> [] -> exists k, pickSmart l = (k, true) /\ k ∈ l.
Proof.
  destruct l as [|k [|k' l]]; [done|eexists; split; [done|by left]|]. intros _.
  unfold pickSmart. set (keys := k :: k' :: l).
  destruct (filter (fun k => NodeName k <> "") keys) as [|s ss] eqn:Es.
  - eexists; split; [done|]. apply hd_filter_in. exists k. split; [by left|].
    destruct (decide (NodeName k = "")) as [|Hne]; [done|]. exfalso.
    assert (k ∈ filter (fun k => NodeName k <> "") keys) as Hf by (apply list_elem_of_filter; split; [done|by left]).
    rewrite Es in Hf. by apply elem_of_nil in Hf.
  - eexists; split; [done|].
    assert (hd zeroKey (filter (fun k0 => nodeCount (s :: ss) (NodeName k0) = maxCount (s :: ss)) (s :: ss)) ∈ s :: ss)
      as Hin by (by apply hd_filter_in, maxCount_in).
    revert Hin. generalize (hd zeroKey (filter (fun k0 => nodeCount (s :: ss) (NodeName k0) = maxCount (s :: ss)) (s :: ss))).
    intros x Hx. rewrite <-Es in Hx. by apply list_elem_of_filter in Hx as [_ ?].
Qed.

Lemma pickSmart_chooses l k : pickSmart l = (k, true) -> k ∈ l.
Proof.
  destruct (decide (l = [])) as [->|Hne]; [done|].
  destruct (pickSmart_total l Hne) as (k' & Hp & Hin). rewrite Hp. by intros [= ->].
Qed.

(** ** The search for a candidate *)

Lemma drop_first_perm key l :
  Forall valid_key l -> NoDup (uniqueID <$> l) -> key ∈ l -> l ≡ₚ key :: drop_first key l.
Proof.
  intros Hv Hnd Hin. induction l as [|k l IH]; [by apply elem_of_nil in Hin|].
  inversion Hv as [|?? Hk Hv']; subst. csimpl in Hnd. inversion Hnd as [|?? Hnin Hnd']; subst. simpl.
  apply elem_of_cons in Hin as [->|Hin].
  - rewrite (same_sandbox_spec k k), bool_decide_true by done. done.
  - assert (valid_key key) as Hkey by (by eapply Forall_forall in Hv').
    rewrite (same_sandbox_spec k key), bool_decide_false.
    + rewrite (IH Hv' Hnd' Hin) at 1. apply Permutation_swap.
    + intros E. apply Hnin. rewrite E. by apply list_elem_of_fmap_2.
    + done.
    + done.
Qed.

Section search.
Context `{WarmQueueLaws Q} `{OwnerLib}.
Context (get : string -> string -> result Sandbox) (claim : SandboxClaim).

(** The API answers from [get]; the queue is nobody else's meanwhile. *)
Definition search_env : handler ClaimE Q := fun X e =>
  match e in ClaimE X return Q -> X * Q with
  | CNow => fun q => (0, q)
  | CGetClaim _ name => fun q => (Err (APIStatus ReasonNotFound name), q)
  | CPatchClaim c | CUpdateClaim c => fun q => (Ok c, q)
  | CPatchClaimStatus _ | CDeleteClaim _ _ | CDeleteSandbox _ | CDeleteNetworkPolicy _ => fun q => (None, q)
  | CGetSandbox ns name => fun q => (get ns name, q)
  | CPatchSandbox _ sb | CCreateSandbox sb => fun q => (Ok sb, q)
  | CGetWarmPool _ name => fun q => (Err (APIStatus ReasonNotFound name), q)
  | CGetTemplate _ name => fun q => (Err (APIStatus ReasonNotFound name), q)
  | CGetNetworkPolicy _ name => fun q => (Err (APIStatus ReasonNotFound name), q)
  | CQueueGet pool pick => qGet pool pick
  | CQueueAdd pool key => fun q => (tt, qAdd pool key q)
  end.

Definition fetched (k : SandboxKey) : result Sandbox := get (Namespace k) (Name k).

(** A key the search may forget: its sandbox is gone or cannot be adopted. *)
Definition useless (k : SandboxKey) : Prop :=
  match fetched k with
  | Err e => IsNotFound e = true
  | Ok sb => exists e, verifySandboxCandidate sb claim = Some e /\ errors_Is e ErrCrossNamespaceAdoption = false
  end.

(** No ready candidate behind this key. *)
Definition not_better (k : SandboxKey) : Prop :=
  forall sb, fetched k = Ok sb -> verifySandboxCandidate sb claim = None -> isSandboxReady sb = false.

Definition outcome_ok (r : result (option (Sandbox * SandboxKey))) (all : list SandboxKey) : Prop :=
  match r with
  | Err e => exists k, k ∈ all /\ fetched k = Err e /\ IsNotFound e = false
  | Ok None =>
      Forall (fun k => forall sb, fetched k = Ok sb -> verifySandboxCandidate sb claim <> None) all
  | Ok (Some (sb, k)) =>
      fetched k = Ok sb /\ verifySandboxCandidate sb claim = None /\
      (isSandboxReady sb = false -> Forall not_better all)
  end.

Definition taken (r : result (option (Sandbox * SandboxKey))) : list SandboxKey :=
  match r with Ok (Some (_, k)) => [k] | _ => [] end.

Lemma addAll_run pool ks q :
  qOk q -> Forall valid_key (qKeys q pool ++ ks) -> NoDup (uniqueID <$> qKeys q pool ++ ks) ->
  exists q', run search_env (addAll pool ks) q = (tt, q') /\ qOk q' /\ qKeys q' pool = qKeys q pool ++ ks.
Proof.
  revert q. induction ks as [|k ks IH]; intros q Hq Hv Hnd.
  - exists q. by rewrite app_nil_r.
  - apply Forall_app in Hv as [Hv1 Hv2]. inversion Hv2 as [|?? Hk Hv3]; subst.
    destruct (qAdd_spec q pool k Hq Hk) as [Hkeys Hok].
    assert (qKeys (qAdd pool k q) pool = qKeys q pool ++ [k]) as Hadd.
    { rewrite Hkeys. unfold spec_push. rewrite spec_mem_iff by done.
      rewrite bool_decide_false; [done|]. intros Hin.
      rewrite fmap_app in Hnd. apply NoDup_app in Hnd as (_ & Hd & _). apply (Hd _ Hin). by left. }
    destruct (IH (qAdd pool k q) Hok) as (q' & Hr & Hok' & Hk').
    { rewrite Hadd, <-app_assoc. by apply Forall_app. }
    { by rewrite Hadd, <-app_assoc. }
    exists q'. split_and!; [exact Hr|done|]. by rewrite Hk', Hadd, <-app_assoc.
Qed.

Lemma requeue_run {A} pool skipped parked (r : A) q :
  qOk q -> Forall valid_key (qKeys q pool ++ skipped ++ option_list parked) ->
  NoDup (uniqueID <$> qKeys q pool ++ skipped ++ option_list parked) ->
  exists q', run search_env (requeue pool skipped parked r) q = (r, q') /\ qOk q' /\
             qKeys q' pool = qKeys q pool ++ skipped ++ option_list parked.
Proof.
  intros Hq Hv Hnd. unfold requeue. rewrite app_assoc in Hv, Hnd. rewrite run_bind.
  destruct (addAll_run pool skipped q Hq) as (q1 & -> & Hok1 & Hk1).
  { by apply Forall_app in Hv as [? _]. }
  { rewrite fmap_app in Hnd. by apply NoDup_app in Hnd as (? & _). }
  rewrite run_bind. destruct (addAll_run pool (option_list parked) q1 Hok1) as (q2 & -> & Hok2 & Hk2);
    [by rewrite Hk1..|].
  exists q2. split_and!; [done|done|]. by rewrite Hk2, Hk1, app_assoc.
Qed.

Lemma get_run pool q :
  qOk q ->
  (qKeys q pool = [] /\ exists k q1, qGet pool pickSmart q = ((k, false), q1) /\ qOk q1 /\ qKeys q1 pool = []) \/
  (exists key q1, qGet pool pickSmart q = ((key, true), q1) /\ qOk q1 /\ qKeys q pool ≡ₚ key :: qKeys q1 pool).
Proof.
  intros Hq. destruct (qGet_spec q pool pickSmart Hq pickSmart_chooses) as (Hr & Hk & Hok).
  destruct (qKeys_ok q pool Hq) as [Hv Hnd].
  destruct (qGet pool pickSmart q) as [r q1]. cbn [fst snd] in *.
  destruct (decide (qKeys q pool = [])) as [E|Hne].
  - left. rewrite E in *. split; [done|]. cbn in Hr, Hk. subst r. by eexists _, q1.
  - right. destruct (pickSmart_total _ Hne) as (key & Hp & Hin).
    assert (spec_pick pickSmart (qKeys q pool) = ((key, true), drop_first key (qKeys q pool))) as Hs.
    { unfold spec_pick. rewrite Hp. by destruct (qKeys q pool). }
    rewrite Hs in Hr, Hk. cbn in Hr, Hk. subst r. exists key, q1. split_and!; [done..|].
    rewrite Hk. by apply drop_first_perm.
Qed.

(** The keys the search is answerable for: queued, skipped or parked. *)
Definition in_hand (pool : string) (skipped : list SandboxKey) (fallback : option (Sandbox * SandboxKey)) (q : Q) :=
  qKeys q pool ++ skipped ++ option_list (snd <$> fallback).

Definition unfit (k : SandboxKey) : Prop :=
  forall sb, fetched k = Ok sb -> verifySandboxCandidate sb claim <> None.

Record search_inv (pool : string) (skipped : list SandboxKey) (fallback : option (Sandbox * SandboxKey)) (q : Q) : Prop := {
  inv_ok : qOk q;
  inv_valid : Forall valid_key (in_hand pool skipped fallback q);
  inv_nodup : NoDup (uniqueID <$> in_hand pool skipped fallback q);
  inv_skipped : Forall not_better skipped;
  inv_unfit : fallback = None -> Forall unfit skipped;
  inv_fallback : forall sb k, fallback = Some (sb, k) ->
    fetched k = Ok sb /\ verifySandboxCandidate sb claim = None /\ isSandboxReady sb = false;
}.

Lemma unfit_not_better k : unfit k -> not_better k.
Proof. intros Hu sb Hf Hv. by destruct (Hu sb Hf). Qed.

Lemma useless_unfit k : useless k -> unfit k.
Proof. unfold useless, unfit. intros Hu sb Hf. rewrite Hf in Hu. destruct Hu as (e & -> & _). done. Qed.

Lemma outcome_perm r l l' : l ≡ₚ l' -> outcome_ok r l -> outcome_ok r l'.
Proof.
  intros Hp. destruct r as [[[sb k]|]|e]; cbn; [| |].
  - intros (? & ? & Hb). split_and!; [done..|]. intros Hr. specialize (Hb Hr). by rewrite <-Hp.
  - intros Hf. by rewrite <-Hp.
  - intros (k & Hin & ?). exists k. by rewrite <-Hp.
Qed.

Lemma outcome_cons r l k : useless k -> outcome_ok r l -> outcome_ok r (k :: l).
Proof.
  intros Hu%useless_unfit. destruct r as [[[sb k']|]|e]; cbn.
  - intros (? & ? & Hb). split_and!; [done..|]. intros Hr. constructor; [by apply unfit_not_better|auto].
  - intros Hf. by constructor.
  - intros (k' & Hin & ?). exists k'. split; [by right|done].
Qed.

(** Where the keys go, and what the answer is worth. *)
Definition search_post (pool : string) (all : list SandboxKey) (out : result (option (Sandbox * SandboxKey)) * Q) : Prop :=
  exists dropped, all ≡ₚ qKeys out.2 pool ++ dropped ++ taken out.1 /\ Forall useless dropped /\
    outcome_ok out.1 all /\ qOk out.2.

(** Moving a key out of the queue keeps the invariant if it stays in hand. *)
Lemma inv_move pool skipped fallback q skipped' fallback' q1 :
  search_inv pool skipped fallback q -> qOk q1 ->
  in_hand pool skipped fallback q ≡ₚ in_hand pool skipped' fallback' q1 ->
  Forall not_better skipped' -> (fallback' = None -> Forall unfit skipped') ->
  (forall sb k, fallback' = Some (sb, k) ->
     fetched k = Ok sb /\ verifySandboxCandidate sb claim = None /\ isSandboxReady sb = false) ->
  search_inv pool skipped' fallback' q1.
Proof.
  intros [] Hok Hp Hn Hu Hf. split; [done|by rewrite <-Hp|by rewrite <-Hp|done..].
Qed.

Lemma inv_drop pool skipped fallback q key q1 :
  search_inv pool skipped fallback q -> qOk q1 -> qKeys q pool ≡ₚ key :: qKeys q1 pool ->
  search_inv pool skipped fallback q1.
Proof.
  intros [Hok Hv Hnd Hs Hu Hf] Hok1 Hp. unfold in_hand in *. rewrite Hp in Hv, Hnd. csimpl in Hnd.
  inversion Hv; inversion Hnd; subst. split; done.
Qed.

Lemma post_drop pool skipped fallback q key q1 out :
  qKeys q pool ≡ₚ key :: qKeys q1 pool -> useless key ->
  search_post pool (in_hand pool skipped fallback q1) out -> search_post pool (in_hand pool skipped fallback q) out.
Proof.
  intros Hp Hk (dropped & Hall & Hd & Ho & Hok). exists (key :: dropped).
  assert (in_hand pool skipped fallback q ≡ₚ key :: in_hand pool skipped fallback q1) as Hih
    by (unfold in_hand; by rewrite Hp).
  split_and!; [|by constructor| |done].
  - rewrite Hih, Hall. solve_Permutation.
  - eapply outcome_perm; [symmetry; exact Hih|]. by apply outcome_cons.
Qed.

Lemma post_move pool all all' out : all ≡ₚ all' -> search_post pool all' out -> search_post pool all out.
Proof.
  intros Hp (dropped & Hall & Hd & Ho & Hok). exists dropped.
  split_and!; [by rewrite Hp|done| |done]. by eapply outcome_perm.
Qed.

(** The final requeue puts back all that is in hand and not taken. *)
Lemma post_requeue pool skipped parked r q all :
  qOk q -> Forall valid_key all -> NoDup (uniqueID <$> all) ->
  all ≡ₚ (qKeys q pool ++ skipped ++ option_list parked) ++ taken r -> outcome_ok r all ->
  search_post pool all (run search_env (requeue pool skipped parked r) q).
Proof.
  intros Hok Hv Hnd Hall Ho. rewrite Hall in Hv, Hnd. apply Forall_app in Hv as [Hv _].
  rewrite fmap_app in Hnd. apply NoDup_app in Hnd as (Hnd & _).
  destruct (requeue_run pool skipped parked r q Hok Hv Hnd) as (q' & -> & Hok' & Hk).
  exists []. cbn [fst snd]. split_and!; [|done|done|done]. by rewrite Hk, Hall.
Qed.

Lemma candidate_loop_run fuel pool skipped fallback q :
  search_inv pool skipped fallback q -> (length (qKeys q pool) < fuel)%nat ->
  search_post pool (in_hand pool skipped fallback q)
    (run search_env (candidate_loop fuel claim pool skipped fallback) q).
Proof.
  revert skipped fallback q. induction fuel as [|fuel IH]; intros skipped fallback q Hinv Hlen; [lia|].
  pose proof Hinv as [Hok Hv Hnd Hs Hu Hf]. cbn [candidate_loop]. rewrite run_bind. cbn [run search_env call].
  destruct (get_run pool q Hok) as [(E & k & q1 & -> & Hok1 & E1)|(key & q1 & -> & Hok1 & Hp)]; cbn [negb].
  { apply post_requeue; [done..| |]; unfold in_hand; rewrite ?E1, E; cbn [app option_list].
    - destruct fallback as [[sb k']|]; simpl; solve_Permutation.
    - destruct fallback as [[sb k']|]; cbn.
      + destruct (Hf _ _ eq_refl) as (Hg & Hver & Hr). split_and!; [done..|]. intros _.
        apply Forall_app; split; [done|]. constructor; [|done]. intros sb' Hg'. rewrite Hg in Hg'. by injection Hg' as <-.
      + rewrite app_nil_r. by apply Hu. }
  assert ((length (qKeys q1 pool) < fuel)%nat) as Hlen1 by (apply Permutation_length in Hp; simpl in Hp; lia).
  rewrite run_bind. cbn [run search_env call]. fold (fetched key).
  destruct (fetched key) as [sb|e] eqn:Eg.
  - destruct (verifySandboxCandidate sb claim) as [e|] eqn:Ev.
    + destruct (errors_Is e ErrCrossNamespaceAdoption) eqn:Ec.
      * eapply (post_move _ _ (in_hand pool (skipped ++ [key]) fallback q1)); [|apply IH; [|done]];
          [unfold in_hand; rewrite Hp; solve_Permutation|].
        assert (unfit key) as Huk by (intros sb' Hg; rewrite Eg in Hg; injection Hg as <-; by rewrite Ev).
        eapply inv_move; [done|done|unfold in_hand; rewrite Hp; solve_Permutation| | |done].
        -- apply Forall_app; split; [done|]. constructor; [by apply unfit_not_better|done].
        -- intros Hn. apply Forall_app; split; [by apply Hu|by constructor].
      * eapply post_drop; [done| |apply IH; [by eapply inv_drop|done]]. unfold useless. rewrite Eg. by exists e.
    + destruct (isSandboxReady sb) eqn:Er.
      * apply post_requeue; [done..| |].
        -- unfold in_hand. rewrite Hp. simpl. solve_Permutation.
        -- cbn. split_and!; [done..|]. by rewrite Er.
      * assert (not_better key) as Hk by (intros sb' Hg; rewrite Eg in Hg; by injection Hg as <-).
        destruct fallback as [fb|].
        -- eapply (post_move _ _ (in_hand pool (skipped ++ [key]) (Some fb) q1)); [|apply IH; [|done]];
             [unfold in_hand; rewrite Hp; solve_Permutation|].
           eapply inv_move; [done|done|unfold in_hand; rewrite Hp; solve_Permutation| |done|done].
           apply Forall_app; split; [done|by constructor].
        -- eapply (post_move _ _ (in_hand pool skipped (Some (sb, key)) q1)); [|apply IH; [|done]];
             [unfold in_hand; rewrite Hp; simpl; solve_Permutation|].
           eapply inv_move; [done|done|unfold in_hand; rewrite Hp; simpl; solve_Permutation|done|done|].
           by intros ? ? [= <- <-].
  - destruct (IsNotFound e) eqn:En.
    + eapply post_drop; [done| |apply IH; [by eapply inv_drop|done]]. unfold useless. by rewrite Eg.
    + rewrite run_bind. cbn [run search_env call].
      assert (valid_key key) as Hvk.
      { unfold in_hand in Hv. rewrite Hp in Hv. by inversion Hv. }
      destruct (addAll_run pool [key] q1 Hok1) as (q2 & Hr & Hok2 & Hk2).
      { unfold in_hand in Hv. rewrite Hp in Hv. inversion Hv as [|?? _ Hv']; subst.
        apply Forall_app in Hv' as [? _]. apply Forall_app; split; [done|by constructor]. }
      { unfold in_hand in Hnd. rewrite fmap_app in Hnd. apply NoDup_app in Hnd as (Hnd & _).
        rewrite Hp in Hnd. rewrite <-(Permutation_cons_append). done. }
      injection Hr as ->. apply post_requeue; [done..| |].
      * unfold in_hand. rewrite Hk2, Hp. simpl. solve_Permutation.
      * cbn. exists key. split_and!; [|done..]. unfold in_hand. rewrite Hp. by left.
Qed.

(** C10.  The search for a warm sandbox returns and loses nothing: with as many
    rounds as there are queued keys, and one more, every key that was queued is
    afterwards queued again, or taken, or its sandbox is gone or not adoptable; a
    taken sandbox is the one behind its key and may be adopted, and an unready
    one is taken only if no ready one was queued; nothing is taken only if no
    queued sandbox was adoptable; an error is a failed lookup. *)
Theorem candidates_conserved fuel q :
  qOk q -> (length (qKeys q (warmPoolKey claim)) < fuel)%nat ->
  let '(r, q') := run search_env (getCandidate fuel claim) q in
  let queued := qKeys q (warmPoolKey claim) in
  qOk q' /\ outcome_ok r queued /\
  exists dropped, queued ≡ₚ qKeys q' (warmPoolKey claim) ++ dropped ++ taken r /\ Forall useless dropped.
Proof.
  intros Hq Hlen. unfold getCandidate. destruct (qKeys_ok q (warmPoolKey claim) Hq) as [Hv Hnd].
  destruct (candidate_loop_run fuel (warmPoolKey claim) [] None q) as (dropped & Hall & Hd & Ho & Hok);
    [split; unfold in_hand; simpl; rewrite ?app_nil_r; done|done|].
  unfold in_hand in *. simpl in Hall, Ho. rewrite app_nil_r in Hall, Ho.
  destruct (run _ _ q) as [r q']. cbn [fst snd] in *. split_and!; [done..|]. by exists dropped.
Qed.
End search.

(** ** Ownership safety *)

Section safety.
Context `{ConditionLib} `{OwnerLaws}.
Context (IsQualifiedName IsValidLabelValue : string -> bool) (AllowedLabelDomains : list string).
Context (formatTime : Z -> string) (traceContext : string).
Context (uid ns name pool : string).

#[local] Abbreviation complete := (completeAdoption IsQualifiedName IsValidLabelValue AllowedLabelDomains).

Definition owned (m : ObjectMeta) : Prop := IsControlledBy m uid = true.

(** A live member of the claim's own warm pool, in the claim's namespace. *)
Definition adoptable_here (sb : Sandbox) : Prop :=
  sbNamespace sb = ns /\ isAdoptable sb = None /\ getWarmPoolName (sbMeta sb) = pool /\ pool <> "".

Definition is_claim (c : SandboxClaim) : Prop :=
  scUID c = uid /\ scNamespace c = ns /\ scName c = name /\ scWarmPoolRef c = pool.

Definition claim_writes_ok (X : Type) (e : ClaimE X) : Prop :=
  match e with
  | CPatchClaim c | CUpdateClaim c | CPatchClaimStatus c => scUID c = uid
  | CDeleteClaim c foreground =>
      scUID c = uid /\ hasClaimExpiredCondition (scConditions c) = true /\ deletesClaim c = Some foreground
  | CPatchSandbox old new => (owned (sbMeta old) \/ adoptable_here old) /\ owned (sbMeta new)
  | CCreateSandbox sb => owned (sbMeta sb) /\ sbNamespace sb = ns /\ sbName sb = name
  | CDeleteSandbox sb => owned (sbMeta sb)
  | CDeleteNetworkPolicy m => owned m
  | _ => True
  end.

(** The API answers the claim asked for; writes keep a claim's identity and a
    sandbox's owner references. *)
Definition claim_answers (X : Type) (e : ClaimE X) : X -> Prop :=
  match e in ClaimE X return X -> Prop with
  | CGetClaim _ _ => fun a => forall c, a = Ok c -> is_claim c
  | CPatchClaim c | CUpdateClaim c => fun a => forall c', a = Ok c' -> is_claim c -> is_claim c'
  | CPatchSandbox _ sb => fun a => forall sb', a = Ok sb' ->
      mOwnerReferences (sbMeta sb') = mOwnerReferences (sbMeta sb)
  | CCreateSandbox sb => fun a => forall sb', a = Ok sb' ->
      mOwnerReferences (sbMeta sb') = mOwnerReferences (sbMeta sb)
  | _ => fun _ => True
  end.

#[local] Abbreviation safe post p := (spec claim_writes_ok claim_answers post p).

Definition ours_if_ok (r : result Sandbox) : Prop := forall sb, r = Ok sb -> owned (sbMeta sb).

Lemma owned_refs m m' : mOwnerReferences m' = mOwnerReferences m -> owned m -> owned m'.
Proof. intros Hr. unfold owned, IsControlledBy. by rewrite (controller_refs _ _ Hr). Qed.

Lemma set_owned c m m' : is_claim c -> SetControllerReference (claimOwner c) m = Ok m' -> owned m'.
Proof.
  intros [Hu _] Hs. destruct (set_controller_Ok _ _ _ Hs) as (r & Hr & Huid & _).
  unfold owned, IsControlledBy. rewrite Hr, Huid. by apply bool_decide_eq_true.
Qed.

Lemma verified_here c sb : is_claim c -> verifySandboxCandidate sb c = None -> adoptable_here sb.
Proof.
  intros (Hu & Hn & _ & Hp). unfold verifySandboxCandidate.
  case_bool_decide as Hns; [done|]. destruct (isAdoptable sb) eqn:Ea; [done|].
  case_bool_decide as E1; [done|]. case_bool_decide as E2; [done|]. intros _.
  rewrite Hn in Hns. rewrite Hp in E2. split_and!; [done|done|done|congruence].
Qed.

Lemma getTemplate_safe c : safe (fun _ => True) (getTemplate c).
Proof. unfold getTemplate. split; [done|]. intros [wp|e] _; simpl; [|done]. by split. Qed.

Lemma adoptedObject_owned c sb sb' : is_claim c -> adoptedObject c sb = Ok sb' -> owned (sbMeta sb').
Proof.
  intros Hc. unfold adoptedObject. destruct (SetControllerReference _ _) as [m|] eqn:Es; [|done].
  intros [= <-]. eapply owned_refs; [|by eapply set_owned]. done.
Qed.

Lemma patch_safe old new (k : result Sandbox -> result Sandbox) :
  owned (sbMeta old) \/ adoptable_here old -> owned (sbMeta new) ->
  (forall sb, k (Ok sb) = Ok sb) -> (forall e, isOk (k (Err e)) = false) ->
  safe ours_if_ok (r <- call (CPatchSandbox old new);; Ret (k r)).
Proof.
  intros Ho Hn Hk He. split; [done|]. intros [sb|e] Ha; simpl.
  - rewrite Hk. intros sb' [= <-]. eapply owned_refs; [|exact Hn]. by apply Ha.
  - intros sb' Hsb. specialize (He e). by rewrite Hsb in He.
Qed.

Lemma completeAdoption_safe c sb :
  is_claim c -> adoptable_here sb -> safe ours_if_ok (complete c sb).
Proof.
  intros Hc Ha. unfold completeAdoption. destruct (adoptedObject c sb) as [adopted|] eqn:Eo; [|done].
  pose proof (adoptedObject_owned _ _ _ Hc Eo) as Hown.
  eapply spec_bind; [apply getTemplate_safe|]. intros t _.
  destruct (mergePodMetadata _ _ _ _ _) as [merged|e]; [|done].
  split; [split; [by right|by eapply (owned_refs (sbMeta adopted))]|]. intros [sb'|e] Hr; simpl; [|done].
  intros ? [= <-]. eapply owned_refs; [|exact Hown]. rewrite (Hr sb' eq_refl). done.
Qed.

Lemma initLabel_safe sb lt : owned (sbMeta sb) -> safe ours_if_ok (initializeSandboxLaunchTypeLabel sb lt).
Proof.
  intros Ho. unfold initializeSandboxLaunchTypeLabel. destruct (mhas _ _); [by intros ? [= <-]|].
  apply patch_safe; [by left|by eapply (owned_refs (sbMeta sb))|done|done].
Qed.

Lemma migrate_safe c n : is_claim c -> safe is_claim (migrateLegacyAssignedSandboxLabel c n).
Proof.
  intros Hc. unfold migrateLegacyAssignedSandboxLabel. split; [by destruct Hc|].
  intros [c'|e] Hr; simpl; [|done]. by apply (Hr c').
Qed.

Lemma removeReference_safe b m c :
  is_claim c -> safe (fun r => is_claim r.1) (removeReference b m c).
Proof.
  intros Hc. unfold removeReference. destruct b; (split; [by destruct Hc|]); intros [c'|e] Hr; simpl;
    done || by apply (Hr c').
Qed.

Lemma addAll_safe p ks : safe (fun _ => True) (addAll p ks).
Proof. induction ks; simpl; done. Qed.

Lemma requeue_safe {A} p skipped parked (r : A) (post : A -> Prop) :
  post r -> safe post (requeue p skipped parked r).
Proof.
  intros Hr. unfold requeue. eapply spec_bind; [apply addAll_safe|]. intros _ _.
  eapply spec_bind; [apply addAll_safe|]. by intros _ _.
Qed.

Definition candidate_good (r : result (option (Sandbox * SandboxKey))) : Prop :=
  forall sb k, r = Ok (Some (sb, k)) -> adoptable_here sb.

Lemma getCandidate_safe fuel c : is_claim c -> safe candidate_good (getCandidate fuel c).
Proof.
  intros Hc. unfold getCandidate.
  assert (forall sb k, (None : option (Sandbox * SandboxKey)) = Some (sb, k) -> adoptable_here sb) as Hf by done.
  revert Hf. generalize (None : option (Sandbox * SandboxKey)) as fb, ([] : list SandboxKey) as skipped.
  induction fuel as [|fuel IH]; intros fb skipped Hf; cbn [candidate_loop]; [by apply requeue_safe|].
  split; [done|]. intros [key []] _; simpl; [|apply requeue_safe; intros ? ? [= ->]; by eapply Hf].
  split; [done|]. intros [sb|e] _; simpl.
  - destruct (verifySandboxCandidate sb c) as [e|] eqn:Ev; [by apply IH|].
    pose proof (verified_here c sb Hc Ev) as Hh.
    destruct (isSandboxReady sb); [apply requeue_safe; by intros ? ? [= <- <-]|].
    destruct fb as [fb|]; apply IH; [done|by intros ? ? [= <- <-]].
  - destruct (IsNotFound e); [by apply IH|]. simpl. split; [done|]. intros _ _. by apply requeue_safe.
Qed.

Lemma tryAdopt_safe p c sb key st :
  is_claim c -> adoptable_here sb ->
  safe (fun r => is_claim r.1.2 /\ forall sb', r.1.1 = Ok (Some sb') -> owned (sbMeta sb'))
    (tryAdopt IsQualifiedName IsValidLabelValue AllowedLabelDomains p c sb key st).
Proof.
  intros Hc Ha. unfold tryAdopt. cbn [bind call]. split; [by destruct Hc|]. intros [c'|e] Hr; simpl.
  - assert (is_claim c') as Hc' by (by apply (Hr c')).
    eapply spec_bind; [by apply completeAdoption_safe|]. intros [sb'|e] Ho; simpl.
    + split; [done|]. intros ? [= <-]. by apply Ho.
    + destruct (IsNotFound e); simpl; [done|]. split; [done|]. intros _ _. simpl.
      split; [done|]. by destruct (IsConflict e).
  - split; [done|]. intros _ _. done.
Qed.

Lemma adopt_safe fuel p tries c st :
  is_claim c ->
  safe (fun r => is_claim r.1.2 /\ forall sb', r.1.1 = Ok (Some sb') -> owned (sbMeta sb'))
    (adopt_loop IsQualifiedName IsValidLabelValue AllowedLabelDomains fuel p tries c st).
Proof.
  revert c st. induction tries as [|tries IH]; intros c st Hc; [done|]. cbn [adopt_loop].
  eapply spec_bind; [by apply getCandidate_safe|]. intros [[[sb key]|]|e] Hg; [|done..].
  eapply spec_bind; [apply tryAdopt_safe; [done|by eapply Hg]|].
  intros [[[[sb'|]|e] c'] st'] [Hc' Ho]; simpl in *; [done|by apply IH|done].
Qed.

Lemma createSandbox_safe c t :
  is_claim c ->
  safe (fun _ => True) (createSandbox IsQualifiedName IsValidLabelValue AllowedLabelDomains c t).
Proof.
  intros Hc. unfold createSandbox.
  destruct (match scVolumeClaimTemplates c with [] => _ | _ => _ end) as [vcts|e]; [|done].
  destruct (mergePodMetadata _ _ _ _ _) as [merged|e]; [|done].
  destruct (injectClaimEnvs _ _ _) as [ps|e]; [|done].
  destruct (SetControllerReference _ _) as [m|e] eqn:Es; [|done].
  split; [|by intros [sb|e] _]. cbn [claim_writes_ok]. split; [by eapply set_owned|].
  destruct (set_controller_frame _ _ _ Es) as [rs ->]. by destruct Hc as (_ & Hn & Hm & _).
Qed.

(** A decided lookup hands out an owned sandbox. *)
Definition found_good (r : option (result Sandbox)) : Prop := forall sb, r = Some (Ok sb) -> owned (sbMeta sb).

Lemma controlled_owned c sb : is_claim c -> controlledBy sb c = true -> owned (sbMeta sb).
Proof. intros [Hu _]. unfold controlledBy, owned. by rewrite Hu. Qed.

Lemma some_found r : ours_if_ok r -> found_good (Some r).
Proof. intros Hr sb [= ->]. by apply Hr. Qed.

Lemma fromStatus_safe c st : is_claim c -> safe (fun r => found_good r.1) (fromStatus c st).
Proof.
  intros Hc. unfold fromStatus. case_bool_decide; [done|]. split; [done|]. intros [sb|e] _; simpl.
  - destruct (controlledBy sb c) eqn:Eo; [|done].
    eapply spec_bind; [by apply initLabel_safe, (controlled_owned c)|]. intros r Hr. by apply some_found.
  - by destruct (IsNotFound e).
Qed.

Definition assigned_good (r : option (result Sandbox) * SandboxClaim * ClaimState) : Prop :=
  found_good r.1.1 /\ is_claim r.1.2.

Lemma maybe_migrate_safe (b : bool) c n :
  is_claim c -> safe is_claim (if b then migrateLegacyAssignedSandboxLabel c n else Ret c).
Proof. intros Hc. destruct b; [by apply migrate_safe|done]. Qed.

Lemma finishAdoption_safe c st b n sb :
  is_claim c ->
  safe assigned_good (finishAdoption IsQualifiedName IsValidLabelValue AllowedLabelDomains c st b n sb).
Proof.
  intros Hc. unfold finishAdoption. destruct (verifySandboxCandidate sb c) as [e|] eqn:Ev.
  - eapply spec_bind; [by apply removeReference_safe|]. intros [c' [e'|]] Hc'; by split.
  - case_bool_decide; [by split|].
    eapply spec_bind; [apply completeAdoption_safe; [done|by eapply verified_here]|].
    intros [sb'|e] _; simpl.
    + eapply spec_bind; [by apply maybe_migrate_safe|]. intros c' Hc'. by split.
    + destruct (_ || _); by split.
Qed.

Lemma fromAssigned_safe c st :
  is_claim c -> safe assigned_good (fromAssigned IsQualifiedName IsValidLabelValue AllowedLabelDomains c st).
Proof.
  intros Hc. unfold fromAssigned. set (annotated := mget _ _).
  set (n := if bool_decide (annotated = "") then _ else annotated).
  destruct (bool_decide (n = "")); [by split|]. cbn [bind call]. split; [done|]. intros [sb|e] _; cbn beta iota.
  - destruct (controlledBy sb c) eqn:Eo.
    + eapply spec_bind; [by apply maybe_migrate_safe|]. intros c' Hc'.
      eapply spec_bind; [by apply initLabel_safe, (controlled_owned c)|]. intros r Hr. split; [by apply some_found|done].
    + destruct (GetControllerOf (sbMeta sb)) as [ref|]; [|by split].
      case_bool_decide; [by apply finishAdoption_safe|by split].
  - destruct (IsNotFound e); [|by split].
    eapply spec_bind; [by apply removeReference_safe|]. intros [c' [e'|]] Hc'; by split.
Qed.

Lemma fromName_safe c : is_claim c -> safe found_good (fromName c).
Proof.
  intros Hc. unfold fromName. split; [done|]. intros [sb|e] _; simpl; [|by destruct (IsNotFound e)].
  destruct (controlledBy sb c) eqn:Eo; [|done].
  eapply spec_bind; [by apply initLabel_safe, (controlled_owned c)|]. intros r Hr. by apply some_found.
Qed.

Definition bound_good (r : result (option Sandbox) * SandboxClaim * ClaimState) : Prop :=
  is_claim r.1.2 /\ forall sb, r.1.1 = Ok (Some sb) -> owned (sbMeta sb).

Lemma some_result_good r c st : found_good (Some r) -> is_claim c -> bound_good (some_result r, c, st).
Proof. intros Hf Hc. split; [done|]. intros sb. destruct r; [|done]. intros [= ->]. by apply Hf. Qed.

Lemma getOrCreate_safe fuel c st :
  is_claim c ->
  safe bound_good (getOrCreateSandbox IsQualifiedName IsValidLabelValue AllowedLabelDomains fuel c st).
Proof.
  intros Hc. unfold getOrCreateSandbox. eapply spec_bind; [by apply fromStatus_safe|].
  intros [[r|] st1] Hf; [by apply some_result_good|].
  eapply spec_bind; [by apply fromAssigned_safe|]. intros [[[r|] c2] st2] [Hf2 Hc2]; simpl in Hf2, Hc2;
    [by apply some_result_good|].
  eapply spec_bind; [by apply fromName_safe|]. intros [r|] Hf3; [by apply some_result_good|].
  destruct (_ || _); [by split|]. by apply adopt_safe.
Qed.

Lemma syncMetadata_safe c t sb :
  is_claim c -> owned (sbMeta sb) ->
  safe (fun _ => True) (syncMetadata IsQualifiedName IsValidLabelValue AllowedLabelDomains c t sb).
Proof.
  intros Hc Ho. unfold syncMetadata. destruct (desiredPodMeta _ _ _ _ _) as [m|e]; [|done].
  destruct (_ && _); [done|]. split; [|by intros [?|?] _]. split; [by left|]. by eapply (owned_refs (sbMeta sb)).
Qed.

Definition active_good (r : option Sandbox * option gerror * SandboxClaim * ClaimState) : Prop := is_claim r.1.2.

Lemma reconcileActive_safe fuel c st :
  is_claim c -> safe active_good (reconcileActive IsQualifiedName IsValidLabelValue AllowedLabelDomains fuel c st).
Proof.
  intros Hc. unfold reconcileActive. destruct (validateAdditionalPodMetadata _ _ _ _); [done|].
  eapply spec_bind; [by apply getOrCreate_safe|]. intros [[[[sb|]|e] c'] st'] [Hc' Ho]; [| |done].
  - eapply spec_bind; [apply getTemplate_safe|]. intros [t|e] _; [|by destruct (_ || _)].
    eapply spec_bind; [apply syncMetadata_safe; [done|by apply Ho]|]. by intros [? ?] _.
  - eapply spec_bind; [apply getTemplate_safe|]. intros [t|e] _; [|done].
    eapply spec_bind; [by apply createSandbox_safe|]. by intros [?|?] _.
Qed.

Lemma reconcileExpired_safe c : is_claim c -> safe (fun _ => True) (reconcileExpired c).
Proof.
  intros Hc. unfold reconcileExpired. cbn [bind call]. split; [done|]. intros [sb|e] _; [|done].
  destruct (controlledBy sb c) eqn:Eo; simpl; [|done]. case_bool_decide; [|done].
  split; [by apply (controlled_owned c)|done].
Qed.

Lemma claimStatus_safe old c :
  is_claim c -> safe (fun r => is_claim r.1) (updateStatus old c).
Proof. intros Hc. unfold updateStatus. destruct (_ && _); [done|]. split; [by destruct Hc|]. by intros ? _. Qed.

Lemma markExpired_safe now original c sb err :
  is_claim c -> safe (fun _ => True) (markExpired now original c sb err).
Proof.
  intros Hc. unfold markExpired. eapply spec_bind; [by apply claimStatus_safe|]. by intros [? ?] _.
Qed.

Lemma status_claim now c sb err b : is_claim c -> is_claim (computeAndSetStatus now c sb err b).
Proof.
  intros Hc. unfold computeAndSetStatus, syncFinishedCondition. destruct (_ && _); [done|].
  destruct sb as [sb|]; [by destruct (FindStatusCondition _ _)|]. by destruct b, (_ || _).
Qed.

Lemma reconcileLive_safe fuel original c b st :
  is_claim c ->
  safe (fun _ => True) (reconcileLive IsQualifiedName IsValidLabelValue AllowedLabelDomains fuel original c b st).
Proof.
  intros Hc. unfold reconcileLive. eapply (spec_bind _ _ active_good).
  - destruct b; [|by apply reconcileActive_safe].
    eapply spec_bind; [by apply reconcileExpired_safe|]. by intros [? ?] _.
  - intros [[[sb err] c'] st'] Hc'. cbn [bind call]. split; [done|]. intros now _.
    pose proof (status_claim now c' sb err b Hc') as Hs.
    destruct (checkExpiration now _) as [post left]. destruct (_ && _).
    + eapply spec_bind; [by apply markExpired_safe|]. by intros ? _.
    + eapply spec_bind; [by apply claimStatus_safe|]. by intros [? [?|]] _.
Qed.

Lemma initializeAnnotations_safe c st :
  is_claim c -> safe (fun r => is_claim r.1.1) (initializeAnnotations formatTime traceContext c st).
Proof.
  intros Hc. unfold initializeAnnotations.
  destruct (bool_decide (mget (scAnnotations c) ObservabilityAnnotation = ""));
    destruct (bool_decide (traceContext <> "") && _); cbn [orb]; [..|done]; cbn [bind call];
    (split; [done|]); intros now _; try destruct (getOrRecordObservedTime _ _ _) as [t st'];
    (split; [by destruct Hc|]); (intros [c'|e] Hr; simpl; [by apply (Hr c' eq_refl)|done]).
Qed.

(** C2.  The claim controller touches only what it may: whatever the API and the
    queue answer, a reconcile patches only sandboxes the claim controls or live
    members of the claim's own warm pool in its namespace, always leaving them
    controlled by the claim; creates only its own sandbox; deletes only a sandbox
    or network policy it controls; and deletes the claim only under a deleting
    policy after its expiry was recorded. *)
Theorem claim_writes_safe fuel st :
  spec claim_writes_ok claim_answers (fun _ => True)
    (Reconcile IsQualifiedName IsValidLabelValue AllowedLabelDomains formatTime traceContext fuel ns name st).
Proof.
  unfold Reconcile. cbn [bind call]. split; [done|]. intros [c|e] Hg; [|by destruct (IsNotFound e)].
  pose proof (Hg c eq_refl) as Hc. eapply (spec_bind _ _ (fun _ => True)).
  { unfold cleanupLegacyNetworkPolicy. split; [done|]. intros [np|e] _; simpl; [|done].
    destruct (GetControllerOf np) as [ref|] eqn:Er; [|done]. case_bool_decide as Hu; simpl; [|done].
    case_bool_decide; simpl; [|done]. split; [|done]. unfold owned, IsControlledBy. rewrite Er.
    apply bool_decide_eq_true. destruct Hc; congruence. }
  intros _ _. case_bool_decide; [done|]. eapply spec_bind; [by apply initializeAnnotations_safe|].
  intros [[c1 [e|]] st1] Hc1; [done|]. simpl in Hc1. cbn [bind call]. split; [done|]. intros now _.
  destruct (checkExpiration now c1) as [expired left].
  destruct (expired && negb (hasClaimExpiredCondition (scConditions c1))) eqn:Em.
  { eapply spec_bind; [by apply markExpired_safe|]. by intros ? _. }
  destruct (if expired then deletesClaim c1 else None) as [fg|] eqn:Ed; [|by apply reconcileLive_safe].
  destruct expired; [|done]. simpl in Em. apply negb_false_iff in Em.
  split; [by destruct Hc1|]. by intros ? _.
Qed.

End safety.

(** ** Metadata of a claim *)

Section metadata.
Context (IsQualifiedName IsValidLabelValue : string -> bool) (AllowedLabelDomains : list string).

(** The domain prefix of a label key lies in an allowed domain. *)
Definition in_allowed_domain (k : string) : Prop :=
  exists prefix rest d, cut_byte "/"%char k = Some (prefix, rest) /\
    d ∈ allowedDomains AllowedLabelDomains /\ inDomain (lower_ascii prefix) d = true.

Definition in_restricted_domain (k : string) : Prop :=
  exists prefix rest, cut_byte "/"%char k = Some (prefix, rest) /\ isRestrictedDomain (lower_ascii prefix) = true.

Lemma validate_label k v :
  validate IsQualifiedName IsValidLabelValue AllowedLabelDomains k v true = None ->
  in_allowed_domain k /\ IsValidLabelValue v = true.
Proof.
  unfold validate. destruct (IsQualifiedName k); [|done]. cbn [negb].
  destruct (true && EqualFold k "app" && EqualFold v "sandbox-router"); [done|].
  destruct (cut_byte "/"%char k) as [[prefix rest]|] eqn:Ec; [|done].
  destruct (existsb _ _) eqn:Ed; [|done]. cbn [negb]. destruct (IsValidLabelValue v) eqn:Ev; [|done]. intros _.
  apply existsb_exists in Ed as (d & Hin & Hd). split; [|done].
  exists prefix, rest, d. by rewrite list_elem_of_In.
Qed.

Lemma validate_annotation k v :
  validate IsQualifiedName IsValidLabelValue AllowedLabelDomains k v false = None -> ~ in_restricted_domain k.
Proof.
  unfold validate. destruct (IsQualifiedName k); [|done]. cbn [negb andb].
  intros Hv (prefix & rest & Ec & Hr). by rewrite Ec, Hr in Hv.
Qed.

Lemma validate_all_in isLabel l k v :
  validate_all IsQualifiedName IsValidLabelValue AllowedLabelDomains isLabel l = None -> (k, v) ∈ l ->
  validate IsQualifiedName IsValidLabelValue AllowedLabelDomains k v isLabel = None.
Proof.
  induction l as [|[k' v'] l IH]; simpl; [by intros _ ?%elem_of_nil|].
  destruct (validate _ _ _ k' v' isLabel) eqn:Ev; [done|]. intros Hl [[= -> ->]|Hin]%elem_of_cons; auto.
Qed.

Lemma overrides_false (t c : strmap) k v tv :
  overrides t c = false -> c !! k = Some v -> t !! k = Some tv -> tv = v.
Proof.
  unfold overrides. intros Ho Hc Ht. destruct (decide (tv = v)) as [|Hne]; [done|]. exfalso.
  assert (existsb (fun kv : string * string => match t !! kv.1 with Some tv => bool_decide (tv <> kv.2) | None => false end)
            (map_to_list c) = true) as He; [|by rewrite He in Ho].
  apply existsb_exists. exists (k, v). split; [by apply list_elem_of_In, elem_of_map_to_list|].
  cbn. rewrite Ht. by apply bool_decide_eq_true.
Qed.

Lemma merged_lookup (t c : strmap) k v :
  overrides t c = false -> (c ∪ t) !! k = Some v -> t !! k = Some v \/ (t !! k = None /\ c !! k = Some v).
Proof.
  intros Ho. rewrite lookup_union. destruct (c !! k) as [cv|] eqn:Ec, (t !! k) as [tv|] eqn:Et; cbn;
    intros [= <-]; [left|by right|by left]. f_equal. by eapply overrides_false.
Qed.

Lemma merged_keeps (t c : strmap) k v : overrides t c = false -> t !! k = Some v -> (c ∪ t) !! k = Some v.
Proof.
  intros Ho Ht. rewrite lookup_union, Ht. destruct (c !! k) as [cv|] eqn:Ec; [|done]. cbn.
  f_equal. symmetry. by eapply overrides_false.
Qed.

(** With the default allowlist no reserved key is in an allowed domain. *)
Lemma reserved_not_allowed k :
  AllowedLabelDomains = [] -> hasSystemReservedPrefix k = true -> ~ in_allowed_domain k.
Proof.
  intros Ha Hk (prefix & rest & d & Hc & Hd & Hin). unfold allowedDomains in Hd. rewrite Ha in Hd.
  apply list_elem_of_singleton in Hd as ->.
  assert (prefix = "agents.x-k8s.io" \/ prefix = "extensions.agents.x-k8s.io") as [->| ->]; [|done..].
  unfold hasSystemReservedPrefix in Hk.
  apply orb_true_iff in Hk as [Hp|Hp]; apply prefix_split in Hp as [r ->]; [left|right];
    vm_compute in Hc; by injection Hc.
Qed.

(** A claim's additional metadata only adds, within its domains: when the
    merge succeeds every template entry keeps its value, every further label has
    its prefix in an allowed domain and a valid value, no further annotation is in
    a restricted domain; and with the default allowlist the labels the operator
    reserves are exactly the template's. *)
Theorem claim_metadata_contained tm cm merged k v :
  mergePodMetadata IsQualifiedName IsValidLabelValue AllowedLabelDomains tm cm = Ok merged ->
  (pmLabels tm !! k = Some v -> pmLabels merged !! k = Some v) /\
  (pmAnnotations tm !! k = Some v -> pmAnnotations merged !! k = Some v) /\
  (pmLabels merged !! k = Some v ->
     pmLabels tm !! k = Some v \/ (pmLabels cm !! k = Some v /\ in_allowed_domain k /\ IsValidLabelValue v = true)) /\
  (pmAnnotations merged !! k = Some v ->
     pmAnnotations tm !! k = Some v \/ (pmAnnotations cm !! k = Some v /\ ~ in_restricted_domain k)) /\
  (AllowedLabelDomains = [] -> hasSystemReservedPrefix k = true -> pmLabels merged !! k = pmLabels tm !! k).
Proof.
  unfold mergePodMetadata, validateAdditionalPodMetadata.
  destruct (validate_all _ _ _ true _) eqn:El; [done|]. destruct (validate_all _ _ _ false _) eqn:Ea; [done|].
  destruct (overrides (pmLabels tm) _) eqn:Ol; [done|]. destruct (overrides (pmAnnotations tm) _) eqn:Oa; [done|].
  intros [= <-]. cbn [pmLabels pmAnnotations].
  assert (forall v', pmLabels cm !! k = Some v' -> in_allowed_domain k /\ IsValidLabelValue v' = true) as Hlab.
  { intros v' Hc. eapply validate_label, validate_all_in; [exact El|]. by apply elem_of_map_to_list. }
  split_and!.
  - by apply merged_keeps.
  - by apply merged_keeps.
  - intros [?|[_ Hc]]%merged_lookup; [by left|right|done]. split; [done|by apply Hlab].
  - intros [?|[_ Hc]]%merged_lookup; [by left|right|done]. split; [done|].
    eapply validate_annotation, validate_all_in; [exact Ea|]. by apply elem_of_map_to_list.
  - intros Hd Hk. rewrite lookup_union. destruct (pmLabels cm !! k) as [v'|] eqn:Ec; [|by destruct (pmLabels tm !! k)].
    by destruct (reserved_not_allowed k Hd Hk (proj1 (Hlab v' eq_refl))).
Qed.
End metadata.

(** ** Template policies *)

(** What injection may do to a container. *)
Definition container_ok (policy : string) (envs : list ClaimEnvVar) (c c' : Container) : Prop :=
  cnName c' = cnName c /\ cnImage c' = cnImage c /\ cnRequests c' = cnRequests c /\ cnLimits c' = cnLimits c /\
  cnEnvFrom c' = cnEnvFrom c /\
  (policy = EnvVarsInjectionPolicyAllowed -> cnEnv c `prefix_of` cnEnv c' /\ (c' = c \/ cnEnvFrom c = [])) /\
  (forall e, e ∈ cnEnv c -> e ∈ cnEnv c' \/ exists ce, ce ∈ envs /\ ceName ce = evName e).

Lemma replace_env_in n v l l' e :
  replace_env n v l = Some l' -> e ∈ l -> e ∈ l' \/ evName e = n.
Proof.
  revert l'. induction l as [|x l IH]; intros l'; simpl; [done|]. case_bool_decide as Hx.
  - intros [= <-] [->|Hin]%elem_of_cons; [by right|left; by right].
  - destruct (replace_env n v l) as [r|]; [|done]. intros [= <-] [->|Hin]%elem_of_cons; [left; by left|].
    destruct (IH r eq_refl Hin); [left; by right|by right].
Qed.

Lemma inject_loop_ok policy envs l l' :
  inject_loop policy envs l = Ok l' ->
  (policy = EnvVarsInjectionPolicyAllowed -> l `prefix_of` l') /\
  (forall e, e ∈ l -> e ∈ l' \/ exists ce, ce ∈ envs /\ ceName ce = evName e).
Proof.
  revert l. induction envs as [|c envs IH]; intros l; simpl; [intros [= ->]; split; [done|by left]|].
  destruct (replace_env (ceName c) (ceValue c) l) as [l1|] eqn:Er.
  - case_bool_decide as Hp; [done|]. intros Hl. destruct (IH l1 Hl) as [_ Hin]. split; [by intros ->|].
    intros e He. destruct (replace_env_in _ _ _ _ _ Er He) as [H1|H1].
    + destruct (Hin e H1) as [|(ce & ? & ?)]; [by left|right; exists ce; split; [by right|done]].
    + right. exists c. split; [by left|done].
  - intros Hl. destruct (IH _ Hl) as [Hpre Hin]. split.
    + intros Hp. etrans; [|by apply Hpre]. by eexists.
    + intros e He. destruct (Hin e) as [|(ce & ? & ?)]; [apply elem_of_app; by left|by left|].
      right. exists ce. split; [by right|done].
Qed.

Lemma injectEnvs_ok policy todo envs c c' :
  todo ⊆ envs -> injectEnvs policy todo c = Ok c' -> container_ok policy envs c c'.
Proof.
  intros Hsub. unfold injectEnvs. destruct (bool_decide (policy = _) && _) eqn:Eg; [done|].
  destruct (inject_loop policy todo (cnEnv c)) as [env|] eqn:El; [|done]. intros [= <-].
  destruct (inject_loop_ok _ _ _ _ El) as [Hpre Hin]. split_and!; try done.
  - intros Hp. split; [by apply Hpre|]. right. rewrite Hp in Eg. rewrite bool_decide_true in Eg by done.
    cbn [andb] in Eg. apply bool_decide_eq_false in Eg. by destruct (decide (cnEnvFrom c = [])).
  - intros e He. destruct (Hin e He) as [|(ce & Hce & ?)]; [by left|right; exists ce; split; [by apply Hsub|done]].
Qed.

Lemma inject_containers_ok policy envs first cs cs' :
  inject_containers policy envs first cs = Ok cs' -> Forall2 (container_ok policy envs) cs cs'.
Proof.
  revert first cs'. induction cs as [|c cs IH]; intros first cs'; simpl; [by intros [= <-]|].
  set (todo := envsFor envs (cnName c) ++ _).
  assert (todo ⊆ envs) as Hsub.
  { intros ce. unfold todo, envsFor, defaultEnvs.
    destruct first; rewrite elem_of_app, ?list_elem_of_filter, ?elem_of_nil; tauto. }
  destruct (match todo with [] => _ | _ => _ end) as [c'|] eqn:Ec; [|done].
  destruct (inject_containers policy envs false cs) as [rest|] eqn:Er; [|done]. intros [= <-].
  constructor; [|by eapply IH]. destruct todo as [|x todo']; [injection Ec as <-|by eapply injectEnvs_ok].
  split_and!; try done; [by intros _; split; [|left]|by left].
Qed.

Lemma claim_vct_in c n v : claim_vct c n = Some v -> v ∈ c /\ vctName v = n.
Proof.
  unfold claim_vct. intros Hf. apply find_some in Hf as [Hin Hn%bool_decide_eq_true].
  split; [|done]. by rewrite list_elem_of_In, in_rev.
Qed.

Lemma claim_vct_is c v : NoDup (vctName <$> c) -> v ∈ c -> claim_vct c (vctName v) = Some v.
Proof.
  intros Hnd Hin. unfold claim_vct.
  destruct (List.find _ (rev c)) as [w|] eqn:Ef.
  - pose proof (claim_vct_in c (vctName v) w Ef) as [Hw Hn]. f_equal.
    apply list_elem_of_lookup in Hin as [i Hi], Hw as [j Hj].
    assert (i = j) as ->; [|congruence].
    eapply (NoDup_lookup _ i j (vctName v) Hnd); rewrite list_lookup_fmap; by rewrite ?Hi, ?Hj; simpl; rewrite ?Hn.
  - exfalso. assert (In v (rev c)) as Hr by (by rewrite <-in_rev, <-list_elem_of_In).
    pose proof (find_none _ _ Ef v Hr) as Hn. cbn beta in Hn. by rewrite bool_decide_true in Hn.
Qed.

Lemma validate_vcts_nodup names vcts :
  validate_vcts names vcts = None -> NoDup (vctName <$> vcts) /\ (forall v, v ∈ vcts -> vctName v ∉ names).
Proof.
  revert names. induction vcts as [|v vcts IH]; intros names; csimpl; [split; [constructor|by intros ? ?%elem_of_nil]|].
  case_bool_decide; [done|]. case_bool_decide as Hn; [done|]. intros Hv. destruct (IH _ Hv) as [Hnd Hin].
  split; [constructor; [|done]|].
  - intros (w & Hw & Hin')%list_elem_of_fmap. apply (Hin w Hin'). rewrite <-Hw. by left.
  - intros w [->|Hw]%elem_of_cons; [done|]. intros Hc. apply (Hin w Hw). by right.
Qed.

Lemma override_vcts_spec c used t l used' :
  override_vcts c used t = (l, used') -> NoDup (vctName <$> t) -> (forall v, v ∈ t -> vctName v ∉ used) ->
  vctName <$> l = vctName <$> t /\
  (forall n, n ∈ used' <-> n ∈ used \/ (n ∈ vctName <$> t /\ is_Some (claim_vct c n))) /\
  (forall v, v ∈ t -> v ∈ l \/ is_Some (claim_vct c (vctName v))) /\
  (forall n o, n ∈ vctName <$> t -> claim_vct c n = Some o -> o ∈ l).
Proof.
  revert used l used'. induction t as [|v t IH]; intros used l used'; csimpl.
  { intros [= <- <-] _ _. split_and!; [done|set_solver|set_solver|set_solver]. }
  intros Ho Hnd Hu. inversion Hnd as [|?? Hnin Hnd']; subst.
  rewrite bool_decide_false in Ho by (apply Hu; by left).
  assert (forall w, w ∈ t -> vctName w <> vctName v) as Hdiff.
  { intros w Hw E. apply Hnin. rewrite <-E. by apply list_elem_of_fmap_2. }
  destruct (claim_vct c (vctName v)) as [o|] eqn:Eo;
    destruct (override_vcts c _ t) as [l1 used1] eqn:E1; injection Ho as <- <-.
  - destruct (IH _ _ _ E1 Hnd') as (Hn & Hus & Hk & Hov).
    { intros w Hw [E|Hin]%elem_of_cons; [by apply (Hdiff w)|]. apply (Hu w); [by right|done]. }
    destruct (claim_vct_in _ _ _ Eo) as [_ Hname]. csimpl. rewrite Hn, Hname. split_and!; [done|..].
    + intros n. rewrite Hus, !elem_of_cons. destruct (decide (n = vctName v)) as [->|]; rewrite ?Eo; naive_solver.
    + intros w [->|Hw]%elem_of_cons; [right; by rewrite Eo|]. destruct (Hk w Hw); [left; by right|by right].
    + intros n o' [->|Hin]%elem_of_cons Ho'; [rewrite Eo in Ho'; injection Ho' as <-; by left|right; by eapply Hov].
  - destruct (IH _ _ _ E1 Hnd') as (Hn & Hus & Hk & Hov).
    { intros w Hw. apply Hu. by right. }
    csimpl. rewrite Hn. split_and!; [done|..].
    + intros n. rewrite Hus, !elem_of_cons. destruct (decide (n = vctName v)) as [->|]; rewrite ?Eo.
      * split; [intros [?|[? [? [=]]]]; by left|intros [?|[_ [? [=]]]]; by left].
      * naive_solver.
    + intros w [->|Hw]%elem_of_cons; [left; by left|]. destruct (Hk w Hw); [left; by right|by right].
    + intros n o' [->|Hin]%elem_of_cons Ho'; [by rewrite Eo in Ho'|right; by eapply Hov].
Qed.

Lemma mergeVCTs_ok t c policy l :
  mergeVolumeClaimTemplates t c policy = Ok l -> c <> [] ->
  policy ∈ [VolumeClaimTemplatesPolicyAllowed; VolumeClaimTemplatesPolicyOverrides] /\
  NoDup (vctName <$> l) /\ (forall v, v ∈ c -> v ∈ l) /\
  (forall v, v ∈ t -> v ∈ l \/ (policy = VolumeClaimTemplatesPolicyOverrides /\ vctName v ∈ vctName <$> c)).
Proof.
  unfold mergeVolumeClaimTemplates, validateVolumeClaimTemplates. intros Hm Hne.
  destruct (validate_vcts [] t) eqn:Et; [done|]. destruct c as [|c0 cs]; [done|]. set (c := c0 :: cs) in *.
  destruct (validate_vcts [] c) eqn:Ec; [done|].
  destruct (validate_vcts_nodup _ _ Et) as [Hndt _], (validate_vcts_nodup _ _ Ec) as [Hndc _].
  destruct (_ || _); [done|]. case_bool_decide as Hp.
  - destruct (existsb _ _) eqn:Ex; [done|]. injection Hm as <-. subst policy. split_and!.
    + by left.
    + rewrite fmap_app. apply NoDup_app. split_and!; [done| |done]. intros n Hn (v & -> & Hv)%list_elem_of_fmap.
      assert (existsb (fun v => bool_decide (vctName v ∈ vctName <$> t)) c = true) as He; [|by rewrite He in Ex].
      apply existsb_exists. exists v. split; [by apply list_elem_of_In|by apply bool_decide_eq_true].
    + intros v Hv. apply elem_of_app. by right.
    + intros v Hv. left. apply elem_of_app. by left.
  - case_bool_decide as Hp2; [|done].
    destruct (override_vcts c [] t) as [kept used] eqn:Eo. injection Hm as <-. subst policy.
    destruct (override_vcts_spec _ _ _ _ _ Eo Hndt) as (Hn & Hus & Hk & Hov); [by intros ? _ ?%elem_of_nil|].
    split_and!.
    + right. by left.
    + rewrite fmap_app, Hn. apply NoDup_app. split_and!; [done| |].
      * intros n Hnt (v & -> & Hv)%list_elem_of_fmap. apply list_elem_of_filter in Hv as [Hnu Hv].
        apply Hnu, Hus. right. split; [done|]. by rewrite (claim_vct_is c v Hndc Hv).
      * eapply sublist_NoDup; [exact Hndc|]. apply fmap_sublist, sublist_filter.
    + intros v Hv. apply elem_of_app. destruct (decide (vctName v ∈ used)) as [Hin|Hnin].
      * left. apply Hus in Hin as [?%elem_of_nil|[Hin _]]; [done|]. eapply Hov; [exact Hin|by apply claim_vct_is].
      * right. by apply list_elem_of_filter.
    + intros v Hv. destruct (Hk v Hv) as [|[o Ho]]; [left; apply elem_of_app; by left|right].
      split; [done|]. destruct (claim_vct_in _ _ _ Ho) as [Hin <-]. by apply list_elem_of_fmap_2.
Qed.

(** A template's policies bind its claims: variables are injected only
    under a policy that permits it, and under Allowed every container keeps its
    variables as they were and gains some only if it has no [envFrom] source,
    while under Overrides a variable is lost only to one of the same name; volume
    claim templates are merged without duplicates, with every one of the claim's
    and every one of the template's that the Overrides policy does not let the
    claim replace by name. *)
Theorem template_policies_enforced :
  (forall policy envs p p', injectClaimEnvs policy envs p = Ok p' -> envs <> [] ->
     policy ∈ [EnvVarsInjectionPolicyAllowed; EnvVarsInjectionPolicyOverrides] /\
     Forall2 (container_ok policy envs) (psInitContainers p) (psInitContainers p') /\
     Forall2 (container_ok policy envs) (psContainers p) (psContainers p')) /\
  (forall t c policy l, mergeVolumeClaimTemplates t c policy = Ok l -> c <> [] ->
     policy ∈ [VolumeClaimTemplatesPolicyAllowed; VolumeClaimTemplatesPolicyOverrides] /\
     NoDup (vctName <$> l) /\ (forall v, v ∈ c -> v ∈ l) /\
     (forall v, v ∈ t -> v ∈ l \/ (policy = VolumeClaimTemplatesPolicyOverrides /\ vctName v ∈ vctName <$> c))).
Proof.
  split; [|exact mergeVCTs_ok]. intros policy envs p p' Hi Hne. unfold injectClaimEnvs in Hi.
  destruct envs as [|e0 es]; [done|]. set (envs := e0 :: es) in *.
  destruct (bool_decide (policy <> _) && _) eqn:Ep; [done|]. destruct (existsb _ _); [done|].
  destruct (inject_containers _ _ false _) as [init|] eqn:E1; [|done].
  destruct (inject_containers _ _ true _) as [main|] eqn:E2; [|done]. injection Hi as <-.
  split_and!; [|by eapply inject_containers_ok..].
  rewrite !elem_of_cons. apply andb_false_iff in Ep as [Ep|Ep]; apply bool_decide_eq_false in Ep;
    [left|right; left]; by apply dec_stable.
Qed.

(** ** Concrete runs *)

#[local] Existing Instance Reference.conditions.
#[local] Existing Instance Reference.owners.
#[local] Existing Instance Reference.owners_laws.

(** ** Events *)

(** A listing by field: the claims of the namespace whose index holds the value. *)
Definition listing (ns value : string) (claims : list SandboxClaim) : list SandboxClaim :=
  filter (fun c => scNamespace c = ns /\ value ∈ indexWarmPoolRef c) claims.

(** An event of a pool wakes exactly the claims of its namespace that refer to it. *)
Lemma pool_event_wakes_claims wp claims key :
  wpName wp <> "" ->
  key ∈ mapWarmPoolToClaims (Ok (listing (wpNamespace wp) (wpName wp) claims)) <->
  exists c, c ∈ claims /\ key = (scNamespace c, scName c) /\ scNamespace c = wpNamespace wp /\ scWarmPoolRef c = wpName wp.
Proof.
  intros Hne. unfold mapWarmPoolToClaims, listing. rewrite list_elem_of_fmap. setoid_rewrite list_elem_of_filter.
  unfold indexWarmPoolRef. split; intros (c & Hc).
  - exists c. destruct Hc as (-> & (Hns & Hin) & Hc). case_bool_decide; [by apply elem_of_nil in Hin|].
    apply list_elem_of_singleton in Hin. by split_and!.
  - exists c. destruct Hc as (Hc & -> & Hns & Href). rewrite bool_decide_false by congruence. rewrite Href.
    split_and!; [done..|by apply list_elem_of_singleton|done].
Qed.

(** The first time a claim was seen is kept until it is deleted, whatever other
    claims do meanwhile; a new claim of the same name starts afresh. *)
Lemma first_sight_kept now now' m st :
  (getOrRecordObservedTime now' m (claimSeen now m st)).1 = (getOrRecordObservedTime now m st).1 /\
  observedTimes (claimDeleted m (claimSeen now m st)) !! (mNamespace m, mName m) = None.
Proof.
  unfold claimSeen, claimDeleted, getOrRecordObservedTime.
  destruct (observedTimes st !! (mNamespace m, mName m)) as [[t uid]|] eqn:E; [case_bool_decide as Hu|]; cbn.
  - rewrite E. cbn. rewrite bool_decide_true by done. cbn. split; [done|]. apply lookup_delete_eq.
  - rewrite lookup_insert_eq. cbn. rewrite bool_decide_true by done. cbn. split; [done|]. apply lookup_delete_eq.
  - rewrite lookup_insert_eq. cbn. rewrite bool_decide_true by done. cbn. split; [done|]. apply lookup_delete_eq.
Qed.

Module ClaimDemo.
#[local] Existing Instance Reference.conditions.
#[local] Existing Instance Reference.owners.

Definition meta (name uid : string) (labels : strmap) (owners : list OwnerReference) : ObjectMeta :=
  mkMeta name "" "prod" uid "1" 1 5 None labels ∅ owners.

Definition claim : SandboxClaim :=
  mkClaim (meta "task" "u-c" ∅ []) "fast" None
    (mkPodMetadata {["sandbox.users.io/team" := "a"]} ∅) [] [] [] "" [].

(** Two warm members of the pool, one of them ready, and a deleted one. *)
Definition member (name ready : string) : Sandbox :=
  mkSandbox
    (meta name name {[warmPoolSandboxLabel := "h"; sandboxTemplateRefHash := "t"]}
       [mkOwnerRef "extensions.agents.x-k8s.io/v1beta1" "SandboxWarmPool" "fast" "u-p" (Some true) None])
    emptySpec (set_stConditions (fun _ => [newCondition SandboxConditionReady ready "" "" 1]) emptyStatus).
Definition lookup_sandbox (ns name : string) : result Sandbox :=
  if decide (name = "w1") then Ok (member "w1" ConditionFalse)
  else if decide (name = "w2") then Ok (member "w2" ConditionTrue)
  else Err (APIStatus ReasonNotFound name).
Definition key (name : string) : SandboxKey := mkKey "prod" name "".
Definition queue : SimpleSandboxQueue :=
  foldr (fun n => Add "prod/fast" (key n)) NewSimpleSandboxQueue ["w2"; "w1"; "gone"].

Definition api : handler ClaimE SimpleSandboxQueue := fun X e =>
  match e in ClaimE X return SimpleSandboxQueue -> X * SimpleSandboxQueue with
  | CGetClaim _ _ => fun q => (Ok claim, q)
  | e => search_env lookup_sandbox _ e
  end.

Definition patched (X : Type) (e : ClaimE X) : option (string * bool) :=
  match e with CPatchSandbox old new => Some (sbName old, IsControlledBy (sbMeta new) "u-c") | _ => None end.

(** The ready member is adopted although it was queued last. *)
Example ready_adopted :
  observed patched (trace api (Reconcile (fun _ => true) (fun _ => true) [] (fun _ => "now") "" 9 "prod" "task"
                                 (mkClaimState ∅ ∅)) queue) = [("w2", true)].
Proof. vm_compute. reflexivity. Qed.

(** A variable override that the template's policy refuses is a user error, but
    not one of the suppressed ones: the reconcile returns it and is retried. *)
Example override_rejection_not_suppressed :
  match injectEnvs EnvVarsInjectionPolicyAllowed [mkClaimEnv "A" "2" ""]
          (mkContainer "main" "img" (mkResources None None) (mkResources None None) [mkEnv "A" "1"] []) with
  | Ok _ => False
  | Err e => resultErr (finishResult false false 0 (Some e)) = Some e
  end.
Proof. vm_compute. reflexivity. Qed.

Lemma claim_api_answers X e q : claim_answers "u-c" "prod" "task" "fast" X e (api X e q).1.
Proof.
  destruct e; try done; cbn.
  - intros c Hc. apply Ok_inj in Hc. subst c. done.
  - intros c' Hc. apply Ok_inj in Hc. by subst c'.
  - intros c' Hc. apply Ok_inj in Hc. by subst c'.
  - intros sb' Hs. apply Ok_inj in Hs. by subst sb'.
  - intros sb' Hs. apply Ok_inj in Hs. by subst sb'.
Qed.
End ClaimDemo.
Import ClaimDemo.

Lemma claim_writes_safe_witness :
  Forall (fun c => claim_writes_ok "u-c" "prod" "task" "fast" (projT1 c) (projT2 c))
    (trace api (Reconcile (fun _ => true) (fun _ => true) [] (fun _ => "now") "" 9 "prod" "task"
                  (mkClaimState ∅ ∅)) queue).
Proof.
  apply (spec_run (claim_writes_ok "u-c" "prod" "task" "fast") (claim_answers "u-c" "prod" "task" "fast")
           (fun _ => True) api _ queue claim_api_answers).
  apply (claim_writes_safe (fun _ => true) (fun _ => true) [] (fun _ => "now") "" "u-c" "prod" "task" "fast" 9
           (mkClaimState ∅ ∅)).
Defined.

Lemma queue_wf : qOk queue.
Proof.
  intros pool. unfold queue. simpl. unfold Add.
  destruct (decide (pool = "prod/fast")) as [->|Hne].
  - rewrite !lookup_insert_eq. cbn [default]. repeat (apply Push_wf_aux; [done|]). apply new_wf.
  - rewrite !lookup_insert_ne by done. apply new_wf.
Qed.

Lemma candidates_conserved_witness :
  let '(r, q') := run (search_env lookup_sandbox) (getCandidate 4 claim) queue in
  taken r = [key "w2"] /\ qKeys q' "prod/fast" = [key "w1"] /\
  outcome_ok lookup_sandbox claim r (qKeys queue "prod/fast").
Proof.
  pose proof (candidates_conserved lookup_sandbox claim 4 queue queue_wf) as Hc.
  assert ((length (qKeys queue (warmPoolKey claim)) < 4)%nat) as Hl by (vm_compute; lia). specialize (Hc Hl).
  destruct (run (search_env lookup_sandbox) (getCandidate 4 claim) queue) as [r q'] eqn:Er.
  destruct Hc as (_ & Ho & _).
  assert (taken r = [key "w2"] /\ qKeys q' "prod/fast" = [key "w1"]) as [Ht Hk].
  { pose proof (f_equal fst Er) as E1. pose proof (f_equal snd Er) as E2. cbn [fst snd] in E1, E2.
    rewrite <-E1, <-E2. vm_compute. split; reflexivity. }
  split; [exact Ht|]. split; [exact Hk|]. exact Ho.
Defined.

Lemma claim_metadata_contained_witness :
  let tm := mkPodMetadata {["agents.x-k8s.io/x" := "1"]} ∅ in
  let cm := mkPodMetadata {["sandbox.users.io/team" := "a"]} {["note" := "n"]} in
  exists merged, mergePodMetadata (fun _ => true) (fun _ => true) [] tm cm = Ok merged /\
    pmLabels merged !! "agents.x-k8s.io/x" = Some "1".
Proof.
  eexists. split; [vm_compute; reflexivity|].
  eapply (claim_metadata_contained (fun _ => true) (fun _ => true) []
    (mkPodMetadata {["agents.x-k8s.io/x" := "1"]} ∅)
    (mkPodMetadata {["sandbox.users.io/team" := "a"]} {["note" := "n"]}) _ "agents.x-k8s.io/x" "1");
    vm_compute; reflexivity.
Defined.

End ClaimFacts.
