(* ===== verification/ClaimGateway.v ===== *)
(** * ClaimGateway: the node-local claim gateway.

    Models [pkg/scale/claimgateway.go] and [claimgateway_impl.go]: the gateway
    authorizes a claim, takes a running microVM from the node's sandboxd, keeps
    the credential that can destroy it, and records the binding asynchronously;
    the orphan reconciler adopts deliveries whose record was lost; the review
    authorizer asks the API server.  The holdings map is passed explicitly, and
    its critical sections ([hold], [takeHolding], [restore]) are the atomic steps
    of the interleaved system at the end.  Starting the record goroutine is one
    call; its body is [recordJob]. *)

From S2P Require Import Prelude GoStrings K8s PoolKey SandboxId Types StoreModel.

Module Gateway.
Import Pool Store.
#[local] Open Scope prog_scope.

Definition textNoNodeCapacity : string :=
  "scale: node has no warm capacity; fall back to L1 claim path".
Definition ErrNoNodeCapacity : gerror := Sentinel textNoNodeCapacity.
Definition IsFallback (e : gerror) : bool := errors_Is e textNoNodeCapacity.

Definition SelectorTemplateKey : string := "sandbox.cocoonstack.io/template".
Definition SelectorNetKey : string := "sandbox.cocoonstack.io/net".
Definition SelectorSizeKey : string := "sandbox.cocoonstack.io/size".
Definition BoundConditionType : string := "Bound".
Definition RequestUserSelectorKey : string := "authorization.cocoonstack.io/user".

Record ClaimRequest := mkClaimRequest {
  rqNamespace : string; rqClaimName : string; rqWarmPool : string; rqSelector : strmap
}.

Record delivered := mkDelivered { dlID : string; dlToken : string }.

#[export] Instance delivered_eq_dec : EqDecision delivered.
Proof. solve_decision. Defined.

Record Delivery := mkDelivery {
  dvSandboxName : string; dvNode : string; dvAddress : string; dvClaimNS : string; dvClaimName : string
}.

(** [authzv1.SubjectAccessReview]: what is asked and what was decided. *)
Record AccessReview := mkReview {
  arUser : string; arNamespace : string; arVerb : string; arGroup : string; arResource : string; arName : string
}.
Record AccessDecision := mkDecision { adAllowed : bool; adDenied : bool; adReason : string }.

(** The critical sections under [g.mu]: each reads or writes the holdings map
    in one piece, between calls that other requests may interleave with. *)
Abbreviation holdings := (gmap string delivered).

Inductive HoldingsE : Type -> Type :=
| HHold (name : string) (d : delivered) : HoldingsE unit
| HTake (name : string) : HoldingsE (option delivered)
| HRestore (name : string) (d : delivered) : HoldingsE unit.

Definition hold (h : holdings) (name : string) (d : delivered) : holdings := <[name := d]> h.
Definition takeHolding (h : holdings) (name : string) : option delivered * holdings := (h !! name, delete name h).
Definition restore (h : holdings) (name : string) (d : delivered) : holdings := <[name := d]> h.

Definition critical {X} (op : HoldingsE X) : holdings -> X * holdings :=
  match op in HoldingsE X return holdings -> X * holdings with
  | HHold name d => fun h => (tt, hold h name d)
  | HTake name => fun h => takeHolding h name
  | HRestore name d => fun h => (tt, restore h name d)
  end.

Inductive GatewayE : Type -> Type :=
| GReview (sar : AccessReview) : GatewayE (result AccessDecision)
| GAdmit (namespace : string) : GatewayE (option gerror)
| GSandboxd {X} (c : SandboxdCall X) : GatewayE X
| GHoldings {X} (op : HoldingsE X) : GatewayE X
| GEnqueueRecord (ns name : string) (a : Assignment) : GatewayE unit
| GNow : GatewayE Z
| GGetClaim (ns name : string) : GatewayE (result SandboxClaim)
| GPatchClaimStatus (claim : SandboxClaim) : GatewayE (option gerror)
| GLiveDeliveries : GatewayE (result (list Delivery)).

Fixpoint firstNonEmpty (vals : list string) : string :=
  match vals with
  | [] => ""
  | v :: vals => if bool_decide (v <> "") then v else firstNonEmpty vals
  end.

(** ** The review authorizer *)

(** [raQuota] is whether a quota checker is configured. *)
Record ReviewAuthorizer := mkAuthorizer {
  raQuota : bool; raGroup : string; raResource : string; raVerb : string
}.

Definition reviewFor (a : ReviewAuthorizer) (req : ClaimRequest) (user : string) : AccessReview :=
  mkReview user (rqNamespace req) (firstNonEmpty [raVerb a; "create"])
    (firstNonEmpty [raGroup a; "extensions.agents.x-k8s.io"])
    (firstNonEmpty [raResource a; "sandboxclaims"]) (rqClaimName req).

Definition Authorize (a : ReviewAuthorizer) (req : ClaimRequest) : prog GatewayE (option gerror) :=
  let user := mget (rqSelector req) RequestUserSelectorKey in
  if bool_decide (user = "") then Ret (Some (Errorf "missing caller identity"))
  else
    r <- call (GReview (reviewFor a req user));;
    match r with
    | Err e => Ret (Some (Wrap "subjectaccessreview" e))
    | Ok got =>
        if adDenied got || negb (adAllowed got) then Ret (Some (Errorf "user may not claim"))
        else if raQuota a then
          e <- call (GAdmit (rqNamespace req));;
          Ret (Wrap "quota" <$> e)
        else Ret None
    end.

(** ** The gateway *)

Record GatewayConfig := mkGatewayConfig {
  gwNode : string; gwTemplate : string; gwNet : string; gwSize : string; gwTTLSeconds : Z
}.

Definition specFor (g : GatewayConfig) (req : ClaimRequest) : ClaimSpec :=
  mkClaimSpec (firstNonEmpty [mget (rqSelector req) SelectorTemplateKey; gwTemplate g; rqWarmPool req])
    (firstNonEmpty [mget (rqSelector req) SelectorNetKey; gwNet g])
    (firstNonEmpty [mget (rqSelector req) SelectorSizeKey; gwSize g])
    (gwTTLSeconds g) "".

(** [authz] is nil or an authorizer. *)
Definition Claim (g : GatewayConfig) (authz : option (ClaimRequest -> prog GatewayE (option gerror)))
    (req : ClaimRequest) : prog GatewayE (result Assignment) :=
  denied <- match authz with Some authorize => authorize req | None => Ret None end;;
  match denied with
  | Some e => Ret (Err (Wrap "scale: claim not authorized" e))
  | None =>
      r <- call (GSandboxd (SdClaim (specFor g req)));;
      match r with
      | Err e =>
          if IsNodeAtCapacity e then Ret (Err ErrNoNodeCapacity)
          else Ret (Err (Wrap "scale: sandboxd claim" e))
      | Ok res =>
          let a := mkAssignment (crID res) (gwNode g) (crOwnerAddr res) (crToken res) in
          call (GHoldings (HHold (asSandboxName a) (mkDelivered (crID res) (crToken res))));;;
          call (GEnqueueRecord (rqNamespace req) (rqClaimName req) a);;;
          Ret (Ok a)
      end
  end.

Definition Release (a : Assignment) : prog GatewayE (option gerror) :=
  d <- call (GHoldings (HTake (asSandboxName a)));;
  match d with
  | None => Ret (Some (Errorf "scale: release of sandbox not delivered; refusing to destroy"))
  | Some d =>
      e <- call (GSandboxd (SdRelease (dlID d) (dlToken d)));;
      match e with
      | Some e =>
          call (GHoldings (HRestore (asSandboxName a) d));;;
          Ret (Some (Wrap "scale: sandboxd release" e))
      | None => Ret None
      end
  end.

(** ** Recording *)

Section recording.
Context `{ConditionLib}.

Definition boundClaim (cur : SandboxClaim) (a : Assignment) (now : Z) : SandboxClaim :=
  mkClaim (scMeta cur) (scWarmPoolRef cur) (scLifecycle cur) (scAdditionalPodMetadata cur) (scEnv cur)
    (scVolumeClaimTemplates cur)
    (SetStatusCondition now (scConditions cur)
       (newCondition BoundConditionType ConditionTrue "NodeLocalClaim"
          ("sandbox " +:+ asSandboxName a +:+ " delivered by node-local claim gateway") 0))
    (asSandboxName a)
    (if bool_decide (asAddress a <> "") then [asAddress a] else scPodIPs cur).

Definition RecordBound (claimNS claimName : string) (a : Assignment) : prog GatewayE (option gerror) :=
  r <- call (GGetClaim claimNS claimName);;
  match r with
  | Err e => Ret (Some (Wrap "get claim" e))
  | Ok cur =>
      if bool_decide (scSandboxName cur = asSandboxName a) then Ret None
      else
        now <- call GNow;;
        call (GPatchClaimStatus (boundClaim cur a now))
  end.

(** The goroutine of [enqueueRecord]: a failure is logged and left to the
    orphan reconciler. *)
Definition recordJob (ns name : string) (a : Assignment) : prog GatewayE unit :=
  RecordBound ns name a;;; Ret tt.

(** ** Orphans *)

Definition notFoundName (e : gerror) : string :=
  match status_of e with Some (_, name) => name | None => "" end.

Fixpoint adopt (deliveries : list Delivery) (reconciled : Z) : prog GatewayE (Z * option gerror) :=
  match deliveries with
  | [] => Ret (reconciled, None)
  | d :: deliveries =>
      r <- call (GGetClaim (dvClaimNS d) (dvClaimName d));;
      match r with
      | Err e =>
          if IsNotFound e then
            let n := notFoundName e in
            if bool_decide (n <> "") && bool_decide (n <> dvClaimName d)
            then Ret (reconciled, Some (Errorf "scale: ambiguous 404; refusing to treat as deleted"))
            else adopt deliveries reconciled
          else Ret (reconciled, Some (Wrap "scale: get claim" e))
      | Ok cur =>
          if bool_decide (scSandboxName cur <> "") then adopt deliveries reconciled
          else
            e <- RecordBound (dvClaimNS d) (dvClaimName d)
                   (mkAssignment (dvSandboxName d) (dvNode d) (dvAddress d) "");;
            match e with
            | Some e => Ret (reconciled, Some (Wrap "scale: adopt orphan binding" e))
            | None => adopt deliveries (reconciled + 1)
            end
      end
  end.

Definition OrphanReconcile : prog GatewayE (Z * option gerror) :=
  r <- call GLiveDeliveries;;
  match r with
  | Err e => Ret (0, Some (Wrap "scale: list node deliveries" e))
  | Ok deliveries => adopt deliveries 0
  end.
End recording.
End Gateway.
