(* ===== verification/GatewayFacts.v ===== *)
(** * GatewayFacts: what the claim gateway guarantees.

    No delivery without authorization, a release only with a credential that was
    delivered, every live microVM in exactly one hand while claims and releases
    interleave, and orphan bindings adopted without ever touching a microVM. *)

From S2P Require Import Prelude GoStrings K8s PoolKey SandboxId Types StoreModel ClaimGateway Interleave.

Module GatewayFacts.
Import Pool Store Gateway.
#[local] Open Scope prog_scope.

(** ** Policy before delivery *)

Definition gclaimed (X : Type) (e : GatewayE X) : X -> option (ClaimSpec * result ClaimResult) :=
  match e in GatewayE X return X -> option (ClaimSpec * result ClaimResult) with
  | GSandboxd c =>
      match c in SandboxdCall X return X -> option (ClaimSpec * result ClaimResult) with
      | SdClaim spec => fun x => Some (spec, x)
      | _ => fun _ => None
      end
  | _ => fun _ => None
  end.

(** Reviews that were allowed, quota checks that passed. *)
Definition gapproved (X : Type) (e : GatewayE X) : X -> option AccessReview :=
  match e in GatewayE X return X -> option AccessReview with
  | GReview sar => fun x =>
      match x with Ok d => if adAllowed d && negb (adDenied d) then Some sar else None | Err _ => None end
  | _ => fun _ => None
  end.

Definition gadmitted (X : Type) (e : GatewayE X) : X -> option string :=
  match e in GatewayE X return X -> option string with
  | GAdmit ns => fun x => match x with None => Some ns | Some _ => None end
  | _ => fun _ => None
  end.

Definition claimed := witnessed gclaimed.

Definition authorized (az : ReviewAuthorizer) (req : ClaimRequest) (h : list (event GatewayE)) : Prop :=
  let user := mget (rqSelector req) RequestUserSelectorKey in
  user <> "" /\ reviewFor az req user ∈ witnessed gapproved h /\
  (raQuota az = true -> rqNamespace req ∈ witnessed gadmitted h).

(** No library error is the gateway's own sentinel. *)
Definition foreign_errors (X : Type) (e : GatewayE X) : X -> Prop :=
  match e in GatewayE X return X -> Prop with
  | GReview _ => fun x => match x with Err e => IsFallback e = false | Ok _ => True end
  | GAdmit _ => fun x => match x with Some e => IsFallback e = false | None => True end
  | GSandboxd c =>
      match c in SandboxdCall X return X -> Prop with
      | SdClaim _ => fun x => match x with Err e => IsFallback e = false | Ok _ => True end
      | _ => fun _ => True
      end
  | _ => fun _ => True
  end.

Lemma Authorize_hist az req h :
  claimed h = [] ->
  history foreign_errors
    (fun r h' => claimed h' = [] /\
       match r with None => authorized az req h' | Some e => IsFallback e = false end)
    (Authorize az req) h.
Proof.
  intros Hc. unfold Authorize. set (user := mget _ _).
  destruct (bool_decide (user = "")) eqn:Eu; [done|]. apply bool_decide_eq_false in Eu.
  intros [got|e] He; cbn [bind].
  2: { split; [|done]. unfold claimed in *. rewrite witnessed_app, Hc. done. }
  assert (claimed (h ++ [Ev (GReview (reviewFor az req user)) (Ok got)]) = []) as Hc1.
  { unfold claimed in *. rewrite witnessed_app, Hc. done. }
  destruct (adDenied got || negb (adAllowed got)) eqn:Ed; [done|].
  assert (reviewFor az req user ∈ witnessed gapproved (h ++ [Ev (GReview (reviewFor az req user)) (Ok got)])) as Ha.
  { rewrite witnessed_app, elem_of_app. right. cbn. apply orb_false_iff in Ed as [-> Ea].
    destruct (adAllowed got); [left|done]. }
  destruct (raQuota az) eqn:Eq; [|split; [done|]; split_and!; [done|done|by rewrite Eq]].
  intros [e|] Hq; cbn [fmap option_fmap option_map].
  - split; [|done]. unfold claimed in *. rewrite witnessed_app, Hc1. done.
  - split; [unfold claimed in *; rewrite witnessed_app, Hc1; done|]. split_and!; [done| |].
    + rewrite witnessed_app, elem_of_app. by left.
    + intros _. rewrite witnessed_app, elem_of_app. right. left.
Qed.

(** What happened to the holdings. *)
Definition gheld (X : Type) (e : GatewayE X) : X -> option (sigT HoldingsE) :=
  match e with GHoldings op => fun _ => Some (existT _ op) | _ => fun _ => None end.

Definition touched := witnessed gheld.

Lemma Authorize_untouched az req : calls (ignores gheld) (Authorize az req).
Proof. unfold Authorize. solve_calls; done. Qed.

(** C15.  Central policy comes before delivery.  Along every run of [Claim] with
    the review authorizer, the node is asked for a microVM at most once and only
    after the API server allowed this user this claim (a named user, no denial)
    and the namespace's quota, if configured, admitted it.  A delivery is put in
    the holdings under its own id with its id and token, once; a rejected or
    failed claim leaves the holdings alone, and it is reported as "fall back"
    exactly if the node answered that it is at capacity: the sandboxd client's
    at-capacity error comes back as the gateway's fall-back error.  (Errors of
    the review, the quota and the node are taken not to be that error
    themselves.) *)
Theorem policy_before_delivery g az req :
  history foreign_errors
    (fun r h =>
       match claimed h with
       | [] => touched h = [] /\ exists e, r = Err e /\ IsFallback e = false
       | [(spec, answer)] =>
           spec = specFor g req /\ authorized az req h /\
           match answer with
           | Ok res => r = Ok (mkAssignment (crID res) (gwNode g) (crOwnerAddr res) (crToken res)) /\
                       touched h = [existT _ (HHold (crID res) (mkDelivered (crID res) (crToken res)))]
           | Err e => touched h = [] /\ exists e', r = Err e' /\ IsFallback e' = IsNodeAtCapacity e /\
                        (e = ErrNodeAtCapacity -> e' = ErrNoNodeCapacity)
           end
       | _ => False
       end)
    (Claim g (Some (Authorize az)) req) [].
Proof.
  unfold Claim. eapply history_bind.
  { apply history_and; [by apply (Authorize_hist az req [])|apply (calls_unseen gheld), Authorize_untouched]. }
  intros [e|] h [[Hc Ha] Ht].
  { cbn [history]. rewrite Hc. split; [exact Ht|]. by eexists. }
  intros answer He. cbn [bind]. set (h1 := h ++ _).
  assert (claimed h1 = [(specFor g req, answer)]) as Hc1 by (unfold claimed in *; unfold h1; by rewrite witnessed_app, Hc).
  assert (touched h1 = []) as Ht1 by (unfold touched, h1; by rewrite witnessed_app, Ht).
  assert (forall new, authorized az req (h1 ++ new)) as Ha1.
  { intros new. destruct Ha as (Hu & Hr & Hq). unfold h1.
    split_and!; [done| |]; [|intros Eq]; rewrite !witnessed_app, !elem_of_app; left; left; auto. }
  destruct answer as [res|e].
  - intros [] _. cbn [bind history call]. intros [] _. rewrite <-app_assoc. unfold claimed, touched in *.
    rewrite !witnessed_app, Hc1, Ht1. cbn. by split_and!.
  - specialize (Ha1 []). rewrite app_nil_r in Ha1.
    destruct (IsNodeAtCapacity e) eqn:En; cbn [history]; rewrite Hc1; (split_and!; [done..|]); eexists;
      (split; [done|]); rewrite En; [done|]. split; [exact He|]. by intros ->.
Qed.

(** ** A release needs a delivered credential *)

(** The holdings map as the calls see it. *)
Definition holds (h0 : holdings) (X : Type) (e : GatewayE X) : X -> Prop :=
  match e in GatewayE X return X -> Prop with
  | GHoldings op => match op in HoldingsE Y return Y -> Prop with
                    | HTake name => fun x => x = h0 !! name
                    | _ => fun _ => True
                    end
  | _ => fun _ => True
  end.

(** [Release] destroys only what this gateway delivered: it asks sandboxd for
    at most one release, with exactly the id and token held under the
    assignment's name, and none if nothing is held there, whatever the assignment
    says; a release that fails is reported and puts the credential back. *)
Theorem release_needs_credential a h0 :
  history (holds h0)
    (fun r h =>
       exists d, h0 !! asSandboxName a = d /\
       match d with
       | None => h = [Ev (GHoldings (HTake (asSandboxName a))) None] /\ r <> None
       | Some d => exists answer,
           let asked := [Ev (GHoldings (HTake (asSandboxName a))) (Some d);
                         Ev (GSandboxd (SdRelease (dlID d) (dlToken d))) answer] in
           match answer with
           | None => h = asked /\ r = None
           | Some _ => h = asked ++ [Ev (GHoldings (HRestore (asSandboxName a) d)) tt] /\ r <> None
           end
       end)
    (Release a) [].
Proof.
  unfold Release. intros x Hx. cbn in Hx. destruct x as [d|]; cbn [bind call history].
  - intros [e|] _; cbn [bind call history].
    + intros [] _. exists (Some d). split; [done|]. by exists (Some e).
    + exists (Some d). split; [done|]. by exists None.
  - by exists None.
Qed.

(** ** Claims and releases interleaved

    Any number of requests run [Claim] and [Release] concurrently against one
    holdings map; each call is one step, so everything can happen between a
    sandboxd answer and the critical section that records it.  The shared state
    is the map and the microVMs delivered and not confirmed released; a
    request's local state is a ghost, the credential in its hand. *)

Inductive request := RqClaim (req : ClaimRequest) | RqRelease (a : Assignment).

Inductive hand :=
| Empty                                    (* no credential *)
| Delivered (d : delivered)                (* sandboxd answered the claim, not yet in the map *)
| Releasing (name : string) (d : delivered).   (* taken out of the map, release not yet confirmed *)

Record node := mkNode { ndHoldings : holdings; ndLive : list delivered }.

Definition credential (res : ClaimResult) : delivered := mkDelivered (crID res) (crToken res).

(** What a sandboxd call may be answered with.  A claim hands out an id no live
    microVM has; a confirmed release ends the microVM of that id. *)
Definition sandboxd_answers {X} (c : SandboxdCall X) (s : node) (l : hand) : X -> node -> hand -> Prop :=
  match c in SandboxdCall X return X -> node -> hand -> Prop with
  | SdClaim _ => fun x s' l' =>
      match x with
      | Ok res => (crID res ∉ dlID <$> ndLive s) /\
                  s' = mkNode (ndHoldings s) (credential res :: ndLive s) /\ l' = Delivered (credential res)
      | Err _ => s' = s /\ l' = l
      end
  | SdRelease id _ => fun x s' l' =>
      match x with
      | None => s' = mkNode (ndHoldings s) (filter (fun d => dlID d <> id) (ndLive s)) /\ l' = Empty
      | Some _ => s' = s /\ l' = l
      end
  | _ => fun _ s' l' => s' = s /\ l' = l
  end.

(** The hand after a critical section. *)
Definition hand_after {X} (op : HoldingsE X) (x : X) : hand :=
  match op in HoldingsE X return X -> hand with
  | HHold _ _ | HRestore _ _ => fun _ => Empty
  | HTake name => fun d => match d with Some d => Releasing name d | None => Empty end
  end x.

Definition gw_answers (X : Type) (e : GatewayE X) (s : node) (l : hand) : X -> node -> hand -> Prop :=
  match e in GatewayE X return X -> node -> hand -> Prop with
  | GSandboxd c => sandboxd_answers c s l
  | GHoldings op => fun x s' l' =>
      (x, ndHoldings s') = critical op (ndHoldings s) /\ ndLive s' = ndLive s /\ l' = hand_after op x
  | _ => fun _ s' l' => s' = s /\ l' = l
  end.

(** A request takes a credential only with an empty hand, records the delivery
    it holds under that microVM's id, releases what it took with that
    credential, and puts back what it took under the name it was taken from. *)
Definition gw_may (X : Type) (e : GatewayE X) (l : hand) : Prop :=
  match e with
  | GSandboxd (SdClaim _) => l = Empty
  | GSandboxd (SdRelease id tok) => exists name, l = Releasing name (mkDelivered id tok)
  | GSandboxd _ => False
  | GHoldings (HHold name d) => l = Delivered d /\ name = dlID d
  | GHoldings (HTake _) => l = Empty
  | GHoldings (HRestore name d) => l = Releasing name d
  | _ => True
  end.

Section requests.
Context (g : GatewayConfig) (authz : option ReviewAuthorizer).

Definition checker : option (ClaimRequest -> prog GatewayE (option gerror)) :=
  match authz with Some az => Some (Authorize az) | None => None end.

Definition serve (rq : request) : prog GatewayE unit :=
  match rq with
  | RqClaim req => Claim g checker req;;; Ret tt
  | RqRelease a => Release a;;; Ret tt
  end.

Fixpoint requests (rqs : list request) : list thread :=
  match rqs with [] => [] | rq :: rqs => mkThread (serve rq) Empty :: requests rqs end.

Abbreviation done_empty := (fun (_ : unit) l => l = Empty).

Lemma Authorize_obeys az req :
  obeys gw_answers gw_may (fun _ l => l = Empty) (Authorize az req) Empty.
Proof.
  unfold Authorize. case_bool_decide; [done|]. cbn [bind call obeys]. split; [done|].
  intros s [got|e] s' l' [-> ->]; cbn [bind]; [|done]. destruct (_ || _); [done|]. destruct (raQuota az); [|done].
  cbn [bind call obeys]. split; [done|]. by intros s1 x s1' l1 [-> ->].
Qed.

Lemma Claim_obeys req :
  obeys gw_answers gw_may (fun _ l => l = Empty) (Claim g checker req) Empty.
Proof.
  unfold Claim. eapply (obeys_bind _ _ (fun _ l => l = Empty)).
  { unfold checker. destruct authz as [az|]; [apply Authorize_obeys|done]. }
  intros [e|] l ->; [done|]. cbn [bind call obeys]. split; [done|].
  intros s [res|e] s' l'; cbn [gw_answers sandboxd_answers bind].
  - intros (_ & _ & ->). split; [done|]. intros s1 [] s1' l1 (_ & _ & ->). cbn [hand_after bind call obeys].
    split; [done|]. by intros s2 x s2' l2 [-> ->].
  - intros [-> ->]. by destruct (IsNodeAtCapacity e).
Qed.

Lemma Release_obeys a : obeys gw_answers gw_may (fun _ l => l = Empty) (Release a) Empty.
Proof.
  unfold Release. cbn [bind call obeys]. split; [done|].
  intros s [d|] s' l' (_ & _ & ->); cbn [hand_after bind call obeys]; [|done].
  split; [exists (asSandboxName a); by destruct d|]. intros s1 [e|] s1' l1; cbn [gw_answers sandboxd_answers bind call obeys].
  - intros [-> ->]. split; [done|]. by intros s2 [] s2' l2 (_ & _ & ->).
  - by intros [_ ->].
Qed.

Lemma requests_obey rqs : all_obey gw_answers gw_may done_empty (requests rqs).
Proof.
  induction rqs as [|rq rqs IH]; cbn [requests]; constructor; [|exact IH]. cbn [code local].
  destruct rq; cbn [serve]; (eapply obeys_bind; [apply Claim_obeys || apply Release_obeys|]); by intros ? ? ->.
Qed.
End requests.

(** *** The credentials of a state *)

Definition held_in (l : hand) : list delivered :=
  match l with Empty => [] | Delivered d | Releasing _ d => [d] end.

Fixpoint in_hands (ls : list hand) : list delivered :=
  match ls with [] => [] | l :: ls => held_in l ++ in_hands ls end.

Definition in_map (h : holdings) : list delivered := (map_to_list h).*2.

(** Everything that holds a credential. *)
Definition hands (s : node) (ls : list hand) : list delivered := in_map (ndHoldings s) ++ in_hands ls.

Definition named_by_id (l : hand) : Prop := match l with Releasing name d => name = dlID d | _ => True end.

Record consistent (c : node * list hand) : Prop := {
  con_keys : forall k d, ndHoldings c.1 !! k = Some d -> dlID d = k;
  con_names : Forall named_by_id c.2;
  con_hands : hands c.1 c.2 ≡ₚ ndLive c.1;
  con_unique : NoDup (dlID <$> ndLive c.1);
}.

Lemma in_hands_put ls i l : ls !! i = Some l -> exists rest,
  in_hands ls ≡ₚ held_in l ++ rest /\ forall l', in_hands (<[i := l']> ls) ≡ₚ held_in l' ++ rest.
Proof.
  revert i. induction ls as [|k ls IH]; intros [|i] Hi; [done|done| |].
  - injection Hi as ->. by exists (in_hands ls).
  - destruct (IH i Hi) as (rest & Hr & Hp). exists (held_in k ++ rest).
    cbn [in_hands]. rewrite Hr. split; [solve_Permutation|]. intros l'. change (<[S i := l']> (k :: ls)) with (k :: <[i := l']> ls).
    cbn [in_hands]. rewrite Hp. solve_Permutation.
Qed.

Lemma in_map_insert (h : holdings) k d : h !! k = None -> in_map (<[k := d]> h) ≡ₚ d :: in_map h.
Proof. intros Hk. unfold in_map. by rewrite map_to_list_insert. Qed.

Lemma in_map_delete (h : holdings) k d : h !! k = Some d -> in_map h ≡ₚ d :: in_map (delete k h).
Proof. intros Hk. unfold in_map. by rewrite <-(map_to_list_delete h k d Hk). Qed.

(** A credential outside the map has its key free. *)
Lemma key_free (h : holdings) d rest l :
  (forall k e, h !! k = Some e -> dlID e = k) -> in_map h ++ d :: rest ≡ₚ l -> NoDup (dlID <$> l) ->
  h !! dlID d = None.
Proof.
  intros Hk Hp Hn. destruct (h !! dlID d) as [e|] eqn:E; [|done]. exfalso.
  assert (e ∈ in_map h) as He.
  { apply list_elem_of_fmap. exists (dlID d, e). split; [done|]. by apply elem_of_map_to_list. }
  rewrite <-Hp, fmap_app, fmap_cons in Hn. apply NoDup_app in Hn as (_ & Hn & _).
  apply (Hn (dlID e)); [by apply list_elem_of_fmap_2|]. rewrite (Hk _ _ E). left.
Qed.

(** Ending one microVM among distinct ones. *)
Lemma live_filter d l : NoDup (dlID <$> (d :: l)) -> filter (fun e => dlID e <> dlID d) (d :: l) = l.
Proof.
  intros [Hd Hn]%NoDup_cons. rewrite filter_cons_False by (by intros []).
  induction l as [|e l IH]; [done|]. cbn in Hd, Hn. apply NoDup_cons in Hn as [_ Hn].
  apply not_elem_of_cons in Hd as [He Hd]. rewrite filter_cons_True by done. by rewrite IH.
Qed.

Lemma live_release (h : holdings) d rest live :
  in_map h ++ d :: rest ≡ₚ live -> NoDup (dlID <$> live) ->
  in_map h ++ rest ≡ₚ filter (fun e => dlID e <> dlID d) live.
Proof.
  intros Hp Hn. assert (live ≡ₚ d :: in_map h ++ rest) as Hl by (rewrite <-Hp; solve_Permutation).
  rewrite Hl in Hn |- *. by rewrite (live_filter d).
Qed.

Lemma unique_filter id live : NoDup (dlID <$> live) -> NoDup (dlID <$> filter (fun e => dlID e <> id) live).
Proof.
  induction live as [|d live IH]; [done|]. rewrite fmap_cons. intros [Hd Hn]%NoDup_cons. rewrite filter_cons.
  case_decide; [|by apply IH]. rewrite fmap_cons. apply NoDup_cons. split; [|by apply IH].
  rewrite list_elem_of_fmap. intros (e & He & [_ Hin]%list_elem_of_filter). apply Hd. rewrite He. by apply list_elem_of_fmap_2.
Qed.

(** The operations on the map, seen from the hand that makes them. *)
Lemma critical_consistent {X} (op : HoldingsE X) x s s' ls i l :
  consistent (s, ls) -> ls !! i = Some l -> gw_may X (GHoldings op) l ->
  (x, ndHoldings s') = critical op (ndHoldings s) -> ndLive s' = ndLive s ->
  consistent (s', <[i := hand_after op x]> ls).
Proof.
  intros [Hk Hr Hh Hu] Hi Hm Hc Hl. destruct (in_hands_put ls i l Hi) as (rest & Hls & Hput).
  assert (Hown := Forall_lookup_1 _ _ _ _ Hr Hi). unfold hands in *. cbn [fst snd] in *. rewrite Hls in Hh.
  assert (forall d, held_in l = [d] -> ndHoldings s !! dlID d = None) as Hfree.
  { intros d Hd. rewrite Hd in Hh. by eapply key_free. }
  destruct op as [name d|name|name d]; cbn in Hm, Hc; injection Hc as Hc Hx.
  - destruct Hm as [-> ->]. specialize (Hfree d eq_refl). constructor; cbn [fst snd]; rewrite ?Hl, ?Hx; [| | |done].
    + intros k e. unfold hold. rewrite lookup_insert_Some. naive_solver.
    + by apply Forall_insert.
    + unfold hands, hold. rewrite Hx. unfold hold. rewrite in_map_insert, Hput, <-Hh by done. cbn. solve_Permutation.
  - subst l. subst x. destruct (ndHoldings s !! name) as [d|] eqn:Ed; cbn [hand_after].
    + constructor; cbn [fst snd]; rewrite ?Hl, ?Hx; [| | |done].
      * intros k e. rewrite lookup_delete_Some. naive_solver.
      * apply Forall_insert; [done|]. symmetry. by apply Hk.
      * unfold hands. rewrite Hx, Hput, <-Hh, (in_map_delete _ name d Ed). cbn. solve_Permutation.
    + rewrite delete_id in Hx by done. constructor; cbn [fst snd]; rewrite ?Hl, ?Hx; [done| | |done].
      * by apply Forall_insert.
      * unfold hands. by rewrite Hx, Hput, <-Hh.
  - subst l. cbn in Hown. subst name. specialize (Hfree d eq_refl).
    constructor; cbn [fst snd]; rewrite ?Hl, ?Hx; [| | |done].
    + intros k e. unfold restore. rewrite lookup_insert_Some. naive_solver.
    + by apply Forall_insert.
    + unfold hands. rewrite Hx. unfold restore. rewrite in_map_insert, Hput, <-Hh by done. cbn. solve_Permutation.
Qed.

Lemma sandboxd_consistent {X} (c : SandboxdCall X) x s s' ls i l l' :
  consistent (s, ls) -> ls !! i = Some l -> gw_may X (GSandboxd c) l -> sandboxd_answers c s l x s' l' ->
  consistent (s', <[i := l']> ls).
Proof.
  intros Hc Hi Hm Ha. assert (s' = s -> l' = l -> consistent (s', <[i := l']> ls)) as Hsame.
  { intros -> ->. by rewrite list_insert_id. }
  destruct Hc as [Hk Hr Hh Hu]. destruct (in_hands_put ls i l Hi) as (rest & Hls & Hput).
  unfold hands in Hh. cbn [fst snd] in *. rewrite Hls in Hh.
  destruct c; cbn in Hm, Ha; try done.
  - destruct x as [res|e]; [|by apply Hsame; apply Ha]. destruct Ha as (Hf & -> & ->). subst l.
    constructor; cbn [fst snd ndHoldings ndLive]; [done|by apply Forall_insert| |by apply NoDup_cons].
    unfold hands. cbn [ndHoldings]. rewrite Hput, <-Hh. cbn. solve_Permutation.
  - destruct x as [e|]; [by apply Hsame; apply Ha|]. destruct Ha as [-> ->], Hm as [name ->].
    constructor; cbn [fst snd ndHoldings ndLive]; [done|by apply Forall_insert| |by apply unique_filter].
    unfold hands. cbn [ndHoldings]. rewrite Hput. cbn [held_in app] in Hh |- *. by apply (live_release _ (mkDelivered id token)).
Qed.

Lemma lstep_consistent c c' : consistent c -> lstep gw_answers gw_may c c' -> consistent c'.
Proof.
  intros Hc Hs. destruct Hs as [s ls i X e l x s' l' Hi Hm Ha]. destruct e; cbn in Ha.
  all: try (destruct Ha as [-> ->]; by rewrite list_insert_id).
  - eapply sandboxd_consistent; [exact Hc|exact Hi|exact Hm|exact Ha].
  - destruct Ha as (Hx & Hl & ->). eapply critical_consistent; [exact Hc|exact Hi|exact Hm|exact Hx|exact Hl].
Qed.

(** A request that has returned. *)
Definition returned (t : @thread GatewayE hand unit) : Prop := exists r, code t = Ret r.

Lemma idle_hands g authz rqs : Forall named_by_id (locals (requests g authz rqs)) /\
  in_hands (locals (requests g authz rqs)) = [].
Proof. induction rqs as [|rq rqs [IH1 IH2]]; cbn; [by split; [constructor|]|]. by split; [constructor|]. Qed.

Lemma all_returned ts :
  all_obey gw_answers gw_may (fun _ l => l = Empty) ts -> Forall returned ts -> in_hands (locals ts) = [].
Proof.
  induction ts as [|[p l] ts IH]; intros Ho Hr; inversion Ho as [|? ? H1 H2]; inversion Hr as [|? ? [r H3] H4]; subst; [done|].
  cbn in *. rewrite H3 in H1. cbn in H1. subst l. by apply IH.
Qed.

(** C6.  While any number of [Claim] and [Release] requests run concurrently
    against one gateway, in any order of their calls and whatever the node
    answers (it never hands out an id that is live), every microVM delivered and
    not confirmed released is in exactly one hand: the holdings map under its own
    id, one request that is about to put it there, or one request that is
    releasing it.  So no two releases of one microVM are in flight; a request
    that has returned holds nothing, and once all have returned the map holds
    every live microVM with its credential, those whose release failed
    included. *)
Theorem live_vm_in_one_hand g authz rqs s ts :
  steps gw_answers (Ret tt) (fun _ => False) (mkNode ∅ [], requests g authz rqs) (s, ts) ->
  hands s (locals ts) ≡ₚ ndLive s /\ NoDup (dlID <$> hands s (locals ts)) /\
  (forall k d, ndHoldings s !! k = Some d -> k = dlID d) /\
  (Forall returned ts -> forall d, d ∈ ndLive s <-> ndHoldings s !! dlID d = Some d).
Proof.
  intros Hs. destruct (protocol_sound _ gw_may _ _ _ _ Hs (requests_obey g authz rqs)) as (Ho & Hl & _).
  assert (consistent (s, locals ts)) as [Hk Hr Hh Hu].
  { eapply (star_inv _ consistent); [apply lstep_consistent| |exact Hl]. cbn [fst snd].
    destruct (idle_hands g authz rqs) as [H1 H2].
    constructor; cbn [fst snd ndHoldings ndLive]; [done|done| |by constructor]. unfold hands. by rewrite H2. }
  cbn [fst snd] in *. split_and!; [done|by rewrite Hh|by intros k d ?; symmetry; apply Hk|].
  intros Hret d. rewrite <-Hh. unfold hands. rewrite (all_returned ts Ho Hret), app_nil_r. unfold in_map.
  rewrite list_elem_of_fmap. split.
  - intros ([k e] & -> & Hin%elem_of_map_to_list). cbn. by rewrite (Hk _ _ Hin).
  - intros Hd. exists (dlID d, d). split; [done|]. by apply elem_of_map_to_list.
Qed.

(** *** A concrete run

    A node that answers the [n]-th claim with the id "vm-n" and refuses every
    release. *)
Definition stubborn (X : Type) (e : GatewayE X) (s : node) (l : hand) : option (X * node * hand) :=
  match e in GatewayE X return option (X * node * hand) with
  | GReview _ => Some (Ok (mkDecision true false ""), s, l)
  | GAdmit _ => Some (None, s, l)
  | GSandboxd c =>
      match c in SandboxdCall X return option (X * node * hand) with
      | SdClaim _ =>
          let res := mkClaimResult ("vm-" +:+ pretty (length (ndLive s))) "tok" "10.0.0.1:7" in
          if bool_decide (crID res ∉ dlID <$> ndLive s)
          then Some (Ok res, mkNode (ndHoldings s) (credential res :: ndLive s), Delivered (credential res))
          else None
      | SdRelease _ _ => Some (Some (Errorf "busy"), s, l)
      | _ => None
      end
  | GHoldings op => let '(x, h) := critical op (ndHoldings s) in
                    Some (x, mkNode h (ndLive s), hand_after op x)
  | GEnqueueRecord _ _ _ => Some (tt, s, l)
  | GNow => None
  | GGetClaim _ _ => None
  | GPatchClaimStatus _ => None
  | GLiveDeliveries => None
  end.

Lemma stubborn_answers X e s l x s' l' : stubborn X e s l = Some (x, s', l') -> gw_answers X e s l x s' l'.
Proof.
  destruct e as [| |Y c|Y op| | | | |]; cbn; try (by intros [= <- <- <-]); try done.
  - destruct c; try done; cbn [sandboxd_answers]; [|by intros [= <- <- <-]].
    case_bool_decide; [|done]. by intros [= <- <- <-].
  - destruct (critical op (ndHoldings s)) as [y h] eqn:E. by intros [= <- <- <-].
Qed.

Definition demo_requests : list request :=
  [RqClaim (mkClaimRequest "ns" "a" "pool" ∅); RqClaim (mkClaimRequest "ns" "b" "pool" ∅);
   RqRelease (mkAssignment "vm-0" "" "" "")].

(** Two claims are answered before either is recorded; the first microVM is
    released meanwhile, which the node refuses. *)
Definition demo_end : node * list thread :=
  play stubborn [(0%nat, 1%nat); (1%nat, 1%nat); (0%nat, 2%nat); (2%nat, 2%nat); (1%nat, 2%nat); (2%nat, 1%nat)]
    (mkNode ∅ []) (requests (mkGatewayConfig "n1" "img" "" "" 0) None demo_requests).

Lemma live_vm_in_one_hand_witness :
  ndLive demo_end.1 = [mkDelivered "vm-1" "tok"; mkDelivered "vm-0" "tok"] /\
  ndHoldings demo_end.1 !! "vm-0" = Some (mkDelivered "vm-0" "tok").
Proof.
  assert (ndLive demo_end.1 = [mkDelivered "vm-1" "tok"; mkDelivered "vm-0" "tok"]) as Hl by (vm_compute; reflexivity).
  split; [exact Hl|].
  assert (steps gw_answers (Ret tt) (fun _ => False)
            (mkNode ∅ [], requests (mkGatewayConfig "n1" "img" "" "" 0) None demo_requests)
            (demo_end.1, demo_end.2)) as Hs.
  { rewrite <-surjective_pairing. unfold demo_end.
    apply (play_steps gw_answers (Ret tt) (fun _ => False) stubborn stubborn_answers). }
  destruct (live_vm_in_one_hand _ _ _ _ _ Hs) as (_ & _ & _ & Hall).
  assert (Forall returned demo_end.2) as Hret by (vm_compute; repeat constructor; by exists tt).
  apply (Hall Hret (mkDelivered "vm-0" "tok")). rewrite Hl. right. left.
Defined.

(** ** Orphans are adopted, never destroyed *)

Section orphans.
Context `{ConditionLib}.

(** The API answers a Get with the named object. *)
Definition gnamed (X : Type) (e : GatewayE X) : X -> Prop :=
  match e in GatewayE X return X -> Prop with
  | GGetClaim ns name => fun x =>
      match x with Ok c => mNamespace (scMeta c) = ns /\ mName (scMeta c) = name | Err _ => True end
  | _ => fun _ => True
  end.

(** Claims seen bound, or made so. *)
Definition gbound (X : Type) (e : GatewayE X) : X -> option (string * string) :=
  match e in GatewayE X return X -> option (string * string) with
  | GGetClaim ns name => fun x =>
      match x with Ok c => if bool_decide (scSandboxName c <> "") then Some (ns, name) else None | Err _ => None end
  | GPatchClaimStatus c => fun x =>
      match x with None => Some (mNamespace (scMeta c), mName (scMeta c)) | Some _ => None end
  | _ => fun _ => None
  end.

(** Claims the API says do not exist. *)
Definition ggone (X : Type) (e : GatewayE X) : X -> option (string * string) :=
  match e in GatewayE X return X -> option (string * string) with
  | GGetClaim ns name => fun x =>
      match x with Err e => if IsNotFound e then Some (ns, name) else None | Ok _ => None end
  | _ => fun _ => None
  end.

Definition settled (h : list (event GatewayE)) (d : Delivery) : Prop :=
  (dvClaimNS d, dvClaimName d) ∈ witnessed gbound h \/ (dvClaimNS d, dvClaimName d) ∈ witnessed ggone h.

Lemma settled_app h h' d : settled h d -> settled (h ++ h') d.
Proof. intros [Hb|Hg]; [left|right]; rewrite witnessed_app, elem_of_app; by left. Qed.

(** A successful record leaves its claim bound. *)
Lemma RecordBound_hist d h :
  dvSandboxName d <> "" ->
  history gnamed (fun r h' => (exists new, h' = h ++ new) /\ (r = None -> settled h' d))
    (RecordBound (dvClaimNS d) (dvClaimName d) (mkAssignment (dvSandboxName d) (dvNode d) (dvAddress d) "")) h.
Proof.
  intros Hne. apply history_and; [apply (history_rsp any_answer); [done|apply history_extends]|].
  unfold RecordBound. intros [cur|e] Hn; [|done]. cbn [bind].
  destruct (decide (scSandboxName cur = dvSandboxName d)) as [E|E].
  - rewrite bool_decide_true by done. intros _. left. rewrite witnessed_app, elem_of_app. right.
    cbn. rewrite bool_decide_true by congruence. left.
  - rewrite bool_decide_false by done. intros now _. intros [e|] _; [done|]. intros _. left.
    rewrite witnessed_app, elem_of_app. right. cbn. destruct Hn as [-> ->]. left.
Qed.

Lemma adopt_hist ds n h :
  Forall (fun d => dvSandboxName d <> "") ds ->
  history gnamed (fun r h' => (exists new, h' = h ++ new) /\ n <= r.1 <= n + Z.of_nat (length ds) /\
                              (r.2 = None -> Forall (settled h') ds)) (adopt ds n) h.
Proof.
  revert n h. induction ds as [|d ds IH]; intros n h Hds; cbn [adopt].
  { cbn [history fst snd]. split_and!; [exists []; by rewrite app_nil_r|lia|simpl; lia|done]. }
  apply Forall_cons in Hds as [Hd Hds].
  assert (forall n' h1, (exists new, h1 = h ++ new) -> settled h1 d -> n <= n' <= n + 1 ->
    history gnamed (fun r h' => (exists new, h' = h ++ new) /\ n <= r.1 <= n + Z.of_nat (length (d :: ds)) /\
                                (r.2 = None -> Forall (settled h') (d :: ds))) (adopt ds n') h1) as Hgo.
  { intros n' h1 [new ->] Hs Hn. eapply history_mono; [|by apply IH].
    intros r h' ([new' ->] & Hr & Hall). cbn [length]. split_and!; [eexists; by rewrite <-app_assoc|lia|lia|].
    intros Hnone. constructor; [by apply settled_app|by apply Hall]. }
  intros [cur|e] Hn; cbn [bind].
  - destruct (decide (scSandboxName cur <> "")) as [E|E].
    + rewrite bool_decide_true by done. apply Hgo; [by eexists| |lia]. left.
      rewrite witnessed_app, elem_of_app. right. cbn. rewrite bool_decide_true by done. left.
    + rewrite bool_decide_false by done. eapply history_bind; [by apply RecordBound_hist|].
      intros [err|] h1 [[new ->] Hs]; [|apply Hgo; [eexists; by rewrite <-app_assoc|by apply Hs|lia]].
      cbn [history fst snd length]. split_and!; [eexists; by rewrite <-app_assoc|lia|lia|done].
  - destruct (IsNotFound e) eqn:Ee.
    2: { cbn [history fst snd length]. split_and!; [by eexists|lia|lia|done]. }
    destruct (_ && _).
    { cbn [history fst snd length]. split_and!; [by eexists|lia|lia|done]. }
    apply Hgo; [by eexists| |lia]. right. rewrite witnessed_app, elem_of_app. right. cbn. rewrite Ee. left.
Qed.

Definition no_sandboxd (X : Type) (e : GatewayE X) : Prop :=
  match e with GSandboxd _ => False | _ => True end.

Lemma adopt_calls ds n : calls no_sandboxd (adopt ds n).
Proof.
  revert n. induction ds as [|d ds IH]; intros n; cbn [adopt]; [apply calls_ret|].
  unfold RecordBound. solve_calls; try done; apply IH.
Qed.

(** The deliveries the node listed. *)
Definition glisted (ds : list Delivery) (X : Type) (e : GatewayE X) : X -> Prop :=
  match e in GatewayE X return X -> Prop with
  | GLiveDeliveries => fun x => x = Ok ds
  | GGetClaim ns name => fun x => gnamed _ (GGetClaim ns name) x
  | _ => fun _ => True
  end.

(** The orphan reconciler only ever adopts: it makes no sandboxd call at all,
    so it destroys nothing, and when it succeeds every live delivery is settled:
    its claim was seen bound, was recorded as bound, or does not exist.  It
    reports between none and all of the deliveries as adopted. *)
Theorem orphans_adopted ds :
  Forall (fun d => dvSandboxName d <> "") ds ->
  calls no_sandboxd OrphanReconcile /\
  history (glisted ds)
    (fun r h => 0 <= r.1 <= Z.of_nat (length ds) /\ (r.2 = None -> Forall (settled h) ds))
    OrphanReconcile [].
Proof.
  intros Hds. split.
  - unfold OrphanReconcile. solve_calls; [done|apply adopt_calls].
  - intros x ->. cbn [bind]. apply (history_rsp gnamed); [by intros X []|].
    eapply history_mono; [|by apply adopt_hist]. intros r h (_ & Hr & Hs). split; [lia|done].
Qed.
End orphans.

(** ** A concrete node *)

Section demo_witness.
Import K8s.Reference.

Definition demo_delivery : Delivery := mkDelivery "vm-1" "n1" "10.0.0.1:7" "ns" "c".
Definition demo_unbound : SandboxClaim :=
  mkClaim (mkMeta "c" "" "ns" "u" "1" 1 0 None ∅ ∅ []) "pool" None (mkPodMetadata ∅ ∅) [] [] [] "" [].

Definition demo_node : handler GatewayE unit := fun X e s =>
  match e in GatewayE X return X * unit with
  | GReview _ => (Ok (mkDecision true false ""), s)
  | GAdmit _ => (None, s)
  | GSandboxd c =>
      (match c in SandboxdCall X return X with
       | SdClaim _ => Err ErrNodeAtCapacity
       | SdRelease _ _ | SdHibernate _ | SdWake _ | SdDeleteCheckpoint _ => None
       | SdFork _ _ | SdCheckpoints => Ok []
       | SdCheckpoint _ _ => Ok (mkCheckpoint "" "" "" (mkPoolKey "" "" "") 0)
       | SdClaimCheckpoint _ _ => Ok (mkClaimResult "" "" "")
       | SdPromote _ _ => Ok (mkPoolKey "" "" "")
       | SdStats _ => Ok (mkNodeStats 0 0 0 false false 0)
       end, s)
  | GHoldings op => ((critical op ∅).1, s)
  | GEnqueueRecord _ _ _ => (tt, s)
  | GNow => (5, s)
  | GGetClaim ns name =>
      (if bool_decide (ns = "ns") && bool_decide (name = "c") then Ok demo_unbound
       else Err (APIStatus ReasonNotFound name), s)
  | GPatchClaimStatus _ => (None, s)
  | GLiveDeliveries => (Ok [demo_delivery], s)
  end.

Lemma demo_node_listed X e s : glisted [demo_delivery] X e (demo_node X e s).1.
Proof.
  destruct e; try exact I; [|reflexivity]. cbn. case_bool_decide; [|exact I]. case_bool_decide; [|exact I]. by subst.
Qed.

Definition demo_claim : prog GatewayE (result Assignment) :=
  Claim (mkGatewayConfig "n1" "img" "" "" 0) (Some (Authorize (mkAuthorizer true "" "" "")))
    (mkClaimRequest "ns" "c" "pool" {[RequestUserSelectorKey := "alice"]}).

(** A node at capacity: the claim falls back, and nothing is held. *)
Example capacity_falls_back :
  (run demo_node demo_claim tt).1 = Err ErrNoNodeCapacity /\
  claimed (recorded demo_node demo_claim tt) = [(mkClaimSpec "img" "" "" 0 "", Err ErrNodeAtCapacity)].
Proof. by vm_compute. Qed.

Lemma orphans_adopted_witness :
  (run demo_node OrphanReconcile tt).1 = (1, None) /\
  Forall (settled (recorded demo_node OrphanReconcile tt)) [demo_delivery].
Proof.
  assert ((run demo_node OrphanReconcile tt).1 = (1, None)) as Hr by (vm_compute; reflexivity).
  split; [exact Hr|].
  assert (Forall (fun d => dvSandboxName d <> "") [demo_delivery]) as Hd by (repeat constructor; discriminate).
  destruct (orphans_adopted [demo_delivery] Hd) as [_ Hh].
  pose proof (history_run _ _ demo_node _ tt [] demo_node_listed Hh) as [_ Hs].
  apply Hs. rewrite Hr. reflexivity.
Defined.
End demo_witness.
End GatewayFacts.
