(* ===== verification/V1alpha1.v ===== *)
(** * V1alpha1: the legacy API versions and their conversion to the hub.

    Models [api/v1alpha1] and [extensions/api/v1alpha1]: the v1alpha1 types and
    the [ConvertTo]/[ConvertFrom] methods that the conversion webhook runs
    between them and the hub version v1beta1 of [Types].  A field the other
    version lacks travels in an annotation, as JSON.  A nil map or slice is an
    empty one; the type meta is left out. *)

From S2P Require Import Prelude GoStrings K8s PoolKey Types.

Module V1alpha1.

(** ** agents.x-k8s.io/v1alpha1 *)

Record aPodMetadata := mkAPodMetadata { apmLabels : strmap; apmAnnotations : strmap }.
Record aEmbeddedMetadata := mkAEmbedded { aemName : string; aemLabels : strmap; aemAnnotations : strmap }.
Record aPodTemplate := mkAPodTemplate { aptSpec : PodSpec; aptMeta : aPodMetadata }.
Record aVolumeClaimTemplate := mkAVCT { avctMeta : aEmbeddedMetadata; avctSpec : string }.

Record aLifecycle := mkALifecycle { alShutdownTime : option Z; alShutdownPolicy : option ShutdownPolicy }.

Record aSandboxSpec := mkASandboxSpec {
  asPodTemplate : aPodTemplate;
  asVolumeClaimTemplates : list aVolumeClaimTemplate;
  asLifecycle : aLifecycle;
  asReplicas : option Z;                                   (* *int32 *)
  asService : option bool;
}.

Record aSandboxStatus := mkASandboxStatus {
  atServiceFQDN : string;
  atService : string;
  atConditions : list Condition;
  atReplicas : Z;                                          (* int32 *)
  atLabelSelector : string;
  atPodIPs : list string;
}.

Record aSandbox := mkASandbox { aMeta : ObjectMeta; aSpec : aSandboxSpec; aStatus : aSandboxStatus }.

Definition set_aMeta (f : ObjectMeta -> ObjectMeta) (s : aSandbox) : aSandbox :=
  mkASandbox (f (aMeta s)) (aSpec s) (aStatus s).

Definition v1alpha1SandboxStateAnnotation : string := "api.agents.x-k8s.io/v1alpha1-sandbox-state".

Definition ConvertPodMetadataTo (src : aPodMetadata) : PodMetadata :=
  mkPodMetadata (apmLabels src) (apmAnnotations src).
Definition ConvertPodMetadataFrom (src : PodMetadata) : aPodMetadata :=
  mkAPodMetadata (pmLabels src) (pmAnnotations src).

Definition ConvertPodTemplateTo (src : aPodTemplate) : PodTemplate :=
  mkPodTemplate (aptSpec src) (ConvertPodMetadataTo (aptMeta src)).
Definition ConvertPodTemplateFrom (src : PodTemplate) : aPodTemplate :=
  mkAPodTemplate (ptSpec src) (ConvertPodMetadataFrom (ptMeta src)).

(** [ConvertEmbeddedMetadataTo] is part of it: the hub type inlines the metadata. *)
Definition ConvertPVCClaimTemplateTo (src : aVolumeClaimTemplate) : VolumeClaimTemplate :=
  let m := avctMeta src in mkVCT (aemName m) (aemLabels m) (aemAnnotations m) (avctSpec src).
Definition ConvertEmbeddedMetadataFrom (src : VolumeClaimTemplate) : aEmbeddedMetadata :=
  mkAEmbedded (vctName src) (vctLabels src) (vctAnnotations src).
Definition ConvertPVCClaimTemplateFrom (src : VolumeClaimTemplate) : aVolumeClaimTemplate :=
  mkAVCT (ConvertEmbeddedMetadataFrom src) (vctSpec src).

Definition ConvertLifecycleFrom (src : SandboxSpec) : aLifecycle :=
  mkALifecycle (ssShutdownTime src) (ssShutdownPolicy src).

(** The lifecycle fields, of [ConvertLifecycleTo], are inlined in the hub spec. *)
Definition ConvertSpecTo (src : aSandboxSpec) : SandboxSpec :=
  mkSandboxSpec
    (mkBlueprint (ConvertPodTemplateTo (asPodTemplate src))
       (ConvertPVCClaimTemplateTo <$> asVolumeClaimTemplates src) (asService src))
    (alShutdownTime (asLifecycle src)) (alShutdownPolicy (asLifecycle src))
    (if bool_decide (asReplicas src = Some 0) then ModeSuspended else ModeRunning).

Definition ConvertSpecFrom (src : SandboxSpec) : aSandboxSpec :=
  mkASandboxSpec (ConvertPodTemplateFrom (ssPodTemplate src))
    (ConvertPVCClaimTemplateFrom <$> ssVolumeClaimTemplates src)
    (ConvertLifecycleFrom src)
    (Some (if bool_decide (ssOperatingMode src = ModeSuspended) then 0 else 1))
    (ssService src).

Definition ConvertStatusTo (src : aSandboxStatus) : SandboxStatus :=
  mkSandboxStatus (atServiceFQDN src) (atService src) (atConditions src) (atLabelSelector src)
    (atPodIPs src) "".

(** [replicas] is the value [ConvertFrom] sets next. *)
Definition ConvertStatusFrom (src : SandboxStatus) (replicas : Z) : aSandboxStatus :=
  mkASandboxStatus (stServiceFQDN src) (stService src) (stConditions src) replicas
    (stLabelSelector src) (stPodIPs src).

Definition set_asReplicas (r : option Z) (s : aSandboxSpec) : aSandboxSpec :=
  mkASandboxSpec (asPodTemplate s) (asVolumeClaimTemplates s) (asLifecycle s) r (asService s).
Definition set_atReplicas (r : Z) (s : aSandboxStatus) : aSandboxStatus :=
  mkASandboxStatus (atServiceFQDN s) (atService s) (atConditions s) r (atLabelSelector s) (atPodIPs s).

Section sandbox.
Context `{JSON aSandbox}.

(** The copy that is marshalled: the object without a state of its own. *)
Definition sandboxState (s : aSandbox) : aSandbox :=
  set_aMeta (set_mAnnotations (delete v1alpha1SandboxStateAnnotation)) s.

Definition SandboxConvertTo (s : aSandbox) : result Sandbox :=
  match Marshal (sandboxState s) with
  | Err e => Err (Wrap "failed to marshal v1alpha1 Sandbox state" e)
  | Ok stateJSON =>
      Ok (mkSandbox (set_mAnnotations (<[v1alpha1SandboxStateAnnotation := stateJSON]>) (aMeta s))
            (ConvertSpecTo (aSpec s)) (ConvertStatusTo (aStatus s)))
  end.

(** The replicas a client sees once the original state is known. *)
Definition restoredReplicas (mode : SandboxOperatingMode) (original : aSandbox) (default : option Z) :
    option Z :=
  match mode with
  | ModeSuspended => Some 0
  | ModeRunning =>
      match asReplicas (aSpec original) with
      | Some r => if bool_decide (r <> 0) then Some r else Some 1
      | None => None
      end
  | _ => default
  end.

Definition SandboxConvertFrom (src : Sandbox) : result aSandbox :=
  let mode := ssOperatingMode (sbSpec src) in
  let spec := ConvertSpecFrom (sbSpec src) in
  let status := ConvertStatusFrom (sbStatus src)
                  (if bool_decide (mode = ModeSuspended) then 0 else 1) in
  match sbAnnotations src !! v1alpha1SandboxStateAnnotation with
  | None => Ok (mkASandbox (sbMeta src) spec status)
  | Some stateJSON =>
      match Unmarshal stateJSON with
      | Err e => Err (Wrap "failed to unmarshal v1alpha1 Sandbox state" e)
      | Ok original =>
          Ok (mkASandbox (set_mAnnotations (delete v1alpha1SandboxStateAnnotation) (sbMeta src))
                (set_asReplicas (restoredReplicas mode original (asReplicas spec)) spec)
                (set_atReplicas (atReplicas (aStatus original)) status))
      end
  end.
End sandbox.

(** ** extensions.agents.x-k8s.io/v1alpha1: claims *)

Definition WarmPoolPolicyNone : string := "none".
Definition WarmPoolPolicyDefault : string := "default".

Definition IsSpecificPool (p : string) : bool :=
  bool_decide (p <> WarmPoolPolicyNone) && bool_decide (p <> WarmPoolPolicyDefault) && bool_decide (p <> "").

Record aClaimLifecycle := mkAClaimLifecycle {
  aclShutdownTime : option Z; aclTTLSecondsAfterFinished : option Z; aclShutdownPolicy : ShutdownPolicy
}.

Record aEnvVar := mkAEnv { aeName : string; aeValue : string; aeContainerName : string }.

Record aClaimSpec := mkAClaimSpec {
  acTemplateRef : string;
  acLifecycle : option aClaimLifecycle;
  acWarmPool : option string;                              (* *WarmPoolPolicy *)
  acAdditionalPodMetadata : aPodMetadata;
  acEnv : list aEnvVar;
}.

Record aClaimStatus := mkAClaimStatus {
  acConditions : list Condition; acSandboxName : string; acPodIPs : list string
}.

Record aSandboxClaim := mkAClaim { acMeta : ObjectMeta; acSpec : aClaimSpec; acStatus : aClaimStatus }.

Definition v1alpha1SandboxClaimStateAnnotation : string :=
  "api.agents.x-k8s.io/v1alpha1-sandboxclaim-state".
Definition v1beta1SandboxClaimVolumeClaimTemplatesAnnotation : string :=
  "api.agents.x-k8s.io/v1beta1-sandboxclaim-volume-claim-templates".

Definition stripRandomSuffix (name : string) : string :=
  match cut_last_byte "-"%char name with Some (a, _) => a | None => name end.

Definition shadowPool (name : string) : string := "shadow-pool-" +:+ name.

Definition isWarmPoolRefMatching (actualName expectedName sandboxName : string) : bool :=
  bool_decide (actualName = expectedName) || bool_decide (actualName = shadowPool expectedName)
  || (bool_decide (sandboxName <> "")
      && (bool_decide (actualName = sandboxName) || bool_decide (actualName = stripRandomSuffix sandboxName))).

Definition claimLifecycleTo (l : aClaimLifecycle) : ClaimLifecycle :=
  mkClaimLifecycle (aclShutdownTime l) (aclTTLSecondsAfterFinished l) (aclShutdownPolicy l).
Definition claimLifecycleFrom (l : ClaimLifecycle) : aClaimLifecycle :=
  mkAClaimLifecycle (clShutdownTime l) (clTTLSecondsAfterFinished l) (clShutdownPolicy l).
Definition envTo (e : aEnvVar) : ClaimEnvVar := mkClaimEnv (aeName e) (aeValue e) (aeContainerName e).
Definition envFrom (e : ClaimEnvVar) : aEnvVar := mkAEnv (ceName e) (ceValue e) (ceContainerName e).

Definition specificPool (wp : option string) : option string :=
  match wp with Some p => if IsSpecificPool p then Some p else None | None => None end.

(** The warm pool a v1alpha1 spec stands for. *)
Definition warmPoolRefTo (src : aClaimSpec) (claimName sandboxName : string) : string :=
  match specificPool (acWarmPool src) with
  | Some p => p
  | None =>
      if bool_decide (sandboxName <> "") && bool_decide (claimName <> sandboxName)
      then stripRandomSuffix sandboxName
      else shadowPool (acTemplateRef src)
  end.

(** The hub object [convertClaimSpecTo] and [convertClaimStatusTo] fill; the
    volume claim templates are restored separately. *)
Definition convertClaimTo (s : aSandboxClaim) (m : ObjectMeta) (vcts : list VolumeClaimTemplate) : SandboxClaim :=
  let spec := acSpec s in
  mkClaim m (warmPoolRefTo spec (mName (acMeta s)) (acSandboxName (acStatus s)))
    (claimLifecycleTo <$> acLifecycle spec)
    (ConvertPodMetadataTo (acAdditionalPodMetadata spec)) (envTo <$> acEnv spec) vcts
    (acConditions (acStatus s)) (acSandboxName (acStatus s)) (acPodIPs (acStatus s)).

(** [WarmPoolRef -> WarmPool / TemplateRef]. *)
Definition warmPoolRefFrom (ref : string) : option string * string :=
  let '(templateName, ok) := CutPrefix ref "shadow-pool-" in
  if (ok : bool) then (Some WarmPoolPolicyDefault, templateName) else (Some ref, ref).

Definition convertClaimSpecFrom (src : SandboxClaim) : aClaimSpec :=
  let '(warmPool, templateRef) := warmPoolRefFrom (scWarmPoolRef src) in
  mkAClaimSpec templateRef (claimLifecycleFrom <$> scLifecycle src) warmPool
    (ConvertPodMetadataFrom (scAdditionalPodMetadata src)) (envFrom <$> scEnv src).

Definition convertClaimStatusFrom (src : SandboxClaim) : aClaimStatus :=
  mkAClaimStatus (scConditions src) (scSandboxName src) (scPodIPs src).

Definition set_acRefs (template : string) (pool : option string) (s : aClaimSpec) : aClaimSpec :=
  mkAClaimSpec template (acLifecycle s) pool (acAdditionalPodMetadata s) (acEnv s).

Definition expectedWarmPoolRefName (original : aSandboxClaim) : string :=
  match specificPool (acWarmPool (acSpec original)) with
  | Some p => p
  | None => acTemplateRef (acSpec original)
  end.

Section claim.
Context `{JSON aSandboxClaim} `{JSON (list VolumeClaimTemplate)}.

Definition claimState (s : aSandboxClaim) : aSandboxClaim :=
  mkAClaim (set_mAnnotations (delete v1alpha1SandboxClaimStateAnnotation) (acMeta s)) (acSpec s) (acStatus s).

Definition ClaimConvertTo (s : aSandboxClaim) : result SandboxClaim :=
  let withState (m : ObjectMeta) (vcts : list VolumeClaimTemplate) :=
    match Marshal (claimState s) with
    | Err e => Err (Wrap "failed to marshal v1alpha1 SandboxClaim state" e)
    | Ok stateJSON =>
        Ok (convertClaimTo s (set_mAnnotations (<[v1alpha1SandboxClaimStateAnnotation := stateJSON]>) m) vcts)
    end in
  match mAnnotations (acMeta s) !! v1beta1SandboxClaimVolumeClaimTemplatesAnnotation with
  | Some raw =>
      match Unmarshal raw with
      | Err e => Err (Wrap "failed to unmarshal v1beta1 SandboxClaim volumeClaimTemplates" e)
      | Ok vcts =>
          withState (set_mAnnotations (delete v1beta1SandboxClaimVolumeClaimTemplatesAnnotation) (acMeta s)) vcts
      end
  | None => withState (acMeta s) []
  end.

(** The template reference and pool policy a v1alpha1 client sees again. *)
Definition restoreRefs (src : SandboxClaim) (original : aSandboxClaim) (spec : aClaimSpec) : aClaimSpec :=
  if isWarmPoolRefMatching (scWarmPoolRef src) (expectedWarmPoolRefName original) (scSandboxName src)
  then set_acRefs (acTemplateRef (acSpec original)) (acWarmPool (acSpec original)) spec
  else set_acRefs (acTemplateRef (acSpec original)) (Some (scWarmPoolRef src)) spec.

(** The volume claim templates leave in an annotation. *)
Definition preserveVCTs (vcts : list VolumeClaimTemplate) (s : aSandboxClaim) : result aSandboxClaim :=
  let key := v1beta1SandboxClaimVolumeClaimTemplatesAnnotation in
  if bool_decide (vcts <> []) then
    match Marshal vcts with
    | Err e => Err (Wrap "failed to marshal v1beta1 SandboxClaim volumeClaimTemplates" e)
    | Ok raw => Ok (mkAClaim (set_mAnnotations (<[key := raw]>) (acMeta s)) (acSpec s) (acStatus s))
    end
  else Ok (mkAClaim (set_mAnnotations (delete key) (acMeta s)) (acSpec s) (acStatus s)).

Definition ClaimConvertFrom (src : SandboxClaim) : result aSandboxClaim :=
  let spec := convertClaimSpecFrom src in
  let status := convertClaimStatusFrom src in
  match mAnnotations (scMeta src) !! v1alpha1SandboxClaimStateAnnotation with
  | None => preserveVCTs (scVolumeClaimTemplates src) (mkAClaim (scMeta src) spec status)
  | Some stateJSON =>
      match Unmarshal stateJSON with
      | Err e => Err (Wrap "failed to unmarshal v1alpha1 SandboxClaim state" e)
      | Ok original =>
          preserveVCTs (scVolumeClaimTemplates src)
            (mkAClaim (set_mAnnotations (delete v1alpha1SandboxClaimStateAnnotation) (scMeta src))
               (restoreRefs src original spec) status)
      end
  end.
End claim.

(** ** Templates *)

Record aSandboxTemplate := mkATemplate {
  atplMeta : ObjectMeta;
  atplPodTemplate : aPodTemplate;
  atplVolumeClaimTemplates : list aVolumeClaimTemplate;
  atplNetworkPolicy : option TemplateNetworkRules;
  atplNetworkPolicyManagement : string;
  atplEnvVarsInjectionPolicy : string;
  atplService : option bool;
}.

Definition v1alpha1SandboxTemplateStateAnnotation : string :=
  "api.agents.x-k8s.io/v1alpha1-sandboxtemplate-state".
Definition vctPolicyAnnotation : string := "api.agents.x-k8s.io/v1beta1-volume-claim-templates-policy".

Definition validVCTPolicy (p : string) : bool :=
  bool_decide (p ∈ ["Disallowed"; "Allowed"; "Overrides"]).

Definition convertTemplateSpecTo (s : aSandboxTemplate) (m : ObjectMeta) (vctPolicy : string) : SandboxTemplate :=
  mkTemplate m
    (mkBlueprint (ConvertPodTemplateTo (atplPodTemplate s))
       (ConvertPVCClaimTemplateTo <$> atplVolumeClaimTemplates s) (atplService s))
    (atplNetworkPolicy s) (atplNetworkPolicyManagement s) (atplEnvVarsInjectionPolicy s) vctPolicy.

Definition convertTemplateSpecFrom (src : SandboxTemplate) (m : ObjectMeta) : aSandboxTemplate :=
  let b := tplBlueprint src in
  mkATemplate m (ConvertPodTemplateFrom (bpPodTemplate b))
    (ConvertPVCClaimTemplateFrom <$> bpVolumeClaimTemplates b) (tplNetworkPolicy src)
    (tplNetworkPolicyManagement src) (tplEnvVarsInjectionPolicy src) (bpService b).

Section template.
Context `{JSON aSandboxTemplate}.

Definition templateState (s : aSandboxTemplate) : aSandboxTemplate :=
  mkATemplate (set_mAnnotations (delete v1alpha1SandboxTemplateStateAnnotation) (atplMeta s))
    (atplPodTemplate s) (atplVolumeClaimTemplates s) (atplNetworkPolicy s)
    (atplNetworkPolicyManagement s) (atplEnvVarsInjectionPolicy s) (atplService s).

Definition TemplateConvertTo (s : aSandboxTemplate) : result SandboxTemplate :=
  let withState (m : ObjectMeta) (policy : string) :=
    match Marshal (templateState s) with
    | Err e => Err (Wrap "failed to marshal v1alpha1 SandboxTemplate state" e)
    | Ok stateJSON =>
        Ok (convertTemplateSpecTo s
              (set_mAnnotations (<[v1alpha1SandboxTemplateStateAnnotation := stateJSON]>) m) policy)
    end in
  match mAnnotations (atplMeta s) !! vctPolicyAnnotation with
  | Some policy =>
      if validVCTPolicy policy
      then withState (set_mAnnotations (delete vctPolicyAnnotation) (atplMeta s)) policy
      else Err (Errorf "invalid VolumeClaimTemplatesPolicy annotation value")
  | None => withState (atplMeta s) ""
  end.

Definition TemplateConvertFrom (src : SandboxTemplate) : aSandboxTemplate :=
  let m := set_mAnnotations (delete v1alpha1SandboxTemplateStateAnnotation) (tplMeta src) in
  let policy := tplVolumeClaimTemplatesPolicy src in
  convertTemplateSpecFrom src
    (set_mAnnotations (if bool_decide (policy <> "") then <[vctPolicyAnnotation := policy]>
                       else delete vctPolicyAnnotation) m).
End template.

(** ** Warm pools *)

Record aSandboxWarmPool := mkAWarmPool {
  awpMeta : ObjectMeta;
  awpReplicas : Z;                                         (* int32 *)
  awpTemplateRef : string;
  awpUpdateStrategy : option string;
  awpStatusReplicas : Z;
  awpStatusReadyReplicas : Z;
  awpStatusSelector : string;
}.

Definition v1alpha1SandboxWarmPoolStateAnnotation : string :=
  "api.agents.x-k8s.io/v1alpha1-sandboxwarmpool-state".

Section warmpool.
Context `{JSON aSandboxWarmPool}.

Definition warmPoolState (s : aSandboxWarmPool) : aSandboxWarmPool :=
  mkAWarmPool (set_mAnnotations (delete v1alpha1SandboxWarmPoolStateAnnotation) (awpMeta s))
    (awpReplicas s) (awpTemplateRef s) (awpUpdateStrategy s) (awpStatusReplicas s)
    (awpStatusReadyReplicas s) (awpStatusSelector s).

Definition WarmPoolConvertTo (s : aSandboxWarmPool) : result SandboxWarmPool :=
  match Marshal (warmPoolState s) with
  | Err e => Err (Wrap "failed to marshal v1alpha1 SandboxWarmPool state" e)
  | Ok stateJSON =>
      Ok (mkWarmPool (set_mAnnotations (<[v1alpha1SandboxWarmPoolStateAnnotation := stateJSON]>) (awpMeta s))
            (Some (awpReplicas s)) (awpTemplateRef s) (awpUpdateStrategy s)
            (awpStatusReplicas s) (awpStatusReadyReplicas s) (awpStatusSelector s))
  end.

Definition WarmPoolConvertFrom (src : SandboxWarmPool) : aSandboxWarmPool :=
  mkAWarmPool (set_mAnnotations (delete v1alpha1SandboxWarmPoolStateAnnotation) (wpMeta src))
    (match wpReplicas src with Some r => r | None => 1 end) (wpTemplateRef src) (wpUpdateStrategy src)
    (wpStatusReplicas src) (wpStatusReadyReplicas src) (wpStatusSelector src).
End warmpool.
End V1alpha1.
