(* ===== verification/Conversion.v ===== *)
(** * Conversion: no version of the API loses what the other one wrote.

    A v1alpha1 object comes back from the hub as it was; a hub object comes back
    from v1alpha1 with its spec and its v1beta1-only fields.  What JSON does to a
    state is a hypothesis on the object at hand: the fields the conversion reads
    back survive.  The limits of the claim conversion are stated as well. *)

From S2P Require Import Prelude GoStrings K8s PoolKey Types V1alpha1.

Module Conversion.
Import V1alpha1.

Lemma set_annotations_id f m : f (mAnnotations m) = mAnnotations m -> set_mAnnotations f m = m.
Proof. destruct m. unfold set_mAnnotations. cbn. by intros ->. Qed.

Lemma set_annotations_comp f g m :
  set_mAnnotations f (set_mAnnotations g m) = set_mAnnotations (fun a => f (g a)) m.
Proof. done. Qed.

(** A value put under a fresh key and taken out again. *)
Lemma annotation_in_out k v m :
  mAnnotations m !! k = None -> set_mAnnotations (delete k) (set_mAnnotations (<[k := v]>) m) = m.
Proof. intros Hk. rewrite set_annotations_comp. apply set_annotations_id. by apply delete_insert_id. Qed.

Lemma annotation_absent k m : mAnnotations m !! k = None -> set_mAnnotations (delete k) m = m.
Proof. intros Hk. apply set_annotations_id. by apply delete_id. Qed.

(** ** Structural parts *)

Lemma PodTemplate_roundtrip t : ConvertPodTemplateFrom (ConvertPodTemplateTo t) = t.
Proof. by destruct t as [? []]. Qed.
Lemma PodTemplate_hub t : ConvertPodTemplateTo (ConvertPodTemplateFrom t) = t.
Proof. by destruct t as [? []]. Qed.

Lemma VCT_roundtrip t : ConvertPVCClaimTemplateFrom (ConvertPVCClaimTemplateTo t) = t.
Proof. by destruct t as [[] ?]. Qed.
Lemma VCT_hub t : ConvertPVCClaimTemplateTo (ConvertPVCClaimTemplateFrom t) = t.
Proof. by destruct t. Qed.

Lemma fmap_cancel {A B} (f : A -> B) (g : B -> A) (l : list A) : (forall a, g (f a) = a) -> g <$> (f <$> l) = l.
Proof. intros H. induction l as [|a l IH]; [done|]. by rewrite !fmap_cons, H, IH. Qed.

Lemma VCTs_roundtrip (l : list aVolumeClaimTemplate) : ConvertPVCClaimTemplateFrom <$> (ConvertPVCClaimTemplateTo <$> l) = l.
Proof. apply fmap_cancel, VCT_roundtrip. Qed.
Lemma VCTs_hub (l : list VolumeClaimTemplate) : ConvertPVCClaimTemplateTo <$> (ConvertPVCClaimTemplateFrom <$> l) = l.
Proof. apply fmap_cancel, VCT_hub. Qed.

Lemma envs_roundtrip (l : list aEnvVar) : envFrom <$> (envTo <$> l) = l.
Proof. apply fmap_cancel. by intros []. Qed.
Lemma envs_hub (l : list ClaimEnvVar) : envTo <$> (envFrom <$> l) = l.
Proof. apply fmap_cancel. by intros []. Qed.

Lemma lifecycle_roundtrip (l : option aClaimLifecycle) : claimLifecycleFrom <$> (claimLifecycleTo <$> l) = l.
Proof. by destruct l as [[]|]. Qed.
Lemma lifecycle_hub (l : option ClaimLifecycle) : claimLifecycleTo <$> (claimLifecycleFrom <$> l) = l.
Proof. by destruct l as [[]|]. Qed.

Create Rewrite HintDb conversion.
#[local] Hint Rewrite PodTemplate_roundtrip PodTemplate_hub VCTs_roundtrip VCTs_hub envs_roundtrip envs_hub
  lifecycle_roundtrip lifecycle_hub : conversion.

(** ** Sandboxes *)

Section sandbox.
Context `{JSON aSandbox}.

(** JSON keeps the two fields of the state that are read back. *)
Definition sandbox_survives (s : aSandbox) : Prop :=
  exists j s', Marshal (sandboxState s) = Ok j /\ Unmarshal j = Ok s' /\
    asReplicas (aSpec s') = asReplicas (aSpec s) /\ atReplicas (aStatus s') = atReplicas (aStatus s).

Lemma restored_same s original :
  asReplicas (aSpec original) = asReplicas (aSpec s) ->
  restoredReplicas (ssOperatingMode (ConvertSpecTo (aSpec s))) original (Some 1) = asReplicas (aSpec s).
Proof.
  intros Ho. unfold ConvertSpecTo. cbn [ssOperatingMode]. case_bool_decide as Hr; cbn; [done|].
  rewrite Ho. destruct (asReplicas (aSpec s)) as [r|]; [|done]. rewrite bool_decide_true; [done|]. by intros ->.
Qed.

(** A v1alpha1 Sandbox that goes through the hub comes back unchanged, field
    for field, replicas and status included; only the reserved state annotation
    may not be in use. *)
Theorem sandbox_roundtrip s :
  mAnnotations (aMeta s) !! v1alpha1SandboxStateAnnotation = None -> sandbox_survives s ->
  exists hub, SandboxConvertTo s = Ok hub /\ SandboxConvertFrom hub = Ok s.
Proof.
  intros Ha (j & s' & Hm & Hu & Hr & Ht). unfold SandboxConvertTo. rewrite Hm. eexists. split; [done|].
  unfold SandboxConvertFrom, sbAnnotations. cbn [sbMeta sbSpec sbStatus mAnnotations set_mAnnotations].
  rewrite lookup_insert_eq, Hu, Ht. f_equal.
  assert (forall d, restoredReplicas (ssOperatingMode (ConvertSpecTo (aSpec s))) s' d = asReplicas (aSpec s)) as Hrr.
  { intros d. rewrite <-(restored_same s s' Hr). unfold ConvertSpecTo. cbn. by case_bool_decide. }
  rewrite Hrr. destruct s as [m [pt vcts [] r svc] []]. unfold set_asReplicas, set_atReplicas. cbn in *.
  autorewrite with conversion. by rewrite (annotation_in_out _ _ _ Ha).
Qed.

Lemma SandboxConvertFrom_replicas hub s :
  SandboxConvertFrom hub = Ok s ->
  asReplicas (aSpec s) = Some 0 <-> ssOperatingMode (sbSpec hub) = ModeSuspended.
Proof.
  unfold SandboxConvertFrom. destruct (_ !! _) as [j|].
  - destruct (Unmarshal j) as [original|]; [|done]. intros [= <-]. cbn.
    destruct (ssOperatingMode (sbSpec hub)) eqn:Em; cbn; try (split; done).
    destruct (asReplicas (aSpec original)) as [r|]; [|done]. case_bool_decide as Hr; split; try done.
    intros [= ->]. by destruct Hr.
  - intros [= <-]. cbn. case_bool_decide; by split.
Qed.

(** A hub Sandbox keeps its meaning through v1alpha1, whatever state it
    carries: a v1alpha1 client sees zero replicas exactly if the sandbox is
    suspended, and writing the object back gives the same blueprint, shutdown
    time and policy, the same operating mode (an unset one as Running), the same
    annotations up to the state, and the same status up to the node name, which
    v1alpha1 lacks. *)
Theorem sandbox_hub_roundtrip hub s hub' :
  SandboxConvertFrom hub = Ok s -> SandboxConvertTo s = Ok hub' ->
  let mode := ssOperatingMode (sbSpec hub) in
  let k := v1alpha1SandboxStateAnnotation in
  (asReplicas (aSpec s) = Some 0 <-> mode = ModeSuspended) /\
  sbSpec hub' = mkSandboxSpec (ssBlueprint (sbSpec hub)) (ssShutdownTime (sbSpec hub))
                  (ssShutdownPolicy (sbSpec hub))
                  (if bool_decide (mode = ModeSuspended) then ModeSuspended else ModeRunning) /\
  set_mAnnotations (delete k) (sbMeta hub') = set_mAnnotations (delete k) (sbMeta hub) /\
  sbStatus hub' = set_stPod (stLabelSelector (sbStatus hub)) (stPodIPs (sbStatus hub)) "" (sbStatus hub).
Proof.
  intros Hf Ht mode k. pose proof (SandboxConvertFrom_replicas hub s Hf) as Hr. split; [done|].
  assert (aMeta s = sbMeta hub /\ mAnnotations (sbMeta hub) !! k = None \/
          aMeta s = set_mAnnotations (delete k) (sbMeta hub)) as Hm.
  { unfold SandboxConvertFrom, sbAnnotations in Hf. fold k in Hf. destruct (mAnnotations (sbMeta hub) !! k) as [j|].
    - right. destruct (Unmarshal j); [|done]. by injection Hf as <-.
    - left. by injection Hf as <-. }
  assert (aSpec s = set_asReplicas (asReplicas (aSpec s)) (ConvertSpecFrom (sbSpec hub)) /\
          aStatus s = ConvertStatusFrom (sbStatus hub) (atReplicas (aStatus s))) as [Hs Hst].
  { unfold SandboxConvertFrom in Hf. destruct (_ !! _) as [j|]; [destruct (Unmarshal j); [|done]|];
      injection Hf as <-; done. }
  unfold SandboxConvertTo in Ht. destruct (Marshal _) as [j|]; [|done]. injection Ht as <-.
  cbn [sbSpec sbMeta sbStatus]. split_and!.
  - rewrite Hs. unfold ConvertSpecTo. cbn. unfold ssPodTemplate, ssVolumeClaimTemplates.
    autorewrite with conversion. destruct (ssBlueprint (sbSpec hub)) as [pt vcts svc] eqn:Eb.
    unfold ssService. rewrite Eb. cbn. f_equal.
    destruct (decide (mode = ModeSuspended)) as [Hm'|Hm'];
      [rewrite !bool_decide_true by (done || by apply Hr)|rewrite !bool_decide_false by (done || by rewrite Hr)];
      done.
  - rewrite set_annotations_comp. destruct Hm as [[-> Hk]| ->].
    + unfold set_mAnnotations. f_equal. by rewrite delete_insert_eq.
    + rewrite set_annotations_comp. unfold set_mAnnotations. f_equal. by rewrite delete_insert_eq, delete_delete_eq.
  - by rewrite Hst.
Qed.
End sandbox.

(** ** Claims *)

Abbreviation stateKey := v1alpha1SandboxClaimStateAnnotation.
Abbreviation vctKey := v1beta1SandboxClaimVolumeClaimTemplatesAnnotation.

Section claim.
Context `{JSON aSandboxClaim} `{JSON (list VolumeClaimTemplate)}.

(** JSON keeps the two references of the state that are read back. *)
Definition claim_survives (s : aSandboxClaim) : Prop :=
  exists j s', Marshal (claimState s) = Ok j /\ Unmarshal j = Ok s' /\
    acTemplateRef (acSpec s') = acTemplateRef (acSpec s) /\ acWarmPool (acSpec s') = acWarmPool (acSpec s).

(** The volume claim templates a v1alpha1 claim carries for the hub, in the
    form the hub writes them. *)
Definition carries_vcts (s : aSandboxClaim) (vcts : list VolumeClaimTemplate) : Prop :=
  match mAnnotations (acMeta s) !! vctKey with
  | None => vcts = []
  | Some raw => vcts <> [] /\ Unmarshal raw = Ok vcts /\ Marshal vcts = Ok raw
  end.

(** The pool a claim is converted to is recognised as its own. *)
Lemma converted_ref_matches s s' :
  acTemplateRef (acSpec s') = acTemplateRef (acSpec s) -> acWarmPool (acSpec s') = acWarmPool (acSpec s) ->
  isWarmPoolRefMatching (warmPoolRefTo (acSpec s) (mName (acMeta s)) (acSandboxName (acStatus s)))
    (expectedWarmPoolRefName s') (acSandboxName (acStatus s)) = true.
Proof.
  intros Ht Hw. unfold isWarmPoolRefMatching, warmPoolRefTo, expectedWarmPoolRefName. rewrite Ht, Hw.
  destruct (specificPool _) as [p|]; [by rewrite bool_decide_true|].
  destruct (bool_decide (acSandboxName (acStatus s) <> "")) eqn:Es; cbn [andb].
  - destruct (bool_decide (mName (acMeta s) <> _)).
    + rewrite (bool_decide_true (stripRandomSuffix _ = stripRandomSuffix _)) by done. by rewrite !orb_true_r.
    + rewrite (bool_decide_true (shadowPool _ = shadowPool _)) by done. by rewrite orb_true_r.
  - rewrite (bool_decide_true (shadowPool _ = shadowPool _)) by done. by rewrite orb_true_r.
Qed.

Lemma ClaimConvertTo_Ok s vcts j :
  carries_vcts s vcts -> Marshal (claimState s) = Ok j ->
  ClaimConvertTo s = Ok (convertClaimTo s
    (set_mAnnotations (<[stateKey := j]>) (set_mAnnotations (delete vctKey) (acMeta s))) vcts).
Proof.
  intros Hv Hj. unfold ClaimConvertTo. rewrite Hj. unfold carries_vcts in Hv.
  destruct (mAnnotations (acMeta s) !! vctKey) as [raw|] eqn:Ek; [by destruct Hv as (_ & -> & _)|].
  subst vcts. by rewrite (annotation_absent _ _ Ek).
Qed.

(** C33.  A v1alpha1 SandboxClaim that goes through the hub comes back unchanged:
    template reference, warm-pool policy, lifecycle, variables, status and
    annotations, volume claim templates in their annotation included.  Only the
    reserved state annotation may not be in use. *)
Theorem claim_roundtrip s vcts :
  mAnnotations (acMeta s) !! stateKey = None -> claim_survives s -> carries_vcts s vcts ->
  exists hub, ClaimConvertTo s = Ok hub /\ scVolumeClaimTemplates hub = vcts /\ ClaimConvertFrom hub = Ok s.
Proof.
  intros Hk (j & s' & Hm & Hu & Ht & Hw) Hv. rewrite (ClaimConvertTo_Ok s vcts j) by done.
  eexists. split; [done|]. split; [done|]. unfold ClaimConvertFrom.
  cbn [convertClaimTo scMeta set_mAnnotations mAnnotations]. rewrite lookup_insert_eq, Hu.
  unfold restoreRefs. cbn [scWarmPoolRef scSandboxName convertClaimTo]. rewrite converted_ref_matches by done.
  assert (set_mAnnotations (delete stateKey) (set_mAnnotations (<[stateKey := j]>)
            (set_mAnnotations (delete vctKey) (acMeta s))) = set_mAnnotations (delete vctKey) (acMeta s)) as Hms.
  { apply annotation_in_out. cbn. by rewrite lookup_delete_ne. }
  unfold preserveVCTs. cbn [scVolumeClaimTemplates convertClaimTo acMeta acSpec acStatus].
  assert (forall m, m = acMeta s -> mkAClaim m
    (set_acRefs (acTemplateRef (acSpec s')) (acWarmPool (acSpec s'))
       (convertClaimSpecFrom (convertClaimTo s
          (set_mAnnotations (<[stateKey:=j]>) (set_mAnnotations (delete vctKey) (acMeta s))) vcts)))
    (convertClaimStatusFrom (convertClaimTo s
          (set_mAnnotations (<[stateKey:=j]>) (set_mAnnotations (delete vctKey) (acMeta s))) vcts)) = s) as Hs.
  { intros m ->. rewrite Ht, Hw. destruct s as [sm [tr lc wp [] env] []]. unfold convertClaimSpecFrom, set_acRefs. cbn.
    destruct (warmPoolRefFrom _). cbn. by autorewrite with conversion. }
  unfold carries_vcts in Hv. destruct (mAnnotations (acMeta s) !! vctKey) as [raw|] eqn:Ek.
  - destruct Hv as (Hne & _ & Hmv). rewrite bool_decide_true, Hmv by done. f_equal. apply Hs.
    cbv zeta. fold (set_mAnnotations (<[stateKey := j]>) (set_mAnnotations (delete vctKey) (acMeta s))).
    rewrite Hms, set_annotations_comp. apply set_annotations_id. by rewrite insert_delete_eq, insert_id.
  - subst vcts. rewrite bool_decide_false by tauto. f_equal. apply Hs.
    rewrite Hms, set_annotations_comp. apply set_annotations_id. by rewrite delete_delete_eq, delete_id.
Qed.

(** A claim whose sandbox came from a pool: its name is not the claim's. *)
Definition warmStarted (hub : SandboxClaim) : bool :=
  bool_decide (scSandboxName hub <> "") && bool_decide (mName (scMeta hub) <> scSandboxName hub).

(** When v1alpha1 can express the pool reference of a hub claim: the pool is
    named like none of the policies, or it is the pool the sandbox came from, or
    a shadow pool of a claim that was not warm started. *)
Definition keeps_ref (hub : SandboxClaim) : Prop :=
  let ref := scWarmPoolRef hub in
  if (CutPrefix ref "shadow-pool-").2
  then warmStarted hub = true -> stripRandomSuffix (scSandboxName hub) = ref
  else IsSpecificPool ref = true \/ warmStarted hub = true /\ stripRandomSuffix (scSandboxName hub) = ref.

Definition with_meta_ref (m : ObjectMeta) (ref : string) (hub : SandboxClaim) : SandboxClaim :=
  mkClaim m ref (scLifecycle hub) (scAdditionalPodMetadata hub) (scEnv hub) (scVolumeClaimTemplates hub)
    (scConditions hub) (scSandboxName hub) (scPodIPs hub).

Lemma shadowPool_ne ref : shadowPool ref <> ref.
Proof. intros E. apply (f_equal String.length) in E. unfold shadowPool in E. rewrite length_app_string in E. simpl in E. lia. Qed.

Lemma refs_through_v1alpha1 hub :
  warmPoolRefTo (convertClaimSpecFrom hub) (mName (scMeta hub)) (scSandboxName hub) = scWarmPoolRef hub
  <-> keeps_ref hub.
Proof.
  unfold warmPoolRefTo, keeps_ref, convertClaimSpecFrom, warmPoolRefFrom. fold (warmStarted hub).
  destruct (CutPrefix (scWarmPoolRef hub) "shadow-pool-") as [t [|]] eqn:Ec; cbn.
  - apply CutPrefix_true in Ec. destruct (warmStarted hub); [tauto|]. split; [done|]. by rewrite Ec.
  - destruct (IsSpecificPool (scWarmPoolRef hub)); [by split; [left|]|].
    destruct (warmStarted hub); [naive_solver|]. split; [by intros ?%shadowPool_ne|naive_solver].
Qed.

(** JSON keeps the hub's volume claim templates. *)
Definition vcts_survive (vcts : list VolumeClaimTemplate) : Prop :=
  vcts = [] \/ exists raw, Marshal vcts = Ok raw /\ Unmarshal raw = Ok vcts.

Lemma preserveVCTs_Ok vcts s :
  mAnnotations (acMeta s) !! vctKey = None -> vcts_survive vcts ->
  exists m, preserveVCTs vcts s = Ok (mkAClaim m (acSpec s) (acStatus s)) /\
    mName m = mName (acMeta s) /\ set_mAnnotations (delete vctKey) m = acMeta s /\
    match mAnnotations m !! vctKey with None => vcts = [] | Some raw => Unmarshal raw = Ok vcts end.
Proof.
  intros Hv Hs. unfold preserveVCTs. destruct (decide (vcts = [])) as [E|E].
  - rewrite bool_decide_false by tauto. eexists. split; [done|].
    rewrite (annotation_absent _ _ Hv), (annotation_absent _ _ Hv), Hv. done.
  - rewrite bool_decide_true by done. destruct Hs as [?|(raw & Hm & Hu)]; [done|]. rewrite Hm.
    eexists. split; [done|]. split; [done|]. split; [by apply annotation_in_out|].
    cbn. by rewrite lookup_insert_eq.
Qed.

(** A hub SandboxClaim that a v1alpha1 client reads and writes back keeps
    everything but the state annotation it gains: lifecycle, metadata,
    variables, volume claim templates (which v1alpha1 lacks) and status.  Its
    pool reference survives exactly if v1alpha1 can express it ([keeps_ref]); a
    pool named "default" or "none" is the exception. *)
Theorem claim_hub_roundtrip hub :
  mAnnotations (scMeta hub) !! stateKey = None -> mAnnotations (scMeta hub) !! vctKey = None ->
  vcts_survive (scVolumeClaimTemplates hub) ->
  exists s, ClaimConvertFrom hub = Ok s /\
    forall hub', ClaimConvertTo s = Ok hub' ->
      (exists j, hub' = with_meta_ref (set_mAnnotations (<[stateKey := j]>) (scMeta hub)) (scWarmPoolRef hub') hub) /\
      (scWarmPoolRef hub' = scWarmPoolRef hub <-> keeps_ref hub).
Proof.
  intros Hk Hv Hs. unfold ClaimConvertFrom. rewrite Hk.
  destruct (preserveVCTs_Ok (scVolumeClaimTemplates hub)
    (mkAClaim (scMeta hub) (convertClaimSpecFrom hub) (convertClaimStatusFrom hub)) Hv Hs)
    as (m' & -> & Hname & Hdel & Hvct). cbn [acMeta acSpec acStatus] in *. set (m := scMeta hub) in *.
  eexists. split; [done|]. intros hub' Ht. unfold ClaimConvertTo in Ht. cbn [acMeta] in Ht.
  assert (exists j, hub' = convertClaimTo (mkAClaim m' (convertClaimSpecFrom hub) (convertClaimStatusFrom hub))
            (set_mAnnotations (<[stateKey := j]>) m) (scVolumeClaimTemplates hub)) as [j ->].
  { destruct (mAnnotations m' !! vctKey) eqn:Ek.
    - rewrite Hvct in Ht. destruct (Marshal _) as [j|]; [|done]. injection Ht as <-. rewrite Hdel. by exists j.
    - destruct (Marshal _) as [j|]; [|done]. injection Ht as <-. exists j. rewrite Hvct. f_equal. f_equal.
      by rewrite <-Hdel, (annotation_absent _ _ Ek). }
  split; [exists j|].
  - unfold convertClaimTo, with_meta_ref, convertClaimSpecFrom. destruct (warmPoolRefFrom _). cbn.
    autorewrite with conversion. by destruct (scAdditionalPodMetadata hub).
  - cbn [convertClaimTo scWarmPoolRef acSpec acMeta acStatus]. rewrite Hname. apply refs_through_v1alpha1.
Qed.
End claim.

(** ** Templates and warm pools *)

Section template.
Context `{JSON aSandboxTemplate}.

Abbreviation templateKey := v1alpha1SandboxTemplateStateAnnotation.

(** A hub SandboxTemplate that a v1alpha1 client reads and writes back keeps
    its whole spec, the volume-claim policy that v1alpha1 lacks included; of its
    metadata only the state annotation is renewed. *)
Theorem template_hub_roundtrip t hub' :
  mAnnotations (tplMeta t) !! vctPolicyAnnotation = None ->
  TemplateConvertTo (TemplateConvertFrom t) = Ok hub' ->
  exists j, hub' = set_tplMeta (set_mAnnotations (fun a => <[templateKey := j]> (delete templateKey a)) (tplMeta t)) t.
Proof.
  intros Hk. unfold TemplateConvertTo, TemplateConvertFrom. set (m := tplMeta t) in *.
  set (p := tplVolumeClaimTemplatesPolicy t).
  assert (forall m', convertTemplateSpecTo (convertTemplateSpecFrom t m') = fun m p =>
    mkTemplate m (tplBlueprint t) (tplNetworkPolicy t) (tplNetworkPolicyManagement t)
      (tplEnvVarsInjectionPolicy t) p) as Hc.
  { intros m'. unfold convertTemplateSpecTo, convertTemplateSpecFrom. cbn. autorewrite with conversion.
    by destruct (tplBlueprint t). }
  cbn [atplMeta convertTemplateSpecFrom]. destruct (decide (p = "")) as [Ep|Ep].
  - rewrite bool_decide_false by tauto. cbn [mAnnotations set_mAnnotations]. rewrite lookup_delete_eq.
    destruct (Marshal _) as [j|]; [|done]. rewrite Hc. intros [= <-]. exists j. unfold set_tplMeta. fold p. rewrite Ep.
    f_equal. rewrite !set_annotations_comp. unfold set_mAnnotations. f_equal.
    rewrite (delete_id (delete templateKey (mAnnotations m))); [done|]. by rewrite lookup_delete_ne.
  - rewrite bool_decide_true by done. cbn [mAnnotations set_mAnnotations]. rewrite lookup_insert_eq.
    destruct (validVCTPolicy p); [|done]. destruct (Marshal _) as [j|]; [|done]. rewrite Hc. intros [= <-].
    exists j. unfold set_tplMeta. fold p. f_equal. unfold set_mAnnotations. cbn. f_equal. f_equal.
    apply delete_insert_id. by rewrite lookup_delete_ne.
Qed.
End template.

Section warmpool.
Context `{JSON aSandboxWarmPool}.

Lemma warmpool_roundtrip s :
  mAnnotations (awpMeta s) !! v1alpha1SandboxWarmPoolStateAnnotation = None ->
  (exists j, Marshal (warmPoolState s) = Ok j) ->
  exists hub, WarmPoolConvertTo s = Ok hub /\ WarmPoolConvertFrom hub = s.
Proof.
  intros Hk [j Hj]. unfold WarmPoolConvertTo. rewrite Hj. eexists. split; [done|].
  unfold WarmPoolConvertFrom. cbn [wpMeta wpReplicas wpTemplateRef wpUpdateStrategy wpStatusReplicas
    wpStatusReadyReplicas wpStatusSelector]. rewrite (annotation_in_out _ _ _ Hk). by destruct s.
Qed.
End warmpool.

(** ** Concrete objects *)

Section demo_witness.

Definition demo_sandbox : aSandbox :=
  mkASandbox (mkMeta "sb" "" "ns" "u" "1" 1 0 None ∅ {["team" := "x"]} [])
    (mkASandboxSpec (mkAPodTemplate emptyPodSpec (mkAPodMetadata ∅ ∅)) [] (mkALifecycle None None) None None)
    (mkASandboxStatus "" "" [] 1 "" []).

#[local] Instance demo_sandbox_json : JSON aSandbox := {|
  Marshal _ := Ok "{}"; Unmarshal _ := Ok demo_sandbox
|}.

Lemma sandbox_roundtrip_witness :
  exists hub, SandboxConvertTo demo_sandbox = Ok hub /\ SandboxConvertFrom hub = Ok demo_sandbox.
Proof.
  apply (sandbox_roundtrip demo_sandbox); [vm_compute; reflexivity|].
  exists "{}", demo_sandbox. repeat split.
Defined.

Definition demo_hub (mode : SandboxOperatingMode) : Sandbox :=
  mkSandbox emptyMeta (mkSandboxSpec (ssBlueprint emptySpec) (Some 7) None mode) emptyStatus.

Lemma sandbox_hub_roundtrip_witness :
  exists s hub', SandboxConvertFrom (demo_hub ModeSuspended) = Ok s /\ SandboxConvertTo s = Ok hub' /\
    asReplicas (aSpec s) = Some 0 /\ ssOperatingMode (sbSpec hub') = ModeSuspended.
Proof.
  destruct (SandboxConvertFrom (demo_hub ModeSuspended)) as [s|e] eqn:Es; [|discriminate].
  destruct (SandboxConvertTo s) as [hub'|e] eqn:Eh; [|discriminate].
  exists s, hub'. split; [reflexivity|]. split; [exact Eh|].
  destruct (sandbox_hub_roundtrip (demo_hub ModeSuspended) s hub' Es Eh) as (H1 & H2 & _).
  split; [apply H1; reflexivity|]. rewrite H2. reflexivity.
Defined.

Definition demo_claim (pool : option string) (sandboxName : string) : aSandboxClaim :=
  mkAClaim (mkMeta "c" "" "ns" "u" "1" 1 0 None ∅ ∅ [])
    (mkAClaimSpec "py" None pool (mkAPodMetadata ∅ ∅) [mkAEnv "A" "1" ""])
    (mkAClaimStatus [] sandboxName []).

#[local] Instance demo_claim_json : JSON aSandboxClaim := {|
  Marshal _ := Ok "{}"; Unmarshal _ := Ok (demo_claim None "pool-abc12")
|}.
#[local] Instance demo_vcts_json : JSON (list VolumeClaimTemplate) := {|
  Marshal l := Ok (pretty (Z.of_nat (length l)));
  Unmarshal _ := Ok [mkVCT "data" ∅ ∅ "10Gi"]
|}.

Lemma claim_roundtrip_witness :
  exists hub, ClaimConvertTo (demo_claim None "pool-abc12") = Ok hub /\ scWarmPoolRef hub = "pool" /\
    ClaimConvertFrom hub = Ok (demo_claim None "pool-abc12").
Proof.
  destruct (claim_roundtrip (demo_claim None "pool-abc12") []) as (hub & Ht & _ & Hf).
  - vm_compute. reflexivity.
  - exists "{}", (demo_claim None "pool-abc12"). repeat split.
  - vm_compute. reflexivity.
  - exists hub. split; [exact Ht|]. split; [|exact Hf].
    assert (scWarmPoolRef <$> (match ClaimConvertTo (demo_claim None "pool-abc12") with Ok h => Some h | Err _ => None end)
            = Some "pool") as E by (vm_compute; reflexivity).
    rewrite Ht in E. by injection E.
Defined.

Definition demo_hub_claim (ref : string) : SandboxClaim :=
  mkClaim (mkMeta "c" "" "ns" "u" "1" 1 0 None ∅ ∅ []) ref None (mkPodMetadata ∅ ∅) []
    [mkVCT "data" ∅ ∅ "10Gi"] [] "" [].

(** A pool with an ordinary name survives; one named "default" does not. *)
Lemma claim_hub_roundtrip_witness :
  keeps_ref (demo_hub_claim "fast") /\ ~ keeps_ref (demo_hub_claim "default") /\
  exists s, ClaimConvertFrom (demo_hub_claim "default") = Ok s /\
    forall hub', ClaimConvertTo s = Ok hub' -> scWarmPoolRef hub' <> "default".
Proof.
  assert (~ keeps_ref (demo_hub_claim "default")) as Hn
    by (intros [Hs|[Hs _]]; vm_compute in Hs; discriminate).
  split; [left; vm_compute; reflexivity|]. split; [exact Hn|].
  destruct (claim_hub_roundtrip (demo_hub_claim "default")) as (s & Hf & Ht).
  - vm_compute. reflexivity.
  - vm_compute. reflexivity.
  - right. exists "1". split; vm_compute; reflexivity.
  - exists s. split; [exact Hf|]. intros hub' Hh. destruct (Ht hub' Hh) as [_ Hr].
    intros E. apply Hn, Hr. exact E.
Defined.

Definition demo_template : SandboxTemplate :=
  mkTemplate emptyMeta (ssBlueprint emptySpec) (Some (mkTemplateRules [] [])) "Managed" "Allowed" "Overrides".

#[local] Instance demo_template_json : JSON aSandboxTemplate := {|
  Marshal _ := Ok "{}"; Unmarshal _ := Err (Errorf "not used")
|}.

Lemma template_hub_roundtrip_witness :
  exists hub', TemplateConvertTo (TemplateConvertFrom demo_template) = Ok hub' /\
    tplVolumeClaimTemplatesPolicy hub' = "Overrides".
Proof.
  destruct (TemplateConvertTo (TemplateConvertFrom demo_template)) as [hub'|e] eqn:Eh; [|discriminate].
  exists hub'. split; [reflexivity|].
  destruct (template_hub_roundtrip demo_template hub' eq_refl Eh) as [j Hj]. rewrite Hj. reflexivity.
Defined.
End demo_witness.
End Conversion.
