(* ===== verification/CocoonTypes.v ===== *)
(** * CocoonTypes: the sandbox.cocoonstack.io API objects.

    Models [api/cocoon/v1/types.go]: a CocoonSandbox claims one microVM from a
    sandboxd node, a CocoonSandboxTemplate names what to claim, a
    CocoonSandboxPool asks for warm capacity and a CocoonSandboxNode inventories
    one sandboxd daemon.  String enumerations stay strings, as in the source,
    since an unvalidated object may hold any. *)

From S2P Require Import Prelude GoStrings K8s.

Definition ConditionReady : string := "Ready".

Definition PhasePending : string := "Pending".
Definition PhaseRunning : string := "Running".
Definition PhaseFailed : string := "Failed".

Definition SourceWarmPool : string := "WarmPool".
Definition SourceGolden : string := "Golden".
Definition SourceCold : string := "Cold".

Definition NetNone : string := "none".
Definition NetEgress : string := "egress".

Definition SizeSmall : string := "small".
Definition SizeMedium : string := "medium".
Definition SizeLarge : string := "large".

(** [corev1.SecretKeySelector] as the controllers read it. *)
Record SecretKeySelector := mkSecretKey { skName : string; skKey : string }.

#[export] Instance SecretKeySelector_eq_dec : EqDecision SecretKeySelector.
Proof. solve_decision. Defined.

(** [corev1.Secret]; a nil data map is an empty one. *)
Record Secret := mkSecret { secMeta : ObjectMeta; secType : string; secData : strmap }.

(** ** Templates *)

Record TemplateNetworkPolicy := mkTemplateNetworkPolicy { tnEgressPolicy : string }.
Record TemplateBootstrap := mkTemplateBootstrap { tbCommand : list string }.
Record TemplatePromotePolicy := mkTemplatePromotePolicy { tpEnabled : bool }.

Record CocoonSandboxTemplateSpec := mkCTemplateSpec {
  ctTemplate : string;
  ctImage : string;
  ctNet : string;
  ctSize : string;
  ctOS : string;
  ctEnvVarsInjectionPolicy : string;
  ctNetwork : option TemplateNetworkPolicy;
  ctBootstrap : option TemplateBootstrap;
  ctPromotePolicy : option TemplatePromotePolicy;
}.

Record CocoonSandboxTemplateStatus := mkCTemplateStatus {
  ctGoldenReady : bool; ctDigest : string; ctConditions : list Condition
}.

Record CocoonSandboxTemplate := mkCTemplate {
  ctMeta : ObjectMeta;
  ctSpec : CocoonSandboxTemplateSpec;
  ctStatus : CocoonSandboxTemplateStatus;
}.

(** ** Pools *)

Record CocoonSandboxPoolUpdateStrategy := mkCPoolStrategy { cpuType : string }.

Record CocoonSandboxPoolSpec := mkCPoolSpec {
  cpReplicas : Z;                                      (* int32 *)
  cpTemplateRef : string;
  cpUpdateStrategy : option CocoonSandboxPoolUpdateStrategy;
}.

Record CocoonSandboxPoolNodeStatus := mkCPoolNode {
  cpnNodeName : string; cpnWarm : Z; cpnTarget : Z      (* int32 counts *)
}.

Record CocoonSandboxPoolStatus := mkCPoolStatus {
  cpsReplicas : Z;
  cpsReadyReplicas : Z;
  cpsWarmByNode : list CocoonSandboxPoolNodeStatus;
  cpsConditions : list Condition;
}.

Record CocoonSandboxPool := mkCPool {
  cpMeta : ObjectMeta;
  cpSpec : CocoonSandboxPoolSpec;
  cpStatus : CocoonSandboxPoolStatus;
}.

#[export] Instance CocoonSandboxPoolNodeStatus_eq_dec : EqDecision CocoonSandboxPoolNodeStatus.
Proof. solve_decision. Defined.
#[export] Instance CocoonSandboxPoolStatus_eq_dec : EqDecision CocoonSandboxPoolStatus.
Proof. solve_decision. Defined.

(** ** Sandboxes *)

Record CocoonSandboxLifecycle := mkCLifecycle { clTTLSeconds : Z; clPolicy : string }.
Record CocoonSandboxAccess := mkCAccess { caModes : list string }.
Record CocoonSandboxPlacement := mkCPlacement { plNodeName : string; plNodeSelector : strmap }.

Record CocoonSandboxSpec := mkCSandboxSpec {
  csTemplateRef : string;
  csPoolPolicy : string;
  csNet : string;
  csSize : string;
  csLifecycle : option CocoonSandboxLifecycle;
  csAccess : option CocoonSandboxAccess;
  csPlacement : option CocoonSandboxPlacement;
}.

Record CocoonSandboxEndpoint := mkCEndpoint { ceSilkdUpgradeURL : string }.

Record CocoonSandboxStatus := mkCSandboxStatus {
  csPhase : string;
  csSource : string;
  csSandboxID : string;
  csOwnerNode : string;
  csOwnerAddr : string;
  csDeadline : option Z;
  csHibernated : bool;
  csTokenSecretRef : option SecretKeySelector;
  csEndpoint : option CocoonSandboxEndpoint;
  csClaimLatencyMs : string;
  csConditions : list Condition;
}.

(** [csFinalizers] is the [Finalizers] field of the object metadata. *)
Record CocoonSandbox := mkCSandbox {
  csMeta : ObjectMeta;
  csFinalizers : list string;
  csSpec : CocoonSandboxSpec;
  csStatus : CocoonSandboxStatus;
}.

(** ** Nodes *)

Record CocoonSandboxNodeSpec := mkCNodeSpec {
  cnNodeName : string; cnSpecAddress : string; cnAPITokenSecretRef : option SecretKeySelector
}.

Record CocoonSandboxNodePoolStatus := mkCNodePool {
  npTemplate : string;
  npNet : string;
  npSize : string;
  npWarm : Z;                                          (* int32 counts *)
  npTarget : Z;
  npRefilling : Z;
  npGolden : bool;
}.

Record CocoonSandboxNodeStatus := mkCNodeStatus {
  nsAddress : string;
  nsPools : list CocoonSandboxNodePoolStatus;
  nsClaimed : Z;
  nsHibernated : Z;
  nsPeers : list string;
  nsConditions : list Condition;
}.

Record CocoonSandboxNode := mkCNode {
  cnMeta : ObjectMeta;
  cnSpec : CocoonSandboxNodeSpec;
  cnStatus : CocoonSandboxNodeStatus;
}.

#[export] Instance CocoonSandboxNodePoolStatus_eq_dec : EqDecision CocoonSandboxNodePoolStatus.
Proof. solve_decision. Defined.
#[export] Instance CocoonSandboxNodeStatus_eq_dec : EqDecision CocoonSandboxNodeStatus.
Proof. solve_decision. Defined.

Definition nodeName (n : CocoonSandboxNode) : string := mName (cnMeta n).

Definition set_csStatus (f : CocoonSandboxStatus -> CocoonSandboxStatus) (sb : CocoonSandbox) : CocoonSandbox :=
  mkCSandbox (csMeta sb) (csFinalizers sb) (csSpec sb) (f (csStatus sb)).
Definition set_csFinalizers (fs : list string) (sb : CocoonSandbox) : CocoonSandbox :=
  mkCSandbox (csMeta sb) fs (csSpec sb) (csStatus sb).
