(* ===== verification/CocoonClient.v ===== *)
(** * CocoonClient: the sandboxd HTTP client of the Cocoon controllers.

    Models [cocoon/sandboxd/client.go].  One HTTP exchange is one call of the
    event signature [HttpE]: building the request and sending it answer a
    response or an error.  JSON is a [JSON] instance per message type, an
    argument of the client.  Bodies are strings of bytes. *)

From S2P Require Import Prelude GoStrings K8s PoolKey CocoonTypes.

Module CocoonClient.
#[local] Open Scope prog_scope.

Definition maxErrorBodyBytes : nat := 4096.

(** ** Messages *)

Record ClaimRequest := mkClaimRequest {
  crTemplate : string; crNet : string; crSize : string; crTTLSeconds : Z; crNoRedirect : bool
}.

Record ClaimResponse := mkClaimResponse {
  rpID : string; rpToken : string; rpDeadline : Z; rpOwnerAddr : string; rpRedirect : list string
}.

Definition noResponse : ClaimResponse := mkClaimResponse "" "" 0 "" [].

Record PoolStatus := mkPoolStatus {
  pstKey : Pool.PoolKey; pstWarm : Z; pstRefilling : Z; pstTarget : Z; pstGolden : bool
}.

Record NodeInfo := mkNodeInfo {
  infPools : list PoolStatus; infClaimed : Z; infHibernated : Z; infPeers : list string
}.

Record PoolSpec := mkPoolSpec { psTemplate : string; psNet : string; psSize : string; psWarm : Z }.

(** The body of an error response. *)
Record ErrorBody := mkErrorBody { ebError : string }.

(** ** HTTP *)

Record HttpRequest := mkRequest {
  rqMethod : string; rqURL : string; rqBody : option string; rqBearer : string
}.
Record HttpResponse := mkResponse { rsStatus : Z; rsBody : string }.

Inductive HttpE : Type -> Type :=
| HDo (rq : HttpRequest) : HttpE (result HttpResponse).

Definition StatusOK : Z := 200.
Definition StatusNoContent : Z := 204.
Definition StatusNotFound : Z := 404.

Definition set_NoRedirect (rq : ClaimRequest) : ClaimRequest :=
  mkClaimRequest (crTemplate rq) (crNet rq) (crSize rq) (crTTLSeconds rq) true.

Section client.
Context `{JSON ClaimRequest} `{JSON ClaimResponse} `{JSON NodeInfo} `{JSON (list PoolSpec)} `{JSON ErrorBody}.

Definition apiError (verb : string) (rs : HttpResponse) : gerror :=
  let msg := match Unmarshal (String.substring 0 maxErrorBodyBytes (rsBody rs)) with
             | Ok b => ebError b
             | Err _ => ""
             end in
  if bool_decide (msg <> "")
  then Errorf (verb +:+ ": " +:+ msg +:+ " (http " +:+ pretty (rsStatus rs) +:+ ")")
  else Errorf (verb +:+ ": http " +:+ pretty (rsStatus rs)).

Definition roundTrip (method addr path : string) (body : option string) (bearer : string) :
    prog HttpE (result HttpResponse) :=
  let addr := TrimSpace addr in
  if bool_decide (addr = "") then Ret (Err (Errorf "sandboxd address is required"))
  else call (HDo (mkRequest method ("http://" +:+ addr +:+ path) body bearer)).

Definition claimAt (addr apiToken : string) (req : ClaimRequest) : prog HttpE (result ClaimResponse) :=
  match Marshal req with
  | Err e => Ret (Err (Wrap "encode claim request" e))
  | Ok body =>
      r <- roundTrip "POST" addr "/v1/claim" (Some body) apiToken;;
      match r with
      | Err e => Ret (Err e)
      | Ok rs =>
          if bool_decide (rsStatus rs <> StatusOK) then Ret (Err (apiError "claim" rs))
          else match Unmarshal (rsBody rs) with
               | Err e => Ret (Err (Wrap "decode claim response" e))
               | Ok out => Ret (Ok out)
               end
      end
  end.

(** The redirect loop; [lastErr] is nil until a target failed. *)
Fixpoint claimRedirect (targets : list string) (apiToken : string) (req : ClaimRequest)
    (lastErr : option gerror) : prog HttpE (result (ClaimResponse * string)) :=
  match targets with
  | [] =>
      Ret (Err (match lastErr with
                | Some e => Wrap "claim redirect targets failed" e
                | None => Errorf "claim redirect targets failed"
                end))
  | redirectAddr :: targets =>
      let redirectAddr := TrimSpace redirectAddr in
      if bool_decide (redirectAddr = "") then claimRedirect targets apiToken req lastErr
      else
        r <- claimAt redirectAddr apiToken req;;
        match r with
        | Ok resp => Ret (Ok (resp, redirectAddr))
        | Err e => claimRedirect targets apiToken req (Some e)
        end
  end.

(** The response and the address that gave it. *)
Definition Claim (addr apiToken : string) (req : ClaimRequest) :
    prog HttpE (result (ClaimResponse * string)) :=
  let addr := TrimSpace addr in
  if bool_decide (addr = "") then Ret (Err (Errorf "sandboxd address is required"))
  else
    r <- claimAt addr apiToken req;;
    match r with
    | Err e => Ret (Err e)
    | Ok resp =>
        if bool_decide (rpRedirect resp = []) then Ret (Ok (resp, addr))
        else claimRedirect (rpRedirect resp) apiToken (set_NoRedirect req) None
    end.

Definition Info (addr apiToken : string) : prog HttpE (result NodeInfo) :=
  r <- roundTrip "GET" addr "/v1/info" None apiToken;;
  match r with
  | Err e => Ret (Err e)
  | Ok rs =>
      if bool_decide (rsStatus rs <> StatusOK) then Ret (Err (apiError "info" rs))
      else match Unmarshal (rsBody rs) with
           | Err e => Ret (Err (Wrap "decode info response" e))
           | Ok out => Ret (Ok out)
           end
  end.

Definition SetPools (addr apiToken : string) (pools : list PoolSpec) : prog HttpE (result NodeInfo) :=
  match Marshal pools with
  | Err e => Ret (Err (Wrap "encode pool update request" e))
  | Ok body =>
      r <- roundTrip "PUT" addr "/v1/pools" (Some body) apiToken;;
      match r with
      | Err e => Ret (Err e)
      | Ok rs =>
          if bool_decide (rsStatus rs <> StatusOK) then Ret (Err (apiError "set pools" rs))
          else match Unmarshal (rsBody rs) with
               | Err e => Ret (Err (Wrap "decode pool update response" e))
               | Ok out => Ret (Ok out)
               end
      end
  end.

Definition releasePath (sandboxID : string) : string := "/v1/sandboxes/" +:+ sandboxID +:+ "/release".

Definition Release (addr sandboxID token : string) : prog HttpE (option gerror) :=
  let sandboxID := TrimSpace sandboxID in
  if bool_decide (sandboxID = "") then Ret None
  else
    r <- roundTrip "POST" addr (releasePath sandboxID) None token;;
    match r with
    | Err e => Ret (Some e)
    | Ok rs =>
        if bool_decide (rsStatus rs = StatusNoContent) || bool_decide (rsStatus rs = StatusNotFound)
        then Ret None
        else Ret (Some (apiError "release" rs))
    end.

(** ** Deliveries

    A delivery is a 200 answer to a claim request that decodes to a handle and
    not to a redirect. *)

Definition claimURL (addr : string) : string := "http://" +:+ addr +:+ "/v1/claim".

Definition is_claim (rq : HttpRequest) : bool :=
  bool_decide (rqMethod rq = "POST") && HasSuffix (rqURL rq) "/v1/claim".

Definition decoded (x : result HttpResponse) : option ClaimResponse :=
  match x with
  | Ok rs => if bool_decide (rsStatus rs = StatusOK)
             then match Unmarshal (rsBody rs) with Ok resp => Some resp | Err _ => None end
             else None
  | Err _ => None
  end.

Definition delivery (resp : ClaimResponse) : list ClaimResponse :=
  if bool_decide (rpRedirect resp = []) then [resp] else [].

Definition delivered (X : Type) (e : HttpE X) : X -> option ClaimResponse :=
  match e in HttpE X return X -> option ClaimResponse with
  | HDo rq => fun x =>
      if is_claim rq then
        match decoded x with
        | Some resp => if bool_decide (rpRedirect resp = []) then Some resp else None
        | None => None
        end
      else None
  end.

Lemma is_claim_url addr body bearer : is_claim (mkRequest "POST" (claimURL addr) body bearer) = true.
Proof.
  unfold is_claim, claimURL. rewrite bool_decide_true by done. cbn [rqURL andb].
  rewrite <-app_string_assoc. apply HasSuffix_app.
Qed.

(** One request is made and its delivery, if any, is the result. *)
Lemma claimAt_history addr tok req h :
  history any_answer
    (fun r h' => witnessed delivered h' =
                 witnessed delivered h ++ match r with Ok resp => delivery resp | Err _ => [] end)
    (claimAt addr tok req) h.
Proof.
  unfold claimAt, roundTrip. destruct (Marshal req) as [body|e]; [|simpl; by rewrite app_nil_r].
  destruct (bool_decide _); [simpl; by rewrite app_nil_r|]. intros x _. cbn [bind].
  assert (witnessed delivered (h ++ [Ev (HDo (mkRequest "POST" (claimURL (TrimSpace addr)) (Some body) tok)) x])
          = witnessed delivered h ++ match decoded x with Some resp => delivery resp | None => [] end) as Hw.
  { rewrite witnessed_app. f_equal. simpl. rewrite is_claim_url. unfold delivery.
    destruct (decoded x) as [resp|]; [|done]. by destruct (bool_decide _). }
  unfold claimURL in Hw. unfold decoded in Hw. destruct x as [rs|e]; [|done].
  destruct (decide (rsStatus rs = StatusOK)) as [E|E].
  - rewrite (bool_decide_true (rsStatus rs = StatusOK)) in Hw by done. rewrite bool_decide_false by tauto.
    by destruct (Unmarshal (rsBody rs)).
  - rewrite (bool_decide_false (rsStatus rs = StatusOK)) in Hw by done. by rewrite bool_decide_true.
Qed.

Lemma claimRedirect_history targets tok req lastErr h :
  history any_answer
    (fun r h' => witnessed delivered h' =
                 witnessed delivered h ++ match r with Ok (resp, _) => delivery resp | Err _ => [] end)
    (claimRedirect targets tok req lastErr) h.
Proof.
  revert lastErr h. induction targets as [|t targets IH]; intros lastErr h; cbn [claimRedirect].
  - simpl. by rewrite app_nil_r.
  - destruct (bool_decide _); [apply IH|]. eapply history_bind; [apply claimAt_history|].
    intros [resp|e] h' Hh'; [done|]. rewrite app_nil_r in Hh'. rewrite <-Hh'. apply IH.
Qed.

(** The deliveries of a whole claim are exactly the handle it returns. *)
Lemma Claim_history addr tok req h :
  history any_answer
    (fun r h' => witnessed delivered h' =
                 witnessed delivered h ++ match r with Ok (resp, _) => delivery resp | Err _ => [] end)
    (Claim addr tok req) h.
Proof.
  unfold Claim. destruct (bool_decide _); [simpl; by rewrite app_nil_r|].
  eapply history_bind; [apply claimAt_history|]. intros [resp|e] h' Hh'; [|done].
  unfold delivery in Hh'. destruct (bool_decide (rpRedirect resp = [])) eqn:E.
  - simpl. unfold delivery. by rewrite E.
  - rewrite app_nil_r in Hh'. rewrite <-Hh'. apply claimRedirect_history.
Qed.

(** The address of a result is trimmed and not empty. *)
Definition dialable (a : string) : Prop := a <> "" /\ TrimSpace a = a.

Definition claims (X : Type) (e : HttpE X) : Prop := match e with HDo rq => is_claim rq = true end.

Lemma claimAt_any {A} (post : A -> Prop) addr tok req (k : result ClaimResponse -> prog HttpE A) :
  (forall r, spec claims any_answer post (k r)) ->
  spec claims any_answer post (bind (claimAt addr tok req) k).
Proof.
  intros Hk. unfold claimAt, roundTrip. destruct (Marshal req); [|apply Hk].
  destruct (bool_decide _); [apply Hk|]. split; [apply is_claim_url|]. intros [rs|e] _; [|apply Hk]. cbn [bind].
  destruct (bool_decide _); [apply Hk|]. destruct (Unmarshal _); apply Hk.
Qed.

Lemma Claim_requests addr tok req :
  spec claims any_answer
    (fun r => match r with Ok (_, a) => dialable a | Err _ => True end) (Claim addr tok req).
Proof.
  unfold Claim. destruct (bool_decide (TrimSpace addr = "")) eqn:Ea; [done|]. apply bool_decide_eq_false in Ea.
  apply claimAt_any. intros [resp|e]; [|done].
  destruct (bool_decide _); [split; [done|apply TrimSpace_idemp]|].
  generalize (@None gerror). induction (rpRedirect resp) as [|t ts IH]; intros lastErr; [done|].
  cbn [claimRedirect]. destruct (bool_decide (TrimSpace t = "")) eqn:Et; [apply IH|].
  apply bool_decide_eq_false in Et. apply claimAt_any. intros [r|e]; [|apply IH].
  split; [done|apply TrimSpace_idemp].
Qed.

(** ** One hop *)

Definition requested (X : Type) (e : HttpE X) : X -> option HttpRequest :=
  match e in HttpE X return X -> option HttpRequest with HDo rq => fun _ => Some rq end.

Definition requests (h : list (event HttpE)) : list HttpRequest := witnessed requested h.

Definition answered (X : Type) (e : HttpE X) : X -> option (option ClaimResponse) :=
  match e in HttpE X return X -> option (option ClaimResponse) with HDo rq => fun x => Some (decoded x) end.

(** The answers so far: a decoded response, or nothing for an answer that failed
    or did not decode. *)
Definition replies (h : list (event HttpE)) : list (option ClaimResponse) := witnessed answered h.

Definition targets_of (redirects : list string) : list string :=
  filter (fun a => a <> "") (TrimSpace <$> redirects).

(** The addresses the first answer redirects to. *)
Definition hops (h : list (event HttpE)) : list string :=
  match replies h with
  | Some resp :: _ => targets_of (rpRedirect resp)
  | _ => []
  end.

Definition posts (addr : string) (req : ClaimRequest) (rq : HttpRequest) : Prop :=
  rqMethod rq = "POST" /\ rqURL rq = claimURL addr /\ exists body, Marshal req = Ok body /\ rqBody rq = Some body.

Section one_hop.
(** A claim request is a struct of strings, a number and a flag: it encodes. *)
Hypothesis Marshal_total : forall rq : ClaimRequest, exists body, Marshal rq = Ok body.

Lemma claimAt_posts addr tok req h :
  dialable addr ->
  history any_answer
    (fun r h' => exists rq x, h' = h ++ [Ev (HDo rq) x] /\ posts addr req rq /\
                 decoded x = match r with Ok resp => Some resp | Err _ => None end)
    (claimAt addr tok req) h.
Proof.
  intros [Hne Htrim]. unfold claimAt, roundTrip. destruct (Marshal_total req) as [body Hb]. rewrite Hb, Htrim.
  rewrite bool_decide_false by done. intros x _. cbn [bind].
  set (rq := mkRequest _ _ _ _).
  assert (posts addr req rq) as Hp by (split_and!; [done..|by exists body]).
  destruct x as [rs|e]; [|by exists rq, (Err e)]. unfold decoded.
  destruct (decide (rsStatus rs = StatusOK)) as [E|E].
  - rewrite bool_decide_false by tauto.
    destruct (Unmarshal (rsBody rs)) eqn:Eu; exists rq, (Ok rs); rewrite bool_decide_true, Eu by done; done.
  - rewrite bool_decide_true by done. exists rq, (Ok rs). by rewrite bool_decide_false.
Qed.

(** The redirect loop asks the targets in order until one delivers. *)
Lemma claimRedirect_posts redirects tok req lastErr h :
  history any_answer
    (fun r h' => exists k new, h' = h ++ new /\
       Forall2 (fun a rq => posts a req rq) (take k (targets_of redirects)) (requests new) /\
       match r with
       | Ok (resp, a) => exists j, k = S j /\ targets_of redirects !! j = Some a /\
                           replies new = replicate j None ++ [Some resp]
       | Err _ => k = length (targets_of redirects) /\ replies new = replicate k None
       end)
    (claimRedirect redirects tok req lastErr) h.
Proof.
  revert lastErr h. induction redirects as [|t ts IH]; intros lastErr h; cbn [claimRedirect].
  { exists O, []. split_and!; [by rewrite app_nil_r|constructor|done|done]. }
  unfold targets_of. rewrite fmap_cons, filter_cons.
  destruct (decide (TrimSpace t = "")) as [Et|Et].
  { rewrite bool_decide_true, decide_False by tauto. apply IH. }
  rewrite bool_decide_false, decide_True by done. fold (targets_of ts).
  eapply history_bind; [apply claimAt_posts; split; [done|apply TrimSpace_idemp]|].
  intros r h1 (rq & x & -> & Hp & Hd). destruct r as [resp|e].
  - exists 1%nat, [Ev (HDo rq) x]. cbn [take]. rewrite take_0. split_and!; [done| |].
    + apply Forall2_cons_2; [done|apply Forall2_nil_2].
    + exists O. split_and!; [done|done|]. cbn. by rewrite Hd.
  - eapply history_mono; [|apply IH]. intros r h' (k & new & -> & Hf & Hr).
    exists (S k), (Ev (HDo rq) x :: new). split_and!.
    + by rewrite <-app_assoc.
    + cbn. by constructor.
    + cbn. rewrite Hd. fold (replies new). destruct r as [[resp a]|].
      * destruct Hr as (j & -> & Ht & Hn). exists (S j). by rewrite Hn.
      * destruct Hr as [-> Hn]. by rewrite Hn.
Qed.

(** What the answers make of a claim: the first answer is returned if it decodes
    and redirects nowhere; otherwise the answer of the first target that decodes,
    with that target's address, every target before it having failed; otherwise an
    error, every target having failed, or the first answer. *)
Definition outcome_of (addr : string) (h : list (event HttpE)) (r : result (ClaimResponse * string)) : Prop :=
  match r with
  | Ok (resp, a) =>
      (replies h = [Some resp] /\ rpRedirect resp = [] /\ a = addr) \/
      (exists first j, rpRedirect first <> [] /\ replies h = Some first :: replicate j None ++ [Some resp] /\
         hops h !! j = Some a)
  | Err _ =>
      replies h = [None] \/
      (exists first, rpRedirect first <> [] /\ replies h = Some first :: replicate (length (hops h)) None)
  end.

(** C36.  A claim follows at most one hop of redirects.  The first request goes to
    the given address, every further one to a target the first answer named, in
    order and with redirects forbidden.  It stops at the first answer that
    decodes: a first answer without redirects is returned with its own address;
    otherwise the answer of the first target that answers with a response is
    returned with that target's address, and no target after it is asked; an
    error means that the first request failed, or that every target was asked
    once and failed.  (Claim requests encode.) *)
Theorem claim_follows_one_hop addr tok req :
  TrimSpace addr <> "" ->
  history any_answer
    (fun r h => exists first rest, requests h = first :: rest /\
       posts (TrimSpace addr) req first /\
       Forall2 (fun a rq => posts a (set_NoRedirect req) rq) (take (length rest) (hops h)) rest /\
       outcome_of (TrimSpace addr) h r)
    (Claim addr tok req) [].
Proof using Marshal_total.
  intros Hne. unfold Claim. rewrite bool_decide_false by done.
  eapply history_bind; [apply claimAt_posts; split; [done|apply TrimSpace_idemp]|].
  intros r h1 (rq & x & -> & Hp & Hd). rewrite app_nil_l in *.
  assert (forall new, replies ([Ev (HDo rq) x] ++ new) = decoded x :: replies new) as Hrep by done.
  destruct r as [resp|e].
  - destruct (decide (rpRedirect resp = [])) as [Er|Er].
    + rewrite bool_decide_true by done. exists rq, []. cbn [length]. rewrite take_0.
      split_and!; [done|done|apply Forall2_nil_2|]. left. by rewrite (Hrep [] : replies [Ev (HDo rq) x] = _), Hd.
    + rewrite bool_decide_false by done. eapply history_mono; [|apply claimRedirect_posts].
      intros r h' (k & new & -> & Hf & Hr). exists rq, (requests new).
      assert (hops ([Ev (HDo rq) x] ++ new) = targets_of (rpRedirect resp)) as Hh by (unfold hops; by rewrite Hrep, Hd).
      assert (take (length (requests new)) (targets_of (rpRedirect resp)) = take k (targets_of (rpRedirect resp))) as Htk.
      { rewrite <-(Forall2_length _ _ _ Hf), length_take, <-firstn_firstn, firstn_all. done. }
      unfold outcome_of. rewrite Hh, Hrep, Hd, Htk. split_and!; [done|done|done|].
      destruct r as [[resp' a]|].
      * destruct Hr as (j & -> & Ht & Hn). right. exists resp, j. by rewrite Hn.
      * destruct Hr as [-> Hn]. right. exists resp. by rewrite Hn.
  - exists rq, []. cbn [length]. rewrite take_0. split_and!; [done|done|apply Forall2_nil_2|]. left.
    by rewrite (Hrep [] : replies [Ev (HDo rq) x] = _), Hd.
Qed.
End one_hop.
End client.

(** ** A concrete fleet

    Node a redirects to b and c, b refuses, c delivers. *)

Module Demo.
#[export] Instance claim_request_json : JSON ClaimRequest := {|
  Marshal rq := Ok (crTemplate rq +:+ (if crNoRedirect rq then "!" else ""));
  Unmarshal _ := Err (Errorf "not used");
|}.
#[export] Instance claim_response_json : JSON ClaimResponse := {|
  Marshal _ := Err (Errorf "not used");
  Unmarshal s := if bool_decide (s = "redirect") then Ok (mkClaimResponse "" "" 0 "" ["b:1"; " "; "c:1"])
                 else Ok (mkClaimResponse s "tok" 0 "" []);
|}.
#[export] Instance error_body_json : JSON ErrorBody := {|
  Marshal _ := Err (Errorf "not used"); Unmarshal _ := Err (Errorf "not json")
|}.

Definition fleet : handler HttpE unit := fun X e s =>
  match e in HttpE X return X * unit with
  | HDo rq =>
      (if bool_decide (rqURL rq = claimURL "a:1") then Ok (mkResponse 200 "redirect")
       else if bool_decide (rqURL rq = claimURL "b:1") then Ok (mkResponse 429 "")
       else Ok (mkResponse 200 "vm-7"), s)
  end.

Definition req : ClaimRequest := mkClaimRequest "py" "none" "small" 0 false.
End Demo.

Section demo_witness.
Import Demo.

Lemma claim_follows_one_hop_witness :
  let h := recorded Demo.fleet (Claim " a:1" "t" Demo.req) tt in
  replies h = [Some (mkClaimResponse "" "" 0 "" ["b:1"; " "; "c:1"]); None; Some (mkClaimResponse "vm-7" "tok" 0 "" [])] /\
  hops h = ["b:1"; "c:1"] /\
  outcome_of "a:1" h (Ok (mkClaimResponse "vm-7" "tok" 0 "" [], "c:1")).
Proof.
  intros h. split; [vm_compute; reflexivity|]. split; [vm_compute; reflexivity|].
  assert (TrimSpace " a:1" <> "") as Hne by (vm_compute; discriminate).
  assert (forall rq : ClaimRequest, exists body, Marshal rq = Ok body) as Ht by (intros rq; by eexists).
  pose proof (history_run any_answer _ Demo.fleet _ tt [] (fun _ _ _ => I)
                (claim_follows_one_hop Ht " a:1" "t" Demo.req Hne)) as (first & rest & _ & _ & _ & H2).
  exact H2.
Defined.
End demo_witness.
End CocoonClient.
