(* ===== verification/CocoonModel.v ===== *)
(** * CocoonModel: the Cocoon controllers.

    Models [cocoon/controller/controller.go]: the CocoonSandbox controller, which
    claims one microVM for each CocoonSandbox and releases it on deletion; the
    node controller, which copies a daemon's inventory into node status; and the
    pool controller, which spreads pool replicas over the nodes.  The Kubernetes
    API and HTTP are one event signature; the sandboxd client of [CocoonClient]
    runs inside it.  A status update answers only success or an error: no caller
    reads the object the server returned. *)

From S2P Require Import Prelude GoStrings K8s PoolKey CocoonTypes CocoonClient.

Module Cocoon.
Import Pool CocoonClient.
#[local] Open Scope prog_scope.

Definition cocoonSandboxFinalizer : string := "sandbox.cocoonstack.io/finalizer".
Definition cocoonSandboxTokenKey : string := "token".
Definition cocoonSandboxRequeue : Z := 15 * time_second.
Definition cocoonNodeRequeue : Z := 30 * time_second.
Definition cocoonPoolRequeue : Z := 30 * time_second.

(** [ctrl.Result]. *)
Record Result := mkResult { Requeue : bool; RequeueAfter : Z }.
Definition noRequeue : Result := mkResult false 0.
Definition requeueIn (d : Z) : Result := mkResult false d.

Inductive CocoonE : Type -> Type :=
| ENow : CocoonE Z
| EGetSandbox (ns name : string) : CocoonE (result CocoonSandbox)
| EUpdateSandbox (sb : CocoonSandbox) : CocoonE (option gerror)
| EUpdateSandboxStatus (sb : CocoonSandbox) : CocoonE (option gerror)
| EGetTemplate (ns name : string) : CocoonE (result CocoonSandboxTemplate)
| EGetNode (ns name : string) : CocoonE (result CocoonSandboxNode)
| EListNodes (ns : string) : CocoonE (result (list CocoonSandboxNode))
| EUpdateNodeStatus (n : CocoonSandboxNode) : CocoonE (option gerror)
| EListPools (ns : string) : CocoonE (result (list CocoonSandboxPool))
| EUpdatePoolStatus (p : CocoonSandboxPool) : CocoonE (option gerror)
| EGetK8sNodeLabels (name : string) : CocoonE (result strmap)
| EGetSecret (ns name : string) : CocoonE (result Secret)
| ECreateSecret (s : Secret) : CocoonE (option gerror)
| EUpdateSecret (s : Secret) : CocoonE (option gerror)
| EDeleteSecret (ns name : string) : CocoonE (option gerror)
| EHttp (X : Type) (e : HttpE X) : CocoonE X.

Definition sandboxd {R} (p : prog HttpE R) : prog CocoonE R := translate EHttp p.

(** ** Pure helpers *)

Fixpoint firstNonEmpty (values : list string) : string :=
  match values with
  | [] => ""
  | v :: values =>
      let s := TrimSpace v in if bool_decide (s <> "") then s else firstNonEmpty values
  end.

(** [!obj.DeletionTimestamp.IsZero()]. *)
Definition isDeleting (m : ObjectMeta) : bool :=
  match mDeletionTimestamp m with Some t => negb (time_IsZero t) | None => false end.

Definition labelsMatch (labels selector : strmap) : bool :=
  forallb (fun kv => bool_decide (mget labels kv.1 = kv.2)) (map_to_list selector).

Definition effectiveNet (sb : option CocoonSandbox) (tmpl : CocoonSandboxTemplate) : string :=
  let own := match sb with Some sb => csNet (csSpec sb) | None => "" end in
  if bool_decide (own <> "") then own
  else if bool_decide (ctNet (ctSpec tmpl) <> "") then ctNet (ctSpec tmpl)
  else NetNone.

Definition effectiveSize (sb : option CocoonSandbox) (tmpl : CocoonSandboxTemplate) : string :=
  let own := match sb with Some sb => csSize (csSpec sb) | None => "" end in
  if bool_decide (own <> "") then own
  else if bool_decide (ctSize (ctSpec tmpl) <> "") then ctSize (ctSpec tmpl)
  else SizeSmall.

Definition effectiveTTLSeconds (sb : CocoonSandbox) : Z :=
  match csLifecycle (csSpec sb) with
  | Some l => if bool_decide (0 < clTTLSeconds l) then clTTLSeconds l else 0
  | None => 0
  end.

Definition poolMatches (template net size : string) (p : CocoonSandboxNodePoolStatus) : bool :=
  bool_decide (npTemplate p = template) && bool_decide (npNet p = net) && bool_decide (npSize p = size).

Fixpoint inferSource (pools : list CocoonSandboxNodePoolStatus) (template net size : string) : string :=
  match pools with
  | [] => SourceCold
  | p :: pools =>
      if poolMatches template net size p then
        if bool_decide (0 < npWarm p) then SourceWarmPool
        else if npGolden p then SourceGolden
        else inferSource pools template net size
      else inferSource pools template net size
  end.

Definition inferClaimSource (node : CocoonSandboxNode) (template net size : string) : string :=
  inferSource (nsPools (cnStatus node)) template net size.

Definition nodeAddress (n : CocoonSandboxNode) : string :=
  firstNonEmpty [nsAddress (cnStatus n); cnSpecAddress (cnSpec n)].

(** ["%.3f"] of a number of microseconds divided by 1000. *)
Definition formatMillis (us : Z) : string :=
  let frac := us mod 1000 in
  pretty (us / 1000) +:+ "." +:+ (if bool_decide (frac < 100) then "0" else "")
    +:+ (if bool_decide (frac < 10) then "0" else "") +:+ pretty frac.

Section controllers.
Context `{ConditionLib} `{OwnerLib} `{FinalizerLib}.
Context `{JSON ClaimRequest} `{JSON ClaimResponse} `{JSON NodeInfo} `{JSON (list PoolSpec)} `{JSON ErrorBody}.

Definition nodeScore (node : CocoonSandboxNode) (template net size : string) : Z :=
  let ready := if IsStatusConditionTrue (nsConditions (cnStatus node)) ConditionReady then 1000 else 0 in
  fold_left (fun score p =>
    if poolMatches template net size p
    then score + npWarm p * 10 + (if npGolden p then 5 else 0) else score) (nsPools (cnStatus node)) ready.

(** [meta.SetStatusCondition(&conditions, Ready ...)]. *)
Definition readyCondition (status reason message : string) (gen : Z) : Condition :=
  newCondition ConditionReady status reason message gen.

(** The function [secretValue] and the method of the same name. *)
Definition secretValue (namespace : string) (ref : option SecretKeySelector) :
    prog CocoonE (result string) :=
  match ref with
  | None => Ret (Ok "")
  | Some ref =>
      if bool_decide (skName ref = "") then Ret (Ok "")
      else
        let key := if bool_decide (skKey ref = "") then cocoonSandboxTokenKey else skKey ref in
        r <- call (EGetSecret namespace (skName ref));;
        match r with
        | Err e => Ret (Err e)
        | Ok secret => Ret (Ok (mget (secData secret) key))
        end
  end.

(** ** The CocoonSandbox controller *)

(** The last step of a deletion. *)
Definition removeFinalizer (sb : CocoonSandbox) : prog CocoonE (Result * option gerror) :=
  let sb := set_csFinalizers (RemoveFinalizer (csFinalizers sb) cocoonSandboxFinalizer) sb in
  e <- call (EUpdateSandbox sb);;
  Ret (noRequeue, Wrap "remove CocoonSandbox finalizer" <$> e).

(** The token Secret goes after the release, which needs it. *)
Definition deleteTokenSecret (sb : CocoonSandbox) : prog CocoonE (Result * option gerror) :=
  match csTokenSecretRef (csStatus sb) with
  | None => removeFinalizer sb
  | Some ref =>
      if bool_decide (skName ref = "") then removeFinalizer sb
      else
        e <- call (EDeleteSecret (mNamespace (csMeta sb)) (skName ref));;
        match IgnoreNotFound e with
        | Some e => Ret (requeueIn cocoonSandboxRequeue, Some (Wrap "delete sandbox token secret" e))
        | None => removeFinalizer sb
        end
  end.

Definition releaseWithToken (sb : CocoonSandbox) (token : string) : prog CocoonE (Result * option gerror) :=
  let st := csStatus sb in
  if bool_decide (csOwnerAddr st <> "") && bool_decide (csSandboxID st <> "") && bool_decide (token <> "") then
    e <- sandboxd (Release (csOwnerAddr st) (csSandboxID st) token);;
    match e with
    | Some e => Ret (requeueIn cocoonSandboxRequeue, Some e)
    | None => deleteTokenSecret sb
    end
  else deleteTokenSecret sb.

Definition reconcileDelete (sb : CocoonSandbox) : prog CocoonE (Result * option gerror) :=
  if negb (ContainsFinalizer (csFinalizers sb) cocoonSandboxFinalizer) then Ret (noRequeue, None)
  else
    r <- secretValue (mNamespace (csMeta sb)) (csTokenSecretRef (csStatus sb));;
    match r with
    | Err e =>
        if negb (IsNotFound e)
        then Ret (requeueIn cocoonSandboxRequeue, Some (Wrap "read sandbox token secret" e))
        else releaseWithToken sb ""
    | Ok token => releaseWithToken sb token
    end.

Definition nodeMatchesPlacement (sb : CocoonSandbox) (node : CocoonSandboxNode) :
    prog CocoonE (result bool) :=
  match csPlacement (csSpec sb) with
  | None => Ret (Ok true)
  | Some pl =>
      if bool_decide (plNodeSelector pl = ∅) then Ret (Ok true)
      else if labelsMatch (mLabels (cnMeta node)) (plNodeSelector pl) then Ret (Ok true)
      else if bool_decide (cnNodeName (cnSpec node) = "") then Ret (Ok false)
      else
        r <- call (EGetK8sNodeLabels (cnNodeName (cnSpec node)));;
        match r with
        | Err e => if IsNotFound e then Ret (Ok false) else Ret (Err (Wrap "get Kubernetes Node" e))
        | Ok labels => Ret (Ok (labelsMatch labels (plNodeSelector pl)))
        end
  end.

(** The loop of [selectNode] over the listed nodes. *)
Fixpoint matchingNodes (sb : CocoonSandbox) (items : list CocoonSandboxNode) :
    prog CocoonE (result (list CocoonSandboxNode)) :=
  match items with
  | [] => Ret (Ok [])
  | n :: items =>
      r <- nodeMatchesPlacement sb n;;
      match r with
      | Err e => Ret (Err e)
      | Ok ok =>
          r <- matchingNodes sb items;;
          match r with
          | Err e => Ret (Err e)
          | Ok ns => Ret (Ok (if ok && bool_decide (nodeAddress n <> "") then n :: ns else ns))
          end
      end
  end.

Definition betterNode (template net size : string) (a b : CocoonSandboxNode) : bool :=
  bool_decide (nodeScore b template net size < nodeScore a template net size).

Definition pinnedNode (sb : CocoonSandbox) : option string :=
  match csPlacement (csSpec sb) with
  | Some pl => if bool_decide (TrimSpace (plNodeName pl) <> "") then Some (plNodeName pl) else None
  | None => None
  end.

Definition selectNode (sb : CocoonSandbox) (tmpl : CocoonSandboxTemplate) :
    prog CocoonE (result CocoonSandboxNode) :=
  let ns := mNamespace (csMeta sb) in
  match pinnedNode sb with
  | Some name =>
      r <- call (EGetNode ns name);;
      match r with
      | Err e => Ret (Err (Wrap "get pinned CocoonSandboxNode" e))
      | Ok node =>
          r <- nodeMatchesPlacement sb node;;
          match r with
          | Err e => Ret (Err e)
          | Ok false => Ret (Err (Errorf "pinned CocoonSandboxNode does not match placement selector"))
          | Ok true => Ret (Ok node)
          end
      end
  | None =>
      r <- call (EListNodes ns);;
      match r with
      | Err e => Ret (Err (Wrap "list CocoonSandboxNodes" e))
      | Ok items =>
          if bool_decide (length items = O)
          then Ret (Err (Errorf "no CocoonSandboxNode resources in namespace"))
          else
            let net := effectiveNet (Some sb) tmpl in
            let size := effectiveSize (Some sb) tmpl in
            r <- matchingNodes sb items;;
            match r with
            | Err e => Ret (Err e)
            | Ok matches =>
                match SliceStable (betterNode (ctTemplate (ctSpec tmpl)) net size) matches with
                | [] => Ret (Err (Errorf "no CocoonSandboxNode matches placement selector"))
                | n :: _ => Ret (Ok n)
                end
            end
      end
  end.

Definition nodeAPIToken (node : CocoonSandboxNode) : prog CocoonE (result string) :=
  match cnAPITokenSecretRef (cnSpec node) with
  | None => Ret (Ok "")
  | Some ref =>
      r <- secretValue (mNamespace (cnMeta node)) (Some ref);;
      match r with
      | Err e => Ret (Err (Wrap "read CocoonSandboxNode API token secret" e))
      | Ok token => Ret (Ok token)
      end
  end.

Definition cocoonOwner (sb : CocoonSandbox) : Owner :=
  mkOwner "sandbox.cocoonstack.io/v1" "CocoonSandbox" (mName (csMeta sb)) (mUID (csMeta sb)).

Definition secretMeta (ns name : string) : ObjectMeta :=
  mkMeta name "" ns "" "" 0 0 None ∅ ∅ [].

Definition upsertTokenSecret (sb : CocoonSandbox) (name token : string) : prog CocoonE (option gerror) :=
  let ns := mNamespace (csMeta sb) in
  r <- call (EGetSecret ns name);;
  match r with
  | Err e =>
      if IsNotFound e then
        match SetControllerReference (cocoonOwner sb) (secretMeta ns name) with
        | Err e => Ret (Some (Wrap "set token Secret owner" e))
        | Ok m =>
            e <- call (ECreateSecret (mkSecret m "Opaque" {[ cocoonSandboxTokenKey := token ]}));;
            Ret (Wrap "create sandbox token secret" <$> e)
        end
      else Ret (Some (Wrap "get sandbox token secret" e))
  | Ok secret =>
      if bool_decide (mget (secData secret) cocoonSandboxTokenKey = token) then Ret None
      else
        match SetControllerReference (cocoonOwner sb) (secMeta secret) with
        | Err e => Ret (Some (Wrap "set token Secret owner" e))
        | Ok m =>
            e <- call (EUpdateSecret (mkSecret m (secType secret)
                        (<[cocoonSandboxTokenKey := token]> (secData secret))));;
            Ret (Wrap "update sandbox token secret" <$> e)
        end
  end.

Definition releaseFailedClaim (ownerAddr sandboxID token : string) (cause : gerror) :
    prog CocoonE gerror :=
  e <- sandboxd (Release ownerAddr sandboxID token);;
  Ret (match e with
       | Some e => Join cause (Wrap "release claimed sandbox after reconcile failure" e)
       | None => cause
       end).

Definition tokenSecretName (sb : CocoonSandbox) : string := mName (csMeta sb) +:+ "-cocoon-sandbox-token".

(** The status a delivered claim is recorded with. *)
Definition claimedStatus (sb : CocoonSandbox) (node : CocoonSandboxNode) (claim : ClaimResponse)
    (source ownerAddr : string) (elapsed now : Z) : CocoonSandboxStatus :=
  let st := csStatus sb in
  mkCSandboxStatus PhaseRunning source (rpID claim) (nodeName node) ownerAddr
    (if time_IsZero (rpDeadline claim) then csDeadline st else Some (rpDeadline claim))
    false (Some (mkSecretKey (tokenSecretName sb) cocoonSandboxTokenKey))
    (Some (mkCEndpoint ("http://" +:+ ownerAddr +:+ "/v1/sandboxes/" +:+ rpID claim +:+ "/agent")))
    (formatMillis (Z.quot elapsed 1000))
    (SetStatusCondition now (csConditions st)
       (readyCondition ConditionTrue "SandboxReady" "sandboxd claim is ready" (mGeneration (csMeta sb)))).

(** [claim] after the node was chosen: everything that follows the delivery. *)
Definition recordClaim (sb : CocoonSandbox) (node : CocoonSandboxNode) (source addr : string) (start : Z)
    (claim : ClaimResponse) (dialedAddr : string) : prog CocoonE (option gerror) :=
  if bool_decide (rpID claim = "") || bool_decide (rpToken claim = "")
  then Ret (Some (Errorf "sandboxd claim returned incomplete handle"))
  else
    let ownerAddr := firstNonEmpty [rpOwnerAddr claim; dialedAddr; addr] in
    e <- upsertTokenSecret sb (tokenSecretName sb) (rpToken claim);;
    match e with
    | Some e =>
        e <- releaseFailedClaim ownerAddr (rpID claim) (rpToken claim) (Wrap "upsert token Secret" e);;
        Ret (Some e)
    | None =>
        until <- call ENow;;
        now <- call ENow;;
        let next := set_csStatus (fun _ => claimedStatus sb node claim source ownerAddr
                                             (time_Sub until start) now) sb in
        e <- call (EUpdateSandboxStatus next);;
        match e with
        | Some e =>
            e <- releaseFailedClaim ownerAddr (rpID claim) (rpToken claim)
                   (Wrap "update CocoonSandbox status" e);;
            Ret (Some e)
        | None => Ret None
        end
    end.

Definition claim (sb : CocoonSandbox) : prog CocoonE (option gerror) :=
  let name := csTemplateRef (csSpec sb) in
  if bool_decide (TrimSpace name = "") then Ret (Some (Errorf "spec.templateRef.name is required"))
  else
    r <- call (EGetTemplate (mNamespace (csMeta sb)) name);;
    match r with
    | Err e => Ret (Some (Wrap "get CocoonSandboxTemplate" e))
    | Ok tmpl =>
        r <- selectNode sb tmpl;;
        match r with
        | Err e => Ret (Some e)
        | Ok node =>
            let addr := nodeAddress node in
            if bool_decide (addr = "") then Ret (Some (Errorf "CocoonSandboxNode has no address"))
            else
              r <- nodeAPIToken node;;
              match r with
              | Err e => Ret (Some e)
              | Ok apiToken =>
                  let net := effectiveNet (Some sb) tmpl in
                  let size := effectiveSize (Some sb) tmpl in
                  let template := ctTemplate (ctSpec tmpl) in
                  let source := inferClaimSource node template net size in
                  let claimReq := mkClaimRequest template net size (effectiveTTLSeconds sb) false in
                  start <- call ENow;;
                  r <- sandboxd (Claim addr apiToken claimReq);;
                  match r with
                  | Err e => Ret (Some e)
                  | Ok (claim, dialedAddr) => recordClaim sb node source addr start claim dialedAddr
                  end
              end
        end
    end.

Definition set_csReady (phase : string) (conds : list Condition) (st : CocoonSandboxStatus) :
    CocoonSandboxStatus :=
  mkCSandboxStatus phase (csSource st) (csSandboxID st) (csOwnerNode st) (csOwnerAddr st) (csDeadline st)
    (csHibernated st) (csTokenSecretRef st) (csEndpoint st) (csClaimLatencyMs st) conds.

Definition setSandboxReadyCondition (sb : CocoonSandbox) (status phase reason message : string) :
    prog CocoonE (option gerror) :=
  now <- call ENow;;
  let conds := SetStatusCondition now (csConditions (csStatus sb))
                 (readyCondition status reason message (mGeneration (csMeta sb))) in
  e <- call (EUpdateSandboxStatus (set_csStatus (set_csReady phase conds) sb));;
  Ret (Wrap "update CocoonSandbox status" <$> e).

Definition isClaimed (sb : CocoonSandbox) : bool :=
  bool_decide (csSandboxID (csStatus sb) <> "")
  && IsStatusConditionTrue (csConditions (csStatus sb)) ConditionReady.

Definition SandboxReconcile (ns name : string) : prog CocoonE (Result * option gerror) :=
  r <- call (EGetSandbox ns name);;
  match r with
  | Err e => Ret (noRequeue, IgnoreNotFound (Some e))
  | Ok sb =>
      if isDeleting (csMeta sb) then reconcileDelete sb
      else
        let '(fs, added) := AddFinalizer (csFinalizers sb) cocoonSandboxFinalizer in
        let sb := set_csFinalizers fs sb in
        if (added : bool) then
          e <- call (EUpdateSandbox sb);;
          match e with
          | Some e => Ret (noRequeue, Some (Wrap "add CocoonSandbox finalizer" e))
          | None => Ret (mkResult true 0, None)
          end
        else if isClaimed sb then Ret (noRequeue, None)
        else
          e <- claim sb;;
          match e with
          | None => Ret (noRequeue, None)
          | Some err =>
              e <- setSandboxReadyCondition sb ConditionFalse PhaseFailed "ClaimFailed" (Error_text err);;
              match e with
              | Some statusErr => Ret (noRequeue, Some statusErr)
              | None => Ret (requeueIn cocoonSandboxRequeue, Some err)
              end
          end
  end.

(** ** The node controller *)

Definition nodePoolStatus (p : PoolStatus) : CocoonSandboxNodePoolStatus :=
  mkCNodePool (Pool.Template (pstKey p)) (Pool.Net (pstKey p)) (Pool.Size (pstKey p))
    (int32 (pstWarm p)) (int32 (pstTarget p)) (int32 (pstRefilling p)) (pstGolden p).

Definition nextNodeStatus (node : CocoonSandboxNode) (info : option NodeInfo)
    (status reason message : string) (now : Z) : CocoonSandboxNodeStatus :=
  let st := cnStatus node in
  let conds := SetStatusCondition now (nsConditions st)
                 (readyCondition status reason message (mGeneration (cnMeta node))) in
  match info with
  | Some info =>
      mkCNodeStatus (cnSpecAddress (cnSpec node)) (nodePoolStatus <$> infPools info)
        (int32 (infClaimed info)) (int32 (infHibernated info)) (infPeers info) conds
  | None =>
      mkCNodeStatus (cnSpecAddress (cnSpec node)) (nsPools st) (nsClaimed st) (nsHibernated st)
        (nsPeers st) conds
  end.

(** The in-memory node is replaced too; its callers read only its name again. *)
Definition updateNodeStatus (node : CocoonSandboxNode) (info : option NodeInfo)
    (status reason message : string) : prog CocoonE (option gerror) :=
  now <- call ENow;;
  let next := nextNodeStatus node info status reason message now in
  if bool_decide (cnStatus node = next) then Ret None
  else
    e <- call (EUpdateNodeStatus (mkCNode (cnMeta node) (cnSpec node) next));;
    Ret (Wrap "update CocoonSandboxNode status" <$> e).

Definition ignoreStatusConflict (e : option gerror) : option gerror :=
  match e with
  | Some e => if IsConflict e then None else Some e
  | None => None
  end.

Definition NodeReconcile (ns name : string) : prog CocoonE (Result * option gerror) :=
  r <- call (EGetNode ns name);;
  match r with
  | Err e => Ret (noRequeue, IgnoreNotFound (Some e))
  | Ok node =>
      r <- match cnAPITokenSecretRef (cnSpec node) with
           | Some ref => secretValue (mNamespace (cnMeta node)) (Some ref)
           | None => Ret (Ok "")
           end;;
      match r with
      | Err err =>
          e <- updateNodeStatus node None ConditionFalse "APITokenSecretError" (Error_text err);;
          match e with
          | Some statusErr => Ret (noRequeue, Some statusErr)
          | None => Ret (requeueIn cocoonNodeRequeue, Some err)
          end
      | Ok token =>
          r <- sandboxd (Info (cnSpecAddress (cnSpec node)) token);;
          match r with
          | Err err =>
              e <- updateNodeStatus node None ConditionFalse "InfoFailed" (Error_text err);;
              match ignoreStatusConflict e with
              | Some statusErr => Ret (noRequeue, Some statusErr)
              | None => Ret (requeueIn cocoonNodeRequeue, Some err)
              end
          | Ok info =>
              e <- updateNodeStatus node (Some info) ConditionTrue "SandboxdReady" "sandboxd info is available";;
              match ignoreStatusConflict e with
              | Some e => Ret (noRequeue, Some e)
              | None => Ret (requeueIn cocoonNodeRequeue, None)
              end
          end
      end
  end.

(** ** The pool controller *)

Record desiredPool := mkDesired {
  dObj : CocoonSandboxPool;
  dTemplate : string;
  dNet : string;
  dSize : string;
  dTargets : gmap string Z;
}.

Definition nameLess (a b : CocoonSandboxNode) : bool := bool_decide (strict String.le (nodeName a) (nodeName b)).

Definition schedulableSandboxNodes (items : list CocoonSandboxNode) : list CocoonSandboxNode :=
  SliceStable nameLess
    (filter (fun n => isDeleting (cnMeta n) = false /\ nodeAddress n <> "") items).

Fixpoint assignTargets (base remainder i : Z) (nodes : list CocoonSandboxNode) (targets : gmap string Z) :
    gmap string Z :=
  match nodes with
  | [] => targets
  | n :: nodes =>
      let target := if bool_decide (i < remainder) then base + 1 else base in
      assignTargets base remainder (i + 1) nodes (<[nodeName n := target]> targets)
  end.

Definition distributeWarmTargets (replicas : Z) (nodes : list CocoonSandboxNode) : gmap string Z :=
  match nodes with
  | [] => ∅
  | _ =>
      let total := if bool_decide (replicas < 0) then 0 else replicas in
      let len := Z.of_nat (length nodes) in
      assignTargets (Z.quot total len) (Z.rem total len) 0 nodes ∅
  end.

Definition targetOn (targets : gmap string Z) (node : string) : Z := default 0 (targets !! node).

Fixpoint findPool (pools : list PoolStatus) (template net size : string) : option PoolStatus :=
  match pools with
  | [] => None
  | p :: pools =>
      if bool_decide (pstKey p = Pool.mkPoolKey template net size) then Some p
      else findPool pools template net size
  end.

(** The warm count and target a node reported, or none and the expected target. *)
Definition observedPoolOnNode (template net size node : string) (expectedTarget : Z)
    (infos : gmap string NodeInfo) : Z * Z :=
  match infos !! node with
  | None => (0, expectedTarget)
  | Some info =>
      match findPool (infPools info) template net size with
      | Some p => (pstWarm p, pstTarget p)
      | None => (0, expectedTarget)
      end
  end.

Definition firstNodeError (nodeErrors : gmap string string) : string * string :=
  match sort_strings ((map_to_list nodeErrors).*1) with
  | [] => ("", "")
  | n :: _ => (n, mget nodeErrors n)
  end.

Definition poolReady (d : desiredPool) (nodes : list CocoonSandboxNode) (infos : gmap string NodeInfo) : Z :=
  sum_over (fun n => (observedPoolOnNode (dTemplate d) (dNet d) (dSize d) (nodeName n)
                        (targetOn (dTargets d) (nodeName n)) infos).1) nodes.

Definition poolReadyCondition (d : desiredPool) (nodes : list CocoonSandboxNode)
    (nodeErrors : gmap string string) (infos : gmap string NodeInfo) : string * string * string :=
  let replicas := cpReplicas (cpSpec (dObj d)) in
  if bool_decide (length nodes = O) then
    (ConditionFalse, "NoNodes", "no CocoonSandboxNode has a sandboxd address")
  else if bool_decide (nodeErrors <> ∅) then
    let '(node, msg) := firstNodeError nodeErrors in
    (ConditionFalse, "SyncFailed", "sync to CocoonSandboxNode " +:+ node +:+ " failed: " +:+ msg)
  else
    let ready := poolReady d nodes infos in
    let count := " (" +:+ pretty ready +:+ "/" +:+ pretty replicas +:+ ")" in
    if bool_decide (replicas <= int32 ready)
    then (ConditionTrue, "PoolReady", "warm pool ready" +:+ count)
    else (ConditionFalse, "Refilling", "warm pool refilling" +:+ count).

Definition warmOn (template net size : string) (targets : gmap string Z) (infos : gmap string NodeInfo)
    (node : string) : CocoonSandboxPoolNodeStatus :=
  let '(warm, target) := observedPoolOnNode template net size node (targetOn targets node) infos in
  mkCPoolNode node (int32 warm) (int32 target).

(** [int32] addition, once per node. *)
Definition addReady (acc : Z) (n : CocoonSandboxPoolNodeStatus) : Z := int32 (acc + cpnWarm n).

(** [targets] is nil for an invalid pool. *)
Definition nextPoolStatus (p : CocoonSandboxPool) (template net size : string)
    (targets : option (gmap string Z)) (infos : gmap string NodeInfo)
    (status reason message : string) (now : Z) : CocoonSandboxPoolStatus :=
  let warmByNode := match targets with
    | Some ts => warmOn template net size ts infos <$> sort_strings ((map_to_list ts).*1)
    | None => []
    end in
  mkCPoolStatus (cpReplicas (cpSpec p)) (fold_left addReady warmByNode 0) warmByNode
    (SetStatusCondition now (cpsConditions (cpStatus p))
       (readyCondition status reason message (mGeneration (cpMeta p)))).

Definition updatePoolStatus (p : CocoonSandboxPool) (template net size : string)
    (targets : option (gmap string Z)) (infos : gmap string NodeInfo)
    (status reason message : string) : prog CocoonE (option gerror) :=
  now <- call ENow;;
  let next := nextPoolStatus p template net size targets infos status reason message now in
  if bool_decide (cpStatus p = next) then Ret None
  else
    e <- call (EUpdatePoolStatus (mkCPool (cpMeta p) (cpSpec p) next));;
    Ret (Wrap "update CocoonSandboxPool status" <$> e).

(** The pools whose template resolves, and why the others do not. *)
Fixpoint resolvePools (pools : list CocoonSandboxPool) (nodes : list CocoonSandboxNode)
    (invalid : gmap string string) : prog CocoonE (list desiredPool * gmap string string) :=
  match pools with
  | [] => Ret ([], invalid)
  | p :: pools =>
      let tmplName := TrimSpace (cpTemplateRef (cpSpec p)) in
      let name := mName (cpMeta p) in
      if bool_decide (tmplName = "")
      then resolvePools pools nodes (<[name := "spec.templateRef.name is required"]> invalid)
      else
        r <- call (EGetTemplate (mNamespace (cpMeta p)) tmplName);;
        match r with
        | Err e =>
            resolvePools pools nodes
              (<[name := "get CocoonSandboxTemplate " +:+ mNamespace (cpMeta p) +:+ "/" +:+ tmplName
                         +:+ ": " +:+ Error_text e]> invalid)
        | Ok tmpl =>
            let! (desired, invalid) := resolvePools pools nodes invalid in
            Ret (mkDesired p (ctTemplate (ctSpec tmpl)) (effectiveNet None tmpl) (effectiveSize None tmpl)
                   (distributeWarmTargets (cpReplicas (cpSpec p)) nodes) :: desired, invalid)
        end
  end.

Definition specOn (node : string) (d : desiredPool) : PoolSpec :=
  mkPoolSpec (dTemplate d) (dNet d) (dSize d) (targetOn (dTargets d) node).

Definition desiredOn (desired : list desiredPool) (node : string) : list PoolSpec := specOn node <$> desired.

Definition syncError (e : option gerror) (k : prog CocoonE (result (gmap string NodeInfo * gmap string string))) :=
  match ignoreStatusConflict e with
  | Some statusErr => Ret (Err statusErr)
  | None => k
  end.

(** The loop over the nodes: what each reported, and what failed. *)
Fixpoint syncNodes (nodes : list CocoonSandboxNode) (desired : list desiredPool)
    (infos : gmap string NodeInfo) (errs : gmap string string) :
    prog CocoonE (result (gmap string NodeInfo * gmap string string)) :=
  match nodes with
  | [] => Ret (Ok (infos, errs))
  | node :: nodes =>
      let addr := nodeAddress node in
      let name := nodeName node in
      if bool_decide (addr = "")
      then syncNodes nodes desired infos (<[name := "sandboxd address is required"]> errs)
      else
        r <- secretValue (mNamespace (cnMeta node)) (cnAPITokenSecretRef (cnSpec node));;
        match r with
        | Err err =>
            let msg := "read CocoonSandboxNode API token secret: " +:+ Error_text err in
            e <- updateNodeStatus node None ConditionFalse "APITokenSecretError" msg;;
            syncError e (syncNodes nodes desired infos (<[name := msg]> errs))
        | Ok token =>
            r <- sandboxd (SetPools addr token (desiredOn desired name));;
            match r with
            | Err err =>
                e <- updateNodeStatus node None ConditionFalse "PoolSyncFailed" (Error_text err);;
                syncError e (syncNodes nodes desired infos (<[name := Error_text err]> errs))
            | Ok info =>
                e <- updateNodeStatus node (Some info) ConditionTrue "SandboxdReady"
                       "sandboxd pools are synchronized";;
                syncError e (syncNodes nodes desired (<[name := info]> infos) errs)
            end
        end
  end.

Fixpoint markInvalid (pools : list CocoonSandboxPool) (invalid : gmap string string) :
    prog CocoonE (option gerror) :=
  match pools with
  | [] => Ret None
  | p :: pools =>
      let msg := mget invalid (mName (cpMeta p)) in
      if bool_decide (msg = "") then markInvalid pools invalid
      else
        e <- updatePoolStatus p "" "" "" None ∅ ConditionFalse "TemplateInvalid" msg;;
        match ignoreStatusConflict e with
        | Some e => Ret (Some e)
        | None => markInvalid pools invalid
        end
  end.

Fixpoint writePoolStatuses (desired : list desiredPool) (nodes : list CocoonSandboxNode)
    (infos : gmap string NodeInfo) (errs : gmap string string) : prog CocoonE (option gerror) :=
  match desired with
  | [] => Ret None
  | d :: desired =>
      let '(status, reason, message) := poolReadyCondition d nodes errs infos in
      e <- updatePoolStatus (dObj d) (dTemplate d) (dNet d) (dSize d) (Some (dTargets d)) infos
             status reason message;;
      match ignoreStatusConflict e with
      | Some e => Ret (Some e)
      | None => writePoolStatuses desired nodes infos errs
      end
  end.

Definition syncPoolNamespace (namespace : string) : prog CocoonE (option gerror) :=
  r <- call (EListPools namespace);;
  match r with
  | Err e => Ret (Some (Wrap "list CocoonSandboxPools" e))
  | Ok pools =>
      r <- call (EListNodes namespace);;
      match r with
      | Err e => Ret (Some (Wrap "list CocoonSandboxNodes" e))
      | Ok items =>
          let nodes := schedulableSandboxNodes items in
          let! (desired, invalid) := resolvePools pools nodes ∅ in
          r <- syncNodes nodes desired ∅ ∅;;
          match r with
          | Err e => Ret (Some e)
          | Ok (infos, errs) =>
              e <- markInvalid pools invalid;;
              match e with
              | Some e => Ret (Some e)
              | None => writePoolStatuses desired nodes infos errs
              end
          end
      end
  end.

Definition PoolReconcile (namespace : string) : prog CocoonE (Result * option gerror) :=
  e <- syncPoolNamespace namespace;;
  match e with
  | Some e => Ret (noRequeue, Some e)
  | None => Ret (requeueIn cocoonPoolRequeue, None)
  end.

Definition poolNameLess (a b : CocoonSandboxPool) : bool :=
  bool_decide (strict String.le (mName (cpMeta a)) (mName (cpMeta b))).

Definition enqueuePoolsForNode (namespace : string) : prog CocoonE (list (string * string)) :=
  r <- call (EListPools namespace);;
  match r with
  | Err _ => Ret []
  | Ok pools => Ret ((fun p => (mNamespace (cpMeta p), mName (cpMeta p))) <$> SliceStable poolNameLess pools)
  end.
End controllers.
End Cocoon.
