(* ===== verification/CocoonPoolFacts.v ===== *)
(** * CocoonPoolFacts: the pool controller of the Cocoon API.

    Every reachable node is sent exactly its share of every pool whose template
    resolves, the shares of a pool add up to its replicas, and the status
    written agrees with the counts the nodes reported, at 32 bits. *)

From S2P Require Import Prelude GoStrings K8s PoolKey CocoonTypes CocoonClient CocoonModel CocoonFacts.

Module CocoonPoolFacts.
Import Pool CocoonClient Cocoon.
#[local] Open Scope prog_scope.

(** ** Shares *)

Definition shareOf (targets : gmap string Z) (n : CocoonSandboxNode) : Z := targetOn targets (nodeName n).

Lemma assignTargets_other base remainder i nodes targets k :
  k ∉ nodeName <$> nodes -> assignTargets base remainder i nodes targets !! k = targets !! k.
Proof.
  revert i targets. induction nodes as [|n nodes IH]; intros i targets Hk; [done|].
  cbn [assignTargets]. rewrite fmap_cons, not_elem_of_cons in Hk. destruct Hk.
  rewrite IH by done. by rewrite lookup_insert_ne.
Qed.

(** The share of the node at position [j]. *)
Lemma assignTargets_lookup base remainder i nodes targets j n :
  NoDup (nodeName <$> nodes) -> nodes !! j = Some n ->
  assignTargets base remainder i nodes targets !! nodeName n =
  Some (if bool_decide (i + Z.of_nat j < remainder) then base + 1 else base).
Proof.
  revert i targets j. induction nodes as [|m nodes IH]; intros i targets j Hd Hj; [done|].
  rewrite fmap_cons in Hd. apply NoDup_cons in Hd as [Hm Hd]. cbn [assignTargets]. destruct j as [|j].
  - simplify_eq/=. rewrite assignTargets_other by done. by rewrite lookup_insert_eq, Z.add_0_r.
  - simpl in Hj. rewrite (IH (i + 1) _ j Hd Hj).
    by replace (i + 1 + Z.of_nat j) with (i + Z.of_nat (S j)) by lia.
Qed.

Lemma assignTargets_sum base remainder i nodes targets :
  NoDup (nodeName <$> nodes) ->
  sum_over (shareOf (assignTargets base remainder i nodes targets)) nodes =
  base * Z.of_nat (length nodes) + Z.max 0 (Z.min (Z.of_nat (length nodes)) (remainder - i)).
Proof.
  revert i targets. induction nodes as [|n nodes IH]; intros i targets Hd; [simpl; lia|].
  rewrite fmap_cons in Hd. apply NoDup_cons in Hd as [Hn Hd]. cbn [assignTargets].
  change (sum_over ?f (n :: nodes)) with (f n + sum_over f nodes). rewrite (IH (i + 1)) by done.
  unfold shareOf, targetOn. rewrite assignTargets_other by done. rewrite lookup_insert_eq.
  cbn [default length id]. rewrite Nat2Z.inj_succ, Z.mul_succ_r. unfold id. case_bool_decide; lia.
Qed.

Lemma distributeWarmTargets_sum replicas nodes :
  nodes <> [] -> NoDup (nodeName <$> nodes) ->
  sum_over (shareOf (distributeWarmTargets replicas nodes)) nodes = Z.max 0 replicas.
Proof.
  intros Hne Hd. unfold distributeWarmTargets. destruct nodes as [|n nodes]; [done|]. clear Hne.
  set (ns := n :: nodes) in *. set (total := if bool_decide _ then _ else _).
  assert (total = Z.max 0 replicas) as Ht by (unfold total; case_bool_decide; lia).
  rewrite assignTargets_sum by done. assert (0 < Z.of_nat (length ns)) by (simpl; lia).
  pose proof (Z.quot_rem' total (Z.of_nat (length ns))).
  pose proof (Z.rem_bound_pos total (Z.of_nat (length ns))). lia.
Qed.

(** The targets name exactly the nodes. *)
Lemma assignTargets_keys base remainder i nodes targets k :
  is_Some (assignTargets base remainder i nodes targets !! k) <->
  k ∈ nodeName <$> nodes \/ is_Some (targets !! k).
Proof.
  revert i targets. induction nodes as [|n nodes IH]; intros i targets; cbn [assignTargets fmap list_fmap].
  - rewrite elem_of_nil. tauto.
  - rewrite IH, elem_of_cons. destruct (decide (k = nodeName n)) as [->|Hk].
    + rewrite lookup_insert_eq. split; [by left; left|]. intros _. right. by eexists.
    + rewrite lookup_insert_ne by done. tauto.
Qed.

Lemma distributeWarmTargets_keys replicas nodes :
  NoDup (nodeName <$> nodes) -> (map_to_list (distributeWarmTargets replicas nodes)).*1 ≡ₚ nodeName <$> nodes.
Proof.
  intros Hd. apply NoDup_Permutation; [apply NoDup_fst_map_to_list|done|]. intros k.
  assert (k ∈ (map_to_list (distributeWarmTargets replicas nodes)).*1 <->
          is_Some (distributeWarmTargets replicas nodes !! k)) as ->.
  { rewrite list_elem_of_fmap. split.
    - intros ([k' v] & -> & Hin). apply elem_of_map_to_list in Hin. by eexists.
    - intros [v Hv]. exists (k, v). split; [done|]. by apply elem_of_map_to_list. }
  unfold distributeWarmTargets. destruct nodes as [|n nodes].
  - rewrite lookup_empty, elem_of_nil. by split; [intros []|].
  - rewrite assignTargets_keys, lookup_empty. split; [intros [?|[]]; done|by left].
Qed.

Lemma distributeWarmTargets_even replicas nodes n m :
  NoDup (nodeName <$> nodes) -> n ∈ nodes -> m ∈ nodes ->
  Z.abs (shareOf (distributeWarmTargets replicas nodes) n - shareOf (distributeWarmTargets replicas nodes) m) <= 1.
Proof.
  intros Hd [i Hi]%list_elem_of_lookup [j Hj]%list_elem_of_lookup.
  unfold distributeWarmTargets. destruct nodes as [|x nodes]; [done|]. unfold shareOf, targetOn.
  rewrite (assignTargets_lookup _ _ _ _ _ i n), (assignTargets_lookup _ _ _ _ _ j m) by done. simpl.
  repeat case_bool_decide; lia.
Qed.

(** ** The status agrees with the reports *)

Lemma addReady_fold l acc :
  fold_left addReady l (int32 acc) = int32 (acc + sum_over cpnWarm l).
Proof.
  revert acc. induction l as [|n l IH]; intros acc; [simpl; by rewrite Z.add_0_r|].
  cbn [fold_left]. unfold addReady at 2. rewrite int32_add_l, IH.
  rewrite sum_over_cons. f_equal. lia.
Qed.

Section status.
Context `{ConditionLib}.

Definition warmSeen (d : desiredPool) (infos : gmap string NodeInfo) (node : string) : Z :=
  (observedPoolOnNode (dTemplate d) (dNet d) (dSize d) node (targetOn (dTargets d) node) infos).1.

Definition statusOf (d : desiredPool) (infos : gmap string NodeInfo) (cond : string * string * string)
    (now : Z) : CocoonSandboxPoolStatus :=
  nextPoolStatus (dObj d) (dTemplate d) (dNet d) (dSize d) (Some (dTargets d)) infos
    cond.1.1 cond.1.2 cond.2 now.

Lemma statusOf_ready d infos cond now nodes :
  NoDup (nodeName <$> nodes) ->
  dTargets d = distributeWarmTargets (cpReplicas (cpSpec (dObj d))) nodes ->
  cpsReadyReplicas (statusOf d infos cond now) = int32 (poolReady d nodes infos).
Proof.
  intros Hd Ht. unfold statusOf, nextPoolStatus. cbn [cpsReadyReplicas].
  change 0 with (int32 0). rewrite addReady_fold, Z.add_0_l, sum_over_fmap.
  rewrite (sum_over_ext _ (fun k => int32 (warmSeen d infos k))).
  2: { intros k _. unfold warmOn, warmSeen. by destruct (observedPoolOnNode _ _ _ _ _ _). }
  rewrite int32_sum, (sum_over_perm _ _ _ (sort_strings_perm _)), Ht.
  rewrite (sum_over_perm _ _ _ (distributeWarmTargets_keys _ nodes Hd)), sum_over_fmap. done.
Qed.

(** C35.  The status written for a pool agrees with itself and with what the nodes
    reported, at 32 bits and whatever they reported: ReadyReplicas is the
    wrapped sum of the nodes' warm counts, one entry per schedulable node; and
    Ready is True exactly if there is a node, every node was synchronized, and
    the ReadyReplicas of this very status reach the requested replicas. *)
Theorem pool_status_consistent d nodes errs infos now :
  NoDup (nodeName <$> nodes) ->
  dTargets d = distributeWarmTargets (cpReplicas (cpSpec (dObj d))) nodes ->
  let cond := poolReadyCondition d nodes errs infos in
  let st := statusOf d infos cond now in
  cpsReadyReplicas st = int32 (sum_over (fun n => warmSeen d infos (nodeName n)) nodes) /\
  cpnNodeName <$> cpsWarmByNode st ≡ₚ nodeName <$> nodes /\
  (cond.1.1 = ConditionTrue <-> nodes <> [] /\ errs = ∅ /\ cpReplicas (cpSpec (dObj d)) <= cpsReadyReplicas st).
Proof.
  intros Hd Ht cond st. split_and!.
  - unfold st. by rewrite (statusOf_ready _ _ _ _ nodes).
  - unfold st, statusOf, nextPoolStatus. cbn [cpsWarmByNode]. rewrite <-list_fmap_compose, Ht.
    transitivity (sort_strings (map_to_list (distributeWarmTargets (cpReplicas (cpSpec (dObj d))) nodes)).*1).
    + apply reflexive_eq. rewrite <-(list_fmap_id (sort_strings _)) at 2. apply list_fmap_ext.
      intros i k _. cbn. unfold warmOn. by destruct (observedPoolOnNode _ _ _ _ _ _).
    + by rewrite sort_strings_perm, distributeWarmTargets_keys.
  - unfold st. rewrite (statusOf_ready _ _ _ _ nodes) by done. unfold cond, poolReadyCondition.
    destruct nodes as [|n nodes]; [by split; [|intros []]|]. cbn [length]. rewrite bool_decide_false by done.
    destruct (decide (errs = ∅)) as [->|He].
    + rewrite bool_decide_false by tauto. case_bool_decide; cbn; split; try done. by intros (_ & _ & ?).
    + rewrite bool_decide_true by done. destruct (firstNodeError errs). cbn. by split; [|intros (_ & ? & _)].
Qed.
End status.

(** ** What the nodes are sent *)

Section push.
Context `{ConditionLib}.
Context `{JSON ClaimRequest} `{JSON ClaimResponse} `{JSON NodeInfo} `{JSON (list PoolSpec)} `{JSON ErrorBody}.

(** What the API holds during one synchronization. *)
Context (pools : list CocoonSandboxPool) (items : list CocoonSandboxNode)
  (templateAt : string -> string -> result CocoonSandboxTemplate)
  (secretAt : string -> string -> result Secret).

Definition world (X : Type) (e : CocoonE X) : X -> Prop :=
  match e in CocoonE X return X -> Prop with
  | EListPools _ => fun x => x = Ok pools
  | EListNodes _ => fun x => x = Ok items
  | EGetTemplate ns name => fun x => x = templateAt ns name
  | EGetSecret ns name => fun x => x = secretAt ns name
  | _ => fun _ => True
  end.

(** The URL, body and credential of every PUT. *)
Definition put_http (X : Type) (e : HttpE X) : X -> option (string * option string * string) :=
  match e in HttpE X return X -> option (string * option string * string) with
  | HDo rq => fun _ =>
      if bool_decide (rqMethod rq = "PUT") then Some (rqURL rq, rqBody rq, rqBearer rq) else None
  end.

Definition cput (X : Type) (e : CocoonE X) : X -> option (string * option string * string) :=
  match e in CocoonE X return X -> option (string * option string * string) with
  | EHttp X he => fun x => put_http X he x
  | _ => fun _ => None
  end.

Definition puts := witnessed cput.

(** A pool as the nodes should see it, if its template resolves. *)
Definition desiredFor (nodes : list CocoonSandboxNode) (p : CocoonSandboxPool) : option desiredPool :=
  let name := TrimSpace (cpTemplateRef (cpSpec p)) in
  if bool_decide (name = "") then None
  else match templateAt (mNamespace (cpMeta p)) name with
       | Ok tmpl => Some (mkDesired p (ctTemplate (ctSpec tmpl)) (effectiveNet None tmpl)
                            (effectiveSize None tmpl) (distributeWarmTargets (cpReplicas (cpSpec p)) nodes))
       | Err _ => None
       end.

Definition tokenFor (n : CocoonSandboxNode) : option string :=
  match cnAPITokenSecretRef (cnSpec n) with
  | None => Some ""
  | Some ref =>
      if bool_decide (skName ref = "") then Some ""
      else match secretAt (mNamespace (cnMeta n)) (skName ref) with
           | Ok s => Some (mget (secData s) (if bool_decide (skKey ref = "") then cocoonSandboxTokenKey else skKey ref))
           | Err _ => None
           end
  end.

Definition encoded (l : list PoolSpec) : option string :=
  match Marshal l with Ok b => Some b | Err _ => None end.

(** The one request a node should get: the share of every resolved pool. *)
Definition requestTo (desired : list desiredPool) (n : CocoonSandboxNode) :
    list (string * option string * string) :=
  match tokenFor n with
  | Some tok => [("http://" +:+ nodeAddress n +:+ "/v1/pools", encoded (desiredOn desired (nodeName n)), tok)]
  | None => []
  end.

Lemma resolvePools_hist nodes ps invalid h :
  history world (fun r h' => r.1 = omap (desiredFor nodes) ps /\ puts h' = puts h) (resolvePools ps nodes invalid) h.
Proof.
  revert invalid h. induction ps as [|p ps IH]; intros invalid h; [done|]. cbn [resolvePools omap list_omap].
  unfold desiredFor at 1. destruct (bool_decide _); [apply IH|]. intros x ->. cbn [bind].
  assert (forall ns name x, puts (h ++ [Ev (EGetTemplate ns name) x]) = puts h) as Hp.
  { intros. unfold puts. rewrite witnessed_app. apply app_nil_r. }
  destruct (templateAt _ _) as [tmpl|e].
  - eapply history_bind; [apply IH|]. intros [desired inv] h' [Hd Hh]. cbn in Hd. subst desired.
    split; [done|]. by rewrite Hh, Hp.
  - eapply history_mono; [|apply IH]. intros r h' [Hd Hh]. split; [done|]. by rewrite Hh, Hp.
Qed.

Lemma firstNonEmpty_trim vs : TrimSpace (firstNonEmpty vs) = firstNonEmpty vs.
Proof.
  induction vs as [|v vs IH]; [done|]. cbn [firstNonEmpty]. destruct (bool_decide _); [apply TrimSpace_idemp|done].
Qed.

Lemma secretValue_hist n h :
  history world (fun r h' => puts h' = puts h /\
      tokenFor n = match r with Ok tok => Some tok | Err _ => None end)
    (secretValue (mNamespace (cnMeta n)) (cnAPITokenSecretRef (cnSpec n))) h.
Proof.
  unfold secretValue, tokenFor. destruct (cnAPITokenSecretRef (cnSpec n)) as [ref|]; [|done].
  destruct (bool_decide (skName ref = "")); [done|]. intros x ->. cbn [bind].
  destruct (secretAt _ _); cbn; (split; [|done]); unfold puts; rewrite witnessed_app; apply app_nil_r.
Qed.

Hypothesis Marshal_total : forall l : list PoolSpec, exists body, Marshal l = Ok body.

Lemma SetPools_hist n tok specs h :
  nodeAddress n <> "" ->
  history world (fun _ h' => puts h' = puts h ++ [("http://" +:+ nodeAddress n +:+ "/v1/pools", encoded specs, tok)])
    (sandboxd (SetPools (nodeAddress n) tok specs)) h.
Proof.
  intros Hne. unfold SetPools, roundTrip, encoded. destruct (Marshal_total specs) as [body Hb]. rewrite Hb.
  unfold nodeAddress in *. rewrite firstNonEmpty_trim, bool_decide_false by done. intros x _.
  match goal with |- context [h ++ [?ev]] => assert (puts (h ++ [ev]) = puts h ++ [("http://" +:+ nodeAddress n +:+ "/v1/pools", Some body, tok)]) as Hp end.
  { unfold puts. by rewrite witnessed_app. }
  destruct x as [rs|e]; [|exact Hp]. cbn [bind]. destruct (bool_decide _); [exact Hp|].
  destruct (Unmarshal _); exact Hp.
Qed.

Lemma updateNodeStatus_hist n info status reason msg h :
  history world (fun _ h' => puts h' = puts h) (updateNodeStatus n info status reason msg) h.
Proof. apply (calls_unseen cput). unfold updateNodeStatus. solve_calls; done. Qed.

(** The loop sends the expected requests in node order, all of them unless a
    status write fails. *)
Definition sends (desired : list desiredPool) (nodes : list CocoonSandboxNode) (h : list (event CocoonE))
    {A} (r : result A) (h' : list (event CocoonE)) : Prop :=
  exists k, puts h' = puts h ++ take k (nodes ≫= requestTo desired) /\
            (isOk r = true -> take k (nodes ≫= requestTo desired) = nodes ≫= requestTo desired).

Lemma syncError_hist desired n nodes h h' e k :
  puts h' = puts h ++ requestTo desired n ->
  history world (sends desired nodes h') k h' ->
  history world (sends desired (n :: nodes) h) (syncError e k) h'.
Proof.
  intros Hp Hk. unfold syncError. destruct (ignoreStatusConflict e).
  - exists (length (requestTo desired n)). split; [|done].
    change ((n :: nodes) ≫= requestTo desired) with (requestTo desired n ++ (nodes ≫= requestTo desired)).
    by rewrite take_app_length.
  - eapply history_mono; [|exact Hk]. intros r h'' (j & Hj & Hok). exists (length (requestTo desired n) + j)%nat.
    change ((n :: nodes) ≫= requestTo desired) with (requestTo desired n ++ (nodes ≫= requestTo desired)).
    rewrite take_app_add. split; [by rewrite Hj, Hp, app_assoc|]. intros Hr. by rewrite Hok.
Qed.

Lemma syncNodes_hist desired nodes infos errs h :
  Forall (fun n => nodeAddress n <> "") nodes ->
  history world (sends desired nodes h) (syncNodes nodes desired infos errs) h.
Proof.
  revert infos errs h. induction nodes as [|n nodes IH]; intros infos errs h Hn.
  { exists O. split; [by rewrite app_nil_r|done]. }
  apply Forall_cons in Hn as [Hn Hns]. cbn [syncNodes]. rewrite bool_decide_false by done.
  eapply history_bind; [apply secretValue_hist|]. intros r h1 [Hp1 Htok]. destruct r as [tok|err].
  - eapply history_bind; [by apply SetPools_hist|]. intros r h2 Hp2. cbn beta in Hp2.
    assert (puts h2 = puts h ++ requestTo desired n) as Hp.
    { unfold requestTo. rewrite Htok, Hp2. by rewrite Hp1. }
    destruct r as [info|err]; (eapply history_bind; [apply updateNodeStatus_hist|]); intros e h3 Hp3;
      (apply syncError_hist; [congruence|by apply IH]).
  - eapply history_bind; [apply updateNodeStatus_hist|]. intros e h2 Hp2.
    apply syncError_hist; [|by apply IH]. unfold requestTo. rewrite Htok, app_nil_r. congruence.
Qed.

Lemma schedulable_elem n : n ∈ schedulableSandboxNodes items <->
  n ∈ items /\ isDeleting (cnMeta n) = false /\ nodeAddress n <> "".
Proof. unfold schedulableSandboxNodes. rewrite SliceStable_perm, list_elem_of_filter. tauto. Qed.

Lemma schedulable_names : NoDup (nodeName <$> items) -> NoDup (nodeName <$> schedulableSandboxNodes items).
Proof.
  intros Hd. unfold schedulableSandboxNodes. rewrite SliceStable_perm.
  eapply sublist_NoDup; [exact Hd|]. apply fmap_sublist, sublist_filter.
Qed.

Lemma statuses_hist desired nodes infos errs invalid ps h :
  history world (fun _ h' => puts h' = puts h)
    (e <- markInvalid ps invalid;;
     match e with Some e => Ret (Some e) | None => writePoolStatuses desired nodes infos errs end) h.
Proof.
  apply (calls_unseen cput). apply calls_bind.
  - induction ps as [|p ps IH]; cbn [markInvalid]; [apply calls_ret|].
    unfold updatePoolStatus. solve_calls; done.
  - intros [e|]; [apply calls_ret|]. induction desired as [|d desired IH]; cbn [writePoolStatuses]; [apply calls_ret|].
    destruct (poolReadyCondition _ _ _ _) as [[status reason] message]. unfold updatePoolStatus. solve_calls; done.
Qed.

(** C23.  One synchronization sends every schedulable node (with a readable token)
    exactly one request, in name order, whose body is the node's share of every
    pool whose template resolves: all of them if it succeeds, a prefix if a
    status write fails.  And a pool's shares add up to its replicas (a negative
    count as zero) and differ by at most one. *)
Theorem pools_spread_exactly ns :
  NoDup (nodeName <$> items) ->
  let nodes := schedulableSandboxNodes items in
  let desired := omap (desiredFor nodes) pools in
  history world
    (fun r h => exists k, puts h = take k (nodes ≫= requestTo desired) /\
                          (r = None -> puts h = nodes ≫= requestTo desired))
    (syncPoolNamespace ns) [] /\
  (nodes <> [] -> Forall (fun d =>
     let share n := psWarm (specOn (nodeName n) d) in
     sum_over share nodes = Z.max 0 (cpReplicas (cpSpec (dObj d))) /\
     forall n m, n ∈ nodes -> m ∈ nodes -> Z.abs (share n - share m) <= 1) desired).
Proof using Marshal_total.
  intros Hd nodes desired. pose proof (schedulable_names Hd) as Hnd. split.
  - unfold syncPoolNamespace. intros x ->. cbn [bind]. intros x ->. cbn [bind].
    eapply history_bind; [apply resolvePools_hist|]. intros [ds invalid] h1 [Eds Hp1]. cbn in Eds. subst ds.
    assert (puts h1 = []) as Hp by done.
    eapply history_bind; [apply syncNodes_hist|].
    { apply Forall_forall. intros n Hn. by apply schedulable_elem in Hn as (_ & _ & ?). }
    intros r h2 (k & Hk & Hok). rewrite Hp, app_nil_l in Hk. destruct r as [[infos errs]|e].
    + eapply history_mono; [|apply statuses_hist]. cbn beta. intros r h3 Hp3.
      rewrite Hp3, Hk. exists k. split; [done|]. intros _. by apply Hok.
    + exists k. by split.
  - intros Hne. apply Forall_forall. intros d Hin. apply list_elem_of_omap in Hin as (p & _ & Hp).
    assert (dTargets d = distributeWarmTargets (cpReplicas (cpSpec (dObj d))) nodes) as Ht.
    { unfold desiredFor in Hp. destruct (bool_decide _); [done|]. destruct (templateAt _ _); by simplify_eq. }
    cbn [psWarm specOn]. rewrite Ht. split; [by apply distributeWarmTargets_sum|].
    intros n m Hn Hm. by apply distributeWarmTargets_even.
Qed.
End push.

(** ** Concrete pools *)

Section demo_witness.
Import CocoonClient.Demo CocoonFacts.CocoonFacts.Demo K8s.Reference.

Definition demo_pool (name : string) (replicas : Z) : CocoonSandboxPool :=
  mkCPool (meta name) (mkCPoolSpec replicas " py" None) (mkCPoolStatus 0 0 [] []).

Definition demo_templates (ns name : string) : result CocoonSandboxTemplate :=
  if bool_decide (name = "py") then Ok template else Err (APIStatus ReasonNotFound name).

Definition demo_secrets (ns name : string) : result Secret := Err (APIStatus ReasonNotFound name).

Lemma pools_spread_exactly_witness :
  let nodes := schedulableSandboxNodes CocoonFacts.CocoonFacts.Demo.nodes in
  let desired := omap (desiredFor demo_templates nodes) [demo_pool "p" 3] in
  nodeName <$> nodes = ["a"; "b"] /\
  (fun d => (fun n => psWarm (specOn (nodeName n) d)) <$> nodes) <$> desired = [[2; 1]] /\
  Forall (fun d => sum_over (fun n => psWarm (specOn (nodeName n) d)) nodes
                   = Z.max 0 (cpReplicas (cpSpec (dObj d)))) desired.
Proof.
  intros nodes desired. split; [vm_compute; reflexivity|]. split; [vm_compute; reflexivity|].
  assert (NoDup (nodeName <$> CocoonFacts.CocoonFacts.Demo.nodes)) as Hd
    by (apply (bool_decide_unpack _); vm_compute; exact I).
  assert (forall l : list PoolSpec, exists body, Marshal l = Ok body) as Hm by (intros l; by eexists).
  destruct (pools_spread_exactly [demo_pool "p" 3] CocoonFacts.CocoonFacts.Demo.nodes demo_templates
              demo_secrets Hm "ns" Hd) as [_ Hs].
  assert (nodes <> []) as Hne by (vm_compute; discriminate).
  eapply Forall_impl; [exact (Hs Hne)|]. intros d [Hsum _]. exact Hsum.
Defined.

Lemma pool_status_consistent_witness :
  let nodes := CocoonFacts.CocoonFacts.Demo.nodes in
  let d := mkDesired (demo_pool "p" 3) "python" "none" "small" (distributeWarmTargets 3 nodes) in
  let infos : gmap string NodeInfo :=
    {[ "a" := mkNodeInfo [mkPoolStatus (mkPoolKey "python" "none" "small") 2 0 2 true] 0 0 [];
       "b" := mkNodeInfo [mkPoolStatus (mkPoolKey "python" "none" "small") 1 0 1 true] 0 0 [] ]} in
  (poolReadyCondition d nodes ∅ infos).1.1 = ConditionTrue.
Proof.
  intros nodes d infos.
  assert (NoDup (nodeName <$> nodes)) as Hd by (apply (bool_decide_unpack _); vm_compute; exact I).
  destruct (pool_status_consistent d nodes ∅ infos 0 Hd eq_refl) as (Hr & _ & Hc).
  apply Hc. split; [vm_compute; discriminate|]. split; [reflexivity|]. vm_compute. discriminate.
Defined.
End demo_witness.
End CocoonPoolFacts.
