(* ===== verification/PodRuntime.v ===== *)
(** * PodRuntime: routing a Sandbox Pod to a Cocoon runtime backend.

    Models [pkg/podruntime/cocoon.go]: the mutator the Sandbox controller runs
    on every Pod it is about to create.  A Go error return leaves the Pod half
    written, but the one caller drops it, so a failed mutation is [Err]. *)

From S2P Require Import Prelude GoStrings K8s Types Sha256 SandboxModel.

Module PodRuntime.
Import SandboxController.

Definition RuntimeAnnotation : string := "sandbox.cocoonstack.io/runtime".

Definition ModeVKCocoon : string := "vk-cocoon".
Definition ModeStandard : string := "standard".
Definition ModeSandboxd : string := "sandboxd".
Definition DefaultMode : string := ModeStandard.

Definition vkProviderTaintKey : string := "virtual-kubelet.io/provider".
Definition vkNodeLabelKey : string := "node.kubernetes.io/instance-type".
Definition vkNodeLabelValue : string := "virtual-node".
Definition sandboxdNodeLabelKey : string := "cocoon-sandbox.io/runtime".
Definition sandboxdNodeLabelValue : string := "sandboxd".
Definition sandboxdTemplateAnnotation : string := "sandbox.cocoonstack.io/template".

Definition cocoonModeAnnotation : string := "cocoonset.cocoonstack.io/mode".
Definition cocoonManagedAnnotation : string := "cocoonset.cocoonstack.io/managed".
Definition cocoonImageAnnotation : string := "cocoonset.cocoonstack.io/image".
Definition cocoonOSAnnotation : string := "cocoonset.cocoonstack.io/os".
Definition cocoonVMNameAnnotation : string := "vm.cocoonstack.io/name".

Record Mutator := mkMutator { defaultMode : string }.

Definition NewMutator (defaultMode : string) : result Mutator :=
  let mode := TrimSpace defaultMode in
  if bool_decide (mode ∈ [ModeVKCocoon; ModeStandard; ModeSandboxd]) then Ok (mkMutator mode)
  else Err (Errorf ("unsupported default runtime " +:+ defaultMode)).

Definition requestedMode (pod : Pod) (defaultMode : string) : string * bool :=
  let value := TrimSpace (default "" (mAnnotations (podMeta pod) !! RuntimeAnnotation)) in
  if bool_decide (value <> "") then (value, true)
  else
    match psRuntimeClassName (podSpec pod) with
    | Some _ => (ModeStandard, false)
    | None => (defaultMode, false)
    end.

Definition toleratesOne (t : Toleration) : bool :=
  if bool_decide (tlKey t <> vkProviderTaintKey) || bool_decide (tlOperator t <> "Exists") then false
  else bool_decide (tlEffect t = "") || bool_decide (tlEffect t = "NoSchedule").

Definition toleratesVKCocoon (tolerations : list Toleration) : bool := existsb toleratesOne tolerations.

Definition setDefault (key value : string) (values : strmap) : strmap :=
  match values !! key with
  | Some _ => values
  | None => if bool_decide (value <> "") then <[key := value]> values else values
  end.

Definition on_spec (f : PodSpec -> PodSpec) (p : Pod) : Pod :=
  mkPod (podMeta p) (f (podSpec p)) (podPhase p) (podIPs p) (podConditions p).
Definition on_annotations (f : strmap -> strmap) (p : Pod) : Pod :=
  set_podMeta (set_mAnnotations f (podMeta p)) p.

Definition vkToleration : Toleration := mkToleration vkProviderTaintKey "Exists" "NoSchedule".

Definition routeToVirtualNode (pod : Pod) (mode labelKey labelValue : string) : result Pod :=
  if bool_decide (psNodeName (podSpec pod) <> "") then
    Err (Errorf (RuntimeAnnotation +:+ "=" +:+ mode +:+ " conflicts with spec.nodeName="
                 +:+ psNodeName (podSpec pod)))
  else
    let routed :=
      on_spec (fun s => set_psTolerations
          (fun ts => if toleratesVKCocoon ts then ts else ts ++ [vkToleration])
          (set_psNodeSelector <[labelKey := labelValue]> s)) pod in
    match psNodeSelector (podSpec pod) !! labelKey with
    | Some value =>
        if bool_decide (value <> labelValue) then
          Err (Errorf ("node selector " +:+ labelKey +:+ "=" +:+ value +:+ " conflicts with "
                       +:+ mode +:+ " value " +:+ labelValue))
        else Ok routed
    | None => Ok routed
    end.

(** ** The VM name *)

Fixpoint normalize (lastDash : bool) (rs : list Z) : string :=
  match rs with
  | [] => ""
  | r :: rs' =>
      if bool_decide (97 <= r <= 122) || bool_decide (48 <= r <= 57)
      then String (ascii_of r) (normalize false rs')
      else if lastDash then normalize true rs'
      else String "-" (normalize true rs')
  end.

Definition vmDigest (namespace name : string) : string :=
  String.substring 0 8 (hex_bytes (Sha256.Sum256 (bytes (namespace +:+ "/" +:+ name)))).

Definition maxPrefix : nat := 63 - 1 - 8.

(** [range strings.ToLower(s)] is [lower_rune] over the runes of [s]. *)
Definition stableVMName (namespace name : string) : string :=
  let joined := trim_dash ("sandbox" +:+ "-" +:+ namespace +:+ "-" +:+ name) in
  let prefix := trim_dash (normalize false (lower_rune <$> runes joined)) in
  let prefix := if bool_decide (prefix = "") then "sandbox" else prefix in
  let prefix :=
    if bool_decide (maxPrefix < String.length prefix)%nat
    then trim_dash (String.substring 0 maxPrefix prefix) else prefix in
  prefix +:+ "-" +:+ vmDigest namespace name.

(** ** The two virtual-node backends *)

Definition firstImage (pod : Pod) : string :=
  match psContainers (podSpec pod) with [] => "" | c :: _ => cnImage c end.

(** [spec.os.name] is the API's enumeration [linux] or [windows], so the
    lower-casing of it is the ASCII one. *)
Definition osNameOf (pod : Pod) : string :=
  match psOS (podSpec pod) with
  | Some os => if bool_decide (os <> "") then os else "linux"
  | None => "linux"
  end.

Definition mutateVKCocoon (sandbox : Sandbox) (pod : Pod) (explicit : bool) : result Pod :=
  match psRuntimeClassName (podSpec pod) with
  | Some _ =>
      if explicit then
        Err (Errorf (RuntimeAnnotation +:+ "=" +:+ ModeVKCocoon +:+ " conflicts with spec.runtimeClassName"))
      else Ok pod
  | None =>
      match routeToVirtualNode pod ModeVKCocoon vkNodeLabelKey vkNodeLabelValue with
      | Err e => Err e
      | Ok pod =>
          Ok (on_annotations (fun a =>
            let a := setDefault RuntimeAnnotation ModeVKCocoon a in
            let a := setDefault cocoonModeAnnotation "run" a in
            let a := setDefault cocoonManagedAnnotation "true" a in
            let a := setDefault cocoonVMNameAnnotation (stableVMName (sbNamespace sandbox) (sbName sandbox)) a in
            let a := setDefault cocoonImageAnnotation (firstImage pod) a in
            setDefault cocoonOSAnnotation (lower_ascii (osNameOf pod)) a) pod)
      end
  end.

Definition mutateSandboxd (pod : Pod) (explicit : bool) : result Pod :=
  match psRuntimeClassName (podSpec pod) with
  | Some _ =>
      if explicit then
        Err (Errorf (RuntimeAnnotation +:+ "=" +:+ ModeSandboxd +:+ " conflicts with spec.runtimeClassName"))
      else Ok pod
  | None =>
      match routeToVirtualNode pod ModeSandboxd sandboxdNodeLabelKey sandboxdNodeLabelValue with
      | Err e => Err e
      | Ok pod =>
          Ok (on_annotations (fun a =>
            let a := setDefault RuntimeAnnotation ModeSandboxd a in
            setDefault sandboxdTemplateAnnotation (firstImage pod) a) pod)
      end
  end.

Definition MutatePod (m : Mutator) (sandbox : option Sandbox) (pod : option Pod) : result Pod :=
  match sandbox, pod with
  | None, _ => Err (Errorf "sandbox is nil")
  | Some _, None => Err (Errorf "pod is nil")
  | Some sandbox, Some pod =>
      let '(mode, explicit) := requestedMode pod (defaultMode m) in
      if bool_decide (mode = ModeStandard) then Ok pod
      else if bool_decide (mode = ModeVKCocoon) then mutateVKCocoon sandbox pod explicit
      else if bool_decide (mode = ModeSandboxd) then mutateSandboxd pod explicit
      else Err (Errorf ("unsupported " +:+ RuntimeAnnotation +:+ " value " +:+ mode))
  end.

(** The controller's [PodMutator] interface, implemented by the mutator. *)
Definition podMutator (m : Mutator) (sandbox : Sandbox) (pod : Pod) : result Pod :=
  MutatePod m (Some sandbox) (Some pod).

(** ** The VM name is a DNS label *)

Definition trim_right (f : ascii -> bool) (s : string) : string := String.rev (trim_left f (String.rev s)).

Lemma trim_left_app f a b :
  match b with String c _ => f c = false | EmptyString => False end ->
  trim_left f (a +:+ b) = trim_left f a +:+ b.
Proof.
  intros Hb. induction a as [|c a IH].
  - destruct b as [|c b]; [done|]. simpl. by rewrite Hb.
  - rewrite app_string_cons. cbn [trim_left]. destruct (f c); [apply IH|done].
Qed.

(** Trimming stops at a kept prefix. *)
Lemma trim_keep f c d p s :
  f c = false -> f d = false ->
  trim f (String c (p +:+ String d s)) = String c (p +:+ String d (trim_right f s)).
Proof.
  intros Hc Hd. unfold trim, trim_right. cbn [trim_left]. rewrite Hc.
  assert (String c (p +:+ String d s) = String c (p +:+ String d "") +:+ s) as ->
    by (rewrite app_string_cons, app_string_assoc; done).
  rewrite rev_app_string, trim_left_app.
  - rewrite rev_app_string, rev_involutive. by rewrite app_string_cons, app_string_assoc.
  - by rewrite rev_cons, rev_app_string.
Qed.

Definition label_char (c : ascii) : bool :=
  bool_decide (97 <= byte_of c <= 122) || bool_decide (48 <= byte_of c <= 57) || is_dash c.

Lemma string_forall_rev f s : string_forall f (String.rev s) = string_forall f s.
Proof.
  induction s as [|c s IH]; [done|].
  rewrite rev_cons, string_forall_app, IH. cbn [string_forall].
  by rewrite andb_true_r, andb_comm.
Qed.

Lemma string_forall_trim_left f g s : string_forall f s = true -> string_forall f (trim_left g s) = true.
Proof.
  intros H. destruct (trim_left_suffix g s) as [p Hp]. rewrite Hp, string_forall_app in H.
  by apply andb_true_iff in H as [_ ?].
Qed.

Lemma string_forall_trim f g s : string_forall f s = true -> string_forall f (trim g s) = true.
Proof.
  intros H. unfold trim. rewrite string_forall_rev. apply string_forall_trim_left.
  rewrite string_forall_rev. by apply string_forall_trim_left.
Qed.

Lemma string_forall_take f n s : string_forall f s = true -> string_forall f (String.substring 0 n s) = true.
Proof.
  revert n; induction s as [|c s IH]; intros [|n] H; try done. cbn in *.
  apply andb_true_iff in H as [-> H]. by rewrite IH.
Qed.

Lemma length_take_string n s : String.length (String.substring 0 n s) = Nat.min n (String.length s).
Proof. revert n; induction s as [|c s IH]; intros [|n]; cbn; [done..|]. by rewrite IH. Qed.

Lemma length_trim f s : (String.length (trim f s) <= String.length s)%nat.
Proof.
  assert (forall t, (String.length (trim_left f t) <= String.length t)%nat) as Hl.
  { intros t. destruct (trim_left_suffix f t) as [p Hp]. rewrite Hp at 2. rewrite length_app_string. lia. }
  assert (forall t, String.length (String.rev t) = String.length t) as Hr.
  { induction t as [|c t IH]; [done|]. rewrite rev_cons, length_app_string, IH. simpl. lia. }
  unfold trim. rewrite Hr. etrans; [apply Hl|]. rewrite Hr. apply Hl.
Qed.

Lemma normalize_label b rs : string_forall label_char (normalize b rs) = true.
Proof.
  revert b; induction rs as [|r rs IH]; intros b; [done|]. cbn [normalize].
  destruct (_ || _) eqn:E.
  - cbn [string_forall]. rewrite IH, andb_true_r. unfold label_char.
    apply orb_true_iff in E as [E|E]; apply bool_decide_eq_true in E;
      rewrite byte_of_ascii_of by lia; rewrite (bool_decide_true _ E), ?orb_true_r; done.
  - destruct b; [apply IH|]. cbn [string_forall]. by rewrite IH.
Qed.

Lemma runes_cons c s : byte_of c < 128 -> runes (String c s) = byte_of c :: runes s.
Proof.
  intros Hc. unfold runes. cbn [bytes runes_go]. unfold decode_rune at 1.
  by rewrite bool_decide_true.
Qed.

Lemma vmDigest_shape ns name :
  String.length (vmDigest ns name) = 8%nat /\ string_forall is_hex (vmDigest ns name) = true.
Proof.
  unfold vmDigest. split.
  - by rewrite length_take_string, hex_bytes_length, Sha256.Sum256_length.
  - apply string_forall_take, hex_bytes_hex.
Qed.

Lemma is_hex_label c : is_hex c = true -> label_char c = true.
Proof.
  unfold is_hex, label_char. intros [H|H]%orb_true_iff; apply bool_decide_eq_true in H.
  - by rewrite (bool_decide_true (48 <= byte_of c <= 57)), orb_true_r by lia.
  - by rewrite (bool_decide_true (97 <= byte_of c <= 122)) by lia.
Qed.

(** Every stage of the computation starts with the word the name is built on. *)
Lemma trim_dash_sandbox t : exists u, trim_dash ("sandbox" +:+ t) = "sandbox" +:+ u.
Proof. exists (trim_right is_dash t). by apply (trim_keep is_dash "s" "x" "andbo" t). Qed.

Lemma normalize_sandbox t :
  normalize false (lower_rune <$> runes ("sandbox" +:+ t)) = "sandbox" +:+ normalize false (lower_rune <$> runes t).
Proof. rewrite !app_string_cons, !runes_cons by done. by rewrite !fmap_cons. Qed.

Lemma take_sandbox n t :
  (7 <= n)%nat -> String.substring 0 n ("sandbox" +:+ t) = "sandbox" +:+ String.substring 0 (n - 7) t.
Proof. intros Hn. replace n with (7 + (n - 7))%nat at 1 by lia. done. Qed.

Lemma app_string_suffix (a b a' b' : string) :
  String.length b = String.length b' -> a +:+ b = a' +:+ b' -> b = b'.
Proof.
  intros Hb E. assert (String.length a = String.length a') as Ha.
  { apply (f_equal String.length) in E. rewrite !length_app_string in E. lia. }
  revert a' Ha E. induction a as [|c a IH]; intros [|c' a'] Ha E; [done..|].
  injection E as _ E. by eapply IH, E; injection Ha.
Qed.

Definition dns_label (s : string) : Prop :=
  (1 <= String.length s <= 63)%nat /\ string_forall label_char s = true /\
  match s with String c _ => is_dash c = false | EmptyString => False end /\
  match String.rev s with String c _ => is_dash c = false | EmptyString => False end.

Lemma stableVMName_shape ns name : exists u,
  stableVMName ns name = "sandbox" +:+ u +:+ "-" +:+ vmDigest ns name /\
  (String.length u <= 47)%nat /\ string_forall label_char u = true.
Proof.
  unfold stableVMName.
  destruct (trim_dash_sandbox ("-" +:+ ns +:+ "-" +:+ name)) as [t ->]. rewrite normalize_sandbox.
  assert (string_forall label_char (trim_dash ("sandbox" +:+ normalize false (lower_rune <$> runes t))) = true) as Hl.
  { apply string_forall_trim. rewrite string_forall_app, normalize_label. done. }
  destruct (trim_dash_sandbox (normalize false (lower_rune <$> runes t))) as [v Hv]. rewrite Hv in *.
  rewrite (bool_decide_false ("sandbox" +:+ v = "")) by done.
  rewrite string_forall_app in Hl. apply andb_true_iff in Hl as [_ Hl].
  case_bool_decide as Hlen.
  - rewrite take_sandbox by (vm_compute; lia).
    pose proof (length_trim is_dash ("sandbox" +:+ String.substring 0 (maxPrefix - 7) v)) as Hw.
    assert (string_forall label_char (trim_dash ("sandbox" +:+ String.substring 0 (maxPrefix - 7) v)) = true) as Hf.
    { apply string_forall_trim. by rewrite string_forall_app, (string_forall_take _ _ _ Hl). }
    fold (trim_dash ("sandbox" +:+ String.substring 0 (maxPrefix - 7) v)) in Hw.
    destruct (trim_dash_sandbox (String.substring 0 (maxPrefix - 7) v)) as [w Ew]. rewrite Ew in *.
    exists w. split; [by rewrite app_string_assoc|].
    rewrite !length_app_string, length_take_string in Hw. rewrite string_forall_app in Hf.
    apply andb_true_iff in Hf as [_ Hf]. split; [|done].
    change (String.length "sandbox") with 7%nat in Hw. change maxPrefix with 54%nat in Hw. lia.
  - exists v. split; [by rewrite app_string_assoc|]. split; [|done].
    rewrite length_app_string in Hlen. change (String.length "sandbox") with 7%nat in Hlen.
    change maxPrefix with 54%nat in Hlen. lia.
Qed.

(** C40.  The VM name derived for a sandbox is always a valid DNS-1123 label: at
    most 63 bytes of lower-case letters, digits and dashes, with no dash at
    either end, whatever bytes the namespace and the name hold and however long
    they are.  Two sandboxes share a VM name only if the first 32 bits of the
    SHA-256 of their [namespace/name] agree. *)
Theorem stableVMName_dns_label ns name ns' name' :
  dns_label (stableVMName ns name) /\
  (stableVMName ns name = stableVMName ns' name' -> vmDigest ns name = vmDigest ns' name').
Proof.
  destruct (stableVMName_shape ns name) as (u & Hu & Hlen & Hl).
  destruct (vmDigest_shape ns name) as [Hd Hx]. split.
  - rewrite Hu. split; [|split; [|split]].
    + rewrite !length_app_string, Hd. simpl. lia.
    + rewrite !string_forall_app, Hl. cbn [andb].
      by rewrite (string_forall_impl is_hex label_char _ is_hex_label Hx).
    + done.
    + rewrite !rev_app_string. rewrite <-string_forall_rev in Hx.
      destruct (vmDigest ns name) as [|c d]; [done|].
      destruct (String.rev (String c d)) as [|x r] eqn:Er.
      { by rewrite rev_cons in Er; destruct (String.rev d). }
      cbn [string_forall] in Hx. apply andb_true_iff in Hx as [Hx _]. rewrite !app_string_cons.
      unfold is_dash. apply bool_decide_eq_false. by intros ->.
  - destruct (stableVMName_shape ns' name') as (u' & Hu' & _).
    rewrite Hu, Hu', <-!app_string_assoc. destruct (vmDigest_shape ns' name') as [Hd' _].
    intros E. apply app_string_suffix in E; congruence.
Qed.

(** ** Mutation *)

(** [setDefault] has nothing left to do. *)
Definition settled (key value : string) (a : strmap) : Prop := is_Some (a !! key) \/ value = "".

Lemma setDefault_extends k v a : a ⊆ setDefault k v a.
Proof.
  unfold setDefault. destruct (a !! k) eqn:E; [done|]. case_bool_decide; [|done].
  by apply insert_subseteq.
Qed.

Lemma setDefault_settles k v a : settled k v (setDefault k v a).
Proof.
  unfold setDefault. destruct (a !! k) eqn:E; [left; eauto|].
  case_bool_decide as Hv; [left; rewrite lookup_insert_eq; eauto|right; by destruct (decide (v = ""))].
Qed.

Lemma setDefault_settled k v a : settled k v a -> setDefault k v a = a.
Proof. unfold setDefault. intros [[x ->] | ->]; [done|]. by destruct (a !! k). Qed.

Lemma settled_mono k v a b : a ⊆ b -> settled k v a -> settled k v b.
Proof. intros Hab [[x Hx]|Hv]; [left; exists x; by eapply lookup_weaken|by right]. Qed.

(** A pass of [setDefault]s over a list of keys. *)
Definition setDefaults (l : list (string * string)) (a : strmap) : strmap :=
  foldl (fun a '(k, v) => setDefault k v a) a l.

Lemma setDefaults_extends l a : a ⊆ setDefaults l a.
Proof.
  unfold setDefaults. revert a; induction l as [|[k v] l IH]; intros a; cbn [foldl]; [done|].
  etrans; [apply setDefault_extends|apply IH].
Qed.

Lemma setDefaults_settles l a : Forall (fun '(k, v) => settled k v (setDefaults l a)) l.
Proof.
  revert a; induction l as [|[k v] l IH]; intros a; constructor; [|apply (IH (setDefault k v a))].
  eapply settled_mono; [apply (setDefaults_extends l)|apply setDefault_settles].
Qed.

Lemma setDefaults_settled l a : Forall (fun '(k, v) => settled k v a) l -> setDefaults l a = a.
Proof.
  unfold setDefaults. induction 1 as [|[k v] l Hk _ IH]; [done|]. cbn [foldl].
  by rewrite setDefault_settled.
Qed.

Lemma setDefaults_idemp l a : setDefaults l (setDefaults l a) = setDefaults l a.
Proof. apply setDefaults_settled, setDefaults_settles. Qed.

Definition vkDefaults (sandbox : Sandbox) (pod : Pod) : list (string * string) :=
  [(RuntimeAnnotation, ModeVKCocoon); (cocoonModeAnnotation, "run"); (cocoonManagedAnnotation, "true");
   (cocoonVMNameAnnotation, stableVMName (sbNamespace sandbox) (sbName sandbox));
   (cocoonImageAnnotation, firstImage pod); (cocoonOSAnnotation, lower_ascii (osNameOf pod))].

Definition sandboxdDefaults (pod : Pod) : list (string * string) :=
  [(RuntimeAnnotation, ModeSandboxd); (sandboxdTemplateAnnotation, firstImage pod)].

(** The virtual node a runtime mode stands for, and the annotations it fills. *)
Record backend := mkBackend { bkKey : string; bkValue : string; bkDefaults : Sandbox -> Pod -> list (string * string) }.

Definition backendOf (mode : string) : option backend :=
  if bool_decide (mode = ModeVKCocoon) then Some (mkBackend vkNodeLabelKey vkNodeLabelValue vkDefaults)
  else if bool_decide (mode = ModeSandboxd) then
    Some (mkBackend sandboxdNodeLabelKey sandboxdNodeLabelValue (fun _ => sandboxdDefaults))
  else None.

(** What stops a Pod from being routed in a mode. *)
Definition conflict (mode : string) (p : Pod) : Prop :=
  match backendOf mode with
  | None => mode <> ModeStandard
  | Some b =>
      is_Some (psRuntimeClassName (podSpec p)) \/ psNodeName (podSpec p) <> "" \/
      (exists v, psNodeSelector (podSpec p) !! bkKey b = Some v /\ v <> bkValue b)
  end.

(** The mutated Pod keeps every annotation, node selector entry and toleration
    of the original, and every other field is untouched. *)
Definition user_values_kept (p p' : Pod) : Prop := exists anns sel tols,
  p' = on_annotations (fun _ => anns)
         (on_spec (fun s => set_psTolerations (fun _ => tols) (set_psNodeSelector (fun _ => sel) s)) p) /\
  mAnnotations (podMeta p) ⊆ anns /\ psNodeSelector (podSpec p) ⊆ sel /\
  psTolerations (podSpec p) `prefix_of` tols.

(** The Pod can only be scheduled on the mode's virtual node, and carries the
    claim parameters that node reads. *)
Definition routed_to (b : backend) (sb : Sandbox) (p p' : Pod) : Prop :=
  psNodeName (podSpec p') = "" /\ psRuntimeClassName (podSpec p') = None /\
  psNodeSelector (podSpec p') !! bkKey b = Some (bkValue b) /\
  toleratesVKCocoon (psTolerations (podSpec p')) = true /\
  Forall (fun '(k, v) => v <> "" -> is_Some (mAnnotations (podMeta p') !! k)) (bkDefaults b sb p).

Lemma toleration_added ts :
  let ts' := if toleratesVKCocoon ts then ts else ts ++ [vkToleration] in
  toleratesVKCocoon ts' = true /\ ts `prefix_of` ts'.
Proof.
  cbn beta zeta. destruct (toleratesVKCocoon ts) eqn:E; [done|]. split; [|by exists [vkToleration]].
  unfold toleratesVKCocoon. by rewrite existsb_app, orb_true_r.
Qed.

(** Both backends run the same steps: refuse a runtime class, route, fill. *)
Definition mutateFor (mode : string) (b : backend) (sb : Sandbox) (p : Pod) (explicit : bool) : result Pod :=
  match psRuntimeClassName (podSpec p) with
  | Some _ =>
      if explicit then
        Err (Errorf (RuntimeAnnotation +:+ "=" +:+ mode +:+ " conflicts with spec.runtimeClassName"))
      else Ok p
  | None =>
      match routeToVirtualNode p mode (bkKey b) (bkValue b) with
      | Err e => Err e
      | Ok p' => Ok (on_annotations (setDefaults (bkDefaults b sb p')) p')
      end
  end.

Lemma MutatePod_backend m sb p :
  MutatePod m (Some sb) (Some p) =
  let '(mode, explicit) := requestedMode p (defaultMode m) in
  match backendOf mode with
  | Some b => mutateFor mode b sb p explicit
  | None => if bool_decide (mode = ModeStandard) then Ok p
            else Err (Errorf ("unsupported " +:+ RuntimeAnnotation +:+ " value " +:+ mode))
  end.
Proof.
  unfold MutatePod. destruct (requestedMode p (defaultMode m)) as [mode explicit].
  unfold backendOf. destruct (decide (mode = ModeVKCocoon)) as [->|Hv].
  { done. }
  rewrite (bool_decide_false (mode = ModeVKCocoon)) by done.
  destruct (decide (mode = ModeSandboxd)) as [->|Hs]; [done|].
  by rewrite (bool_decide_false (mode = ModeSandboxd)).
Qed.

(** A backend fills the runtime annotation first, and its defaults depend on
    the Pod only through fields routing leaves alone. *)
Lemma backendOf_defaults mode b sb p :
  backendOf mode = Some b ->
  mode <> "" /\ TrimSpace mode = mode /\
  (exists l, bkDefaults b sb p = (RuntimeAnnotation, mode) :: l) /\
  (forall p', psContainers (podSpec p') = psContainers (podSpec p) -> psOS (podSpec p') = psOS (podSpec p) ->
     bkDefaults b sb p' = bkDefaults b sb p).
Proof.
  unfold backendOf. intros H.
  destruct (decide (mode = ModeVKCocoon)) as [->|Hv]; [|destruct (decide (mode = ModeSandboxd)) as [->|Hs]].
  - injection H as <-. split_and!; [done|done|by eexists|]. intros p' Hc Ho. cbn [bkDefaults].
    unfold vkDefaults, firstImage, osNameOf. by rewrite Hc, Ho.
  - injection H as <-. split_and!; [done|done|by eexists|]. intros p' Hc Ho. cbn [bkDefaults].
    unfold sandboxdDefaults, firstImage. by rewrite Hc.
  - by rewrite !bool_decide_false in H.
Qed.

(** After its defaults are filled a Pod asks for the mode it was routed by. *)
Lemma requestedMode_filled d p p' l mode :
  (requestedMode p d).1 = mode -> mode <> "" -> TrimSpace mode = mode ->
  psRuntimeClassName (podSpec p) = None -> psRuntimeClassName (podSpec p') = None ->
  mAnnotations (podMeta p') = setDefaults ((RuntimeAnnotation, mode) :: l) (mAnnotations (podMeta p)) ->
  (requestedMode p' d).1 = mode.
Proof.
  intros Hm Hne Ht Hr Hr' Ha.
  assert (mAnnotations (podMeta p') !! RuntimeAnnotation =
    Some (default mode (mAnnotations (podMeta p) !! RuntimeAnnotation))) as El.
  { rewrite Ha. eapply lookup_weaken; [|apply (setDefaults_extends l)]. unfold setDefault.
    destruct (mAnnotations (podMeta p) !! RuntimeAnnotation) eqn:E; [done|].
    rewrite bool_decide_true by done. by rewrite lookup_insert_eq. }
  revert Hm. unfold requestedMode. rewrite El, Hr, Hr'. cbn [default].
  destruct (mAnnotations (podMeta p) !! RuntimeAnnotation) as [v|]; cbn [default from_option id]; [done|].
  rewrite Ht. by rewrite (bool_decide_true (mode <> "")).
Qed.

Lemma routeToVirtualNode_ok p mode k v :
  match routeToVirtualNode p mode k v with
  | Ok p' =>
      psNodeName (podSpec p) = "" /\
      (forall x, psNodeSelector (podSpec p) !! k = Some x -> x = v) /\
      p' = on_spec (fun s => set_psTolerations
             (fun ts => if toleratesVKCocoon ts then ts else ts ++ [vkToleration])
             (set_psNodeSelector <[k := v]> s)) p
  | Err _ =>
      psNodeName (podSpec p) <> "" \/
      (exists x, psNodeSelector (podSpec p) !! k = Some x /\ x <> v)
  end.
Proof.
  unfold routeToVirtualNode. destruct (decide (psNodeName (podSpec p) = "")) as [Hn|Hn].
  - rewrite (bool_decide_false (_ <> "")) by tauto.
    destruct (psNodeSelector (podSpec p) !! k) as [x|] eqn:E; [|by split_and!].
    destruct (decide (x = v)) as [->|Hx].
    + rewrite (bool_decide_false (v <> v)) by tauto. split_and!; [done|congruence|done].
    + rewrite (bool_decide_true (x <> v)) by done. eauto.
  - rewrite (bool_decide_true (_ <> "")) by done. by left.
Qed.

(** Routing a routed Pod changes nothing. *)
Lemma routeToVirtualNode_id p mode k v :
  psNodeName (podSpec p) = "" -> psNodeSelector (podSpec p) !! k = Some v ->
  toleratesVKCocoon (psTolerations (podSpec p)) = true ->
  routeToVirtualNode p mode k v = Ok p.
Proof.
  intros Hn Hs Ht. unfold routeToVirtualNode. rewrite Hn, Hs.
  rewrite (bool_decide_false ("" <> "")), (bool_decide_false (v <> v)) by tauto.
  destruct p as [m s ph ips cs], s. unfold on_spec, set_psTolerations, set_psNodeSelector.
  cbn in *. rewrite Ht, (insert_id _ _ _ Hs). done.
Qed.

Lemma mutateFor_correct mode b sb p explicit :
  backendOf mode = Some b -> (psRuntimeClassName (podSpec p) = None \/ explicit = true) ->
  match mutateFor mode b sb p explicit with
  | Err _ => conflict mode p
  | Ok p' =>
      ~ conflict mode p /\ user_values_kept p p' /\ routed_to b sb p p' /\
      mAnnotations (podMeta p') = setDefaults (bkDefaults b sb p) (mAnnotations (podMeta p)) /\
      forall explicit', mutateFor mode b sb p' explicit' = Ok p'
  end.
Proof.
  intros Hb Hr. destruct (backendOf_defaults mode b sb p Hb) as (_ & _ & _ & Hd).
  unfold mutateFor at 1, conflict. rewrite Hb.
  destruct (psRuntimeClassName (podSpec p)) as [rc|] eqn:Erc.
  { destruct Hr as [Hr| ->]; [done|]. left. eauto. }
  pose proof (routeToVirtualNode_ok p mode (bkKey b) (bkValue b)) as Ho.
  destruct (routeToVirtualNode p mode (bkKey b) (bkValue b)) as [q|e]; [|tauto].
  destruct Ho as (Hn & Hsel & ->).
  pose proof (toleration_added (psTolerations (podSpec p))) as [Ht Hpre]. cbn zeta in Ht, Hpre.
  set (q := on_spec _ p) in *.
  rewrite (Hd q) by done.
  assert (routed_to b sb p (on_annotations (setDefaults (bkDefaults b sb p)) q)) as Hrt.
  { split_and!; [done|done|apply lookup_insert_eq|done|].
    eapply Forall_impl; [apply (setDefaults_settles _ (mAnnotations (podMeta p)))|]. intros [k v] [Hk|Hv] Hv'; [exact Hk|done]. }
  split_and!.
  - intros [[? [=]]|[?|(v & Hv & Hne)]]; [done|]. by apply Hne, Hsel.
  - eexists _, _, _. split; [reflexivity|]. split_and!; [apply setDefaults_extends| |done].
    cbn. destruct (psNodeSelector (podSpec p) !! bkKey b) as [v|] eqn:E.
    + rewrite insert_id; [done|]. by rewrite E, (Hsel v).
    + by apply insert_subseteq.
  - done.
  - done.
  - intros explicit'. unfold mutateFor. destruct Hrt as (Hn' & Hrc' & Hs' & Ht' & _). rewrite Hrc'.
    rewrite routeToVirtualNode_id by done. f_equal.
    rewrite (Hd (on_annotations _ q)) by done. unfold on_annotations. cbn.
    unfold set_podMeta, set_mAnnotations. cbn. by rewrite setDefaults_idemp.
Qed.

(** C30.  [MutatePod] is total and exact.  It refuses a Pod precisely when the
    requested mode is unknown, or names a virtual node while the Pod pins a
    runtime class, a node name, or the mode's node label to something else.
    Otherwise every annotation, node selector entry and toleration the user
    wrote survives with its value and no other field changes; a Pod in a
    virtual-node mode can only be scheduled on that node and carries each claim
    parameter that has a value; a standard Pod is left as it was; and mutating
    the result again changes nothing. *)
Theorem pod_mutation_exact m sb p :
  let mode := (requestedMode p (defaultMode m)).1 in
  match MutatePod m (Some sb) (Some p) with
  | Err _ => conflict mode p
  | Ok p' =>
      ~ conflict mode p /\ user_values_kept p p' /\
      match backendOf mode with Some b => routed_to b sb p p' | None => p' = p end /\
      MutatePod m (Some sb) (Some p') = Ok p'
  end.
Proof.
  cbn zeta. rewrite MutatePod_backend.
  destruct (requestedMode p (defaultMode m)) as [mode explicit] eqn:Em. cbn [fst].
  destruct (backendOf mode) as [b|] eqn:Eb.
  - destruct (backendOf_defaults mode b sb p Eb) as (Hne & Ht & [l Hl] & _).
    assert (psRuntimeClassName (podSpec p) = None \/ explicit = true) as Hr.
    { revert Em. unfold requestedMode. case_bool_decide; [intros [= _ <-]; by right|].
      destruct (psRuntimeClassName (podSpec p)); [|by left]. intros [= <- _]. done. }
    pose proof (mutateFor_correct mode b sb p explicit Eb Hr) as H.
    destruct (mutateFor mode b sb p explicit) as [p'|e]; [|done].
    destruct H as (Hc & Hk & Hrt & Ha & Hid). split_and!; [done..|].
    rewrite MutatePod_backend. destruct (requestedMode p' (defaultMode m)) as [mode' explicit'] eqn:Em'.
    assert (mode' = mode) as ->; [|by rewrite Eb].
    change mode' with ((mode', explicit').1). rewrite <-Em'.
    eapply (requestedMode_filled _ p); [by rewrite Em|done..| | |by rewrite Ha, Hl].
    + destruct (psRuntimeClassName (podSpec p)) eqn:E; [|done].
      exfalso. apply Hc. unfold conflict. rewrite Eb, E. left. eauto.
    + apply Hrt.
  - unfold conflict. rewrite Eb. destruct (decide (mode = ModeStandard)) as [->|Hs].
    + rewrite bool_decide_true by done. split_and!; [tauto| |done|].
      * exists (mAnnotations (podMeta p)), (psNodeSelector (podSpec p)), (psTolerations (podSpec p)).
        split; [by destruct p as [[] [] ? ? ?]|done].
      * by rewrite MutatePod_backend, Em.
    + by rewrite bool_decide_false.
Qed.

(** A mutator accepted by [NewMutator] refuses no Pod without its own requests. *)
Lemma NewMutator_default_supported d m :
  NewMutator d = Ok m -> defaultMode m = TrimSpace d /\
  (defaultMode m = ModeStandard \/ is_Some (backendOf (defaultMode m))).
Proof.
  unfold NewMutator. case_bool_decide as Hin; [|done]. intros [= <-]. split; [done|]. cbn [defaultMode].
  rewrite !elem_of_cons, elem_of_nil in Hin. destruct Hin as [->|[->|[->|[]]]]; cbn; eauto.
Qed.

End PodRuntime.
