(* ===== verification/TemplateModel.v ===== *)
(** * TemplateModel: the SandboxTemplate controller.

    Models [extensions/controllers/sandboxtemplate_controller.go]: the template
    ref hash label, the network policy the sandboxes of a template share, and
    the secure default policy. *)

From S2P Require Import Prelude GoStrings K8s Types SandboxModel WarmPool.

Module TemplateController.
Local Open Scope prog_scope.

Inductive TemplateE : Type -> Type :=
| TGetTemplate (ns name : string) : TemplateE (result SandboxTemplate)
| TPatchTemplate (old new : SandboxTemplate) : TemplateE (result SandboxTemplate)
| TGetNetworkPolicy (ns name : string) : TemplateE (result NetworkPolicy)
| TCreateNetworkPolicy (np : NetworkPolicy) : TemplateE (option gerror)
| TUpdateNetworkPolicy (np : NetworkPolicy) : TemplateE (option gerror)
| TDeleteNetworkPolicy (np : NetworkPolicy) : TemplateE (option gerror).

Definition defaultRouterNamespace : string := "cocoon-sandbox-system".
Definition NetworkPolicyManagementUnmanaged : string := "Unmanaged".
Definition PolicyTypeIngress : string := "Ingress".
Definition PolicyTypeEgress : string := "Egress".

Definition matching (labels : strmap) : LabelSelector := mkSelector labels "".

Definition buildDefaultNetworkPolicySpec (templateName routerNamespace : string) : NetworkPolicySpec :=
  let routerNamespace :=
    if bool_decide (routerNamespace = "") then defaultRouterNamespace else routerNamespace in
  let peers :=
    [mkPeer (Some (matching {["app" := "sandbox-router"]}))
       (Some (matching {["kubernetes.io/metadata.name" := routerNamespace]})) None] in
  mkPolicySpec
    (matching {[WarmPoolController.sandboxTemplateRefHash := WarmPoolController.SandboxTemplateRefHash templateName]})
    [PolicyTypeIngress; PolicyTypeEgress]
    [mkIngress [] peers]
    [mkEgress []
       [mkPeer None None (Some (mkIPBlock "0.0.0.0/0"
          ["10.0.0.0/8"; "172.16.0.0/12"; "192.168.0.0/16"; "169.254.0.0/16"]));
        mkPeer None None (Some (mkIPBlock "::/0" ["fc00::/7"; "fe80::/10"]))]].

Definition tplName (t : SandboxTemplate) : string := mName (tplMeta t).
Definition tplNamespace (t : SandboxTemplate) : string := mNamespace (tplMeta t).
Definition tplUID (t : SandboxTemplate) : string := mUID (tplMeta t).
Definition templateOwner (t : SandboxTemplate) : Owner :=
  mkOwner "extensions.agents.x-k8s.io/v1beta1" "SandboxTemplate" (tplName t) (tplUID t).

Definition labelled (t : SandboxTemplate) : SandboxTemplate :=
  set_tplMeta (set_mLabels <[WarmPoolController.sandboxTemplateRefHash := WarmPoolController.SandboxTemplateRefHash (tplName t)]>
                 (tplMeta t)) t.

(** [Patch] refreshes the template in place with the server's answer. *)
Definition ensureTemplateRefHashLabel (template : SandboxTemplate) :
    prog TemplateE (SandboxTemplate * option gerror) :=
  match mDeletionTimestamp (tplMeta template) with
  | Some _ => Ret (template, None)
  | None =>
      if bool_decide (mget (mLabels (tplMeta template)) WarmPoolController.sandboxTemplateRefHash
                      = WarmPoolController.SandboxTemplateRefHash (tplName template))
      then Ret (template, None)
      else
        r <- call (TPatchTemplate template (labelled template));;
        match r with
        | Ok t => Ret (t, None)
        | Err e => Ret (labelled template, Some (Wrap "failed to label sandbox template" e))
        end
  end.

Definition npNameOf (t : SandboxTemplate) : string := tplName t +:+ "-network-policy".

Definition desiredSpecOf (routerNamespace : string) (t : SandboxTemplate) : NetworkPolicySpec :=
  match tplNetworkPolicy t with
  | None => buildDefaultNetworkPolicySpec (tplName t) routerNamespace
  | Some rules =>
      mkPolicySpec
        (matching {[WarmPoolController.sandboxTemplateRefHash := WarmPoolController.SandboxTemplateRefHash (tplName t)]})
        [PolicyTypeIngress; PolicyTypeEgress] (trIngress rules) (trEgress rules)
  end.

Section reconcile.
Context `{OwnerLib} (RouterNamespace : string).

(** Step 3: the opt-out. *)
Definition reconcileUnmanaged (template : SandboxTemplate) : prog TemplateE (option gerror) :=
  r <- call (TGetNetworkPolicy (tplNamespace template) (npNameOf template));;
  match r with
  | Ok existingNP =>
      if negb (IsControlledBy (npMeta existingNP) (tplUID template)) then Ret None
      else call (TDeleteNetworkPolicy existingNP)
  | Err e => if IsNotFound e then Ret None else Ret (Some (Wrap "failed to get NetworkPolicy" e))
  end.

(** Steps 4 to 6: compare, update or create. *)
Definition reconcileManaged (template : SandboxTemplate) : prog TemplateE (option gerror) :=
  let desiredSpec := desiredSpecOf RouterNamespace template in
  r <- call (TGetNetworkPolicy (tplNamespace template) (npNameOf template));;
  match r with
  | Ok existingNP =>
      if negb (IsControlledBy (npMeta existingNP) (tplUID template))
      then Ret (Some (Errorf ("refusing to update NetworkPolicy " +:+ npNameOf template
                              +:+ " as it is not controlled by SandboxTemplate " +:+ tplName template)))
      else if bool_decide (npSpec existingNP = desiredSpec) then Ret None
      else call (TUpdateNetworkPolicy (mkPolicy (npMeta existingNP) desiredSpec))
  | Err e =>
      if negb (IsNotFound e) then Ret (Some (Wrap "failed to get NetworkPolicy" e))
      else
        let m := mkMeta (npNameOf template) "" (tplNamespace template) "" "" 0 0 None ∅ ∅ [] in
        match SetControllerReference (templateOwner template) m with
        | Err e => Ret (Some e)
        | Ok m => call (TCreateNetworkPolicy (mkPolicy m desiredSpec))
        end
  end.

Definition Reconcile (ns name : string) : prog TemplateE (option gerror) :=
  r <- call (TGetTemplate ns name);;
  match r with
  | Err e => if IsNotFound e then Ret None else Ret (Some (Wrap "failed to get sandbox template" e))
  | Ok template =>
      let! (template, err) := ensureTemplateRefHashLabel template in
      match err with
      | Some e => Ret (Some e)
      | None =>
          match mDeletionTimestamp (tplMeta template) with
          | Some _ => Ret None
          | None =>
              let management := tplNetworkPolicyManagement template in
              let management :=
                if bool_decide (management = "") then WarmPoolController.NetworkPolicyManagementManaged else management in
              if bool_decide (management = NetworkPolicyManagementUnmanaged)
              then reconcileUnmanaged template else reconcileManaged template
          end
      end
  end.

End reconcile.
End TemplateController.
