(* ===== verification/TemplateFacts.v ===== *)
(** * TemplateFacts: what the SandboxTemplate controller guarantees.

    The default policy is read through a reference semantics of network
    policies (the documented one: a direction listed in [policyTypes] admits
    what some rule admits), with CIDR blocks parsed and compared as prefixes. *)

From S2P Require Import Prelude GoStrings K8s Types SandboxModel WarmPool TemplateModel.

Module TemplateFacts.
Import TemplateController.
#[local] Open Scope prog_scope.

(** ** Addresses and CIDR blocks *)

Inductive addr := V4 (ip : Z) | V6 (ip : Z).

Definition parse_v4 (s : string) : option Z :=
  gs ← mapM ParseUint (split_byte "." s);
  if bool_decide (length gs = 4%nat /\ Forall (fun g => g < 256)%N gs)
  then Some (foldl (fun acc g => acc * 256 + Z.of_N g) 0 gs) else None.

Definition hex_value (c : ascii) : option Z :=
  let b := byte_of c in
  if bool_decide (48 <= b <= 57) then Some (b - 48)
  else if bool_decide (97 <= b <= 102) then Some (b - 87) else None.

Fixpoint parse_hex (acc : Z) (s : string) : option Z :=
  match s with
  | EmptyString => Some acc
  | String c s' => d ← hex_value c; parse_hex (acc * 16 + d) s'
  end.

(** The form [g1:..:gk::], the one the repository writes. *)
Fixpoint parse_groups (shift : Z) (gs : list string) : option Z :=
  match gs with
  | [] => None
  | g :: gs' =>
      if bool_decide (g = "") then (if forallb (fun g => bool_decide (g = "")) gs' then Some 0 else None)
      else v ← parse_hex 0 g; rest ← parse_groups (shift - 16) gs'; Some (Z.shiftl v shift + rest)
  end.

Definition parse_v6 (s : string) : option Z := parse_groups 112 (split_byte ":" s).

Definition in_cidr (cidr : string) (a : addr) : bool :=
  match cut_byte "/" cidr with
  | None => false
  | Some (host, len) =>
      match ParseUint len, a with
      | Some n, V4 ip =>
          match parse_v4 host with
          | Some base => bool_decide (Z.shiftr ip (32 - Z.of_N n) = Z.shiftr base (32 - Z.of_N n))
          | None => false
          end
      | Some n, V6 ip =>
          match parse_v6 host with
          | Some base => bool_decide (Z.shiftr ip (128 - Z.of_N n) = Z.shiftr base (128 - Z.of_N n))
          | None => false
          end
      | None, _ => false
      end
  end.

Definition in_block (b : IPBlock) (a : addr) : bool :=
  in_cidr (ibCIDR b) a && negb (existsb (fun c => in_cidr c a) (ibExcept b)).

(** ** The meaning of a policy *)

Record source := mkSource { srcNamespace : string; srcNamespaceLabels : strmap; srcPodLabels : strmap }.

Definition selects (s : LabelSelector) (labels : strmap) : bool := bool_decide (lsMatchLabels s ⊆ labels).

Definition peer_pod (own : string) (p : NetworkPolicyPeer) (s : source) : bool :=
  match peIPBlock p with
  | Some _ => false
  | None =>
      match peNamespaceSelector p with
      | Some sel => selects sel (srcNamespaceLabels s)
      | None => bool_decide (srcNamespace s = own)
      end &&
      match pePodSelector p with Some sel => selects sel (srcPodLabels s) | None => true end
  end.

(** Ingress from a pod, and egress to an address outside the cluster's pods. *)
Definition admits_ingress (own : string) (spec : NetworkPolicySpec) (s : source) : bool :=
  negb (bool_decide (PolicyTypeIngress ∈ npPolicyTypes spec)) ||
  existsb (fun r => match irFrom r with [] => true | ps => existsb (fun p => peer_pod own p s) ps end)
    (npIngress spec).

Definition admits_egress (spec : NetworkPolicySpec) (a : addr) : bool :=
  negb (bool_decide (PolicyTypeEgress ∈ npPolicyTypes spec)) ||
  existsb (fun r =>
    match erTo r with
    | [] => true
    | ps => existsb (fun p => match peIPBlock p with Some b => in_block b a | None => false end) ps
    end) (npEgress spec).

Definition dotted (a b c d : Z) : addr := V4 (((a * 256 + b) * 256 + c) * 256 + d).

(** ** The secure default *)

Lemma in_cidr_v4 cidr n base ip host len :
  cut_byte "/" cidr = Some (host, len) -> ParseUint len = Some n -> parse_v4 host = Some base ->
  (n <= 32)%N ->
  in_cidr cidr (V4 ip) = bool_decide (ip / 2 ^ (32 - Z.of_N n) = base / 2 ^ (32 - Z.of_N n)).
Proof. intros E1 E2 E3 Hn. unfold in_cidr. rewrite E1, E2, E3, !Z.shiftr_div_pow2 by lia. done. Qed.

Lemma in_cidr_v6 cidr n base ip host len :
  cut_byte "/" cidr = Some (host, len) -> ParseUint len = Some n -> parse_v6 host = Some base ->
  (n <= 128)%N ->
  in_cidr cidr (V6 ip) = bool_decide (ip / 2 ^ (128 - Z.of_N n) = base / 2 ^ (128 - Z.of_N n)).
Proof. intros E1 E2 E3 Hn. unfold in_cidr. rewrite E1, E2, E3, !Z.shiftr_div_pow2 by lia. done. Qed.

(** A v6 block holds no v4 address and conversely. *)
Lemma in_block_v4_default ip :
  in_block (mkIPBlock "::/0" ["fc00::/7"; "fe80::/10"]) (V4 ip) = false.
Proof. reflexivity. Qed.

Lemma in_block_v6_default ip :
  in_block (mkIPBlock "0.0.0.0/0" ["10.0.0.0/8"; "172.16.0.0/12"; "192.168.0.0/16"; "169.254.0.0/16"]) (V6 ip)
  = false.
Proof. reflexivity. Qed.

Definition private_v4 (a b : Z) : Prop :=
  a = 10 \/ (a = 172 /\ 16 <= b < 32) \/ (a = 192 /\ b = 168) \/ (a = 169 /\ b = 254).

(** [hi] is the leading sixteen bits. *)
Definition private_v6 (hi : Z) : Prop := 0xfc00 <= hi < 0xfe00 \/ 0xfe80 <= hi < 0xfec0.

Ltac eval_closed :=
  repeat match goal with
  | |- context [(2 ^ ?x)] => let v := eval vm_compute in (2 ^ x) in change (2 ^ x) with v
  | |- context [(?x / ?y)] => let v := eval vm_compute in (x / y) in change (x / y) with v
  end.

Lemma prefix_eq ip base k : 0 < k -> ip / k = base / k <-> base / k * k <= ip < (base / k + 1) * k.
Proof.
  intros Hk. pose proof (Z.div_mod ip k ltac:(lia)). pose proof (Z.mod_pos_bound ip k Hk). split; [nia|].
  intros Hr. assert (0 <= ip - base / k * k < k) by lia.
  symmetry. apply (Z.div_unique ip k (base / k) (ip - base / k * k)); lia.
Qed.

Lemma default_v4 a b c d :
  0 <= a < 256 -> 0 <= b < 256 -> 0 <= c < 256 -> 0 <= d < 256 ->
  let ip := ((a * 256 + b) * 256 + c) * 256 + d in
  in_block (mkIPBlock "0.0.0.0/0" ["10.0.0.0/8"; "172.16.0.0/12"; "192.168.0.0/16"; "169.254.0.0/16"]) (V4 ip)
  = true <-> ~ private_v4 a b.
Proof.
  intros Ha Hb Hc Hd ip. unfold in_block. cbn [ibCIDR ibExcept existsb].
  rewrite (in_cidr_v4 "0.0.0.0/0" 0 0 ip "0.0.0.0" "0") by (done || reflexivity).
  rewrite (in_cidr_v4 "10.0.0.0/8" 8 0x0a000000 ip "10.0.0.0" "8") by (done || reflexivity).
  rewrite (in_cidr_v4 "172.16.0.0/12" 12 0xac100000 ip "172.16.0.0" "12") by (done || reflexivity).
  rewrite (in_cidr_v4 "192.168.0.0/16" 16 0xc0a80000 ip "192.168.0.0" "16") by (done || reflexivity).
  rewrite (in_cidr_v4 "169.254.0.0/16" 16 0xa9fe0000 ip "169.254.0.0" "16") by (done || reflexivity).
  rewrite andb_true_iff, negb_true_iff, !orb_false_iff, bool_decide_eq_true, !bool_decide_eq_false.
  rewrite !prefix_eq by done. unfold private_v4, ip.
  eval_closed. lia.
Qed.

Lemma default_v6 hi lo :
  0 <= hi < 2 ^ 16 -> 0 <= lo < 2 ^ 112 ->
  in_block (mkIPBlock "::/0" ["fc00::/7"; "fe80::/10"]) (V6 (hi * 2 ^ 112 + lo)) = true <-> ~ private_v6 hi.
Proof.
  intros Hh Hl. set (ip := hi * 2 ^ 112 + lo). unfold in_block. cbn [ibCIDR ibExcept existsb].
  rewrite (in_cidr_v6 "::/0" 0 0 ip "::" "0") by (done || reflexivity).
  rewrite (in_cidr_v6 "fc00::/7" 7 (0xfc00 * 2 ^ 112) ip "fc00::" "7") by (done || reflexivity).
  rewrite (in_cidr_v6 "fe80::/10" 10 (0xfe80 * 2 ^ 112) ip "fe80::" "10") by (done || reflexivity).
  rewrite andb_true_iff, negb_true_iff, !orb_false_iff, bool_decide_eq_true, !bool_decide_eq_false.
  rewrite !prefix_eq by done. unfold private_v6, ip. revert Hl. eval_closed. lia.
Qed.

(** The default policy means what its comment says.  Every pod it applies
    to is one labelled with the hash of the template; the only pods that may
    open a connection to it are the router's, in the namespace the operator is
    configured with (the default one when unset); it may reach every IPv4
    address outside 10/8, 172.16/12, 192.168/16 and 169.254/16 and none inside,
    and every IPv6 address outside fc00::/7 and fe80::/10 and none inside. *)
Theorem default_policy_isolates name router own src a b c d hi lo :
  let spec := buildDefaultNetworkPolicySpec name router in
  let ns := if bool_decide (router = "") then "cocoon-sandbox-system" else router in
  0 <= a < 256 -> 0 <= b < 256 -> 0 <= c < 256 -> 0 <= d < 256 ->
  0 <= hi < 2 ^ 16 -> 0 <= lo < 2 ^ 112 ->
  (forall labels, selects (npPodSelector spec) labels = true <->
     labels !! WarmPoolController.sandboxTemplateRefHash = Some (WarmPoolController.SandboxTemplateRefHash name)) /\
  (admits_ingress own spec src = true <->
     srcNamespaceLabels src !! "kubernetes.io/metadata.name" = Some ns /\
     srcPodLabels src !! "app" = Some "sandbox-router") /\
  (admits_egress spec (dotted a b c d) = true <-> ~ private_v4 a b) /\
  (admits_egress spec (V6 (hi * 2 ^ 112 + lo)) = true <-> ~ private_v6 hi).
Proof.
  intros spec ns Ha Hb Hc Hd Hh Hl.
  assert (forall k v (m : strmap), bool_decide ({[k := v]} ⊆ m) = true <-> m !! k = Some v) as Hsel.
  { intros k v m. rewrite bool_decide_eq_true. apply map_singleton_subseteq_l. }
  split_and!.
  - intros labels. apply Hsel.
  - unfold admits_ingress, spec. cbn [npPolicyTypes npIngress buildDefaultNetworkPolicySpec existsb irFrom].
    rewrite bool_decide_true by set_solver. cbn [negb orb]. rewrite !orb_false_r. unfold peer_pod.
    cbn [peIPBlock peNamespaceSelector pePodSelector]. rewrite andb_true_iff. unfold selects.
    cbn [lsMatchLabels matching]. by rewrite !Hsel.
  - unfold admits_egress, spec. cbn [npPolicyTypes npEgress buildDefaultNetworkPolicySpec existsb erTo peIPBlock].
    rewrite bool_decide_true by set_solver. unfold dotted.
    rewrite in_block_v4_default, !orb_false_r. by apply default_v4.
  - unfold admits_egress, spec. cbn [npPolicyTypes npEgress buildDefaultNetworkPolicySpec existsb erTo peIPBlock].
    rewrite bool_decide_true by set_solver.
    rewrite in_block_v6_default, !orb_false_r. by apply default_v6.
Qed.

Lemma default_policy_isolates_witness :
  let spec := buildDefaultNetworkPolicySpec "py" "" in
  (admits_egress spec (dotted 172 20 0 1) = false /\ admits_egress spec (dotted 172 32 0 1) = true) /\
  (admits_egress spec (dotted 172 20 0 1) = true <-> ~ private_v4 172 20).
Proof.
  split; [split; vm_compute; reflexivity|].
  refine (proj1 (proj2 (proj2 (default_policy_isolates "py" "" "default" (mkSource "" ∅ ∅)
    172 20 0 1 0x2001 5 _ _ _ _ _ _)))); lia.
Defined.

(** ** Whose objects the controller writes *)

Section writes.
Context `{OwnerLaws} (RouterNamespace ns name uid : string).

(** The template of the request keeps its identity across the calls. *)
Definition the_template (t : SandboxTemplate) : Prop :=
  tplUID t = uid /\ tplName t = name /\ tplNamespace t = ns.

Definition honest : forall X, TemplateE X -> X -> Prop := fun X e =>
  match e in TemplateE X return X -> Prop with
  | TGetTemplate _ _ | TPatchTemplate _ _ =>
      fun r => match r with Ok t => the_template t | Err _ => True end
  | TGetNetworkPolicy ns' n =>
      fun r => match r with Ok np => mName (npMeta np) = n /\ mNamespace (npMeta np) = ns' | Err _ => True end
  | _ => fun _ => True
  end.

Definition its_policy (m : ObjectMeta) : Prop :=
  IsControlledBy m uid = true /\ mName m = name +:+ "-network-policy" /\ mNamespace m = ns.

(** The policy selects the template's own sandboxes and restricts both ways. *)
Definition confines (spec : NetworkPolicySpec) : Prop :=
  (forall labels, selects (npPodSelector spec) labels = true <->
     labels !! WarmPoolController.sandboxTemplateRefHash = Some (WarmPoolController.SandboxTemplateRefHash name)) /\
  npPolicyTypes spec = [PolicyTypeIngress; PolicyTypeEgress].

Definition template_safe : forall X, TemplateE X -> Prop := fun X e =>
  match e with
  | TPatchTemplate old new => the_template old /\ new = labelled old
  | TCreateNetworkPolicy np | TUpdateNetworkPolicy np => its_policy (npMeta np) /\ confines (npSpec np)
  | TDeleteNetworkPolicy np => its_policy (npMeta np)
  | _ => True
  end.

Lemma desired_confines t : the_template t -> confines (desiredSpecOf RouterNamespace t).
Proof.
  intros (_ & Hn & _). unfold desiredSpecOf.
  assert (forall labels : strmap, bool_decide ({[WarmPoolController.sandboxTemplateRefHash :=
    WarmPoolController.SandboxTemplateRefHash name]} ⊆ labels) = true <->
    labels !! WarmPoolController.sandboxTemplateRefHash = Some (WarmPoolController.SandboxTemplateRefHash name)) as Hs.
  { intros labels. rewrite bool_decide_eq_true. apply map_singleton_subseteq_l. }
  destruct (tplNetworkPolicy t); (split; [|reflexivity]); intros labels; unfold selects, buildDefaultNetworkPolicySpec;
    cbn [npPodSelector lsMatchLabels matching]; rewrite Hn; apply Hs.
Qed.

Lemma fresh_controlled t m' :
  the_template t ->
  SetControllerReference (templateOwner t)
    (mkMeta (npNameOf t) "" (tplNamespace t) "" "" 0 0 None ∅ ∅ []) = Ok m' -> its_policy m'.
Proof.
  intros (Hu & Hn & Hns) E. unfold its_policy, IsControlledBy.
  destruct (set_controller_Ok _ _ _ E) as (r & -> & Hr & _). destruct (set_controller_frame _ _ _ E) as [rs ->].
  cbn in *. rewrite bool_decide_true by congruence. unfold npNameOf. by rewrite Hn, Hns.
Qed.

Lemma reconcileUnmanaged_safe t :
  the_template t -> spec template_safe honest (fun _ => True) (reconcileUnmanaged t).
Proof.
  intros (Hu & Hn & Hns). split; [done|]. intros [np|e] Hnp; cbn; [|by destruct (IsNotFound e)].
  destruct (IsControlledBy (npMeta np) (tplUID t)) eqn:Ec; [|done]. cbn. split; [|done].
  destruct Hnp as [Hn' Hns']. unfold its_policy, npNameOf in *. rewrite Hu in Ec. by rewrite Ec, Hn', Hns', Hn, Hns.
Qed.

Lemma reconcileManaged_safe t :
  the_template t -> spec template_safe honest (fun _ => True) (reconcileManaged RouterNamespace t).
Proof.
  intros Ht. split; [done|]. intros [np|e] Hnp; cbn.
  - destruct (IsControlledBy (npMeta np) (tplUID t)) eqn:Ec; [|done]. cbn.
    case_bool_decide; [done|]. split; [|done]. split; [|by apply desired_confines].
    destruct Hnp as [Hn' Hns']. destruct Ht as (Hu & Hn & Hns). cbn. unfold its_policy, npNameOf in *.
    rewrite Hu in Ec. by rewrite Ec, Hn', Hns', Hn, Hns.
  - destruct (IsNotFound e); [|done]. cbn.
    destruct (SetControllerReference _ _) as [m|e'] eqn:E; [|done]. split; [|done].
    split; [by eapply fresh_controlled|by apply desired_confines].
Qed.

Lemma ensureLabel_safe t :
  the_template t ->
  spec template_safe honest (fun r => the_template r.1) (ensureTemplateRefHashLabel t).
Proof.
  intros Ht. unfold ensureTemplateRefHashLabel. destruct (mDeletionTimestamp _); [done|].
  destruct (bool_decide _); [done|]. split; [done|]. intros [t'|e] Hr; [done|]. exact Ht.
Qed.

End writes.

(** C31.  Whatever the API server answers, the template controller writes only
    its own objects.  The one field it patches on a template is the ref-hash
    label; it creates, updates and deletes only the network policy named after
    the template, in its namespace, under its control (a policy of that name
    controlled by somebody else is never touched); and each policy it writes
    selects exactly the sandboxes labelled with the template's hash and
    restricts both directions. *)
Theorem template_writes_safe `{OwnerLaws} RouterNamespace ns name uid :
  spec (template_safe ns name uid) (honest ns name uid) (fun _ => True) (Reconcile RouterNamespace ns name).
Proof.
  split; [done|]. intros [t|e] Ht; cbn; [|by destruct (IsNotFound e)].
  cbn [bind]. eapply spec_bind; [by apply ensureLabel_safe|]. intros [t' err] Ht'.
  destruct err; [done|]. destruct (mDeletionTimestamp _); [done|].
  destruct (bool_decide (_ = NetworkPolicyManagementUnmanaged)); [by apply reconcileUnmanaged_safe|
    by apply reconcileManaged_safe].
Qed.

(** ** Convergence *)

(** An API server holding the template and, possibly, the policy named after
    it; [wWrites] counts the writes.  It answers every call, and stores a policy
    with its defaults filled in. *)
Record world := mkWorld { wTemplate : SandboxTemplate; wPolicy : option NetworkPolicy; wWrites : nat }.

Section converge.
Context `{OwnerLaws} (RouterNamespace : string).

(** What the server fills into a policy. *)
Context (defaulted : NetworkPolicySpec -> NetworkPolicySpec).

Definition stored (np : NetworkPolicy) : NetworkPolicy := mkPolicy (npMeta np) (defaulted (npSpec np)).

Definition api : handler TemplateE world := fun X e =>
  match e in TemplateE X return world -> X * world with
  | TGetTemplate ns name => fun w =>
      (if bool_decide (name = tplName (wTemplate w) /\ ns = tplNamespace (wTemplate w))
       then Ok (wTemplate w) else Err (APIStatus ReasonNotFound name), w)
  | TPatchTemplate _ new => fun w => (Ok new, mkWorld new (wPolicy w) (S (wWrites w)))
  | TGetNetworkPolicy _ name => fun w =>
      (match wPolicy w with Some np => Ok np | None => Err (APIStatus ReasonNotFound name) end, w)
  | TCreateNetworkPolicy np | TUpdateNetworkPolicy np => fun w =>
      (None, mkWorld (wTemplate w) (Some (stored np)) (S (wWrites w)))
  | TDeleteNetworkPolicy _ => fun w => (None, mkWorld (wTemplate w) None (S (wWrites w)))
  end.

(** The policy the server holds has its defaults. *)
Definition policy_defaulted (p : option NetworkPolicy) : Prop :=
  match p with Some np => stored np = np | None => True end.

Definition unmanaged (t : SandboxTemplate) : Prop := tplNetworkPolicyManagement t = NetworkPolicyManagementUnmanaged.

Definition foreign (t : SandboxTemplate) (p : option NetworkPolicy) : Prop :=
  match p with Some np => IsControlledBy (npMeta np) (tplUID t) = false | None => False end.

Definition hash_labelled (t : SandboxTemplate) : Prop :=
  mget (mLabels (tplMeta t)) WarmPoolController.sandboxTemplateRefHash =
  WarmPoolController.SandboxTemplateRefHash (tplName t).

(** The state the controller is after: the desired rules, as the server stores
    them. *)
Definition settled_policy (t : SandboxTemplate) (p : option NetworkPolicy) : Prop :=
  (unmanaged t -> p = None) /\
  (~ unmanaged t -> exists np, p = Some np /\ IsControlledBy (npMeta np) (tplUID t) = true /\
                               npSpec np = defaulted (desiredSpecOf RouterNamespace t)).

(** The controller compares what the server stores with what it asks for: it is
    at rest if those are the same. *)
Definition at_rest (t : SandboxTemplate) : Prop :=
  unmanaged t \/ defaulted (desiredSpecOf RouterNamespace t) = desiredSpecOf RouterNamespace t.

#[export] Instance at_rest_dec t : Decision (at_rest t).
Proof. unfold at_rest, unmanaged. apply _. Defined.

Definition rewritten (w : world) : world := mkWorld (wTemplate w) (wPolicy w) (S (wWrites w)).

Definition reconcilePolicy (t : SandboxTemplate) : prog TemplateE (option gerror) :=
  let management := tplNetworkPolicyManagement t in
  let management :=
    if bool_decide (management = "") then WarmPoolController.NetworkPolicyManagementManaged else management in
  if bool_decide (management = NetworkPolicyManagementUnmanaged)
  then reconcileUnmanaged t else reconcileManaged RouterNamespace t.

Lemma management_unmanaged t :
  bool_decide ((if bool_decide (tplNetworkPolicyManagement t = "") then
     WarmPoolController.NetworkPolicyManagementManaged else tplNetworkPolicyManagement t)
     = NetworkPolicyManagementUnmanaged) = bool_decide (unmanaged t).
Proof.
  apply bool_decide_ext. unfold unmanaged. case_bool_decide as Hm; [rewrite Hm; done|done].
Qed.

(** One pass over the policy, from any state. *)
Lemma reconcilePolicy_run t w :
  wTemplate w = t -> policy_defaulted (wPolicy w) ->
  let '(err, w') := run api (reconcilePolicy t) w in
  wTemplate w' = t /\
  (foreign t (wPolicy w) -> wPolicy w' = wPolicy w /\ wWrites w' = wWrites w) /\
  (~ foreign t (wPolicy w) -> err = None /\ settled_policy t (wPolicy w')).
Proof.
  intros Hw Hdf. unfold reconcilePolicy. cbn zeta. rewrite management_unmanaged.
  case_bool_decide as Hu; unfold reconcileUnmanaged, reconcileManaged; cbn [bind call run api];
    destruct (wPolicy w) as [np|] eqn:Ep; cbn [bind IsNotFound has_reason status_of].
  - cbn. unfold settled_policy. destruct (IsControlledBy (npMeta np) (tplUID t)) eqn:Ec; cbn.
    + split_and!; [done|congruence|by split].
    + rewrite ?Ep. split_and!; [done|done|by intros []].
  - cbn. rewrite ?Ep. split_and!; [done|done|by split].
  - unfold settled_policy. cbn. destruct (IsControlledBy (npMeta np) (tplUID t)) eqn:Ec; cbn.
    + case_bool_decide as Hs; cbn.
      * rewrite ?Ep. split_and!; [done|congruence|]. intros _. split; [done|]. split; [done|]. intros _.
        exists np. split_and!; [done|done|]. destruct np as [m s]. injection Hdf as Hdf. cbn in *. congruence.
      * split_and!; [done|congruence|split; [done|split; [done|eauto]]].
    + rewrite ?Ep. split_and!; [done|done|by intros []].
  - cbn. set (m := mkMeta _ _ _ _ _ _ _ _ _ _ _).
    assert (GetControllerOf m = None) as Hc.
    { destruct (GetControllerOf m) eqn:E; [|done]. apply controller_Some in E as [E _]. by apply elem_of_nil in E. }
    pose proof (set_controller_free (templateOwner t) m Hc) as Hok.
    destruct (SetControllerReference (templateOwner t) m) as [m'|] eqn:E; [|done]. cbn.
    destruct (set_controller_Ok _ _ _ E) as (r & Hr & Hru & _).
    split_and!; [done|done|]. intros _. split; [done|]. split; [done|]. intros _. eexists.
    split_and!; [reflexivity| |reflexivity]. cbn. unfold IsControlledBy. rewrite Hr. by apply bool_decide_true.
Qed.

(** One pass over a settled policy. *)
Lemma reconcilePolicy_again t w :
  wTemplate w = t -> settled_policy t (wPolicy w) ->
  (run api (reconcilePolicy t) w).2 = if bool_decide (at_rest t) then w else rewritten w.
Proof.
  intros Hw [Hs1 Hs2]. unfold reconcilePolicy. cbn zeta. rewrite management_unmanaged.
  destruct (decide (unmanaged t)) as [Hu|Hu].
  - rewrite (bool_decide_true (unmanaged t)), (bool_decide_true (at_rest t)) by (done || by left).
    unfold reconcileUnmanaged. cbn [bind call run api]. by rewrite (Hs1 Hu).
  - rewrite (bool_decide_false (unmanaged t)) by done. destruct (Hs2 Hu) as (np & Hp & Hc & Hn).
    unfold reconcileManaged. cbn [bind call run api]. rewrite Hp. cbn [bind]. rewrite Hc. cbn [negb].
    assert (bool_decide (npSpec np = desiredSpecOf RouterNamespace t) = bool_decide (at_rest t)) as ->.
    { apply bool_decide_ext. rewrite Hn. unfold at_rest. tauto. }
    case_bool_decide; [done|]. cbn. unfold rewritten. rewrite Hp. destruct np as [m s]. cbn in *. by subst.
Qed.

Lemma Reconcile_run w :
  mDeletionTimestamp (tplMeta (wTemplate w)) = None ->
  let t := wTemplate w in
  let w0 := if bool_decide (hash_labelled t) then w else mkWorld (labelled t) (wPolicy w) (S (wWrites w)) in
  run api (Reconcile RouterNamespace (tplNamespace t) (tplName t)) w =
  run api (reconcilePolicy (wTemplate w0)) w0.
Proof.
  intros Hd t w0. unfold Reconcile. rewrite run_bind. cbn [call run api].
  rewrite bool_decide_true by done. cbn [run]. rewrite run_bind. unfold ensureTemplateRefHashLabel.
  fold t. fold t in Hd. rewrite Hd. fold (hash_labelled t). unfold w0.
  case_bool_decide; cbn [run]; [by rewrite Hd|].
  cbn [bind call run api]. change (mDeletionTimestamp (tplMeta (labelled t))) with (mDeletionTimestamp (tplMeta t)).
  by rewrite Hd.
Qed.

Lemma labelled_hash t : hash_labelled (labelled t).
Proof. unfold hash_labelled, labelled, mget. cbn. by rewrite lookup_insert_eq. Qed.

(** C32.  One pass over a template settles it, against an API server that
    answers every call and stores a policy with its own defaults filled in
    ([defaulted], whatever they are).  The template carries its hash label; if
    the policy slot was free or the template's own, it ends up holding a policy
    under the template's control with the desired rules as the server stores
    them (or no policy when management is off); if it holds somebody else's
    policy, that one is left as it was.  From then on a pass changes nothing:
    it writes nothing at all exactly if the server has nothing to fill into the
    desired rules, and otherwise repeats one update to the same effect
    ([default_policy_at_rest], [port_without_protocol]). *)
Theorem template_converges w :
  mDeletionTimestamp (tplMeta (wTemplate w)) = None -> policy_defaulted (wPolicy w) ->
  let t := wTemplate w in
  let pass := run api (Reconcile RouterNamespace (tplNamespace t) (tplName t)) in
  let '(err, w1) := pass w in
  (wTemplate w1 = t \/ wTemplate w1 = labelled t) /\ hash_labelled (wTemplate w1) /\
  (foreign t (wPolicy w) -> wPolicy w1 = wPolicy w) /\
  (~ foreign t (wPolicy w) ->
   err = None /\ settled_policy t (wPolicy w1) /\
   (pass w1).2 = if bool_decide (at_rest t) then w1 else rewritten w1).
Proof.
  intros Hd Hdf. cbn zeta. rewrite (Reconcile_run w Hd). set (t := wTemplate w).
  set (w0 := if bool_decide (hash_labelled t) then _ else _).
  assert (wPolicy w0 = wPolicy w /\ (wTemplate w0 = t \/ wTemplate w0 = labelled t) /\
          hash_labelled (wTemplate w0)) as (Hp & Ht & Hl).
  { unfold w0. case_bool_decide; [by split_and!; [|left|]|]. split_and!; [done|by right|apply labelled_hash]. }
  assert (forall p, foreign (wTemplate w0) p <-> foreign t p) as Hf by (intros p; by destruct Ht as [-> | ->]).
  assert (forall p, settled_policy (wTemplate w0) p <-> settled_policy t p) as Hs by (intros p; by destruct Ht as [-> | ->]).
  pose proof (reconcilePolicy_run (wTemplate w0) w0 eq_refl) as Hr.
  destruct (run api (reconcilePolicy (wTemplate w0)) w0) as [err w1].
  destruct Hr as (Ht1 & H1 & H2); [by rewrite Hp|].
  rewrite Hp, Hf in *. rewrite Ht1. split_and!; [done|done|by intros []%H1|].
  intros [-> Hset]%H2. rewrite Hs in Hset. split_and!; [done..|].
  assert (tplName t = tplName (wTemplate w1) /\ tplNamespace t = tplNamespace (wTemplate w1)) as [-> ->]
    by (rewrite Ht1; by destruct Ht as [-> | ->]).
  rewrite Reconcile_run by (rewrite Ht1; destruct Ht as [-> | ->]; done).
  rewrite bool_decide_true by (rewrite Ht1; done).
  rewrite Ht1, (reconcilePolicy_again (wTemplate w0)) by (done || by apply Hs).
  by destruct Ht as [-> | ->].
Qed.

End converge.

Section witnesses.
#[local] Existing Instance Reference.owners.
#[local] Existing Instance Reference.owners_laws.

(** The defaults the API server documents for a policy's ports: the protocol of a
    port that names none is TCP. *)
Definition tcp_port (p : NetworkPolicyPort) : NetworkPolicyPort :=
  if bool_decide (prProtocol p = "") then mkPort "TCP" (prRest p) else p.

Definition tcp_ports (s : NetworkPolicySpec) : NetworkPolicySpec :=
  mkPolicySpec (npPodSelector s) (npPolicyTypes s)
    ((fun r => mkIngress (tcp_port <$> irPorts r) (irFrom r)) <$> npIngress s)
    ((fun r => mkEgress (tcp_port <$> erPorts r) (erTo r)) <$> npEgress s).

(** The controller's own default policy names no ports: it is at rest. *)
Lemma default_policy_at_rest router t :
  tplNetworkPolicy t = None -> at_rest router tcp_ports t.
Proof. intros Hn. right. unfold desiredSpecOf. by rewrite Hn. Qed.

Definition demo_meta : ObjectMeta := mkMeta "py" "" "prod" "u-1" "" 1 0 None ∅ ∅ [].
Definition demo_template : SandboxTemplate :=
  mkTemplate demo_meta (ssBlueprint emptySpec) None "" "" "".

Lemma template_writes_safe_witness :
  spec (template_safe "prod" "py" "u-1") (honest "prod" "py" "u-1") (fun _ => True)
    (Reconcile "router-ns" "prod" "py").
Proof. apply (template_writes_safe "router-ns" "prod" "py" "u-1"). Defined.

Lemma template_converges_witness :
  let pass := run (api tcp_ports) (Reconcile "" "prod" "py") in
  let w1 := (pass (mkWorld demo_template None 0)).2 in
  wWrites w1 = 2%nat /\ (pass w1).2 = w1.
Proof.
  cbv zeta. split; [vm_compute; reflexivity|].
  pose proof (template_converges "" tcp_ports (mkWorld demo_template None 0) eq_refl I) as Hc. revert Hc. cbn zeta.
  change (tplNamespace (wTemplate (mkWorld demo_template None 0))) with "prod".
  change (tplName (wTemplate (mkWorld demo_template None 0))) with "py".
  destruct (run (api tcp_ports) (Reconcile "" "prod" "py") (mkWorld demo_template None 0)) as [err w1].
  intros (_ & _ & _ & Hc). destruct Hc as (_ & _ & Hc); [by intros []|]. change ((err, w1).2) with w1. rewrite Hc.
  assert (at_rest "" tcp_ports demo_template) as Hr by (by apply default_policy_at_rest).
  cbn [wTemplate]. by rewrite (bool_decide_true _ Hr).
Defined.

(** A template that opens a port without naming a protocol: the stored policy
    names TCP, the desired one does not, and every pass updates it again. *)
Definition open_port : SandboxTemplate :=
  mkTemplate demo_meta (ssBlueprint emptySpec)
    (Some (mkTemplateRules [mkIngress [mkPort "" "8080"] []] [])) "" "" "".

Lemma port_without_protocol :
  let pass := run (api tcp_ports) (Reconcile "" "prod" "py") in
  let w1 := (pass (mkWorld open_port None 0)).2 in
  let w2 := (pass w1).2 in let w3 := (pass w2).2 in
  (wWrites w1, wWrites w2, wWrites w3) = (2, 3, 4)%nat /\ wPolicy w2 = wPolicy w1 /\ wPolicy w3 = wPolicy w1.
Proof. vm_compute. by split_and!. Qed.

End witnesses.

End TemplateFacts.
