(* ===== verification/Inventory.v ===== *)
(** * Inventory: publishing node inventories and reading them back.

    Models the write path of the aggregated API in
    [pkg/scale/sandboxstore_impl.go]: the per-node publisher, its server-side
    apply, and the two inventory sources the store reads from (the in-memory
    one, which is also the publish target of the benchmarks, and the one backed
    by the API client). *)

From S2P Require Import Prelude GoStrings K8s PoolKey SandboxId Types StoreModel.

Module Inventory.
Import Store ClaimRef.
#[local] Open Scope prog_scope.

(** ** The publisher *)

Inductive PublishE : Type -> Type :=
| PLiveSandboxes : PublishE (result (list InventoryEntry))
| PApply (inv : NodeInventory) : PublishE (option gerror)
| PTick : PublishE bool.                       (* the ticker fired, or ctx is done *)

(** The resource version is the server's to assign; the object's name is its
    node. *)
Definition summary (node : string) (entries : list InventoryEntry) : NodeInventory :=
  mkInventory "" node entries "" [].

Definition Publish (node : string) : prog PublishE (result Z) :=
  r <- call PLiveSandboxes;;
  match r with
  | Err err => Ret (Err (Wrap ("scale: read node " +:+ node +:+ " live sandboxes") err))
  | Ok entries =>
      e <- call (PApply (summary node entries));;
      match e with
      | Some err => Ret (Err (Wrap ("scale: apply node " +:+ node +:+ " inventory") err))
      | None => Ret (Ok (Z.of_nat (length entries)))
      end
  end.

(** [rounds] bounds the ticks looked at; the code stops only when the context
    is done.  A failed publish is logged and the loop goes on. *)
Fixpoint PublishPeriodically (rounds : nat) (node : string) : prog PublishE unit :=
  match rounds with
  | O => Ret tt
  | S rounds =>
      Publish node;;;
      tick <- call PTick;;
      if tick : bool then PublishPeriodically rounds node else Ret tt
  end.

(** ** The in-memory source *)

Record StaticInventorySource := mkStatic {
  inv : gmap string NodeInventory; partition : gset string; applies : Z
}.

Definition NewStaticInventorySource : StaticInventorySource := mkStatic ∅ ∅ 0.

Definition Put (i : NodeInventory) (s : StaticInventorySource) : StaticInventorySource :=
  mkStatic (<[niNode i := i]> (inv s)) (partition s) (applies s).

Definition Apply (i : NodeInventory) (s : StaticInventorySource) : option gerror * StaticInventorySource :=
  (None, mkStatic (<[niNode i := i]> (inv s)) (partition s) (applies s + 1)).

Definition Partition (node : string) (s : StaticInventorySource) : StaticInventorySource :=
  mkStatic (inv s) ({[node]} ∪ partition s) (applies s).

Definition Remove (node : string) (s : StaticInventorySource) : StaticInventorySource :=
  mkStatic (delete node (inv s)) (partition s ∖ {[node]}) (applies s).

Definition ListNodes (s : StaticInventorySource) : result (list string) :=
  Ok (sort_strings (map_to_list (inv s)).*1).

Definition NodeInventory_ (s : StaticInventorySource) (node : string) : result NodeInventory :=
  if bool_decide (node ∈ partition s)
  then Err (Errorf ("scale: node " +:+ node +:+ " partitioned from aggregated server"))
  else
    match inv s !! node with
    | None => Err (Errorf ("scale: no inventory published for node " +:+ node))
    | Some i => Ok i
    end.

Definition ObjectCount (s : StaticInventorySource) : Z := Z.of_nat (size (inv s)).
Definition ApplyCount (s : StaticInventorySource) : Z := applies s.

(** ** Server-side apply and the client-backed source *)

(** [runtime.DefaultUnstructuredConverter] and the accessors of
    [unstructured.Unstructured], over their representation [U]. *)
Class Unstructured (U : Type) := {
  ToUnstructured : NodeInventory -> result U;
  FromUnstructured : U -> result NodeInventory;
  SetGroupVersionKind : string -> U -> U;
  SetName : string -> U -> U;
  GetName : U -> string;
  GetGroupVersionKind : U -> string;
}.

Class UnstructuredLaws (U : Type) `{Unstructured U} : Prop := {
  get_set_name n u : GetName (SetName n u) = n;
  get_gvk_name n u : GetGroupVersionKind (SetName n u) = GetGroupVersionKind u;
  get_set_gvk g u : GetGroupVersionKind (SetGroupVersionKind g u) = g;
  (* name and kind live outside the fields the inventory decodes *)
  from_to i u n g : ToUnstructured i = Ok u -> FromUnstructured (SetName n (SetGroupVersionKind g u)) = Ok i;
}.

Inductive ClusterE (U : Type) : Type -> Type :=
| CApply (u : U) (fieldOwner : string) (force : bool) : ClusterE U (option gerror)
| CList (gvk : string) : ClusterE U (result (list U))
| CGet (gvk name : string) : ClusterE U (result U).
Arguments CApply {U} _ _ _.
Arguments CList {U} _.
Arguments CGet {U} _ _.

Definition NodeInventoryGVK : string := "extensions.agents.x-k8s.io/v1beta1, Kind=NodeInventory".
Definition NodeInventoryListGVK : string := "extensions.agents.x-k8s.io/v1beta1, Kind=NodeInventoryList".

Definition NewSSAInventoryApplier (fieldOwner : string) : string :=
  if bool_decide (fieldOwner = "") then "cocoon-node-inventory-publisher" else fieldOwner.

Section client.
Context {U : Type} `{Unstructured U}.

Definition ssaApply (fieldOwner : string) (i : NodeInventory) : prog (ClusterE U) (option gerror) :=
  match ToUnstructured i with
  | Err err => Ret (Some (Wrap "scale: encode node inventory" err))
  | Ok raw =>
      let u := SetName (niNode i) (SetGroupVersionKind NodeInventoryGVK raw) in
      e <- call (CApply u fieldOwner true);;
      Ret (Wrap "scale: server-side-apply node inventory" <$> e)
  end.

Definition ClientListNodes : prog (ClusterE U) (result (list string)) :=
  r <- call (CList NodeInventoryListGVK);;
  match r with
  | Err err => Ret (Err (Wrap "scale: list node inventories" err))
  | Ok items => Ret (Ok (sort_strings (GetName <$> items)))
  end.

Definition ClientNodeInventory (node : string) : prog (ClusterE U) (result NodeInventory) :=
  r <- call (CGet NodeInventoryGVK node);;
  match r with
  | Err err => Ret (Err (Wrap ("scale: get node " +:+ node +:+ " inventory") err))
  | Ok u =>
      match FromUnstructured u with
      | Err err => Ret (Err (Wrap ("scale: decode node " +:+ node +:+ " inventory") err))
      | Ok i => Ret (Ok i)
      end
  end.

(** An inventory applied through the client reads back as it was published,
    from any server that keeps an applied object under its name. *)
Lemma apply_read_back `{!UnstructuredLaws U} owner i u :
  ToUnstructured i = Ok u ->
  let stored := SetName (niNode i) (SetGroupVersionKind NodeInventoryGVK u) in
  ssaApply owner i = (e <- call (CApply stored owner true);;
                      Ret (Wrap "scale: server-side-apply node inventory" <$> e)) /\
  GetName stored = niNode i /\ GetGroupVersionKind stored = NodeInventoryGVK /\
  history (fun X (e : ClusterE U X) => match e with
             | CGet gvk name => fun r => gvk = NodeInventoryGVK -> name = niNode i -> r = Ok stored
             | _ => fun _ => True end)
    (fun r _ => r = Ok i) (ClientNodeInventory (niNode i)) [].
Proof.
  intros E stored. unfold ssaApply. rewrite E. split_and!; [done|apply get_set_name| |].
  - unfold stored. by rewrite get_gvk_name, get_set_gvk.
  - intros r Hr. rewrite (Hr eq_refl eq_refl). cbn [bind]. unfold stored. by rewrite (from_to i u _ _ E).
Qed.

End client.

(** ** The publisher against the in-memory source *)

(** The node's live state at each round, and the source published into; the
    ticker keeps firing. *)
Definition publish_env : handler PublishE (list (result (list InventoryEntry)) * StaticInventorySource) := fun X e =>
  match e in PublishE X return _ -> X * _ with
  | PLiveSandboxes => fun '(live, src) =>
      match live with r :: live => (r, (live, src)) | [] => (Err (Errorf "no live state"), ([], src)) end
  | PApply i => fun '(live, src) => let '(e, src) := Apply i src in (e, (live, src))
  | PTick => fun st => (true, st)
  end.

Definition published (node : string) (src : StaticInventorySource) (r : result (list InventoryEntry)) : StaticInventorySource :=
  match r with Ok entries => (Apply (summary node entries) src).2 | Err _ => src end.

(** A failed read of the live state costs one round and nothing else: each
    later round publishes the whole live state again. *)
Lemma publisher_rebuilds node live src :
  run publish_env (PublishPeriodically (length live) node) (live, src) =
  (tt, ([], foldl (published node) src live)).
Proof.
  revert src. induction live as [|r live IH]; intros src; [done|]. cbn [length PublishPeriodically foldl].
  rewrite run_bind. destruct r as [entries|e]; cbn; apply IH.
Qed.

(** ** The fleet behind the in-memory source *)

Inductive source_op :=
| OpPut (i : NodeInventory) | OpApply (i : NodeInventory) | OpPartition (node : string) | OpRemove (node : string).

Definition source_step (s : StaticInventorySource) (o : source_op) : StaticInventorySource :=
  match o with
  | OpPut i => Put i s
  | OpApply i => (Apply i s).2
  | OpPartition n => Partition n s
  | OpRemove n => Remove n s
  end.

(** Every inventory is filed under its own node. *)
Definition filed (s : StaticInventorySource) : Prop :=
  map_Forall (fun n i => niNode i = n) (inv s) /\ 0 <= applies s.

Lemma filed_step s o : filed s -> filed (source_step s o).
Proof.
  intros [Hf Ha]. destruct o; split; cbn; try done; try lia;
    [by apply map_Forall_insert_2..|by apply map_Forall_delete].
Qed.

Lemma filed_reachable ops : filed (foldl source_step NewStaticInventorySource ops).
Proof.
  assert (forall s, filed s -> filed (foldl source_step s ops)) as Hs.
  { induction ops as [|o ops IH]; intros s Hf; [done|]. by apply IH, filed_step. }
  apply Hs. split; [apply map_Forall_empty|done].
Qed.

(** What the last operation on a node left. *)
Definition last_op (node : string) (ops : list source_op) : option NodeInventory * bool :=
  foldl (fun '(i, cut) o =>
    match o with
    | OpPut i' | OpApply i' => if bool_decide (niNode i' = node) then (Some i', cut) else (i, cut)
    | OpPartition n => if bool_decide (n = node) then (i, true) else (i, cut)
    | OpRemove n => if bool_decide (n = node) then (None, false) else (i, cut)
    end) (None, false) ops.

Lemma last_op_correct node ops :
  let s := foldl source_step NewStaticInventorySource ops in
  (inv s !! node, bool_decide (node ∈ partition s)) = last_op node ops.
Proof.
  cbn zeta. unfold last_op. induction ops as [|o ops IH] using rev_ind; [done|].
  rewrite !foldl_app. cbn [foldl]. rewrite <-IH.
  set (s := foldl source_step _ _). destruct o as [i|i|n|n]; cbn [source_step Put Apply Partition Remove inv partition snd].
  1,2: destruct (decide (niNode i = node)) as [E|E];
    [by rewrite (bool_decide_true _ E), <-E, lookup_insert_eq|
     by rewrite (bool_decide_false _ E), lookup_insert_ne].
  - destruct (decide (n = node)) as [E|E];
      [rewrite (bool_decide_true (n = node)) by done|rewrite (bool_decide_false (n = node)) by done]; f_equal;
      [apply bool_decide_true|apply bool_decide_ext]; set_solver.
  - destruct (decide (n = node)) as [E|E].
    + rewrite (bool_decide_true (n = node)), <-E, lookup_delete_eq by done. f_equal.
      apply bool_decide_false. set_solver.
    + rewrite (bool_decide_false (n = node)), lookup_delete_ne by done. f_equal. apply bool_decide_ext. set_solver.
Qed.

(** The store's calls answered from a source; the other calls get any answer. *)
Definition answers_from (src : StaticInventorySource) : forall X, StoreE X -> X -> Prop := fun X e =>
  match e in StoreE X return X -> Prop with
  | EListNodes => fun r => r = ListNodes src
  | ENodeInventory n => fun r => r = NodeInventory_ src n
  | _ => fun _ => True
  end.

Definition any_store_call : forall X, StoreE X -> Prop := fun _ _ => True.

(** The sandboxes of the nodes that can be reached. *)
Definition reported (src : StaticInventorySource) (view : Sandbox -> Sandbox) (keep : Sandbox -> bool) : list Sandbox :=
  concat ((fun '(n, i) =>
    if bool_decide (n ∈ partition src) then []
    else filter keep ((fun e => view (entryToSandbox n e)) <$> niEntries i)) <$> map_to_list (inv src)).

Lemma reconcilePending_idle s i : pending s = ∅ -> reconcilePending s i = s.
Proof.
  intros Hp. unfold reconcilePending. induction (niEntries i) as [|e es IH]; [done|]. cbn [fold_left].
  destruct (parseClaimRef (ieName e)) as [[ns name] uid]. unfold forgetClaim.
  rewrite Hp, lookup_empty. by destruct (bool_decide (name <> "")).
Qed.

Section listing.
Context (src : StaticInventorySource) (s : store) (ns : string) (labelSel fieldSel : strmap -> bool).

Definition chunk (n : string) : list Sandbox :=
  match NodeInventory_ src n with Ok i => materialize s i ns labelSel fieldSel | Err _ => [] end.

Lemma gather_from nodes :
  pending s = ∅ ->
  spec any_store_call (answers_from src) (fun r => r = (concat (chunk <$> nodes), s))
    (gather s nodes ns labelSel fieldSel).
Proof.
  intros Hp. induction nodes as [|n nodes IH]; [done|]. cbn [gather bind call]. split; [done|].
  intros r Hr. rewrite fmap_cons. cbn [concat]. unfold chunk at 1. cbn [answers_from] in Hr. rewrite <-Hr.
  destruct r as [i|e]; cbn [bind]; [|apply IH]. rewrite reconcilePending_idle by done.
  eapply spec_bind; [apply IH|]. by intros ? ->.
Qed.

Lemma chunks_reported :
  filed src ->
  concat (chunk <$> (map_to_list (inv src)).*1) =
  reported src (applyOverlay s) (selected ns labelSel fieldSel).
Proof.
  intros [Hf _]. unfold reported. f_equal. rewrite <-list_fmap_compose. apply list_fmap_ext.
  intros j [n i] Hj. apply list_elem_of_lookup_2, elem_of_map_to_list in Hj.
  unfold compose. cbn [fst]. unfold chunk, NodeInventory_, materialize. rewrite Hj.
  destruct (bool_decide (n ∈ partition src)); [done|]. by rewrite (Hf n i Hj).
Qed.

End listing.

#[global] Instance sandbox_le_total : Total sandbox_le.
Proof.
  intros a b. unfold sandbox_le. destruct (decide (sbNamespace a = sbNamespace b)) as [E|E].
  - rewrite decide_True by done. apply (total String.le).
  - rewrite decide_False by congruence. apply (total String.le).
Qed.

Lemma versions_any nodes max rsp :
  spec any_store_call rsp (fun _ => True) (max_inventory_version nodes max).
Proof.
  revert max. induction nodes as [|n nodes IH]; intros max; [done|]. cbn [max_inventory_version bind call].
  split; [done|]. intros [i|e] _; [|apply IH]. cbn [bind].
  destruct (bool_decide _); [apply IH|]. destruct (ParseUint _); apply IH.
Qed.

(** C24.  Publishing and listing compose.  Run any sequence of publishes,
    partitions and removals against the in-memory source, then list the store:
    for every node the source answers with the inventory published last, unless
    the node was partitioned or removed since; the number of durable objects is
    the number of nodes, however many sandboxes and publishes there were; and
    the list holds, in name order, exactly one sandbox for every entry of every
    reachable node that the selectors admit, seen through the overlays, when no
    claim is pending. *)
Theorem published_fleet_listed `{SelectorLib} ops s opts labelSel fieldSel :
  let src := foldl source_step NewStaticInventorySource ops in
  pending s = ∅ -> parseSelectors opts = Ok (labelSel, fieldSel) ->
  (forall node i, NodeInventory_ src node = Ok i <-> last_op node ops = (Some i, false)) /\
  (exists nodes, ListNodes src = Ok nodes /\ Sorted String.le nodes /\
     ObjectCount src = Z.of_nat (length nodes) /\ NoDup nodes /\
     forall node, node ∈ nodes <-> is_Some (last_op node ops).1) /\
  spec any_store_call (answers_from src)
    (fun r => r.2 = s /\ exists l, r.1 = Ok l /\ Sorted sandbox_le (slItems l) /\
       slItems l ≡ₚ reported src (applyOverlay s) (selected (loNamespace opts) labelSel fieldSel))
    (List_ s opts).
Proof.
  intros src Hp Hsel. split_and!.
  - intros node i. unfold src. rewrite <-last_op_correct. unfold NodeInventory_.
    destruct (bool_decide _); [split; [done|congruence]|].
    destruct (inv _ !! node); split; congruence.
  - eexists. split; [reflexivity|]. split; [apply sort_strings_sorted|].
    assert (sort_strings (map_to_list (inv src)).*1 ≡ₚ (map_to_list (inv src)).*1) as Hperm by apply sort_strings_perm.
    split_and!.
    + unfold ObjectCount. by rewrite Hperm, length_fmap, length_map_to_list.
    + rewrite Hperm. apply NoDup_fst_map_to_list.
    + intros node. rewrite Hperm. unfold src. rewrite <-last_op_correct. cbn [fst].
      rewrite list_elem_of_fmap. split.
      * intros ([n i] & -> & Hi%elem_of_map_to_list). eauto.
      * intros [i Hi]. exists (node, i). by rewrite elem_of_map_to_list.
  - unfold List_. rewrite Hsel. cbn [bind call]. split; [done|]. intros r Hr. cbn [answers_from] in Hr. subst r.
    cbn [ListNodes bind]. eapply spec_bind; [by apply (gather_from src)|]. intros [items s'] [= -> ->].
    unfold unconfirmed. cbn [bind call]. split; [done|]. intros now _. cbn [bind]. rewrite Hp, map_to_list_empty.
    cbn [fold_left]. unfold collectionResourceVersion.
    eapply (spec_bind _ _ (fun _ => True)); [eapply spec_bind; [apply versions_any|done]|]. intros rv _.
    split; [done|]. eexists. split; [done|]. cbn [slItems]. split; [apply (Sorted_merge_sort _)|].
    rewrite merge_sort_Permutation, app_nil_r, <-chunks_reported by apply filed_reachable.
    by rewrite (sort_strings_perm (map_to_list (inv src)).*1).
Qed.

Section witness.
#[local] Instance everything : SelectorLib := {|
  labels_Parse _ := Ok (fun _ => true); fields_ParseSelector _ := Ok (fun _ => true)
|}.

Definition entry (name id : string) : InventoryEntry := mkEntry name id "Running" "" "10.0.0.1".

Definition history_of_ops : list source_op :=
  [OpApply (summary "n1" [entry "a/x" "sb_1"]); OpApply (summary "n2" [entry "a/y" "sb_2"]); OpPartition "n2";
   OpApply (summary "n1" [entry "b/z" "sb_3"; entry "a/x" "sb_1"])].

Lemma published_fleet_listed_witness :
  let src := foldl source_step NewStaticInventorySource history_of_ops in
  ListNodes src = Ok ["n1"; "n2"] /\ ApplyCount src = 3 /\
  objKey <$> reported src id (fun _ => true) = ["b/z"; "a/x"] /\
  (NodeInventory_ src "n1" = Ok (summary "n1" [entry "b/z" "sb_3"; entry "a/x" "sb_1"]) <->
   last_op "n1" history_of_ops = (Some (summary "n1" [entry "b/z" "sb_3"; entry "a/x" "sb_1"]), false)).
Proof.
  split_and!; [vm_compute; reflexivity..|].
  apply (published_fleet_listed history_of_ops NewScatterGatherStore (mkListOptions "" "" "" false false)
           (fun _ => true) (fun _ => true)); reflexivity.
Defined.

End witness.

End Inventory.
