(* ===== verification/E2bModel.v ===== *)
(** * E2bModel: the e2b-compatible REST surface.

    Models [pkg/e2bcompat]: the API-key gate, the routes, and the handlers that
    translate an e2b call into calls on the sandbox store and the inventory
    source ([server.go], [lifecycle.go], [http.go], [types.go]).  The id
    rendering of [sandboxid.go] is [SandboxId.E2bId].  Timestamps stay times: the
    code prints them in RFC 3339. *)

From S2P Require Import Prelude GoStrings K8s PoolKey SandboxId Types StoreModel StoreLifecycle CocoonTypes.

Module E2b.
Import Pool Store StoreLifecycle E2bId.
#[local] Open Scope prog_scope.

(** ** Wire types *)

Record NewSandbox := mkNewSandbox {
  nsTemplateID : string;
  nsTimeout : option Z;                       (* *int32 *)
  nsMetadata : strmap;
  nsEnvVars : strmap;
  nsAutoPause : option bool;
  nsSecure : option bool;
  nsAllowInternetAccess : option bool;
}.

Record E2bSandbox := mkE2bSandbox {
  esTemplateID : string; esSandboxID : string; esClientID : string; esEnvdVersion : string;
  esEnvdAccessToken : string; esDomain : string
}.

(** The fields [detailFor] leaves at zero are left out. *)
Record SandboxDetail := mkDetail {
  sdTemplateID : string; sdSandboxID : string; sdClientID : string; sdStartedAt : Z; sdEndAt : Z;
  sdState : string; sdEnvdVersion : string; sdEnvdAccessToken : string; sdDomain : string
}.

Record SandboxTimeoutRequest := mkTimeoutRequest { trTimeout : Z }.
Record SandboxPauseRequest := mkPauseRequest { prMemory : option bool }.
Record ConnectSandbox := mkConnect { coTimeout : Z }.
Record SandboxForkRequest := mkForkRequest { frTimeout : option Z; frCount : option Z }.
Record SandboxSnapshotRequest := mkSnapshotRequest { srName : string }.
Record SnapshotInfo := mkSnapshotInfo { siSnapshotID : string; siNames : list string }.
Record SandboxMetric := mkMetric {
  smTimestamp : Z; smCPUCount : Z; smMemUsed : Z; smMemTotal : Z
}.
Record E2bTemplate := mkE2bTemplate {
  etTemplateID : string; etBuildID : string; etPublic : bool; etNames : list string; etEnvdVersion : string
}.

Definition StateRunning : string := "running".
Definition StatePaused : string := "paused".

Definition DefaultEnvdVersion : string := "0.4.0".
Definition DefaultTimeoutSeconds : Z := 15.
Definition phaseHibernated : string := "Hibernated".
Definition tokenAnnotation : string := "sandbox.cocoonstack.io/token".

(** What a handler writes. *)
Inductive Body :=
| NoBody
| BError (code : Z) (message : string)
| BSandbox (sb : E2bSandbox)
| BDetail (d : SandboxDetail)
| BDetails (ds : list SandboxDetail)
| BForks (cs : list E2bSandbox)               (* SandboxForkResult with Sandbox set *)
| BSnapshot (s : SnapshotInfo)
| BSnapshots (ss : list SnapshotInfo)
| BMetrics (ms : list SandboxMetric)
| BTemplates (ts : list E2bTemplate).

Record HttpResp := mkHttpResp { hrStatus : Z; hrBody : Body }.

Definition writeError (status : Z) (msg : string) : HttpResp := mkHttpResp status (BError status msg).
Definition writeJSON (status : Z) (b : Body) : HttpResp := mkHttpResp status b.
Definition noContent : HttpResp := mkHttpResp 204 NoBody.

(** ** What the server calls *)

Inductive E2bE : Type -> Type :=
| BList (opts : ListOptions) : E2bE (result (list Sandbox))
| BClaim (ns name : string) (pool : PoolKey) : E2bE (result Assignment)
| BRelease (node id : string) : E2bE (option gerror)
| BPause (node id : string) : E2bE (option gerror)
| BResume (node id : string) : E2bE (option gerror)
| BFork (node id : string) (count ttlSeconds : Z) : E2bE (result (list Assignment))
| BTakeSnapshot (node id name : string) : E2bE (result Snapshot_)
| BListSnapshots (node : string) : E2bE (result (list Snapshot_))
| BDeleteSnapshot (node snapshotID : string) : E2bE (option gerror)
| BStats (node id : string) : E2bE (result SandboxStats)
| BListNodes : E2bE (result (list string))
| BNodeInventory (node : string) : E2bE (result NodeInventory)
| BNow : E2bE Z
| BGenerateName (prefix : string) : E2bE string.

(** ** Configuration *)

(** [opHasInventory] is whether an inventory source is configured. *)
Record Options := mkOptions {
  opNamespace : string; opDomain : string; opEnvdVersion : string; opAPIKeys : list string;
  opAllowAnonymous : bool; opSizeClass : string; opHasInventory : bool
}.

Record Server := mkServer { svOpts : Options; svKeys : gset string }.

Definition orDefault (v d : string) : string := if bool_decide (v = "") then d else v.

Definition keySet (keys : list string) : gset string :=
  list_to_set (filter (fun k => k <> "") (TrimSpace <$> keys)).

(** [hasStore] is whether the store is non-nil. *)
Definition NewServer (hasStore : bool) (opts : Options) : result Server :=
  if negb hasStore then Err (Errorf "e2bcompat: store is required")
  else
    let opts := mkOptions (orDefault (opNamespace opts) "default") (opDomain opts)
                  (orDefault (opEnvdVersion opts) DefaultEnvdVersion) (opAPIKeys opts)
                  (opAllowAnonymous opts) (orDefault (opSizeClass opts) SizeSmall) (opHasInventory opts) in
    let keys := keySet (opAPIKeys opts) in
    if bool_decide (keys = ∅) && negb (opAllowAnonymous opts)
    then Err (Errorf "e2bcompat: no API key configured; set one or enable anonymous access explicitly")
    else Ok (mkServer opts keys).

Definition validKey (s : Server) (presented : string) : bool :=
  if bool_decide (presented = "") then false
  else existsb (fun k => bool_decide (k = presented)) (elements (svKeys s)).

(** ** Helpers *)

Definition claimIDOf (sb : Sandbox) : string := mget (sbAnnotations sb) ClaimIDAnnotation.

Definition templateOf (sb : Sandbox) : string :=
  match psContainers (ptSpec (ssPodTemplate (sbSpec sb))) with c :: _ => cnImage c | [] => "" end.

Definition netFor (allowInternet : option bool) : string :=
  match allowInternet with Some true => NetEgress | _ => NetDefault end.

Definition timeoutSeconds (v : option Z) : Z := default DefaultTimeoutSeconds v.

Definition snapshotInfo (snap : Snapshot_) : SnapshotInfo :=
  mkSnapshotInfo (snID snap) (if bool_decide (snName snap <> "") then [snName snap] else []).

(** The decoder over [MaxBytesReader]: [io.EOF] on an empty body. *)
Class Decoder (A : Type) := Decode : string -> result A.

Definition io_EOF : string := "EOF".

Section server.
Context (srv : Server).
Context `{Decoder NewSandbox} `{Decoder SandboxTimeoutRequest} `{Decoder SandboxPauseRequest}
  `{Decoder ConnectSandbox} `{Decoder SandboxForkRequest} `{Decoder SandboxSnapshotRequest}.

Definition opts : Options := svOpts srv.
Definition inNamespace : ListOptions := mkListOptions (opNamespace opts) "" "" false false.

Definition decodeOptional {A} `{Decoder A} (zero : A) (body : string) : result A :=
  match Decode body with
  | Ok a => Ok a
  | Err e => if errors_Is e io_EOF then Ok zero else Err e
  end.

Definition errSandboxNotFound : gerror := Sentinel "sandbox not found".

Definition firstMatch (id : string) (items : list Sandbox) : option Sandbox :=
  List.find (fun sb => matchesID (claimIDOf sb) id) items.

Definition lookup (id : string) : prog E2bE (result Sandbox) :=
  if bool_decide (TrimSpace id = "") then Ret (Err errSandboxNotFound)
  else
    r <- call (BList inNamespace);;
    match r with
    | Err e => Ret (Err e)
    | Ok items =>
        match firstMatch id items with
        | Some sb => Ret (Ok sb)
        | None => Ret (Err errSandboxNotFound)
        end
    end.

Definition writeLookupError (e : gerror) (id : string) : HttpResp :=
  if errors_Is e "sandbox not found" then writeError 404 ("sandbox " +:+ id +:+ " not found")
  else writeError 500 "failed to resolve the sandbox".

Definition badBody (e : gerror) : HttpResp := writeError 400 ("invalid request body: " +:+ Error_text e).

Definition detailFor (sb : Sandbox) : prog E2bE SandboxDetail :=
  let created := mCreationTimestamp (sbMeta sb) in
  started <- (if time_IsZero created then call BNow else Ret created);;
  Ret (mkDetail (templateOf sb) (publicID (claimIDOf sb)) (stNodeName (sbStatus sb)) started
         (time_Add started (DefaultTimeoutSeconds * time_second)) StateRunning (opEnvdVersion opts)
         (mget (sbAnnotations sb) tokenAnnotation) (opDomain opts)).

Fixpoint detailsFor (items : list Sandbox) : prog E2bE (list SandboxDetail) :=
  match items with
  | [] => Ret []
  | sb :: items => d <- detailFor sb;; ds <- detailsFor items;; Ret (d :: ds)
  end.

Definition isPaused (sb : Sandbox) : prog E2bE bool :=
  let cached := bool_decide (mget (sbLabels sb) PhaseLabel = phaseHibernated) in
  let node := stNodeName (sbStatus sb) in
  let id := claimIDOf sb in
  if bool_decide (node <> "") && bool_decide (id <> "") then
    r <- call (BStats node id);;
    Ret (match r with Ok st => ssPaused st | Err _ => cached end)
  else Ret cached.

(** ** Handlers *)

Definition sandboxOf (template id node token : string) : E2bSandbox :=
  mkE2bSandbox template (publicID id) node (opEnvdVersion opts) token (opDomain opts).

Definition createSandbox (body : string) : prog E2bE HttpResp :=
  match Decode body with
  | Err e => Ret (badBody e)
  | Ok req =>
      if bool_decide (TrimSpace (nsTemplateID req) = "") then Ret (writeError 400 "templateID is required")
      else
        name <- call (BGenerateName "e2b-");;
        let pool := mkPoolKey (nsTemplateID req) (netFor (nsAllowInternetAccess req)) (opSizeClass opts) in
        r <- call (BClaim (opNamespace opts) name pool);;
        match r with
        | Err e =>
            if IsNoWarmCapacity e then
              Ret (writeError 503 ("no warm sandbox available for template " +:+ nsTemplateID req
                                   +:+ "; retry as warm capacity refills"))
            else Ret (writeError 500 "failed to claim a sandbox")
        | Ok a =>
            Ret (writeJSON 201 (BSandbox (sandboxOf (nsTemplateID req) (asSandboxName a) (asNode a) (asToken a))))
        end
  end.

Definition listSandboxes : prog E2bE HttpResp :=
  r <- call (BList inNamespace);;
  match r with
  | Err e => Ret (writeError 500 "failed to list sandboxes")
  | Ok items => out <- detailsFor items;; Ret (writeJSON 200 (BDetails out))
  end.

Definition getSandbox (id : string) : prog E2bE HttpResp :=
  r <- lookup id;;
  match r with
  | Err e => Ret (writeLookupError e id)
  | Ok sb => d <- detailFor sb;; Ret (writeJSON 200 (BDetail d))
  end.

Definition deleteSandbox (id : string) : prog E2bE HttpResp :=
  r <- lookup id;;
  match r with
  | Err e => Ret (writeLookupError e id)
  | Ok sb =>
      let node := stNodeName (sbStatus sb) in
      if bool_decide (node = "") then Ret noContent
      else
        e <- call (BRelease node (claimIDOf sb));;
        match e with
        | Some e => Ret (writeError 500 "failed to release the sandbox")
        | None => Ret noContent
        end
  end.

Definition setTimeout (id body : string) : prog E2bE HttpResp :=
  match Decode body with
  | Err e => Ret (badBody e)
  | Ok req =>
      if bool_decide (trTimeout req < 0) then Ret (writeError 400 "timeout must be >= 0")
      else
        r <- lookup id;;
        match r with Err e => Ret (writeLookupError e id) | Ok _ => Ret noContent end
  end.

Definition refresh (id : string) : prog E2bE HttpResp :=
  r <- lookup id;;
  match r with Err e => Ret (writeLookupError e id) | Ok _ => Ret noContent end.

Definition pauseSandbox (id body : string) : prog E2bE HttpResp :=
  match decodeOptional (mkPauseRequest None) body with
  | Err e => Ret (badBody e)
  | Ok req =>
      r <- lookup id;;
      match r with
      | Err e => Ret (writeLookupError e id)
      | Ok sb =>
          paused <- isPaused sb;;
          if paused : bool then Ret (writeError 409 ("sandbox " +:+ id +:+ " is already paused"))
          else if bool_decide (prMemory req = Some false) then
            Ret (writeError 400 "filesystem-only pause (memory=false) is not supported; this backend always snapshots memory")
          else
            e <- call (BPause (stNodeName (sbStatus sb)) (claimIDOf sb));;
            match e with
            | Some e => Ret (writeError 500 "failed to pause the sandbox")
            | None => Ret noContent
            end
      end
  end.

Definition connectSandbox (id body : string) : prog E2bE HttpResp :=
  match decodeOptional (mkConnect 0) body with
  | Err e => Ret (badBody e)
  | Ok _ =>
      r <- lookup id;;
      match r with
      | Err e => Ret (writeLookupError e id)
      | Ok sb =>
          let reply status :=
            Ret (writeJSON status (BSandbox (sandboxOf (templateOf sb) (claimIDOf sb) (stNodeName (sbStatus sb))
                                               (mget (sbAnnotations sb) tokenAnnotation)))) in
          paused <- isPaused sb;;
          if paused : bool then
            e <- call (BResume (stNodeName (sbStatus sb)) (claimIDOf sb));;
            match e with
            | Some e => Ret (writeError 500 "failed to resume the sandbox")
            | None => reply 201
            end
          else reply 200
      end
  end.

Definition forkSandbox (id body : string) : prog E2bE HttpResp :=
  match decodeOptional (mkForkRequest None None) body with
  | Err e => Ret (badBody e)
  | Ok req =>
      let count := default 1 (frCount req) in
      if bool_decide (count < 1) then Ret (writeError 400 ("count must be >= 1, got " +:+ pretty count))
      else
        r <- lookup id;;
        match r with
        | Err e => Ret (writeLookupError e id)
        | Ok sb =>
            paused <- isPaused sb;;
            if paused : bool then
              Ret (writeError 409 ("sandbox " +:+ id +:+ " is paused and cannot be forked; resume it first"))
            else
              r <- call (BFork (stNodeName (sbStatus sb)) (claimIDOf sb) count (timeoutSeconds (frTimeout req)));;
              match r with
              | Err e => Ret (writeError 500 "failed to fork the sandbox")
              | Ok children =>
                  Ret (writeJSON 201 (BForks ((fun c =>
                    sandboxOf (templateOf sb) (asSandboxName c) (asNode c) (asToken c)) <$> children)))
              end
        end
  end.

Definition createSnapshot (id body : string) : prog E2bE HttpResp :=
  match decodeOptional (mkSnapshotRequest "") body with
  | Err e => Ret (badBody e)
  | Ok req =>
      r <- lookup id;;
      match r with
      | Err e => Ret (writeLookupError e id)
      | Ok sb =>
          r <- call (BTakeSnapshot (stNodeName (sbStatus sb)) (claimIDOf sb) (srName req));;
          match r with
          | Err e => Ret (writeError 500 "failed to snapshot the sandbox")
          | Ok snap => Ret (writeJSON 201 (BSnapshot (snapshotInfo snap)))
          end
      end
  end.

Definition nodesWithSandboxes : prog E2bE (result (list string)) :=
  if negb (opHasInventory opts) then Ret (Err (Errorf "e2bcompat: no inventory source configured"))
  else call BListNodes.

Fixpoint snapshotsOn (nodes : list string) : prog E2bE (list SnapshotInfo) :=
  match nodes with
  | [] => Ret []
  | node :: nodes =>
      r <- call (BListSnapshots node);;
      rest <- snapshotsOn nodes;;
      Ret (match r with Err _ => rest | Ok snaps => (snapshotInfo <$> snaps) ++ rest end)
  end.

Definition listSnapshots : prog E2bE HttpResp :=
  r <- nodesWithSandboxes;;
  match r with
  | Err e => Ret (writeError 500 "failed to list snapshots")
  | Ok nodes => out <- snapshotsOn nodes;; Ret (writeJSON 200 (BSnapshots out))
  end.

Fixpoint deleteOn (snapshotID : string) (nodes : list string) : prog E2bE unit :=
  match nodes with
  | [] => Ret tt
  | node :: nodes => call (BDeleteSnapshot node snapshotID);;; deleteOn snapshotID nodes
  end.

Definition deleteSnapshot (snapshotID : string) : prog E2bE HttpResp :=
  r <- nodesWithSandboxes;;
  match r with
  | Err e => Ret (writeError 500 "failed to delete the snapshot")
  | Ok nodes => deleteOn snapshotID nodes;;; Ret noContent
  end.

Definition sandboxMetrics (id : string) : prog E2bE HttpResp :=
  r <- lookup id;;
  match r with
  | Err e => Ret (writeLookupError e id)
  | Ok sb =>
      r <- call (BStats (stNodeName (sbStatus sb)) (claimIDOf sb));;
      match r with
      | Err e => Ret (writeError 500 "failed to read sandbox metrics")
      | Ok st =>
          at_ <- (if time_IsZero (ssMeasuredAt st) then call BNow else Ret (ssMeasuredAt st));;
          Ret (writeJSON 200 (BMetrics [mkMetric at_ (int32 (ssCPUCount st)) (ssMemUsedBytes st) (ssMemTotalBytes st)]))
      end
  end.

Fixpoint inventoriesOf (nodes : list string) : prog E2bE (list NodeInventory) :=
  match nodes with
  | [] => Ret []
  | node :: nodes =>
      r <- call (BNodeInventory node);;
      rest <- inventoriesOf nodes;;
      Ret (match r with Err _ => rest | Ok i => i :: rest end)
  end.

Definition inventories : prog E2bE (result (list NodeInventory)) :=
  if negb (opHasInventory opts) then Ret (Err (Errorf "e2bcompat: no inventory source configured"))
  else
    r <- call BListNodes;;
    match r with
    | Err e => Ret (Err e)
    | Ok nodes => invs <- inventoriesOf nodes;; Ret (Ok invs)
    end.

Definition templateEntry (name : string) : E2bTemplate := mkE2bTemplate name name true [name] (opEnvdVersion opts).

Fixpoint distinctTemplates (seen : gset string) (pools : list PoolCapacity) : list string :=
  match pools with
  | [] => []
  | pc :: pools =>
      if bool_decide (pcTemplate pc = "") || bool_decide (pcTemplate pc ∈ seen)
      then distinctTemplates seen pools
      else pcTemplate pc :: distinctTemplates ({[pcTemplate pc]} ∪ seen) pools
  end.

Definition listTemplates : prog E2bE HttpResp :=
  r <- inventories;;
  match r with
  | Err e => Ret (writeError 500 "failed to list templates")
  | Ok invs =>
      Ret (writeJSON 200 (BTemplates (templateEntry <$> distinctTemplates ∅ (concat (niPools <$> invs)))))
  end.

(** ** Routes *)

Record HttpReq := mkHttpReq { hqMethod : string; hqPath : list string; hqKey : string; hqBody : string }.

(** The handler [http.ServeMux] selects; a GET pattern serves HEAD too, and a
    wildcard matches one non-empty segment. *)
Definition routed (r : HttpReq) : option (prog E2bE HttpResp) :=
  let get := bool_decide (hqMethod r = "GET") || bool_decide (hqMethod r = "HEAD") in
  let post := bool_decide (hqMethod r = "POST") in
  let del := bool_decide (hqMethod r = "DELETE") in
  let body := hqBody r in
  match hqPath r with
  | [a] =>
      if bool_decide (a = "sandboxes") then
        if post then Some (createSandbox body) else if get then Some listSandboxes else None
      else if bool_decide (a = "snapshots") then (if get then Some listSnapshots else None)
      else if bool_decide (a = "templates") then (if get then Some listTemplates else None)
      else None
  | [a; b] =>
      if bool_decide (a = "v2") then
        if bool_decide (b = "sandboxes") then (if get then Some listSandboxes else None)
        else if bool_decide (b = "templates") then (if get then Some listTemplates else None)
        else None
      else if bool_decide (b = "") then None
      else if bool_decide (a = "sandboxes") then
        if get then Some (getSandbox b) else if del then Some (deleteSandbox b) else None
      else if bool_decide (a = "templates") then (if del then Some (deleteSnapshot b) else None)
      else None
  | [a; id; verb] =>
      if bool_decide (a <> "sandboxes") || bool_decide (id = "") then None
      else if post then
        if bool_decide (verb = "timeout") then Some (setTimeout id body)
        else if bool_decide (verb = "refreshes") then Some (refresh id)
        else if bool_decide (verb = "pause") then Some (pauseSandbox id body)
        else if bool_decide (verb = "connect") then Some (connectSandbox id body)
        else if bool_decide (verb = "fork") then Some (forkSandbox id body)
        else if bool_decide (verb = "snapshots") then Some (createSnapshot id body)
        else None
      else if get then (if bool_decide (verb = "metrics") then Some (sandboxMetrics id) else None)
      else None
  | _ => None
  end.

Definition auth (presented : string) (next : prog E2bE HttpResp) : prog E2bE HttpResp :=
  if bool_decide (svKeys srv <> ∅) && negb (validKey srv presented)
  then Ret (writeError 401 "invalid API key") else next.

(** [unmatched] is the multiplexer's own answer, a 404 or a 405. *)
Definition Handler (unmatched : HttpReq -> HttpResp) (r : HttpReq) : prog E2bE HttpResp :=
  if bool_decide (hqPath r = ["health"]) && (bool_decide (hqMethod r = "GET") || bool_decide (hqMethod r = "HEAD"))
  then Ret noContent
  else
    match routed r with
    | Some next => auth (hqKey r) next
    | None => Ret (unmatched r)
    end.

End server.
End E2b.
