(* ===== verification/E2bFacts.v ===== *)
(** * E2bFacts: what the e2b surface guarantees.

    The API-key gate, and what the sandbox-scoped verbs act on. *)

From S2P Require Import Prelude GoStrings K8s PoolKey SandboxId Types StoreModel StoreLifecycle CocoonTypes E2bModel.

Module E2bFacts.
Import Pool Store StoreLifecycle E2bId E2b.
#[local] Open Scope prog_scope.

Create HintDb e2b.

Section facts.
Context `{Decoder NewSandbox} `{Decoder SandboxTimeoutRequest} `{Decoder SandboxPauseRequest}
  `{Decoder ConnectSandbox} `{Decoder SandboxForkRequest} `{Decoder SandboxSnapshotRequest}.

(** ** The gate *)

Lemma validKey_spec srv k : validKey srv k = true <-> k ∈ svKeys srv /\ k <> "".
Proof.
  unfold validKey. destruct (decide (k = "")) as [->|Hk].
  { rewrite bool_decide_true by done. split; [done|]. by intros []. }
  rewrite bool_decide_false, existsb_exists by done. split.
  - intros (x & Hx & Heq%bool_decide_eq_true). subst x. split; [|done].
    by apply elem_of_elements, list_elem_of_In.
  - intros [Hin _]. exists k. split; [by apply list_elem_of_In, elem_of_elements|by apply bool_decide_eq_true].
Qed.

Lemma keySet_spec keys k : k ∈ keySet keys <-> k <> "" /\ k ∈ TrimSpace <$> keys.
Proof. unfold keySet. by rewrite elem_of_list_to_set, list_elem_of_filter. Qed.

(** No key, no call.  A server comes up without keys only if anonymous
    access was asked for.  Otherwise a request whose key is not one of the
    configured ones (blanks trimmed, empty ones dropped) makes no call to the
    store or the inventory whatsoever: the health probe answers 204, every
    route of the API answers 401, and an unknown path is the multiplexer's. *)
Theorem key_required hasStore o srv unmatched r :
  NewServer hasStore o = Ok srv -> opAllowAnonymous o = false ->
  ~ (hqKey r <> "" /\ hqKey r ∈ TrimSpace <$> opAPIKeys o) ->
  hasStore = true /\ svKeys srv <> ∅ /\
  Handler srv unmatched r =
  Ret (if bool_decide (hqPath r = ["health"]) && (bool_decide (hqMethod r = "GET") || bool_decide (hqMethod r = "HEAD"))
       then noContent
       else match routed srv r with
            | Some _ => writeError 401 "invalid API key"
            | None => unmatched r
            end).
Proof.
  unfold NewServer. destruct hasStore; [|done]. cbn [negb opAllowAnonymous opAPIKeys]. intros Hs Ha Hk.
  rewrite Ha, andb_true_r in Hs. case_bool_decide as Hne; [done|]. injection Hs as <-.
  split_and!; [done|done|]. unfold Handler.
  destruct (bool_decide (hqPath r = ["health"]) && _); [done|].
  destruct (routed _ r) as [next|]; [|done]. unfold auth. cbn [svKeys].
  rewrite bool_decide_true by done. destruct (validKey _ (hqKey r)) eqn:Hv; [|done].
  apply validKey_spec in Hv as [Hv _]. cbn [svKeys] in Hv. by apply keySet_spec in Hv.
Qed.

(** ** What the verbs act on *)

Inductive verb := VRelease | VPause | VResume | VFork | VSnapshot.

(** The calls that act on a sandbox: the verb, where, on what, and whether it
    succeeded. *)
Definition act (X : Type) (e : E2bE X) : X -> option (verb * string * string * bool) :=
  match e in E2bE X return X -> _ with
  | BRelease node id => fun r => Some (VRelease, node, id, match r with None => true | _ => false end)
  | BPause node id => fun r => Some (VPause, node, id, match r with None => true | _ => false end)
  | BResume node id => fun r => Some (VResume, node, id, match r with None => true | _ => false end)
  | BFork node id _ _ => fun r => Some (VFork, node, id, isOk r)
  | BTakeSnapshot node id _ => fun r => Some (VSnapshot, node, id, isOk r)
  | _ => fun _ => None
  end.

Definition listing (X : Type) (e : E2bE X) : X -> option (list Sandbox) :=
  match e in E2bE X return X -> _ with
  | BList _ => fun r => match r with Ok items => Some items | Err _ => None end
  | _ => fun _ => None
  end.

Definition stat (X : Type) (e : E2bE X) : X -> option (string * string * result SandboxStats) :=
  match e in E2bE X return X -> _ with
  | BStats node id => fun r => Some (node, id, r)
  | _ => fun _ => None
  end.

Abbreviation acts := (witnessed act).
Abbreviation listings := (witnessed listing).
Abbreviation stats := (witnessed stat).

Definition cachedPaused (sb : Sandbox) : bool := bool_decide (mget (sbLabels sb) PhaseLabel = phaseHibernated).

(** The paused state the server went by: the node's word if it gave one, the
    label otherwise. *)
Definition seen_paused (sb : Sandbox) (h : list (event E2bE)) (b : bool) : Prop :=
  let node := stNodeName (sbStatus sb) in
  let id := claimIDOf sb in
  if bool_decide (node <> "") && bool_decide (id <> "")
  then exists r, (node, id, r) ∈ stats h /\ b = match r with Ok st => ssPaused st | Err _ => cachedPaused sb end
  else b = cachedPaused sb.

Definition state_fits (v : verb) (sb : Sandbox) (h : list (event E2bE)) : Prop :=
  match v with
  | VPause | VFork => seen_paused sb h false
  | VResume => seen_paused sb h true
  | _ => True
  end.

(** At most one act, on the first listed sandbox that answers to [id]. *)
Definition acts_on (id : string) (resp : HttpResp) (h : list (event E2bE)) : Prop :=
  match acts h with
  | [] => True
  | [(v, node, cid, ok)] => exists items sb,
      items ∈ listings h /\ firstMatch id items = Some sb /\
      node = stNodeName (sbStatus sb) /\ cid = claimIDOf sb /\
      state_fits v sb h /\ (hrStatus resp < 300 <-> ok = true)
  | _ => False
  end.

Definition found (id : string) (r : result Sandbox) (h : list (event E2bE)) : Prop :=
  acts h = [] /\
  match r with
  | Ok sb => exists items, items ∈ listings h /\ firstMatch id items = Some sb
  | Err _ => True
  end.

Lemma lookup_hist srv id : history any_answer (found id) (lookup srv id) [].
Proof.
  unfold lookup. destruct (bool_decide _); [by split|]. cbn [bind call history]. intros r _.
  destruct r as [items|e]; cbn [bind]; [|by split].
  destruct (firstMatch id items) as [sb|] eqn:E; [|by split].
  split; [done|]. exists items. split; [by left|done].
Qed.

Lemma isPaused_hist sb id h :
  found id (Ok sb) h ->
  history any_answer (fun b h' => found id (Ok sb) h' /\ seen_paused sb h' b) (isPaused sb) h.
Proof.
  intros [Ha (items & Hin & Hm)]. unfold isPaused, seen_paused.
  destruct (bool_decide (stNodeName (sbStatus sb) <> "") && bool_decide (claimIDOf sb <> "")) eqn:E.
  - cbn [bind call history]. intros r _. cbn [history]. split.
    + split; [by rewrite witnessed_app, Ha|]. exists items. by rewrite witnessed_app, elem_of_app; auto.
    + exists r. rewrite witnessed_app, elem_of_app. split; [right; by left|done].
  - cbn [history]. split; [|done]. split; [done|eauto].
Qed.

(** The one act of a handler, after the sandbox was found. *)
Lemma act_step id sb v h resp ok X (e : E2bE X) (x : X) :
  found id (Ok sb) h -> state_fits v sb h ->
  act X e x = Some (v, stNodeName (sbStatus sb), claimIDOf sb, ok) ->
  (hrStatus resp < 300 <-> ok = true) ->
  acts_on id resp (h ++ [Ev e x]).
Proof.
  intros [Ha (items & Hin & Hm)] Hf He Hs. unfold acts_on.
  rewrite witnessed_app, Ha. cbn [witnessed evType evCall evAnswer app]. rewrite He.
  exists items, sb. rewrite witnessed_app, elem_of_app. split_and!; [by left|done..| |done].
  assert (forall b, seen_paused sb h b -> seen_paused sb (h ++ [Ev e x]) b) as Hmono.
  { intros b. unfold seen_paused. destruct (bool_decide _ && _); [|done].
    intros (r & Hr & Hb). exists r. rewrite witnessed_app, elem_of_app. auto. }
  destruct v; cbn [state_fits] in *; auto.
Qed.

Lemma no_act id resp h : acts h = [] -> acts_on id resp h.
Proof. unfold acts_on. by intros ->. Qed.

(** Along the history of a handler: [acts] and the claims made. *)
Definition claim_of (X : Type) (e : E2bE X) : X -> option (string * PoolKey * bool) :=
  match e in E2bE X return X -> _ with
  | BClaim ns name pool => fun r => Some (ns, pool, isOk r)
  | _ => fun _ => None
  end.

Abbreviation claims := (witnessed claim_of).

Definition quiet (X : Type) (e : E2bE X) : Prop :=
  match e with
  | BClaim _ _ _ | BRelease _ _ | BPause _ _ | BResume _ _ | BFork _ _ _ _ | BTakeSnapshot _ _ _ => False
  | _ => True
  end.

Lemma quiet_acts X e : quiet X e -> ignores act X e.
Proof. by destruct e. Qed.
Lemma quiet_claims X e : quiet X e -> ignores claim_of X e.
Proof. by destruct e. Qed.

(** A handler that acts on nothing. *)
Lemma quiet_hist {A} (p : prog E2bE A) h :
  calls quiet p -> history any_answer (fun _ h' => acts h' = acts h /\ claims h' = claims h) p h.
Proof.
  intros Hq. apply history_and; apply calls_unseen; (eapply calls_mono; [|exact Hq]);
    [apply quiet_acts|apply quiet_claims].
Qed.

(** A handler whose acts are the sandbox verbs makes no claim. *)
Definition no_claim (X : Type) (e : E2bE X) : Prop := match e with BClaim _ _ _ => False | _ => True end.

Lemma no_claim_hist {A} (p : prog E2bE A) :
  calls no_claim p -> history any_answer (fun _ h' => claims h' = []) p [].
Proof.
  intros Hq. apply (calls_unseen claim_of p any_answer []).
  eapply calls_mono; [|exact Hq]. by intros X [] Hc x.
Qed.

Lemma quiet_lookup srv id : calls quiet (lookup srv id).
Proof. unfold lookup. solve_calls; done. Qed.
Lemma quiet_detail srv sb : calls quiet (detailFor srv sb).
Proof. unfold detailFor. solve_calls; done. Qed.
Lemma quiet_details srv items : calls quiet (detailsFor srv items).
Proof. induction items as [|sb items IH]; [done|]. cbn [detailsFor]. solve_calls; [apply quiet_detail|done]. Qed.
Lemma quiet_snapshots nodes : calls quiet (snapshotsOn nodes).
Proof. induction nodes as [|n nodes IH]; [done|]. cbn [snapshotsOn]. solve_calls; done. Qed.
Lemma quiet_deletes sid nodes : calls quiet (deleteOn sid nodes).
Proof. induction nodes as [|n nodes IH]; [done|]. cbn [deleteOn]. solve_calls; done. Qed.
Lemma quiet_inventories nodes : calls quiet (inventoriesOf nodes).
Proof. induction nodes as [|n nodes IH]; [done|]. cbn [inventoriesOf]. solve_calls; done. Qed.
Lemma quiet_paused sb : calls quiet (isPaused sb).
Proof. unfold isPaused. solve_calls; done. Qed.

Hint Resolve quiet_lookup quiet_detail quiet_details quiet_snapshots quiet_deletes quiet_inventories quiet_paused : e2b.

Ltac solve_quiet := solve_calls; eauto with e2b; done.

(** [acts_on] of a verb handler: nothing until the sandbox is found, then one act. *)
Ltac lookup_first sb h Hf :=
  eapply history_bind; [apply lookup_hist|]; intros [sb|?] h Hf; [|by apply no_act, Hf].
Ltac paused_next sb paused h Hf Hp :=
  eapply history_bind; [by apply (isPaused_hist sb)|]; intros paused h [Hf Hp].

Lemma deleteSandbox_hist srv id : history any_answer (acts_on id) (deleteSandbox srv id) [].
Proof.
  unfold deleteSandbox. lookup_first sb h Hf. destruct (bool_decide _); [by apply no_act, Hf|].
  cbn [bind call history]. intros [x|] _; cbn [bind history]; (eapply (act_step _ _ VRelease); [done..|]; done).
Qed.

Lemma pauseSandbox_hist srv id body : history any_answer (acts_on id) (pauseSandbox srv id body) [].
Proof.
  unfold pauseSandbox. destruct (decodeOptional _ _) as [req|e]; [|by apply no_act]. lookup_first sb h Hf. paused_next sb paused h' Hf' Hp.
  destruct paused; [by apply no_act, Hf'|]. destruct (bool_decide _); [by apply no_act, Hf'|].
  cbn [bind call history]. intros [x|] _; cbn [bind history]; (eapply (act_step _ _ VPause); [done..|]; done).
Qed.

Lemma connectSandbox_hist srv id body : history any_answer (acts_on id) (connectSandbox srv id body) [].
Proof.
  unfold connectSandbox. destruct (decodeOptional _ _) as [req|e]; [|by apply no_act]. lookup_first sb h Hf. paused_next sb paused h' Hf' Hp.
  destruct paused; [|by apply no_act, Hf'].
  cbn [bind call history]. intros [x|] _; cbn [bind history]; (eapply (act_step _ _ VResume); [done..|]; done).
Qed.

Lemma forkSandbox_hist srv id body : history any_answer (acts_on id) (forkSandbox srv id body) [].
Proof.
  unfold forkSandbox. destruct (decodeOptional _ _) as [req|e]; [|by apply no_act].
  destruct (bool_decide _); [by apply no_act|]. lookup_first sb h Hf. paused_next sb paused h' Hf' Hp.
  destruct paused; [by apply no_act, Hf'|].
  cbn [bind call history]. intros [x|x] _; cbn [bind history]; (eapply (act_step _ _ VFork); [done..|]; done).
Qed.

Lemma createSnapshot_hist srv id body : history any_answer (acts_on id) (createSnapshot srv id body) [].
Proof.
  unfold createSnapshot. destruct (decodeOptional _ _) as [req|e]; [|by apply no_act]. lookup_first sb h Hf.
  cbn [bind call history]. intros [x|x] _; cbn [bind history]; (eapply (act_step _ _ VSnapshot); [done..|]; done).
Qed.

(** The sandbox a path addresses. *)
Definition addressed (r : HttpReq) : option string :=
  match hqPath r with
  | [a; id] | [a; id; _] => if bool_decide (a = "sandboxes") then Some id else None
  | _ => None
  end.

(** What one request may do: claim once, or act once on the sandbox it names. *)
Definition within_request (srv : Server) (r : HttpReq) (resp : HttpResp) (h : list (event E2bE)) : Prop :=
  match addressed r with
  | Some id => acts_on id resp h /\ claims h = []
  | None =>
      acts h = [] /\
      match claims h with
      | [] => True
      | [(ns, pool, ok)] =>
          hqMethod r = "POST" /\ hqPath r = ["sandboxes"] /\ ns = opNamespace (svOpts srv) /\
          (exists req, Decode (hqBody r) = Ok req /\ TrimSpace (nsTemplateID req) <> "" /\
             pool = mkPoolKey (nsTemplateID req) (netFor (nsAllowInternetAccess req)) (opSizeClass (svOpts srv))) /\
          (hrStatus resp = 201 <-> ok = true)
      | _ => False
      end
  end.

Lemma quiet_within srv r p :
  calls quiet p -> history any_answer (within_request srv r) p [].
Proof.
  intros Hq. eapply history_mono; [|by apply quiet_hist]. intros resp h [Ha Hc]. unfold within_request.
  rewrite Ha, Hc. destruct (addressed r); [|by split]. split; [by apply no_act|done].
Qed.

Lemma verb_within srv r id p :
  addressed r = Some id -> calls no_claim p -> history any_answer (acts_on id) p [] ->
  history any_answer (within_request srv r) p [].
Proof.
  intros Hr Hn Ha. eapply history_mono; [|by apply history_and; [exact Ha|by apply no_claim_hist]].
  intros resp h Hh. unfold within_request. by rewrite Hr.
Qed.

Lemma create_within srv r :
  hqMethod r = "POST" -> hqPath r = ["sandboxes"] ->
  history any_answer (within_request srv r) (createSandbox srv (hqBody r)) [].
Proof.
  intros Hm Hp. unfold createSandbox.
  assert (addressed r = None) as Hr by (unfold addressed; by rewrite Hp).
  assert (forall resp, within_request srv r resp []) as Hnone by (intros; unfold within_request; by rewrite Hr).
  destruct (Decode (hqBody r)) as [req|e] eqn:Ed; [|apply Hnone].
  destruct (bool_decide (TrimSpace (nsTemplateID req) = "")) eqn:Et; [apply Hnone|].
  apply bool_decide_eq_false in Et.
  cbn [bind call history]. intros name _. cbn [bind call history]. intros [a|e] _; cbn [bind].
  - cbn [history]. unfold within_request. rewrite Hr. cbn. split_and!; [done..| |done]. eauto.
  - destruct (IsNoWarmCapacity e); cbn [history]; unfold within_request; rewrite Hr; cbn;
      (split_and!; [done..| |done]); eauto.
Qed.

Lemma no_claim_quiet X e : quiet X e -> no_claim X e.
Proof. by destruct e. Qed.

Lemma no_claim_of_quiet {A} (p : prog E2bE A) : calls quiet p -> calls no_claim p.
Proof. apply calls_mono, no_claim_quiet. Qed.

Hint Resolve no_claim_of_quiet : e2b.

Lemma no_claim_delete srv id : calls no_claim (deleteSandbox srv id).
Proof. unfold deleteSandbox. solve_calls; eauto with e2b; done. Qed.
Lemma no_claim_pause srv id body : calls no_claim (pauseSandbox srv id body).
Proof. unfold pauseSandbox. solve_calls; eauto with e2b; done. Qed.
Lemma no_claim_connect srv id body : calls no_claim (connectSandbox srv id body).
Proof. unfold connectSandbox. solve_calls; eauto with e2b; done. Qed.
Lemma no_claim_fork srv id body : calls no_claim (forkSandbox srv id body).
Proof. unfold forkSandbox. solve_calls; eauto with e2b; done. Qed.
Lemma no_claim_snapshot srv id body : calls no_claim (createSnapshot srv id body).
Proof. unfold createSnapshot. solve_calls; eauto with e2b; done. Qed.

Lemma quiet_list srv : calls quiet (listSandboxes srv).
Proof. unfold listSandboxes. solve_quiet. Qed.
Lemma quiet_get srv id : calls quiet (getSandbox srv id).
Proof. unfold getSandbox. solve_quiet. Qed.
Lemma quiet_timeout srv id body : calls quiet (setTimeout srv id body).
Proof. unfold setTimeout. solve_quiet. Qed.
Lemma quiet_refresh srv id : calls quiet (refresh srv id).
Proof. unfold refresh. solve_quiet. Qed.
Lemma quiet_metrics srv id : calls quiet (sandboxMetrics srv id).
Proof. unfold sandboxMetrics. solve_quiet. Qed.
Lemma quiet_nodes srv : calls quiet (nodesWithSandboxes srv).
Proof. unfold nodesWithSandboxes. solve_quiet. Qed.

Hint Resolve quiet_nodes : e2b.

Lemma quiet_listSnapshots srv : calls quiet (listSnapshots srv).
Proof. unfold listSnapshots. solve_quiet. Qed.
Lemma quiet_deleteSnapshot srv id : calls quiet (deleteSnapshot srv id).
Proof. unfold deleteSnapshot. solve_quiet. Qed.
Lemma quiet_listTemplates srv : calls quiet (listTemplates srv).
Proof. unfold listTemplates, inventories. solve_quiet. Qed.

Hint Resolve quiet_list quiet_get quiet_timeout quiet_refresh quiet_metrics quiet_listSnapshots
  quiet_deleteSnapshot quiet_listTemplates quiet_within : e2b.
Hint Resolve no_claim_delete no_claim_pause no_claim_connect no_claim_fork no_claim_snapshot
  deleteSandbox_hist pauseSandbox_hist connectSandbox_hist forkSandbox_hist createSnapshot_hist : e2b.

Lemma routed_within srv r next :
  routed srv r = Some next -> history any_answer (within_request srv r) next [].
Proof.
  unfold routed. destruct (hqPath r) as [|a [|b [|verb [|]]]] eqn:Ep; intros Hn; [done| | | |done];
    destruct (bool_decide (a = "sandboxes")) eqn:Ea.
  - destruct (bool_decide (hqMethod r = "POST")) eqn:Em.
    + injection Hn as <-. apply bool_decide_eq_true in Ea, Em. subst a. by apply create_within.
    + repeat case_match; simplify_eq; eauto with e2b.
  - repeat case_match; simplify_eq; eauto with e2b.
  - assert (addressed r = Some b) as Hr by (unfold addressed; by rewrite Ep, Ea).
    repeat case_match; simplify_eq; eauto using verb_within with e2b.
  - repeat case_match; simplify_eq; eauto with e2b.
  - assert (addressed r = Some b) as Hr by (unfold addressed; by rewrite Ep, Ea).
    repeat case_match; simplify_eq; eauto using verb_within with e2b.
  - rewrite bool_decide_true in Hn by (by apply bool_decide_eq_false in Ea). done.
Qed.

(** C17.  One request, at most one effect, on the sandbox it names.  Whatever
    the store and the nodes answer, a request on a sandbox path never claims,
    and makes at most one release, pause, resume, fork or snapshot call; that
    call goes to the node and the raw claim id of the first listed sandbox whose
    id answers to the path, a pause or fork only on a sandbox seen running and a
    resume only on one seen paused (by its node if it answers, by its label
    otherwise), and the reply is a success exactly if the call succeeded.  Every
    other request acts on no sandbox, and claims at most once: on POST /sandboxes,
    in the server's namespace, from the pool of the template asked for, with 201
    exactly if a sandbox was delivered. *)
Theorem one_effect_per_request srv unmatched r :
  history any_answer (within_request srv r) (Handler srv unmatched r) [].
Proof.
  assert (forall resp, within_request srv r resp []) as Hnone.
  { intros resp. unfold within_request. by destruct (addressed r). }
  unfold Handler. destruct (_ && _); [apply Hnone|].
  destruct (routed srv r) as [next|] eqn:E; [|apply Hnone]. unfold auth.
  destruct (_ && _); [apply Hnone|]. by apply routed_within.
Qed.

(** What the e2b surface can say about a sandbox the store synthesizes
    from an inventory entry (no overlay written): its id is the DNS-safe
    rendering of the claim id and its client id the node, but its template is
    always empty, its access token always empty, its state always "running"
    (also when the node reports it hibernated), and its start the moment of the
    call. *)
Theorem synthesized_detail srv s node e :
  overlays s !! objKey (entryToSandbox node e) = None ->
  let sb := applyOverlay s (entryToSandbox node e) in
  history any_answer
    (fun d h => exists now, h = [Ev BNow now] /\
       d = mkDetail "" (publicID (ieID e)) node now (time_Add now (DefaultTimeoutSeconds * time_second))
             StateRunning (opEnvdVersion (svOpts srv)) "" (opDomain (svOpts srv)))
    (detailFor srv sb) [].
Proof.
  intros Ho sb. unfold sb, applyOverlay. rewrite Ho. unfold entryToSandbox.
  destruct (ClaimRef.parseClaimRef (ieName e)) as [[ns name] uid]. unfold detailFor.
  cbn [sbMeta mCreationTimestamp]. change (time_IsZero 0) with true.
  intros now _. cbn [bind history app]. exists now. split; [done|].
  unfold templateOf, claimIDOf. cbn. unfold synthAnnotations.
  destruct (decide (ieID e = "")) as [E|E].
  - rewrite bool_decide_true by done. by rewrite E.
  - rewrite bool_decide_false by done. unfold mget. by rewrite lookup_singleton_eq, lookup_singleton_ne.
Qed.

End facts.

Section witness.
#[local] Instance no_body A : Decoder A := fun _ => Err (Sentinel io_EOF).

Definition keyed : Options := mkOptions "" "" "" [" k1 "; ""] false "" true.

Lemma key_required_witness :
  exists srv, NewServer true keyed = Ok srv /\
  Handler srv (fun _ => writeError 404 "404 page not found")
    (mkHttpReq "DELETE" ["sandboxes"; "sb-1"] "k2" "") = Ret (writeError 401 "invalid API key").
Proof.
  eexists. split; [reflexivity|].
  refine (proj2 (proj2 (key_required true keyed _ _
    (mkHttpReq "DELETE" ["sandboxes"; "sb-1"] "k2" "") eq_refl eq_refl _))).
  intros [_ Hin]. cbn [hqKey] in Hin.
  assert (TrimSpace <$> opAPIKeys keyed = ["k1"; ""]) as E by reflexivity.
  rewrite E, !elem_of_cons, elem_of_nil in Hin. destruct Hin as [Hin|[Hin|[]]]; discriminate Hin.
Defined.

Lemma synthesized_detail_witness :
  let e := mkEntry "a/x" "sb_1" "Hibernated" "" "10.0.0.1" in
  history any_answer
    (fun d h => exists now, h = [Ev BNow now] /\
       d = mkDetail "" "sb-1" "n1" now (time_Add now (DefaultTimeoutSeconds * time_second)) "running" "0.4.0" "" "")
    (detailFor (mkServer (mkOptions "default" "" "0.4.0" [] true "small" true) ∅)
       (applyOverlay NewScatterGatherStore (entryToSandbox "n1" e))) [].
Proof.
  cbn zeta. apply (synthesized_detail (mkServer (mkOptions "default" "" "0.4.0" [] true "small" true) ∅)
    NewScatterGatherStore "n1" (mkEntry "a/x" "sb_1" "Hibernated" "" "10.0.0.1")). reflexivity.
Defined.

End witness.
End E2bFacts.
