(* ===== verification/SandboxdClient.v ===== *)
(** * SandboxdClient: the HTTP client behind the store's sandboxd calls.

    Models [pkg/scale/sandboxd/client.go] and [lifecycle.go].  The store, the
    gateway and the driver speak to a node in the calls of [Store.SandboxdCall];
    [perform] is the client method of each, over the HTTP exchange [HttpE] of
    [CocoonClient].  JSON is a [JSON] instance per message type.  A request that
    cannot be built and one that cannot be sent are one error. *)

From S2P Require Import Prelude GoStrings K8s PoolKey StoreModel CocoonClient Driver.

Module SandboxdClient.
Import Pool Store CocoonClient.
#[local] Open Scope prog_scope.

(** ** [url.PathEscape] *)

(** [shouldEscape(c, encodePathSegment)]. *)
Definition shouldEscape (c : ascii) : bool :=
  let b := byte_of c in
  negb (bool_decide (97 <= b <= 122) || bool_decide (65 <= b <= 90) || bool_decide (48 <= b <= 57)
        || bool_decide (c ∈ ["-"; "_"; "."; "~"; "$"; "&"; "+"; ":"; "="; "@"]%char)).

Definition upper_hex (z : Z) : ascii := ascii_of (if bool_decide (z < 10) then 48 + z else 55 + z).

Fixpoint PathEscape (s : string) : string :=
  match s with
  | EmptyString => ""
  | String c s' =>
      if shouldEscape c
      then String "%" (String (upper_hex (byte_of c / 16)) (String (upper_hex (byte_of c mod 16)) (PathEscape s')))
      else String c (PathEscape s')
  end.

(** ** Messages *)

Record CheckpointSpec := mkCheckpointSpec { cksToken : string; cksName : string }.
Record CheckpointClaimSpec := mkCheckpointClaimSpec { ccsTTLSeconds : Z }.
Record PromoteSpec := mkPromoteSpec { prsToken : string; prsTemplate : string }.
Record ForkResult := mkForkResult { frsChildren : list ClaimResult }.
Record CheckpointReply := mkCheckpointReply { crpCheckpoint : Checkpoint }.
Record CheckpointList := mkCheckpointList { clsCheckpoints : list Checkpoint }.
Record PromoteResult := mkPromoteResult { prrKey : PoolKey }.
Record SandboxSummary := mkSummary {
  smyID : string; smyKey : PoolKey; smyDeadline : Z; smyHibernated : bool; smyArchived : bool;
  smyFromCheckpoint : string; smyClaimRef : string
}.
Record SandboxSummaries := mkSummaries { smySandboxes : list SandboxSummary }.

(** The body of [PUT /v1/pools]. *)
Record PoolsBody := mkPoolsBody { pbPools : list Driver.PoolSpec }.

(** ** The client *)

Record Client := mkClient { baseURL : string; token : string }.

Definition is_slash (c : ascii) : bool := bool_decide (c = "/"%char).
Definition TrimRightSlash (s : string) : string := String.rev (trim_left is_slash (String.rev s)).

Definition New (base tok : string) : Client := mkClient (TrimRightSlash base) tok.

Definition limit64K : nat := N.to_nat 65536.
Definition limit1M : nat := N.to_nat 1048576.

Section client.
Context (c : Client).
Context `{JSON ErrorBody} `{JSON ClaimSpec} `{JSON ClaimResult} `{JSON ForkSpec} `{JSON ForkResult}
  `{JSON CheckpointSpec} `{JSON CheckpointReply} `{JSON CheckpointList} `{JSON CheckpointClaimSpec}
  `{JSON PromoteSpec} `{JSON PromoteResult} `{JSON NodeStats} `{JSON SandboxSummary} `{JSON SandboxSummaries}
  `{JSON PoolsBody} `{JSON Driver.NodeInfo}.

(** An [*HTTPError]. *)
Definition statusError (rs : HttpResponse) : gerror :=
  let msg := match Unmarshal (String.substring 0 limit64K (rsBody rs)) with
             | Ok b => ebError b
             | Err _ => ""
             end in
  if bool_decide (msg <> "")
  then Errorf ("sandboxd: http " +:+ pretty (rsStatus rs) +:+ ": " +:+ msg)
  else Errorf ("sandboxd: http " +:+ pretty (rsStatus rs)).

(** [NewRequest], [authenticate] and [Do]. *)
Definition send (what method path : string) (body : option string) (bearer : string) :
    prog HttpE (result HttpResponse) :=
  r <- call (HDo (mkRequest method (baseURL c +:+ path) body bearer));;
  Ret (match r with Ok rs => Ok rs | Err e => Err (Wrap ("sandboxd: " +:+ what) e) end).

Definition decodeInto {A} `{JSON A} (rs : HttpResponse) (path : string) : result A :=
  match Unmarshal (String.substring 0 limit1M (rsBody rs)) with
  | Ok a => Ok a
  | Err e => Err (Wrap ("sandboxd: decode " +:+ path +:+ " reply") e)
  end.

Definition postJSON {B A} `{JSON B} `{JSON A} (path : string) (body : B) : prog HttpE (result A) :=
  match Marshal body with
  | Err e => Ret (Err (Wrap ("sandboxd: encode " +:+ path) e))
  | Ok payload =>
      r <- send path "POST" path (Some payload) (token c);;
      Ret (match r with
           | Err e => Err e
           | Ok rs => if bool_decide (Z.quot (rsStatus rs) 100 <> 2) then Err (statusError rs)
                      else decodeInto rs path
           end)
  end.

Definition getJSON {A} `{JSON A} (path : string) : prog HttpE (result A) :=
  r <- send path "GET" path None (token c);;
  Ret (match r with
       | Err e => Err e
       | Ok rs => if bool_decide (rsStatus rs <> StatusOK) then Err (statusError rs) else decodeInto rs path
       end).

Definition sandboxPath (id suffix : string) : string := "/v1/sandboxes/" +:+ PathEscape id +:+ suffix.
Definition checkpointPath (id suffix : string) : string := "/v1/checkpoints/" +:+ PathEscape id +:+ suffix.

Definition requiresID {A} (what id : string) (p : prog HttpE (result A)) : prog HttpE (result A) :=
  if bool_decide (id = "") then Ret (Err (Errorf ("sandboxd: " +:+ what))) else p.

Definition Claim (spec : ClaimSpec) : prog HttpE (result ClaimResult) :=
  match Marshal spec with
  | Err e => Ret (Err (Wrap "sandboxd: encode claim" e))
  | Ok body =>
      r <- send "claim" "POST" "/v1/claim" (Some body) (token c);;
      Ret (match r with
           | Err e => Err e
           | Ok rs =>
               if bool_decide (rsStatus rs = StatusOK) then
                 match Unmarshal (rsBody rs) with
                 | Err e => Err (Wrap "sandboxd: decode claim response" e)
                 | Ok r => if bool_decide (crID r = "") then Err ErrNodeAtCapacity else Ok r
                 end
               else if bool_decide (rsStatus rs = 429) then Err ErrNodeAtCapacity
               else Err (statusError rs)
           end)
  end.

Definition SetPools (pools : list Driver.PoolSpec) : prog HttpE (result Driver.NodeInfo) :=
  match Marshal (mkPoolsBody pools) with
  | Err e => Ret (Err (Wrap "sandboxd: encode pools" e))
  | Ok body =>
      r <- send "set pools" "PUT" "/v1/pools" (Some body) (token c);;
      Ret (match r with
           | Err e => Err e
           | Ok rs =>
               if bool_decide (rsStatus rs <> StatusOK) then Err (statusError rs)
               else match Unmarshal (rsBody rs) with
                    | Ok info => Ok info
                    | Err e => Err (Wrap "sandboxd: decode pools response" e)
                    end
           end)
  end.

Definition Release (id tok : string) : prog HttpE (option gerror) :=
  if bool_decide (id = "") then Ret (Some (Errorf "sandboxd: release requires a sandbox id"))
  else
    r <- send "release" "POST" (sandboxPath id "/release") None tok;;
    Ret (match r with
         | Err e => Some e
         | Ok rs => if bool_decide (rsStatus rs = StatusNoContent) || bool_decide (rsStatus rs = StatusNotFound)
                    then None else Some (statusError rs)
         end).

Definition sandboxVerb (id verb : string) : prog HttpE (option gerror) :=
  if bool_decide (id = "") then Ret (Some (Errorf ("sandboxd: " +:+ verb +:+ " requires a sandbox id")))
  else
    r <- send verb "POST" (sandboxPath id ("/" +:+ verb)) None (token c);;
    Ret (match r with
         | Err e => Some e
         | Ok rs => if bool_decide (rsStatus rs <> StatusNoContent) then Some (statusError rs) else None
         end).

Definition Hibernate (id : string) : prog HttpE (option gerror) := sandboxVerb id "hibernate".
Definition Wake (id : string) : prog HttpE (option gerror) := sandboxVerb id "wake".

Definition Fork (id : string) (spec : ForkSpec) : prog HttpE (result ForkResult) :=
  requiresID "fork requires a sandbox id" id (postJSON (sandboxPath id "/fork") spec).

Definition Checkpoint_ (id : string) (spec : CheckpointSpec) : prog HttpE (result CheckpointReply) :=
  requiresID "checkpoint requires a sandbox id" id (postJSON (sandboxPath id "/checkpoint") spec).

Definition ClaimCheckpoint (id : string) (spec : CheckpointClaimSpec) : prog HttpE (result ClaimResult) :=
  requiresID "claim checkpoint requires a checkpoint id" id (postJSON (checkpointPath id "/claim") spec).

Definition Checkpoints : prog HttpE (result CheckpointList) := getJSON "/v1/checkpoints".

Definition DeleteCheckpoint (id : string) : prog HttpE (option gerror) :=
  if bool_decide (id = "") then Ret (Some (Errorf "sandboxd: delete checkpoint requires a checkpoint id"))
  else
    r <- send "delete checkpoint" "DELETE" (checkpointPath id "") None (token c);;
    Ret (match r with
         | Err e => Some e
         | Ok rs => if bool_decide (rsStatus rs = StatusNoContent) || bool_decide (rsStatus rs = StatusNotFound)
                    then None else Some (statusError rs)
         end).

Definition Promote (id : string) (spec : PromoteSpec) : prog HttpE (result PromoteResult) :=
  requiresID "promote requires a sandbox id" id (postJSON (sandboxPath id "/promote") spec).

Definition Sandbox_ (id : string) : prog HttpE (result SandboxSummary) :=
  requiresID "sandbox read requires an id" id (getJSON (sandboxPath id "")).

Definition Stats (id : string) : prog HttpE (result NodeStats) :=
  requiresID "stats requires a sandbox id" id (getJSON (sandboxPath id "/stats")).

Definition Sandboxes : prog HttpE (result SandboxSummaries) := getJSON "/v1/sandboxes".

Definition mapOk {A B} (f : A -> B) (r : result A) : result B :=
  match r with Ok a => Ok (f a) | Err e => Err e end.

(** The client method behind each call of the store. *)
Definition perform (X : Type) (e : SandboxdCall X) : prog HttpE X :=
  match e in SandboxdCall X return prog HttpE X with
  | SdClaim spec => Claim spec
  | SdRelease id tok => Release id tok
  | SdHibernate id => Hibernate id
  | SdWake id => Wake id
  | SdFork id spec => r <- Fork id spec;; Ret (mapOk frsChildren r)
  | SdCheckpoint id name => r <- Checkpoint_ id (mkCheckpointSpec "" name);; Ret (mapOk crpCheckpoint r)
  | SdCheckpoints => r <- Checkpoints;; Ret (mapOk clsCheckpoints r)
  | SdDeleteCheckpoint id => DeleteCheckpoint id
  | SdClaimCheckpoint id ttl => ClaimCheckpoint id (mkCheckpointClaimSpec ttl)
  | SdPromote id template => r <- Promote id (mkPromoteSpec "" template);; Ret (mapOk prrKey r)
  | SdStats id => Stats id
  end.

End client.

(** ** Escaping *)

Definition hex_val (c : ascii) : Z :=
  let b := byte_of c in if bool_decide (b < 65) then b - 48 else b - 55.

(** The inverse, as [url.PathUnescape] computes it. *)
Fixpoint PathUnescape (s : string) : string :=
  match s with
  | EmptyString => ""
  | String c s' =>
      if bool_decide (c = "%"%char) then
        match s' with
        | String h (String l s'') => String (ascii_of (hex_val h * 16 + hex_val l)) (PathUnescape s'')
        | _ => ""
        end
      else String c (PathUnescape s')
  end.

Lemma hex_val_upper z : 0 <= z < 16 -> hex_val (upper_hex z) = z.
Proof.
  intros Hz. unfold hex_val, upper_hex. rewrite byte_of_ascii_of by (case_bool_decide; lia).
  repeat case_bool_decide; lia.
Qed.

Lemma byte_nibbles c : 0 <= byte_of c / 16 < 16 /\ 0 <= byte_of c mod 16 < 16 /\
  byte_of c / 16 * 16 + byte_of c mod 16 = byte_of c.
Proof.
  pose proof (byte_of_range c). pose proof (Z.mod_pos_bound (byte_of c) 16).
  pose proof (Z.div_mod (byte_of c) 16). pose proof (Z.div_lt_upper_bound (byte_of c) 16 16).
  pose proof (Z.div_pos (byte_of c) 16). lia.
Qed.

Lemma PathUnescape_escape s : PathUnescape (PathEscape s) = s.
Proof.
  induction s as [|c s IH]; [done|]. cbn [PathEscape]. destruct (shouldEscape c) eqn:E.
  - cbn [PathUnescape]. rewrite bool_decide_true by done. destruct (byte_nibbles c) as (H1 & H2 & H3).
    rewrite !hex_val_upper, IH, H3 by done. by rewrite ascii_of_byte_of.
  - cbn [PathUnescape]. rewrite bool_decide_false, IH; [done|]. intros ->. by vm_compute in E.
Qed.

(** No separator of a URL is left in an escaped segment. *)
Definition segment_char (c : ascii) : bool := negb (bool_decide (c ∈ ["/"; "?"; "#"; ";"; ","]%char)).

Lemma upper_hex_segment z : 0 <= z < 16 -> segment_char (upper_hex z) = true.
Proof.
  intros Hz. assert (z ∈ seqZ 0 16) as Hin by (apply elem_of_seqZ; lia). clear Hz.
  assert (forallb (fun z => segment_char (upper_hex z)) (seqZ 0 16) = true) as Hall by reflexivity.
  rewrite forallb_forall in Hall. by apply Hall, list_elem_of_In.
Qed.

Lemma PathEscape_segment s : string_forall segment_char (PathEscape s) = true.
Proof.
  induction s as [|c s IH]; [done|]. cbn [PathEscape]. destruct (shouldEscape c) eqn:E.
  - destruct (byte_nibbles c) as (H1 & H2 & _). cbn [string_forall].
    by rewrite !upper_hex_segment, IH.
  - cbn [string_forall]. rewrite IH, andb_true_r. unfold segment_char. apply negb_true_iff, bool_decide_eq_false.
    rewrite !elem_of_cons, elem_of_nil. intros Hc.
    repeat destruct Hc as [->|Hc]; try (by vm_compute in E).
Qed.

(** ** One request per call *)

(** The resource a call addresses: method, path below the base URL, credential. *)
Record target := mkTarget { tgMethod : string; tgPath : string; tgBearer : string }.

Definition targetOf (c : Client) (X : Type) (e : SandboxdCall X) : option target :=
  let sandbox id suffix tok :=
    if bool_decide (id = "") then None else Some (mkTarget "POST" (sandboxPath id suffix) tok) in
  match e with
  | SdClaim _ => Some (mkTarget "POST" "/v1/claim" (token c))
  | SdRelease id tok => sandbox id "/release" tok
  | SdHibernate id => sandbox id "/hibernate" (token c)
  | SdWake id => sandbox id "/wake" (token c)
  | SdFork id _ => sandbox id "/fork" (token c)
  | SdCheckpoint id _ => sandbox id "/checkpoint" (token c)
  | SdCheckpoints => Some (mkTarget "GET" "/v1/checkpoints" (token c))
  | SdDeleteCheckpoint id =>
      if bool_decide (id = "") then None else Some (mkTarget "DELETE" (checkpointPath id "") (token c))
  | SdClaimCheckpoint id _ =>
      if bool_decide (id = "") then None else Some (mkTarget "POST" (checkpointPath id "/claim") (token c))
  | SdPromote id _ => sandbox id "/promote" (token c)
  | SdStats id => if bool_decide (id = "") then None else Some (mkTarget "GET" (sandboxPath id "/stats") (token c))
  end.

Definition exchange (X : Type) (e : HttpE X) : X -> option (HttpRequest * result HttpResponse) :=
  match e in HttpE X return X -> _ with HDo rq => fun r => Some (rq, r) end.

Abbreviation exchanges := (witnessed exchange).

Definition noError (r : option gerror) : bool := match r with None => true | Some _ => false end.

(** Whether an answer reports success. *)
Definition succeeded (X : Type) (e : SandboxdCall X) : X -> bool :=
  match e in SandboxdCall X return X -> bool with
  | SdClaim _ | SdClaimCheckpoint _ _ => isOk
  | SdFork _ _ | SdCheckpoint _ _ | SdCheckpoints | SdPromote _ _ | SdStats _ => isOk
  | SdRelease _ _ | SdHibernate _ | SdWake _ | SdDeleteCheckpoint _ =>
      noError
  end.

(** The statuses a call takes for success. *)
Definition accepts (X : Type) (e : SandboxdCall X) (status : Z) : Prop :=
  match e with
  | SdClaim _ | SdCheckpoints | SdStats _ => status = 200
  | SdRelease _ _ | SdDeleteCheckpoint _ => status = 204 \/ status = 404
  | SdHibernate _ | SdWake _ => status = 204
  | _ => 200 <= status < 300
  end.

Definition on_target (c : Client) (t : option target) (ok : bool) (accept : Z -> Prop)
    (xs : list (HttpRequest * result HttpResponse)) : Prop :=
  match xs with
  | [] => ok = false
  | [(rq, r)] => exists t', t = Some t' /\ rqMethod rq = tgMethod t' /\ rqURL rq = baseURL c +:+ tgPath t' /\
      rqBearer rq = tgBearer t' /\ (ok = true -> exists rs, r = Ok rs /\ accept (rsStatus rs))
  | _ => False
  end.

Section requests.
Context (c : Client).
Context `{JSON ErrorBody} `{JSON ClaimSpec} `{JSON ClaimResult} `{JSON ForkSpec} `{JSON ForkResult}
  `{JSON CheckpointSpec} `{JSON CheckpointReply} `{JSON CheckpointList} `{JSON CheckpointClaimSpec}
  `{JSON PromoteSpec} `{JSON PromoteResult} `{JSON NodeStats}.

Lemma quot_100 z : Z.quot z 100 = 2 -> 200 <= z < 300.
Proof.
  intros Hq. pose proof (Z.quot_rem z 100 ltac:(done)) as Hd. pose proof (Z.rem_bound_abs z 100 ltac:(done)) as Hr.
  destruct (decide (0 <= z)) as [Hz|Hz].
  - pose proof (Z.rem_bound_pos z 100 Hz ltac:(done)). lia.
  - assert (z <= 0) as Hz' by lia. pose proof (Z.quot_le_mono z 0 100 ltac:(done) Hz') as Hm.
    rewrite Z.quot_0_l in Hm by done. lia.
Qed.

Lemma postJSON_hist {B A} `{JSON B} `{JSON A} path (body : B) :
  history any_answer
    (fun r h => on_target c (Some (mkTarget "POST" path (token c))) (isOk (r : result A))
                  (fun st => 200 <= st < 300) (exchanges h))
    (postJSON c path body) [].
Proof.
  unfold postJSON. destruct (Marshal body) as [payload|e]; [|done].
  unfold send. cbn [bind call history]. intros [rs|e] _; cbn; (eexists; split_and!; [done..|]); [|done].
  destruct (decide (Z.quot (rsStatus rs) 100 = 2)) as [E|E].
  - intros _. exists rs. split; [done|]. by apply quot_100.
  - rewrite bool_decide_true by done. done.
Qed.

Lemma getJSON_hist {A} `{JSON A} path :
  history any_answer
    (fun r h => on_target c (Some (mkTarget "GET" path (token c))) (isOk (r : result A))
                  (fun st => st = 200) (exchanges h))
    (getJSON c path) [].
Proof.
  unfold getJSON, send. cbn [bind call history]. intros [rs|e] _; cbn; (eexists; split_and!; [done..|]); [|done].
  destruct (decide (rsStatus rs = StatusOK)) as [E|E]; [by eauto|]. by rewrite bool_decide_true.
Qed.

Lemma mapOk_isOk {A B} (f : A -> B) r : isOk (mapOk f r) = isOk r.
Proof. by destruct r. Qed.

(** A verb that needs an id: without one nothing is sent and it fails. *)
Lemma requiresID_hist {A} what id t accept (p : prog HttpE (result A)) :
  (id <> "" -> history any_answer (fun r h => on_target c (Some t) (isOk r) accept (exchanges h)) p []) ->
  history any_answer
    (fun r h => on_target c (if bool_decide (id = "") then None else Some t) (isOk r) accept (exchanges h))
    (requiresID what id p) [].
Proof. intros Hp. unfold requiresID. case_bool_decide; [done|by apply Hp]. Qed.

Lemma mapOk_hist {A B} (f : A -> B) t accept (p : prog HttpE (result A)) :
  history any_answer (fun r h => on_target c t (isOk r) accept (exchanges h)) p [] ->
  history any_answer (fun r h => on_target c t (isOk r) accept (exchanges h)) (r <- p;; Ret (mapOk f r)) [].
Proof.
  intros Hp. eapply history_bind; [exact Hp|]. cbn [history]. intros r h. by rewrite mapOk_isOk.
Qed.

(** A verb answered without a body. *)
Lemma send_hist what t (accept : Z -> Prop) (body : option string) (answer : HttpResponse -> option gerror) :
  (forall rs, noError (answer rs) = true -> accept (rsStatus rs)) ->
  history any_answer (fun r h => on_target c (Some t) (noError r) accept (exchanges h))
    (r <- send c what (tgMethod t) (tgPath t) body (tgBearer t);;
     Ret (match r with Err e => Some e | Ok rs => answer rs end)) [].
Proof.
  intros Hok. unfold send. cbn [bind call history].
  intros [rs|e] _; cbn; (eexists; split_and!; [done..|]); [|done]. eauto.
Qed.

Lemma gone_ok rs :
  noError (if bool_decide (rsStatus rs = StatusNoContent) || bool_decide (rsStatus rs = StatusNotFound)
           then None else Some (statusError rs)) = true -> rsStatus rs = 204 \/ rsStatus rs = 404.
Proof. repeat case_bool_decide; cbn; [by left..|by right|done]. Qed.

Lemma sandboxVerb_hist id verb :
  history any_answer
    (fun r h => on_target c (if bool_decide (id = "") then None
                             else Some (mkTarget "POST" (sandboxPath id ("/" +:+ verb)) (token c)))
                  (noError r) (fun st => st = 204) (exchanges h))
    (sandboxVerb c id verb) [].
Proof.
  unfold sandboxVerb. case_bool_decide; [done|]. apply (send_hist _ (mkTarget "POST" _ _)).
  intros rs. case_bool_decide as E; [done|]. intros _. destruct (decide (rsStatus rs = StatusNoContent)); [done|by destruct E].
Qed.

Lemma claim_hist spec :
  history any_answer
    (fun r h => on_target c (Some (mkTarget "POST" "/v1/claim" (token c))) (isOk r) (fun st => st = 200) (exchanges h))
    (Claim c spec) [].
Proof.
  unfold Claim. destruct (Marshal spec) as [body|e]; [|done]. unfold send. cbn [bind call history].
  intros [rs|e] _; cbn; (eexists; split_and!; [done..|]); [|done].
  case_bool_decide as E; [by eauto|]. by case_bool_decide.
Qed.

(** C39.  Each call of the store becomes at most one HTTP request, to exactly
    the resource it names: its method, its path under the node's base URL with
    the id escaped, and the credential it should present (a release the
    sandbox's own, everything else the node's token).  Success is reported only
    on a status the protocol defines as success; without an id nothing is sent
    and the call fails.  The escaped id is one path segment whatever bytes it
    holds, and different ids are different segments. *)
Theorem calls_address_one_resource X (e : SandboxdCall X) :
  history any_answer (fun r h => on_target c (targetOf c X e) (succeeded X e r) (accepts X e) (exchanges h))
    (perform c X e) [] /\
  (forall id, string_forall segment_char (PathEscape id) = true) /\
  (forall id id', PathEscape id = PathEscape id' -> id = id').
Proof.
  split; [|split; [apply PathEscape_segment|]].
  2: { intros id id' E. by rewrite <-(PathUnescape_escape id), E, PathUnescape_escape. }
  destruct e; cbn [perform targetOf succeeded accepts].
  all: try apply mapOk_hist; try (apply requiresID_hist; intros _); try apply postJSON_hist; try apply getJSON_hist.
  - by apply claim_hist.
  - unfold Release. case_bool_decide; [done|]. apply (send_hist _ (mkTarget "POST" _ _)). apply gone_ok.
  - by apply sandboxVerb_hist.
  - by apply sandboxVerb_hist.
  - unfold DeleteCheckpoint. case_bool_decide; [done|]. apply (send_hist _ (mkTarget "DELETE" _ _)). apply gone_ok.
Qed.

End requests.

End SandboxdClient.
