(* ===== verification/ExecGateway.v ===== *)
(** * ExecGateway: the data-plane gateway.

    Models [pkg/execgw]: the id resolver over the node inventories
    ([resolver.go]), the credential index and [Open] ([gateway.go]), the
    agent-sandbox routes ([agentsandbox.go]), the envd services ([envd.go]), and
    how [cmd/sandbox-apiserver] mounts them behind one credential check
    ([startRouter]).

    The SDK that reaches a guest is not part of the repository: connecting to a
    node, looking a sandbox up and each guest operation are events, and a handle
    is known by the call that bound it.  Deadlines and logs are left out. *)

From S2P Require Import Prelude GoStrings K8s SandboxId Types StoreModel E2bModel.

Module ExecGw.
Import Store Resolver.
#[local] Open Scope prog_scope.

Definition ErrUnknownSandbox : gerror := Sentinel "execgw: no node holds that sandbox".
Definition IsUnknownSandbox (e : gerror) : bool := errors_Is e "execgw: no node holds that sandbox".

(** ** What the gateway calls *)

(** How a handle was bound: [Attach] to the owner, or [Lookup] through a node. *)
Inductive Via := Attached (addr : string) | LookedUp (entry : string).

Record Handle := mkHandle { hdVia : Via; hdClaimID : string; hdToken : string }.

Record Cmd := mkCmd { cdArgv : list string; cdCwd : string; cdEnv : strmap; cdStdin : option string }.

(** The writes [Run] made to its two writers ([true]: stderr), in order. *)
Record RunOutcome := mkRun { roWrites : list (bool * string); roCode : Z; roErr : option gerror }.

Record FileInfo := mkFileInfo { fiName : string; fiKind : string; fiSize : Z; fiMode : Z }.

(** [StartResponse] events of the envd process stream. *)
Inductive ProcessEvent :=
| PEStart (pid : Z)
| PEData (stderr : bool) (data : string)
| PEEnd (exitCode : Z) (exited : bool) (status : string) (err : option string).

Inductive ExecE : Type -> Type :=
| XListNodes : ExecE (result (list string))
| XNodeInventory (node : string) : ExecE (result NodeInventory)
| XConnect (addr fleetToken : string) : ExecE (option gerror)
| XLookup (entry claimID tok : string) : ExecE (option gerror)
| XRun (sb : Handle) (cmd : Cmd) : ExecE RunOutcome
| XWriteFile (sb : Handle) (path body : string) : ExecE (option gerror)
| XReadFile (sb : Handle) (path : string) : ExecE (result string)
| XListDir (sb : Handle) (path : string) : ExecE (result (list FileInfo))
| XStat (sb : Handle) (path : string) : ExecE (result FileInfo)
| XMkdir (sb : Handle) (path : string) (parents : bool) : ExecE (option gerror)
| XRemove (sb : Handle) (path : string) (recursive : bool) : ExecE (option gerror)
| XRename (sb : Handle) (source destination : string) : ExecE (option gerror)
| XSend (ev : ProcessEvent) : ExecE (option gerror).

(** ** Requests and replies *)

(** [textproto.CanonicalMIMEHeaderKey] of a valid field name. *)
Definition upper_byte (c : ascii) : ascii :=
  let z := byte_of c in if bool_decide (97 <= z <= 122) then ascii_of (z - 32) else c.

Fixpoint canonical_from (upper : bool) (s : string) : string :=
  match s with
  | EmptyString => ""
  | String c s' => String (if upper then upper_byte c else lower_byte c)
                     (canonical_from (bool_decide (c = "-"%char)) s')
  end.

Definition CanonicalHeaderKey (s : string) : string := canonical_from true s.

Definition Header := gmap string (list string).

Definition Get (h : Header) (key : string) : string :=
  match h !! CanonicalHeaderKey key with Some (v :: _) => v | _ => "" end.

Record Part := mkPart { paFileName : string; paContent : result string }.

(** [rqQuery] is the [path] query parameter, [rqParts] what [MultipartReader]
    yields: the parts, and the error that ends them unless it is [io.EOF]. *)
Record Request := mkRequest {
  rqMethod : string; rqPath : list string; rqHost : string; rqHeader : Header; rqQuery : string;
  rqBody : result string; rqParts : result (list Part * option gerror)
}.

Record ExecuteRequest := mkExecute {
  exCommand : string; exArgs : list string; exCwd : string; exEnv : strmap; exStdin : string
}.

Record ExecuteResponse := mkExecuted { erStdout : string; erStderr : string; erExitCode : Z }.

Record ListEntry := mkListEntry { leName : string; lePath : string; leIsDir : bool; leSize : Z }.

Inductive FileType := FILE_TYPE_FILE | FILE_TYPE_DIRECTORY | FILE_TYPE_UNSPECIFIED.

Record EntryInfo := mkEntryInfo {
  eiName : string; eiType : FileType; eiPath : string; eiSize : Z; eiMode : Z
}.

Inductive Body :=
| BNone
| BErr (code : Z) (message : string)
| BExecuted (r : ExecuteResponse)
| BBytes (data : string)
| BListing (es : list ListEntry)
| BExists (b : bool)
| BUploaded (path : string).

(** Connect's codes, as far as the services use them; [RawError] is an error
    that is not a connect error. *)
Inductive Code := CodeInvalidArgument | CodeNotFound | CodeUnavailable | CodeInternal.
Inductive RpcError := NewError (c : Code) (e : gerror) | RawError (e : gerror).

Inductive RpcReply :=
| StatResponse (e : EntryInfo)
| ListDirResponse (es : list EntryInfo)
| MakeDirResponse (e : EntryInfo)
| RemoveResponse
| MoveResponse (e : EntryInfo).

Inductive Reply :=
| Http (status : Z) (b : Body)
| Rpc (r : RpcReply + RpcError)
| Stream (e : option RpcError)
| Library.                                  (* answered by ServeMux or connect *)

Definition writeJSON (status : Z) (b : Body) : Reply := Http status b.
Definition writeErr (status : Z) (msg : string) : Reply := writeJSON status (BErr status msg).

(** ** The gateway's state *)

Record claimed := mkClaimed { clClaimID : string; clToken : string; clNodeAddr : string }.

(** [gwSource] is whether the resolver has an inventory source, [gwClients] the
    addresses with a pooled client. *)
Record Gateway := mkGateway {
  gwSource : bool; gwFleetToken : string; gwAPIKeys : list string;
  gwClients : gset string; gwTokens : gmap string claimed; gwByToken : gmap string string
}.

Definition New (source : bool) (fleetToken : string) (apiKeys : list string) : Gateway :=
  mkGateway source fleetToken apiKeys ∅ ∅ ∅.

Definition set_clients (cs : gset string) (g : Gateway) : Gateway :=
  mkGateway (gwSource g) (gwFleetToken g) (gwAPIKeys g) cs (gwTokens g) (gwByToken g).
Definition set_index (tokens : gmap string claimed) (byToken : gmap string string) (g : Gateway) : Gateway :=
  mkGateway (gwSource g) (gwFleetToken g) (gwAPIKeys g) (gwClients g) tokens byToken.

Definition identities (info : ClaimInfo) : list string :=
  (if bool_decide (ciClaimID info <> "") then [ciClaimID info; dnsSafe (ciClaimID info)] else [])
  ++ (if bool_decide (ciName info <> "") then
        ciName info :: (if bool_decide (ciNamespace info <> "") then [ciNamespace info +:+ "/" +:+ ciName info] else [])
      else []).

Definition RememberToken (info : ClaimInfo) (g : Gateway) : Gateway :=
  if bool_decide (ciToken info = "") then g
  else
    let c := mkClaimed (ciClaimID info) (ciToken info) (ciNodeAddr info) in
    set_index (foldl (fun m k => <[k := c]> m) (gwTokens g) (identities info))
      (<[ciToken info := ciClaimID info]> (gwByToken g)) g.

Definition ForgetToken (info : ClaimInfo) (g : Gateway) : Gateway :=
  set_index (foldl (fun m k => delete k m) (gwTokens g) (identities info))
    (if bool_decide (ciToken info <> "") then delete (ciToken info) (gwByToken g) else gwByToken g) g.

Definition remembered (g : Gateway) (claimID : string) : option claimed := gwTokens g !! claimID.

Definition token (g : Gateway) (claimID supplied : string) : option string :=
  if bool_decide (supplied <> "") then Some supplied else clToken <$> remembered g claimID.

Definition sandboxForToken (g : Gateway) (tok : string) : option string :=
  if bool_decide (tok = "") then None else gwByToken g !! tok.

Definition tokenHeaders : list string := ["X-Access-Token"; "X-Sandbox-Token"; "X-Envd-Access-Token"].

Fixpoint firstHeader (h : Header) (names : list string) : string :=
  match names with
  | [] => ""
  | n :: names => if bool_decide (Get h n <> "") then TrimSpace (Get h n) else firstHeader h names
  end.

Definition bearer (h : Header) : string :=
  let v := Get h "Authorization" in
  match (if bool_decide (v <> "") then CutPrefix v "Bearer " else (v, false)) with
  | (after, true) => TrimSpace after
  | _ => firstHeader h tokenHeaders
  end.

Definition authorize (g : Gateway) (h : Header) : bool :=
  if bool_decide (gwAPIKeys g = []) then true
  else
    let presented := Get h "X-API-Key" in
    if bool_decide (presented <> "") && existsb (fun k => bool_decide (k = presented)) (gwAPIKeys g) then true
    else
      let tok := bearer h in
      if bool_decide (tok <> "") then
        match sandboxForToken g tok with Some _ => true | None => false end
      else false.

(** ** Resolving an id *)

Definition matchesEntry (id : string) (e : InventoryEntry) : bool :=
  sameID (ieID e) id || sameName (ieName e) id.

Fixpoint entryOn (nodes : list string) : prog ExecE (result string) :=
  match nodes with
  | [] => Ret (Err (Wrap "execgw: no node advertises a sandboxd address" ErrUnknownSandbox))
  | node :: nodes =>
      r <- call (XNodeInventory node);;
      match r with
      | Ok inv => if bool_decide (niAddress inv = "") then entryOn nodes else Ret (Ok (niAddress inv))
      | Err _ => entryOn nodes
      end
  end.

Definition EntryAddr (g : Gateway) : prog ExecE (result string) :=
  if negb (gwSource g) then Ret (Err (Errorf "execgw: no inventory source configured"))
  else
    r <- call XListNodes;;
    match r with
    | Err e => Ret (Err (Wrap "execgw: enumerate nodes" e))
    | Ok nodes => entryOn nodes
    end.

Fixpoint resolveOn (id : string) (nodes : list string) : prog ExecE (result (string * string)) :=
  match nodes with
  | [] => Ret (Err (Wrap "execgw: sandbox" ErrUnknownSandbox))
  | node :: nodes =>
      r <- call (XNodeInventory node);;
      match r with
      | Err _ => resolveOn id nodes
      | Ok inv =>
          match List.find (matchesEntry id) (niEntries inv) with
          | None => resolveOn id nodes
          | Some e =>
              if bool_decide (niAddress inv = "")
              then Ret (Err (Wrap "execgw: node holds the sandbox but advertises no address" ErrUnknownSandbox))
              else Ret (Ok (ieID e, niAddress inv))
          end
      end
  end.

Definition Resolve (g : Gateway) (id : string) : prog ExecE (result (string * string)) :=
  if negb (gwSource g) then Ret (Err (Errorf "execgw: no inventory source configured"))
  else
    r <- call XListNodes;;
    match r with
    | Err e => Ret (Err (Wrap "execgw: enumerate nodes" e))
    | Ok nodes => resolveOn id nodes
    end.

(** ** Opening a handle *)

Definition clientFor (g : Gateway) (addr : string) : prog ExecE (option gerror * Gateway) :=
  if bool_decide (addr ∈ gwClients g) then Ret (None, g)
  else
    e <- call (XConnect addr (gwFleetToken g));;
    match e with
    | Some e => Ret (Some (Wrap "execgw: connect to node" e), g)
    | None => Ret (None, set_clients ({[addr]} ∪ gwClients g) g)
    end.

(** The claim id and, if the claim recorded it, the owner's address. *)
Definition locate (g : Gateway) (id supplied : string) : prog ExecE (result (string * string)) :=
  match remembered g id with
  | Some c => Ret (Ok (clClaimID c, clNodeAddr c))
  | None =>
      r <- Resolve g id;;
      Ret (match r with
           | Ok (cid, _) => Ok (cid, "")
           | Err e => if bool_decide (supplied = "") then Err e else Ok (id, "")
           end)
  end.

Definition Open (g : Gateway) (id supplied : string) : prog ExecE (result Handle * Gateway) :=
  if bool_decide (id = "") then Ret (Err (Errorf "execgw: no sandbox id in request"), g)
  else
    loc <- locate g id supplied;;
    match loc with
    | Err e => Ret (Err e, g)
    | Ok (claimID, addr) =>
        match token g claimID supplied with
        | None => Ret (Err (Errorf "execgw: no credential for sandbox; pass it as a bearer token"), g)
        | Some tok =>
            if bool_decide (addr <> "") then
              let! (e, g) := clientFor g addr in
              Ret (match e with Some e => Err e | None => Ok (mkHandle (Attached addr) claimID tok) end, g)
            else
              r <- EntryAddr g;;
              match r with
              | Err e => Ret (Err e, g)
              | Ok entry =>
                  let! (e, g) := clientFor g entry in
                  match e with
                  | Some e => Ret (Err e, g)
                  | None =>
                      e <- call (XLookup entry claimID tok);;
                      Ret (match e with
                           | Some _ => Err (Wrap "execgw: sandbox" ErrUnknownSandbox)
                           | None => Ok (mkHandle (LookedUp entry) claimID tok)
                           end, g)
                  end
              end
        end
    end.

(** ** The agent-sandbox routes *)

Definition sandboxIDHeader : string := "X-Sandbox-ID".

Definition open (g : Gateway) (r : Request) : prog ExecE ((Handle + Reply) * Gateway) :=
  let id := Get (rqHeader r) sandboxIDHeader in
  let! (sb, g) := Open g id (bearer (rqHeader r)) in
  match sb with
  | Ok sb => Ret (inl sb, g)
  | Err e =>
      let code := if IsUnknownSandbox e then 404
                  else if bool_decide (id = "") then 400
                  else if has_substring "no credential" (Error_text e) then 401
                  else 502 in
      Ret (inr (writeErr code (Error_text e)), g)
  end.

Definition argvFor (req : ExecuteRequest) : list string :=
  if bool_decide (exArgs req <> []) then exCommand req :: exArgs req
  else ["/bin/sh"; "-lc"; exCommand req].

(** What one of the two writers received. *)
Fixpoint written (stderr : bool) (ws : list (bool * string)) : string :=
  match ws with
  | [] => ""
  | (b, s) :: ws => if bool_decide (b = stderr) then s +:+ written stderr ws else written stderr ws
  end.

Definition limit1M : nat := N.to_nat 1048576.

(** [json.NewDecoder(io.LimitReader(r.Body, 1<<20)).Decode]; a body that cannot
    be read does not decode. *)
Definition decodeBody `{E2b.Decoder ExecuteRequest} (body : result string) : result ExecuteRequest :=
  match body with Err e => Err e | Ok b => E2b.Decode (String.substring 0 limit1M b) end.

Definition handleExecute `{E2b.Decoder ExecuteRequest} (g : Gateway) (r : Request) : prog ExecE (Reply * Gateway) :=
  match decodeBody (rqBody r) with
  | Err e => Ret (writeErr 400 ("malformed request body: " +:+ Error_text e), g)
  | Ok req =>
      if bool_decide (exCommand req = "") then Ret (writeErr 400 "command is required", g)
      else
        let! (sb, g) := open g r in
        match sb with
        | inr reply => Ret (reply, g)
        | inl sb =>
            let cmd := mkCmd (argvFor req) (exCwd req) (exEnv req)
                         (if bool_decide (exStdin req <> "") then Some (exStdin req) else None) in
            out <- call (XRun sb cmd);;
            match roErr out with
            | Some e => Ret (writeErr 502 ("execute: " +:+ Error_text e), g)
            | None => Ret (writeJSON 200 (BExecuted (mkExecuted (written false (roWrites out))
                                                       (written true (roWrites out)) (roCode out))), g)
            end
        end
  end.

Definition handleUpload (g : Gateway) (r : Request) : prog ExecE (Reply * Gateway) :=
  let path := rqQuery r in
  if bool_decide (path = "") then Ret (writeErr 400 "path query parameter is required", g)
  else
    let! (sb, g) := open g r in
    match sb with
    | inr reply => Ret (reply, g)
    | inl sb =>
        match rqBody r with
        | Err e => Ret (writeErr 400 ("read body: " +:+ Error_text e), g)
        | Ok body =>
            e <- call (XWriteFile sb path body);;
            match e with
            | Some e => Ret (writeErr 502 ("upload: " +:+ Error_text e), g)
            | None => Ret (Http 204 BNone, g)
            end
        end
    end.

(** [PathValue] of a trailing wildcard: the remaining segments. *)
Definition pathValue (rest : list string) : string := String.concat "/" rest.

Definition guestPath (rest : list string) : string :=
  let p := pathValue rest in
  if bool_decide (p = "") then "/" else if negb (HasPrefix p "/") then "/" +:+ p else p.

Definition TrimSuffix (s suffix : string) : string :=
  if HasSuffix s suffix then String.substring 0 (String.length s - String.length suffix) s else s.

Definition joinGuest (dir name : string) : string := TrimSuffix dir "/" +:+ "/" +:+ name.

Definition handleDownload (g : Gateway) (r : Request) (rest : list string) : prog ExecE (Reply * Gateway) :=
  let! (sb, g) := open g r in
  match sb with
  | inr reply => Ret (reply, g)
  | inl sb =>
      data <- call (XReadFile sb (guestPath rest));;
      match data with
      | Err e => Ret (writeErr 404 ("download: " +:+ Error_text e), g)
      | Ok data => Ret (Http 200 (BBytes data), g)
      end
  end.

Definition listEntry (dir : string) (e : FileInfo) : ListEntry :=
  mkListEntry (fiName e) (joinGuest dir (fiName e)) (bool_decide (fiKind e = "dir")) (int64 (fiSize e)).

Definition handleList (g : Gateway) (r : Request) (rest : list string) : prog ExecE (Reply * Gateway) :=
  let! (sb, g) := open g r in
  match sb with
  | inr reply => Ret (reply, g)
  | inl sb =>
      let dir := guestPath rest in
      entries <- call (XListDir sb dir);;
      match entries with
      | Err e => Ret (writeErr 404 ("list: " +:+ Error_text e), g)
      | Ok entries => Ret (writeJSON 200 (BListing (listEntry dir <$> entries)), g)
      end
  end.

Definition handleExists (g : Gateway) (r : Request) (rest : list string) : prog ExecE (Reply * Gateway) :=
  let! (sb, g) := open g r in
  match sb with
  | inr reply => Ret (reply, g)
  | inl sb =>
      info <- call (XStat sb (guestPath rest));;
      Ret (writeJSON 200 (BExists (match info with Ok _ => true | Err _ => false end)), g)
  end.

Definition isGet (r : Request) : bool := bool_decide (rqMethod r = "GET") || bool_decide (rqMethod r = "HEAD").
Definition isPost (r : Request) : bool := bool_decide (rqMethod r = "POST").

Definition AgentSandboxHandler `{E2b.Decoder ExecuteRequest} (g : Gateway) (r : Request) :
    prog ExecE (Reply * Gateway) :=
  match rqPath r with
  | [a] =>
      if bool_decide (a = "execute") && isPost r then handleExecute g r
      else if bool_decide (a = "upload") && isPost r then handleUpload g r
      else Ret (Library, g)
  | a :: rest =>
      if bool_decide (a = "download") && isGet r then handleDownload g r rest
      else if bool_decide (a = "list") && isGet r then handleList g r rest
      else if bool_decide (a = "exists") && isGet r then handleExists g r rest
      else Ret (Library, g)
  | [] => Ret (Library, g)
  end.

(** ** The envd services *)

Definition cut_or (c : ascii) (s : string) : string :=
  match cut_byte c s with Some (a, _) => a | None => s end.

Definition sandboxFromHost (host : string) : string :=
  let label := cut_or "." (cut_or ":" host) in
  match cut_byte "-" label with Some (_, id) => id | None => "" end.

Definition openEnvd (g : Gateway) (host : string) (h : Header) : prog ExecE ((Handle + RpcError) * Gateway) :=
  let tok := bearer h in
  let named := sandboxFromHost host in
  match (if bool_decide (named = "") then sandboxForToken g tok else Some named) with
  | None =>
      Ret (inr (NewError CodeInvalidArgument
                  (Errorf "execgw: request host names no sandbox and its credential matches none")), g)
  | Some id =>
      let! (sb, g) := Open g id tok in
      Ret (match sb with
           | Ok sb => inl sb
           | Err e => inr (NewError (if IsUnknownSandbox e then CodeNotFound else CodeUnavailable) e)
           end, g)
  end.

Record ProcessConfig := mkProcessConfig {
  pgCmd : string; pgArgs : list string; pgCwd : string; pgEnvs : strmap
}.

(** [streamWriter.Write] of each chunk the guest produced. *)
Fixpoint writeChunks (ws : list (bool * string)) : prog ExecE unit :=
  match ws with
  | [] => Ret tt
  | (stderr, data) :: ws => call (XSend (PEData stderr data));;; writeChunks ws
  end.

Definition streamError (e : option gerror) : option RpcError := RawError <$> e.

Definition endEvent (out : RunOutcome) : ProcessEvent :=
  match roErr out with
  | None => PEEnd (int32 (roCode out)) true "exited" None
  | Some e => PEEnd (int32 (roCode out)) false "error" (Some (Error_text e))
  end.

Definition Start (g : Gateway) (r : Request) (cfg : option ProcessConfig) : prog ExecE (Reply * Gateway) :=
  let! (sb, g) := openEnvd g (Get (rqHeader r) "Host") (rqHeader r) in
  match sb with
  | inr e => Ret (Stream (Some e), g)
  | inl sb =>
      match cfg with
      | Some cfg =>
          if bool_decide (pgCmd cfg = "") then
            Ret (Stream (Some (NewError CodeInvalidArgument (Errorf "execgw: no command in request"))), g)
          else
            sent <- call (XSend (PEStart 1));;
            match sent with
            | Some e => Ret (Stream (Some (RawError e)), g)
            | None =>
                out <- call (XRun sb (mkCmd (pgCmd cfg :: pgArgs cfg) (pgCwd cfg) (pgEnvs cfg) None));;
                writeChunks (roWrites out);;;
                sent <- call (XSend (endEvent out));;
                Ret (Stream (streamError sent), g)
            end
      | None => Ret (Stream (Some (NewError CodeInvalidArgument (Errorf "execgw: no command in request"))), g)
      end
  end.

Definition entryType (kind : string) : FileType :=
  if bool_decide (kind = "dir") then FILE_TYPE_DIRECTORY else FILE_TYPE_FILE.

Definition Stat (g : Gateway) (r : Request) (path : string) : prog ExecE (Reply * Gateway) :=
  let! (sb, g) := openEnvd g (Get (rqHeader r) "Host") (rqHeader r) in
  match sb with
  | inr e => Ret (Rpc (inr e), g)
  | inl sb =>
      info <- call (XStat sb path);;
      match info with
      | Err e => Ret (Rpc (inr (NewError CodeNotFound e)), g)
      | Ok info => Ret (Rpc (inl (StatResponse (mkEntryInfo path (entryType (fiKind info)) path
                                                  (int64 (fiSize info)) (fiMode info)))), g)
      end
  end.

Definition entryInfo (dir : string) (e : FileInfo) : EntryInfo :=
  mkEntryInfo (fiName e) (entryType (fiKind e)) (joinGuest dir (fiName e)) (int64 (fiSize e)) 0.

Definition ListDir (g : Gateway) (r : Request) (dir : string) : prog ExecE (Reply * Gateway) :=
  let! (sb, g) := openEnvd g (Get (rqHeader r) "Host") (rqHeader r) in
  match sb with
  | inr e => Ret (Rpc (inr e), g)
  | inl sb =>
      entries <- call (XListDir sb dir);;
      match entries with
      | Err e => Ret (Rpc (inr (NewError CodeNotFound e)), g)
      | Ok entries => Ret (Rpc (inl (ListDirResponse (entryInfo dir <$> entries))), g)
      end
  end.

Definition MakeDir (g : Gateway) (r : Request) (path : string) : prog ExecE (Reply * Gateway) :=
  let! (sb, g) := openEnvd g (Get (rqHeader r) "Host") (rqHeader r) in
  match sb with
  | inr e => Ret (Rpc (inr e), g)
  | inl sb =>
      e <- call (XMkdir sb path true);;
      match e with
      | Some e => Ret (Rpc (inr (NewError CodeInternal e)), g)
      | None => Ret (Rpc (inl (MakeDirResponse (mkEntryInfo path FILE_TYPE_DIRECTORY path 0 0))), g)
      end
  end.

Definition Remove (g : Gateway) (r : Request) (path : string) : prog ExecE (Reply * Gateway) :=
  let! (sb, g) := openEnvd g (Get (rqHeader r) "Host") (rqHeader r) in
  match sb with
  | inr e => Ret (Rpc (inr e), g)
  | inl sb =>
      e <- call (XRemove sb path true);;
      match e with
      | Some e => Ret (Rpc (inr (NewError CodeInternal e)), g)
      | None => Ret (Rpc (inl RemoveResponse), g)
      end
  end.

Definition Move (g : Gateway) (r : Request) (source destination : string) : prog ExecE (Reply * Gateway) :=
  let! (sb, g) := openEnvd g (Get (rqHeader r) "Host") (rqHeader r) in
  match sb with
  | inr e => Ret (Rpc (inr e), g)
  | inl sb =>
      e <- call (XRename sb source destination);;
      match e with
      | Some e => Ret (Rpc (inr (NewError CodeInternal e)), g)
      | None => Ret (Rpc (inl (MoveResponse (mkEntryInfo destination FILE_TYPE_UNSPECIFIED destination 0 0))), g)
      end
  end.

(** ** The plain-HTTP file routes *)

Definition envdSandboxID (g : Gateway) (r : Request) : string :=
  let id := sandboxFromHost (rqHost r) in
  if bool_decide (id <> "") then id else default "" (sandboxForToken g (bearer (rqHeader r))).

Definition envdDownload (g : Gateway) (r : Request) : prog ExecE (Reply * Gateway) :=
  let! (sb, g) := Open g (envdSandboxID g r) (bearer (rqHeader r)) in
  match sb with
  | Err e => Ret (writeErr 404 (Error_text e), g)
  | Ok sb =>
      data <- call (XReadFile sb (rqQuery r));;
      match data with
      | Err e => Ret (writeErr 404 (Error_text e), g)
      | Ok data => Ret (Http 200 (BBytes data), g)
      end
  end.

Fixpoint filePart (ps : list Part) (last : option gerror) : result string :=
  match ps with
  | [] => match last with
          | None => Err (Errorf "upload carried no file part")
          | Some e => Err (Wrap "read upload part" e)
          end
  | p :: ps => if bool_decide (paFileName p <> "") then paContent p else filePart ps last
  end.

Definition uploadBody (r : Request) : result string :=
  if negb (HasPrefix (Get (rqHeader r) "Content-Type") "multipart/") then rqBody r
  else
    match rqParts r with
    | Err e => Err (Wrap "read upload" e)
    | Ok (ps, last) => filePart ps last
    end.

Definition envdUpload (g : Gateway) (r : Request) : prog ExecE (Reply * Gateway) :=
  let! (sb, g) := Open g (envdSandboxID g r) (bearer (rqHeader r)) in
  match sb with
  | Err e => Ret (writeErr 404 (Error_text e), g)
  | Ok sb =>
      match uploadBody r with
      | Err e => Ret (writeErr 400 (Error_text e), g)
      | Ok body =>
          e <- call (XWriteFile sb (rqQuery r) body);;
          match e with
          | Some e => Ret (writeErr 502 (Error_text e), g)
          | None => Ret (writeJSON 200 (BUploaded (rqQuery r)), g)
          end
      end
  end.

(** ** The listener *)

(** The procedures the two services implement, with their decoded messages. *)
Inductive RpcCall :=
| RStart (cfg : option ProcessConfig)
| RStat (path : string) | RListDir (path : string) | RMakeDir (path : string)
| RRemove (path : string) | RMove (source destination : string).

Section listener.
Context `{E2b.Decoder ExecuteRequest}.

(** The procedure and message connect reads from a request; [None]: connect
    answers itself. *)
Context (decodeRPC : Request -> option RpcCall).

Definition serveRPC (g : Gateway) (r : Request) : prog ExecE (Reply * Gateway) :=
  match decodeRPC r with
  | Some (RStart cfg) => Start g r cfg
  | Some (RStat path) => Stat g r path
  | Some (RListDir path) => ListDir g r path
  | Some (RMakeDir path) => MakeDir g r path
  | Some (RRemove path) => Remove g r path
  | Some (RMove source destination) => Move g r source destination
  | None => Ret (Library, g)
  end.

Definition EnvdHandler (g : Gateway) (r : Request) : prog ExecE (Reply * Gateway) :=
  match rqPath r with
  | [a] =>
      if bool_decide (a = "files") then
        if isGet r then envdDownload g r else if isPost r then envdUpload g r else Ret (Library, g)
      else if bool_decide (a = "health") && isGet r then Ret (Http 204 BNone, g)
      else Ret (Library, g)
  | a :: _ =>
      if bool_decide (a = "process.Process") || bool_decide (a = "filesystem.Filesystem")
      then serveRPC g r else Ret (Library, g)
  | [] => Ret (Library, g)
  end.

(** The mux of [startRouter]. *)
Definition routeListener (g : Gateway) (r : Request) : prog ExecE (Reply * Gateway) :=
  match rqPath r with
  | [a] => if bool_decide (a = "files") then EnvdHandler g r else AgentSandboxHandler g r
  | a :: _ => if bool_decide (a = "process.Process") || bool_decide (a = "filesystem.Filesystem")
              then EnvdHandler g r else AgentSandboxHandler g r
  | [] => AgentSandboxHandler g r
  end.

Definition Authenticated (g : Gateway) (r : Request) (next : prog ExecE (Reply * Gateway)) :
    prog ExecE (Reply * Gateway) :=
  if negb (authorize g (rqHeader r))
  then Ret (writeErr 401 "present X-API-Key, or the sandbox's own token as a bearer", g)
  else next.

Definition startRouter (g : Gateway) (r : Request) : prog ExecE (Reply * Gateway) :=
  Authenticated g r (routeListener g r).
End listener.

End ExecGw.
