(* ===== verification/ExecFacts.v ===== *)
(** * ExecFacts: what the data-plane gateway promises.

    Credentials: every call that reaches a guest carries the caller's own token,
    or a remembered one on behalf of a caller with a fleet key.  Operations: a
    request reaches a guest at most once and its reply tells how that went.
    Reachability: the index is the history of claims, and what the store hands
    out opens under every identity it has. *)

From S2P Require Import Prelude GoStrings K8s PoolKey SandboxId Types StoreModel E2bModel ExecGateway.

Module ExecFacts.
Import Store ExecGw Resolver.
#[local] Open Scope prog_scope.

(** ** Credentials *)

(** The sandbox and token a call presents to a guest. *)
Definition guestOf (X : Type) (e : ExecE X) : option (string * string) :=
  match e with
  | XLookup _ claimID tok => Some (claimID, tok)
  | XRun sb _ | XWriteFile sb _ _ | XReadFile sb _ | XListDir sb _ | XStat sb _ | XMkdir sb _ _
  | XRemove sb _ _ | XRename sb _ _ => Some (hdClaimID sb, hdToken sb)
  | XListNodes | XNodeInventory _ | XConnect _ _ | XSend _ => None
  end.

(** The caller's own token if it sent one, otherwise the one remembered for that
    sandbox. *)
Definition credential (g : Gateway) (supplied claimID tok : string) : Prop :=
  if bool_decide (supplied = "") then exists c, remembered g claimID = Some c /\ tok = clToken c
  else tok = supplied.

Definition call_ok (g : Gateway) (supplied : string) (X : Type) (e : ExecE X) : Prop :=
  match guestOf X e with Some (claimID, tok) => credential g supplied claimID tok | None => True end /\
  match e with XConnect _ t => t = gwFleetToken g | _ => True end.

(** Requests change only the pool of clients. *)
Definition same_index (g g' : Gateway) : Prop := exists cs, g' = set_clients cs g.

Lemma same_index_refl g : same_index g g.
Proof. exists (gwClients g). by destruct g. Qed.
Lemma same_index_clients g cs : same_index g (set_clients cs g).
Proof. by exists cs. Qed.
Lemma same_index_trans g g' g'' : same_index g g' -> same_index g' g'' -> same_index g g''.
Proof. intros [cs ->] [cs' ->]. by exists cs'. Qed.

Create HintDb execgw discriminated.
#[export] Hint Resolve same_index_refl same_index_clients : execgw.

Definition no_guest (X : Type) (e : ExecE X) : Prop :=
  match e with XListNodes | XNodeInventory _ => True | _ => False end.

Lemma no_guest_ok g supplied X e : no_guest X e -> call_ok g supplied X e.
Proof. by destruct e. Qed.

Lemma entryOn_calls nodes : calls no_guest (entryOn nodes).
Proof. induction nodes as [|n nodes IH]; cbn [entryOn]; solve_calls; done. Qed.

Lemma EntryAddr_calls g : calls no_guest (EntryAddr g).
Proof. unfold EntryAddr. solve_calls; [done|apply entryOn_calls]. Qed.

Lemma resolveOn_calls id nodes : calls no_guest (resolveOn id nodes).
Proof. induction nodes as [|n nodes IH]; cbn [resolveOn]; solve_calls; done. Qed.

Lemma Resolve_calls g id : calls no_guest (Resolve g id).
Proof. unfold Resolve. solve_calls; [done|apply resolveOn_calls]. Qed.

Lemma locate_calls g id supplied : calls no_guest (locate g id supplied).
Proof. unfold locate. destruct (remembered g id); solve_calls. apply Resolve_calls. Qed.

Lemma clientFor_spec g supplied addr :
  spec (call_ok g supplied) any_answer (fun '(_, g') => same_index g g') (clientFor g addr).
Proof.
  unfold clientFor. case_bool_decide; [apply same_index_refl|]. cbn [bind call spec]. split; [done|].
  intros [e|] _; cbn; auto with execgw.
Qed.

Lemma token_credential g claimID supplied tok :
  token g claimID supplied = Some tok -> credential g supplied claimID tok.
Proof.
  unfold token, credential. destruct (decide (supplied = "")) as [->|Hs].
  - rewrite bool_decide_false by tauto. rewrite bool_decide_true by done.
    destruct (remembered g claimID) as [c|]; [|done]. cbn. intros [= <-]. by exists c.
  - rewrite bool_decide_true by done. rewrite bool_decide_false by done. by intros [= <-].
Qed.

Definition opened (g : Gateway) (supplied : string) (out : result Handle * Gateway) : Prop :=
  same_index g out.2 /\
  match out.1 with Ok sb => credential g supplied (hdClaimID sb) (hdToken sb) | Err _ => True end.

Lemma Open_spec g id supplied :
  spec (call_ok g supplied) any_answer (opened g supplied) (Open g id supplied).
Proof.
  unfold Open. case_bool_decide; [split; [apply same_index_refl|done]|].
  eapply spec_bind; [eapply spec_mono; [apply no_guest_ok|intros ? Hx; exact Hx|apply locate_calls]|].
  intros [[claimID addr]|e] _; [|split; [apply same_index_refl|done]].
  destruct (token g claimID supplied) as [tok|] eqn:Et; [|split; [apply same_index_refl|done]].
  apply token_credential in Et. case_bool_decide.
  - eapply spec_bind; [apply clientFor_spec|]. intros [[e|] g'] Hg; split; done.
  - eapply spec_bind; [eapply spec_mono; [apply no_guest_ok|intros ? Hx; exact Hx|apply EntryAddr_calls]|].
    intros [entry|e] _; [|split; [apply same_index_refl|done]].
    eapply spec_bind; [apply clientFor_spec|]. intros [[e|] g'] Hg; [by split|].
    cbn [bind call spec]. split; [by split|]. intros [e|] _; by split.
Qed.

Definition openedVia {E} (g : Gateway) (supplied : string) (out : (Handle + E) * Gateway) : Prop :=
  same_index g out.2 /\
  match out.1 with inl sb => credential g supplied (hdClaimID sb) (hdToken sb) | inr _ => True end.

Lemma open_spec g r :
  spec (call_ok g (bearer (rqHeader r))) any_answer (openedVia g (bearer (rqHeader r))) (open g r).
Proof.
  unfold open. eapply spec_bind; [apply Open_spec|]. intros [[sb|e] g'] [Hg Hc]; by split.
Qed.

Lemma openEnvd_spec g host h :
  spec (call_ok g (bearer h)) any_answer (openedVia g (bearer h)) (openEnvd g host h).
Proof.
  unfold openEnvd.
  destruct (if bool_decide (sandboxFromHost host = "") then sandboxForToken g (bearer h)
            else Some (sandboxFromHost host)) as [id|]; [|split; [apply same_index_refl|done]].
  eapply spec_bind; [apply Open_spec|]. intros [[sb|e] g'] [Hg Hc]; by split.
Qed.

(** ** The handlers *)

(** Every handler binds a handle and goes on with it; [rest] then makes calls on
    that handle and none that the credential does not cover. *)
Definition follows {E} (rest : Handle + E -> Gateway -> prog ExecE (Reply * Gateway)) : Prop :=
  forall supplied g sb g',
    same_index g g' -> match sb with inl sb => credential g supplied (hdClaimID sb) (hdToken sb) | inr _ => True end ->
    spec (call_ok g supplied) any_answer (fun out => same_index g out.2) (rest sb g').

Lemma agent_spec g r rest :
  follows rest ->
  spec (call_ok g (bearer (rqHeader r))) any_answer (fun out => same_index g out.2)
    (let! (sb, g) := open g r in rest sb g).
Proof. intros Hr. eapply spec_bind; [apply open_spec|]. intros [sb g'] [Hg Hc]. by apply Hr. Qed.

Lemma envd_spec g r host rest :
  follows rest ->
  spec (call_ok g (bearer (rqHeader r))) any_answer (fun out => same_index g out.2)
    (let! (sb, g) := openEnvd g host (rqHeader r) in rest sb g).
Proof. intros Hr. eapply spec_bind; [apply openEnvd_spec|]. intros [sb g'] [Hg Hc]. by apply Hr. Qed.

Lemma writeChunks_calls g supplied ws : calls (call_ok g supplied) (writeChunks ws).
Proof. induction ws as [|[b s] ws IH]; cbn [writeChunks]; solve_calls; done. Qed.

Ltac guest_calls :=
  repeat match goal with
    | |- same_index _ _ => by cbn; auto with execgw
    | |- spec _ _ _ (Ret _) => by auto with execgw
    | |- spec _ _ _ (bind (call _) _) => cbn [bind call spec]; split; [by split|intros ? _]
    | |- spec _ _ _ (Vis _ _) => cbn [spec]; split; [by split|intros ? _]
    | |- spec _ _ _ (bind (writeChunks _) _) => eapply spec_bind; [apply writeChunks_calls|intros ? _]
    | |- spec _ _ _ (match ?x with _ => _ end) => destruct x
    end.

Ltac follow := intros supplied ? [sb|?] g' Hg Hc; cbn beta iota zeta; guest_calls.

Section handlers.
Context `{E2b.Decoder ExecuteRequest} (decodeRPC : Request -> option RpcCall).
Context (g : Gateway) (r : Request).

Abbreviation handled := (spec (call_ok g (bearer (rqHeader r))) any_answer (fun out : Reply * Gateway => same_index g out.2)).

Lemma handleExecute_spec : handled (handleExecute g r).
Proof.
  unfold handleExecute. destruct (decodeBody (rqBody r)) as [req|e]; [|apply same_index_refl].
  case_bool_decide; [apply same_index_refl|]. apply agent_spec. follow.
Qed.

Lemma handleUpload_spec : handled (handleUpload g r).
Proof. unfold handleUpload. case_bool_decide; [apply same_index_refl|]. apply agent_spec. follow. Qed.

Lemma handleDownload_spec rest : handled (handleDownload g r rest).
Proof. apply agent_spec. follow. Qed.
Lemma handleList_spec rest : handled (handleList g r rest).
Proof. apply agent_spec. follow. Qed.
Lemma handleExists_spec rest : handled (handleExists g r rest).
Proof. apply agent_spec. follow. Qed.

Lemma AgentSandboxHandler_spec : handled (AgentSandboxHandler g r).
Proof.
  unfold AgentSandboxHandler. destruct (rqPath r) as [|a [|b rest]]; [apply same_index_refl|..];
    repeat case_match; eauto using handleExecute_spec, handleUpload_spec, handleDownload_spec, handleList_spec,
      handleExists_spec with execgw; apply same_index_refl.
Qed.

Lemma serveRPC_spec : handled (serveRPC decodeRPC g r).
Proof.
  unfold serveRPC. destruct (decodeRPC r) as [[cfg|path|path|path|path|src dst]|]; [..|apply same_index_refl];
    apply envd_spec; follow.
Qed.

Lemma files_spec rest :
  follows (fun sb => rest (match sb with inl sb => Ok sb | inr e => Err e end)) ->
  handled (let! (sb, g) := Open g (envdSandboxID g r) (bearer (rqHeader r)) in rest sb g).
Proof.
  intros Hr. eapply spec_bind; [apply Open_spec|]. intros [[sb|e] g'] [Hg Hc].
  - by apply (Hr _ _ (inl sb)).
  - by apply (Hr _ _ (inr e)).
Qed.

Lemma EnvdHandler_spec : handled (EnvdHandler decodeRPC g r).
Proof.
  unfold EnvdHandler. destruct (rqPath r) as [|a [|b rest]]; [apply same_index_refl|..];
    repeat case_match; try apply serveRPC_spec; try apply same_index_refl.
  - apply files_spec. follow.
  - apply files_spec. follow.
Qed.

Lemma routeListener_spec : handled (routeListener decodeRPC g r).
Proof.
  unfold routeListener. repeat case_match; auto using AgentSandboxHandler_spec, EnvdHandler_spec.
Qed.
End handlers.

(** The caller presented one of the gateway's keys. *)
Definition keyed (g : Gateway) (h : Header) : Prop := Get h "X-API-Key" <> "" /\ Get h "X-API-Key" ∈ gwAPIKeys g.

Lemma sandboxForToken_Some g tok id :
  sandboxForToken g tok = Some id <-> tok <> "" /\ gwByToken g !! tok = Some id.
Proof. unfold sandboxForToken. case_bool_decide; naive_solver. Qed.

Lemma bearer_known g h :
  (if bool_decide (bearer h <> "") then match sandboxForToken g (bearer h) with Some _ => true | None => false end
   else false) = true ->
  bearer h <> "" /\ is_Some (gwByToken g !! bearer h).
Proof.
  destruct (sandboxForToken g (bearer h)) as [id|] eqn:E; [|by case_bool_decide].
  apply sandboxForToken_Some in E as [? ->]. eauto.
Qed.

Lemma authorize_true g h :
  gwAPIKeys g <> [] -> authorize g h = true -> keyed g h \/ (bearer h <> "" /\ is_Some (gwByToken g !! bearer h)).
Proof.
  intros Hk. unfold authorize. rewrite bool_decide_false by done.
  destruct (bool_decide (Get h "X-API-Key" <> "")) eqn:Ep; cbn [andb].
  - destruct (existsb _ (gwAPIKeys g)) eqn:Ex.
    + intros _. left. split; [by apply bool_decide_eq_true in Ep|].
      apply existsb_exists in Ex as (k & Hin & <-%bool_decide_eq_true). by apply list_elem_of_In.
    + intros Ha. right. by apply bearer_known.
  - intros Ha. right. by apply bearer_known.
Qed.

(** C12.  With keys configured, nothing reaches a guest without a credential.  A
    request with neither a configured key nor the token of a sandbox the gateway
    knows makes no call at all and gets 401.  Every call any route makes to a
    guest, through either protocol and whatever the nodes answer, carries exactly
    the token the caller sent, if it sent one; if it sent none, the caller
    presented a configured key and the token is the one recorded for that very
    sandbox.  Nodes are dialled with the fleet token only, and serving a request
    changes no recorded credential. *)
Theorem data_plane_authorized `{E2b.Decoder ExecuteRequest} decodeRPC (g : Gateway) (r : Request) :
  gwAPIKeys g <> [] ->
  (~ keyed g (rqHeader r) -> gwByToken g !! bearer (rqHeader r) = None ->
   exists msg, startRouter decodeRPC g r = Ret (Http 401 (BErr 401 msg), g)) /\
  spec (fun X e => call_ok g (bearer (rqHeader r)) X e /\
                   (bearer (rqHeader r) = "" -> keyed g (rqHeader r))) any_answer
    (fun out => same_index g out.2) (startRouter decodeRPC g r).
Proof.
  intros Hk. unfold startRouter, Authenticated. split.
  - intros Hn Ht. destruct (authorize g (rqHeader r)) eqn:Ea; [|by eexists].
    apply authorize_true in Ea as [?|[_ [c Hc]]]; [done| |done]. by rewrite Ht in Hc.
  - destruct (authorize g (rqHeader r)) eqn:Ea; [|apply same_index_refl]. cbn [negb].
    eapply spec_mono; [|intros ? H'; exact H'|apply routeListener_spec].
    intros X e He. split; [done|]. intros Hb. by apply authorize_true in Ea as [?|[? _]].
Qed.

(** ** One operation, told truthfully *)

(** What the client of a request can observe of its run: the outcome of a guest
    operation, and the events put on its stream. *)
Inductive seen := Did (ok : bool) | Ran (out : RunOutcome) | Sent (ev : ProcessEvent).

Definition look (X : Type) (e : ExecE X) : X -> option seen :=
  match e in ExecE X return X -> option seen with
  | XRun _ _ => fun out => Some (Ran out)
  | XWriteFile _ _ _ | XMkdir _ _ _ | XRemove _ _ _ | XRename _ _ _ =>
      fun r => Some (Did (match r with None => true | Some _ => false end))
  | XReadFile _ _ => fun r => Some (Did (isOk r))
  | XListDir _ _ => fun r => Some (Did (isOk r))
  | XStat _ _ => fun r => Some (Did (isOk r))
  | XSend ev => fun _ => Some (Sent ev)
  | XListNodes | XNodeInventory _ => fun _ => None
  | XConnect _ _ | XLookup _ _ _ => fun _ => None
  end.

Abbreviation looked := (witnessed look).

Definition succeeds (reply : Reply) : bool :=
  match reply with
  | Http status _ => bool_decide (200 <= status < 300)
  | Rpc (inl _) | Stream None => true
  | Rpc (inr _) | Stream (Some _) | Library => false
  end.

Definition executed (out : RunOutcome) (reply : Reply) : Prop :=
  match roErr out with
  | Some _ => exists msg, reply = Http 502 (BErr 502 msg)
  | None => reply = Http 200 (BExecuted (mkExecuted (written false (roWrites out))
                                           (written true (roWrites out)) (roCode out)))
  end.

Definition chunks (ws : list (bool * string)) : list seen := (fun w => Sent (PEData w.1 w.2)) <$> ws.

Definition tells (reply : Reply) (xs : list seen) : Prop :=
  match xs with
  | [] => succeeds reply = false
  | [Did ok] => match reply with Http _ (BExists b) => b = ok | _ => succeeds reply = ok end
  | [Ran out] => executed out reply
  | [Sent ev] => ev = PEStart 1 /\ exists e, reply = Stream (Some e)
  | Sent ev :: Ran out :: rest =>
      ev = PEStart 1 /\ rest = chunks (roWrites out) ++ [Sent (endEvent out)] /\ exists e, reply = Stream e
  | _ => False
  end.

Definition unseen (X : Type) (e : ExecE X) : Prop :=
  match e with XListNodes | XNodeInventory _ | XConnect _ _ | XLookup _ _ _ => True | _ => False end.

Lemma unseen_look X e : unseen X e -> ignores look X e.
Proof. by destruct e. Qed.

Lemma no_guest_unseen X e : no_guest X e -> unseen X e.
Proof. by destruct e. Qed.

Lemma Open_unseen g id supplied : calls unseen (Open g id supplied).
Proof.
  unfold Open, clientFor. solve_calls; try done.
  - eapply calls_mono; [apply no_guest_unseen|apply locate_calls].
  - eapply calls_mono; [apply no_guest_unseen|apply EntryAddr_calls].
Qed.

Lemma open_unseen g r :
  spec unseen any_answer (fun out => match out.1 with inr reply => succeeds reply = false | inl _ => True end)
    (open g r).
Proof.
  unfold open. eapply spec_bind; [apply Open_unseen|]. intros [[sb|e] g'] _; cbn; [done|].
  by repeat case_match.
Qed.

Lemma openEnvd_unseen g host h : calls unseen (openEnvd g host h).
Proof.
  unfold openEnvd. destruct (if bool_decide _ then _ else _); [|done]. solve_calls. apply Open_unseen.
Qed.

Abbreviation told := (history any_answer (fun (out : Reply * Gateway) h => tells out.1 (looked h))).

Lemma after_open {A} (good : A -> Prop) (p : prog ExecE A) (rest : A -> prog ExecE (Reply * Gateway)) :
  spec unseen any_answer good p -> (forall a h, good a -> looked h = [] -> told (rest a) h) -> told (bind p rest) [].
Proof.
  intros Hp Hr. apply (spec_history _ _ _ _ []) in Hp. eapply history_bind; [exact Hp|].
  intros a h' (Ha & new & -> & Hn). apply Hr; [done|].
  cbn [app]. apply (witnessed_none unseen look _ Hn). intros X e x He. by apply unseen_look.
Qed.

Lemma writeChunks_told ws h :
  history any_answer (fun _ h' => looked h' = looked h ++ chunks ws) (writeChunks ws) h.
Proof.
  revert h. induction ws as [|[b s] ws IH]; intros h; cbn [writeChunks bind call history].
  - by rewrite app_nil_r.
  - intros x _. eapply history_mono; [|apply IH]. intros _ h' ->. by rewrite witnessed_app, <-app_assoc.
Qed.

Lemma Start_told g r cfg : told (Start g r cfg) [].
Proof.
  eapply after_open; [apply openEnvd_unseen|]. intros [[sb|e] g'] h _ Hh; [|cbn; by rewrite Hh].
  destruct cfg as [cfg|]; [|cbn; by rewrite Hh]. destruct (bool_decide (pgCmd cfg = "")); [cbn; by rewrite Hh|].
  cbn [bind call history]. intros [e|] _; cbn [history]; rewrite ?witnessed_app, ?Hh; [cbn; eauto|].
  intros out _. eapply history_bind; [apply writeChunks_told|].
  intros a h' Hh'. cbn [bind call history]. intros x _. rewrite witnessed_app, Hh', !witnessed_app, Hh.
  cbn. rewrite <-?app_assoc. cbn. eauto.
Qed.

(** The remaining handlers make one call at most. *)
Ltac one_operation :=
  intros [[?|?] ?] ? Ha Hh; cbn beta iota zeta;
  repeat match goal with
    | |- told (Ret _) _ => cbn [history fst]; rewrite ?witnessed_app, Hh
    | |- told (bind (call _) _) _ => cbn [bind call history]; intros ? _
    | |- history _ _ (match ?x with _ => _ end) _ => destruct x eqn:?; cbn [history fst]
    | |- _ => progress (rewrite ?witnessed_app, ?Hh)
    end;
  try done.

Section truth.
Context `{E2b.Decoder ExecuteRequest} (decodeRPC : Request -> option RpcCall).
Context (g : Gateway) (r : Request).

Lemma handleExecute_told : told (handleExecute g r) [].
Proof.
  unfold handleExecute. destruct (decodeBody (rqBody r)) as [req|e]; [|done].
  case_bool_decide; [done|]. eapply after_open; [apply open_unseen|].
  intros [[sb|reply] g'] h Ha Hh; [|cbn; by rewrite Hh]. cbn [bind call history]. intros out _.
  destruct (roErr out) eqn:Eo; cbn [history]; rewrite witnessed_app, Hh; cbn; unfold executed; rewrite Eo; [by eexists|done].
Qed.

Lemma handleUpload_told : told (handleUpload g r) [].
Proof.
  unfold handleUpload. case_bool_decide; [done|]. eapply after_open; [apply open_unseen|]. one_operation.
Qed.
Lemma handleDownload_told rest : told (handleDownload g r rest) [].
Proof. eapply after_open; [apply open_unseen|]. one_operation. Qed.
Lemma handleList_told rest : told (handleList g r rest) [].
Proof. eapply after_open; [apply open_unseen|]. one_operation. Qed.
Lemma handleExists_told rest : told (handleExists g r rest) [].
Proof. eapply after_open; [apply open_unseen|]. one_operation. Qed.

Lemma serveRPC_told : told (serveRPC decodeRPC g r) [].
Proof.
  unfold serveRPC. destruct (decodeRPC r) as [[cfg|path|path|path|path|src dst]|]; [apply Start_told|..|done];
    (eapply after_open; [apply openEnvd_unseen|]); one_operation.
Qed.

Lemma envdFiles_told : told (envdDownload g r) [] /\ told (envdUpload g r) [].
Proof. split; (eapply after_open; [apply Open_unseen|]); one_operation. Qed.
End truth.

(** C18.  One request, at most one guest operation, told as it went.  Whatever
    the nodes and the guest answer, a request that ends without an operation gets
    an error; one that ran a file operation gets a success exactly if the
    operation succeeded (for an existence test, that answer); an executed command
    gets its exit code and everything it wrote to each of the two outputs, or 502
    if the channel broke.  A started process's stream opens with the start event,
    carries the guest's writes in order, and closes with the event that reports
    how the run ended. *)
Theorem one_guest_operation `{E2b.Decoder ExecuteRequest} decodeRPC (g : Gateway) (r : Request) :
  history any_answer (fun out h => tells out.1 (looked h)) (startRouter decodeRPC g r) [].
Proof.
  unfold startRouter, Authenticated. destruct (negb (authorize g (rqHeader r))); [done|].
  unfold routeListener, EnvdHandler, AgentSandboxHandler.
  destruct (rqPath r) as [|a [|b rest]]; [done|..];
    repeat case_match; try done; try congruence;
    eauto using handleExecute_told, handleUpload_told, handleDownload_told, handleList_told, handleExists_told,
      serveRPC_told; by apply envdFiles_told.
Qed.

(** ** The credential index *)

Inductive op := Remember (info : ClaimInfo) | Forget (info : ClaimInfo).

Definition apply_op (g : Gateway) (o : op) : Gateway :=
  match o with Remember info => RememberToken info g | Forget info => ForgetToken info g end.

(** What an operation says of an identity, if anything. *)
Definition says (k : string) (o : op) : option (option claimed) :=
  match o with
  | Remember info =>
      if bool_decide (ciToken info <> "" /\ k ∈ identities info)
      then Some (Some (mkClaimed (ciClaimID info) (ciToken info) (ciNodeAddr info))) else None
  | Forget info => if bool_decide (k ∈ identities info) then Some None else None
  end.

(** What an operation says of a token. *)
Definition says_token (tok : string) (o : op) : option (option string) :=
  match o with
  | Remember info => if bool_decide (ciToken info = tok) then Some (Some (ciClaimID info)) else None
  | Forget info => if bool_decide (ciToken info = tok) then Some None else None
  end.

(** The most recent word, operations listed newest first. *)
Fixpoint latest {A} (word : op -> option (option A)) (newest : list op) : option A :=
  match newest with
  | [] => None
  | o :: older => match word o with Some a => a | None => latest word older end
  end.

Lemma foldl_insert_lookup (ks : list string) (c : claimed) (m : gmap string claimed) k :
  foldl (fun m k => <[k := c]> m) m ks !! k = if bool_decide (k ∈ ks) then Some c else m !! k.
Proof.
  revert m. induction ks as [|k' ks IH]; intros m; cbn [foldl]; [by rewrite bool_decide_false by set_solver|].
  rewrite IH. destruct (decide (k ∈ ks)); [by rewrite !bool_decide_true by set_solver|].
  rewrite bool_decide_false by done. destruct (decide (k = k')) as [->|].
  - by rewrite lookup_insert_eq, bool_decide_true by set_solver.
  - rewrite lookup_insert_ne, bool_decide_false by set_solver. done.
Qed.

Lemma foldl_delete_lookup (ks : list string) (m : gmap string claimed) k :
  foldl (fun m k => delete k m) m ks !! k = if bool_decide (k ∈ ks) then None else m !! k.
Proof.
  revert m. induction ks as [|k' ks IH]; intros m; cbn [foldl]; [by rewrite bool_decide_false by set_solver|].
  rewrite IH. destruct (decide (k ∈ ks)); [by rewrite !bool_decide_true by set_solver|].
  rewrite bool_decide_false by done. destruct (decide (k = k')) as [->|].
  - by rewrite lookup_delete_eq, bool_decide_true by set_solver.
  - rewrite lookup_delete_ne, bool_decide_false by set_solver. done.
Qed.

Lemma apply_op_tokens g o k :
  gwTokens (apply_op g o) !! k = match says k o with Some a => a | None => gwTokens g !! k end.
Proof.
  destruct o as [info|info]; cbn [apply_op says].
  - unfold RememberToken. case_bool_decide as Ht; [by rewrite bool_decide_false by tauto|].
    cbn [gwTokens set_index]. rewrite foldl_insert_lookup. repeat case_bool_decide; tauto.
  - cbn [ForgetToken gwTokens set_index]. rewrite foldl_delete_lookup. by case_bool_decide.
Qed.

Lemma apply_op_byToken g o tok :
  tok <> "" ->
  gwByToken (apply_op g o) !! tok = match says_token tok o with Some a => a | None => gwByToken g !! tok end.
Proof.
  intros Hne. destruct o as [info|info]; cbn [apply_op says_token].
  - unfold RememberToken. destruct (decide (ciToken info = "")) as [E|E].
    + rewrite bool_decide_true by done. by rewrite bool_decide_false by congruence.
    + rewrite bool_decide_false by done. cbn [gwByToken set_index]. case_bool_decide as Et.
      * by rewrite Et, lookup_insert_eq.
      * by rewrite lookup_insert_ne.
  - cbn [ForgetToken gwByToken set_index]. destruct (decide (ciToken info = tok)) as [<-|Et].
    + rewrite !bool_decide_true by done. apply lookup_delete_eq.
    + rewrite (bool_decide_false (_ = tok)) by done. case_bool_decide; [by rewrite lookup_delete_ne|done].
Qed.

(** The credential index is the history of claims: after any sequence of
    claims remembered and released ones forgotten, the gateway knows under an
    identity exactly what the most recent operation naming that identity said,
    and maps a token to the sandbox of the most recent claim that carried it. *)
Theorem index_is_latest (source : bool) (fleetToken : string) (keys : list string) (ops : list op) (k tok : string) :
  let g := foldl apply_op (New source fleetToken keys) ops in
  remembered g k = latest (says k) (rev ops) /\
  (tok <> "" -> sandboxForToken g tok = latest (says_token tok) (rev ops)).
Proof.
  cbn zeta. unfold remembered, sandboxForToken. induction ops as [|o ops IH] using rev_ind.
  - split; [done|]. intros. by case_bool_decide.
  - rewrite foldl_app, rev_app_distr. cbn [foldl rev app latest]. split.
    + rewrite apply_op_tokens. by destruct (says k o); [|apply IH].
    + intros Ht. destruct IH as [_ IH]. specialize (IH Ht). rewrite bool_decide_false in IH |- * by done.
      rewrite apply_op_byToken by done. by destruct (says_token tok o); [|apply IH].
Qed.

(** ** Reaching what was claimed *)

(** Opening [id] dials at most the owner, with the fleet token, and yields a
    handle on the claimed sandbox unless the owner cannot be dialled. *)
Definition attaches (g : Gateway) (id supplied : string) (info : ClaimInfo) : Prop :=
  spec (fun X e => match e with XConnect addr t => addr = ciNodeAddr info /\ t = gwFleetToken g | _ => False end)
    any_answer
    (fun out => match out.1 with
                | Ok sb => sb = mkHandle (Attached (ciNodeAddr info)) (ciClaimID info)
                                  (if bool_decide (supplied = "") then ciToken info else supplied)
                | Err e => exists cause, e = Wrap "execgw: connect to node" cause
                end)
    (Open g id supplied).

Definition recordOf (info : ClaimInfo) : claimed := mkClaimed (ciClaimID info) (ciToken info) (ciNodeAddr info).

Lemma attaches_remembered g id supplied info :
  id <> "" -> ciNodeAddr info <> "" ->
  remembered g id = Some (recordOf info) -> remembered g (ciClaimID info) = Some (recordOf info) ->
  attaches g id supplied info.
Proof.
  intros Hid Haddr Hr Hc. unfold attaches, Open. rewrite (bool_decide_false (id = "")) by done.
  unfold locate. rewrite Hr. cbn [bind recordOf clClaimID clNodeAddr]. unfold token. rewrite Hc.
  assert ((if bool_decide (supplied <> "") then Some supplied else clToken <$> Some (recordOf info)) =
          Some (if bool_decide (supplied = "") then ciToken info else supplied)) as ->.
  { destruct (decide (supplied = "")) as [->|Hs]; [done|].
    by rewrite (bool_decide_true (supplied <> "")), (bool_decide_false (supplied = "")). }
  rewrite (bool_decide_true (ciNodeAddr info <> "")) by done. unfold clientFor.
  destruct (bool_decide (ciNodeAddr info ∈ gwClients g)); cbn [bind call spec]; [done|].
  split; [done|]. intros [e|] _; cbn; [by eexists|done].
Qed.

Lemma append_nonempty a b : a <> "" -> a +:+ b <> "".
Proof. by destruct a. Qed.

Lemma publicID_nonempty id : id <> "" -> E2bId.publicID id <> "".
Proof.
  intros Hid. rewrite IdFacts.publicID_dnsSafe. unfold dnsSafe, runes.
  destruct id as [|c id]; [done|]. cbn [bytes runes_go]. by destruct (decode_rune _ _).
Qed.

Lemma identities_nonempty info id : id ∈ identities info -> id <> "".
Proof.
  unfold identities. rewrite elem_of_app. intros [Hin|Hin].
  - case_bool_decide as Hc; [|by apply elem_of_nil in Hin].
    rewrite !elem_of_cons, elem_of_nil in Hin. destruct Hin as [->|[->|[]]]; [done|].
    rewrite <-IdFacts.publicID_dnsSafe. by apply publicID_nonempty.
  - case_bool_decide as Hn; [|by apply elem_of_nil in Hin]. rewrite elem_of_cons in Hin.
    destruct Hin as [->|Hin]; [done|]. case_bool_decide as Hns; [|by apply elem_of_nil in Hin].
    rewrite elem_of_cons, elem_of_nil in Hin. destruct Hin as [->|[]]. by apply append_nonempty.
Qed.

Lemma cut_or_app c a b : has_byte c a = false -> cut_or c (a +:+ b) = a +:+ cut_or c b.
Proof.
  intros Ha. unfold cut_or. destruct (cut_byte c b) as [[b1 b2]|] eqn:E.
  - apply cut_byte_Some in E as [-> Hb]. rewrite <-app_string_assoc, cut_byte_app; [done|].
    by rewrite has_byte_app, Ha.
  - apply cut_byte_None in E. rewrite (proj2 (cut_byte_None c (a +:+ b))); [done|]. by rewrite has_byte_app, Ha.
Qed.

Lemma safe_has_byte c s :
  IdFacts.safe_char c = false -> string_forall IdFacts.safe_char s = true -> has_byte c s = false.
Proof.
  intros Hc. induction s as [|d s IH]; cbn [string_forall has_byte]; [done|].
  intros [Hd Hs]%andb_true_iff. rewrite IH, orb_false_r by done. apply bool_decide_eq_false. congruence.
Qed.

(** A host label holds none of these. *)
Definition bare (port : string) : Prop :=
  has_byte ":"%char port = false /\ has_byte "."%char port = false /\ has_byte "-"%char port = false.

Lemma host_roundtrip port id domain :
  bare port -> sandboxFromHost (port +:+ "-" +:+ E2bId.publicID id +:+ "." +:+ domain) = E2bId.publicID id.
Proof.
  intros (Hc & Hd & Hh). unfold sandboxFromHost. pose proof (IdFacts.publicID_safe id) as Hs.
  set (p := E2bId.publicID id) in *.
  assert (forall c, IdFacts.safe_char c = false -> has_byte c p = false) as Hp by (intros; by apply safe_has_byte).
  rewrite !(cut_or_app ":"%char) by (done || by apply Hp). 
  rewrite !(cut_or_app "."%char) by (done || by apply Hp).
  change (cut_or "." ("." +:+ cut_or ":" domain)) with "".
  change ("-" +:+ p +:+ "") with (String "-"%char (p +:+ "")). rewrite cut_byte_app by done.
  clearbody p. clear. induction p as [|c p IH]; [done|]. rewrite app_string_cons, IH. done.
Qed.

(** ** From a claim to a session *)

(** The claims a run of the store reported to its observer. *)
Definition observe (X : Type) (e : StoreE X) : X -> option ClaimInfo :=
  match e with EClaimObserver info => fun _ => Some info | _ => fun _ => None end.

Abbreviation observed := (witnessed observe).

Ltac unobserved := solve_calls; try done; try (intros ?; done).

Lemma pendingFor_unobserved s ns name : calls (ignores observe) (pendingFor s ns name).
Proof. unfold pendingFor. unobserved. Qed.

Lemma scan_nodes_unobserved nodes s pool : calls (ignores observe) (scan_nodes s nodes pool).
Proof. revert s. induction nodes as [|n nodes IH]; intros s; cbn [scan_nodes]; unobserved; apply IH. Qed.

Lemma pickWarmNode_unobserved s pool : calls (ignores observe) (pickWarmNode s pool).
Proof. unfold pickWarmNode. unobserved; apply scan_nodes_unobserved. Qed.

Lemma rememberClaim_unobserved s ns name node e : calls (ignores observe) (rememberClaim s ns name node e).
Proof. unfold rememberClaim. unobserved. Qed.

(** A claim tells its observer once, of exactly what it hands out. *)
Lemma Claim_observed cfg s ns name pool uid :
  hasClaimObserver cfg = true ->
  history any_answer
    (fun out h => observed h = match out.1 with
                               | Ok a => [mkClaimInfo (asSandboxName a) ns name (asToken a) (asAddress a)]
                               | Err _ => []
                               end)
    (Claim cfg s ns name pool uid) [].
Proof.
  intros Hobs. unfold Claim. destruct (negb (hasSandboxdFactory cfg)); [done|].
  eapply history_bind; [apply (calls_unseen observe), pendingFor_unobserved|]. intros [[pc|] s1] h Hh; [done|].
  eapply history_bind; [apply (calls_unseen observe), pickWarmNode_unobserved|]. intros [[[node addr]|e] s2] h2 Hh2; [|cbn; by rewrite Hh2, Hh].
  cbn [bind call history]. intros [res|e] _.
  - rewrite Hobs. cbn [bind call history]. intros [] _. eapply history_bind; [apply (calls_unseen observe), rememberClaim_unobserved|].
    intros s3 h3 Hh3. cbn [history fst]. by rewrite Hh3, !witnessed_app, Hh2, Hh.
  - destruct (IsNodeAtCapacity e); cbn [history fst]; by rewrite witnessed_app, Hh2, Hh.
Qed.

(** What a delivered claim carries: an id (the client turns an answer without one
    into a capacity miss), the sandbox's token and the owner's address. *)
Definition delivers (X : Type) (e : StoreE X) : X -> Prop :=
  match e with
  | ESandboxd _ _ c =>
      match c in SandboxdCall Y return Y -> Prop with
      | SdClaim _ => fun r => forall res, r = Ok res -> crID res <> "" /\ crToken res <> "" /\ crOwnerAddr res <> ""
      | _ => fun _ => True
      end
  | _ => fun _ => True
  end.

Lemma Claim_delivers cfg s ns name pool uid :
  spec (fun _ _ => True) delivers
    (fun out => forall a, out.1 = Ok a -> asSandboxName a <> "" /\ asToken a <> "" /\ asAddress a <> "")
    (Claim cfg s ns name pool uid).
Proof.
  unfold Claim. destruct (negb (hasSandboxdFactory cfg)); [done|].
  eapply (spec_bind _ _ (fun _ => True)); [by eapply spec_rsp; [|eapply spec_mono; [| |apply pendingFor_unobserved]]|].
  intros [[pc|] s1] _; [done|].
  eapply (spec_bind _ _ (fun _ => True)); [by eapply spec_rsp; [|eapply spec_mono; [| |apply pickWarmNode_unobserved]]|].
  intros [[[node addr]|e] s2] _; [|done].
  cbn [bind call spec]. split; [done|]. intros [res|e] Hres; [|by destruct (IsNodeAtCapacity e)].
  eapply (spec_bind _ _ (fun _ => True)); [by destruct (hasClaimObserver cfg)|]. intros _ _.
  eapply (spec_bind _ _ (fun _ => True)); [by eapply spec_rsp; [|eapply spec_mono; [| |apply rememberClaim_unobserved]]|].
  intros s3 _ a [= <-]. by apply Hres.
Qed.

Lemma claimID_identity info :
  ciClaimID info <> "" -> ciClaimID info ∈ identities info /\ E2bId.publicID (ciClaimID info) ∈ identities info.
Proof.
  intros Hid. unfold identities. rewrite (bool_decide_true (ciClaimID info <> "")) by done.
  rewrite IdFacts.publicID_dnsSafe. split; apply elem_of_app; left; set_solver.
Qed.

Section remembered.
Context (g : Gateway) (info : ClaimInfo).
Context (Hid : ciClaimID info <> "") (Htok : ciToken info <> "") (Haddr : ciNodeAddr info <> "").

Lemma remembered_identity id : id ∈ identities info -> remembered (RememberToken info g) id = Some (recordOf info).
Proof.
  intros Hin. unfold remembered. change (RememberToken info g) with (apply_op g (Remember info)).
  rewrite apply_op_tokens. cbn [says].
  by rewrite bool_decide_true.
Qed.

Lemma attaches_identity id supplied : id ∈ identities info -> attaches (RememberToken info g) id supplied info.
Proof.
  intros Hin. apply attaches_remembered; eauto using identities_nonempty, remembered_identity.
  by apply remembered_identity, claimID_identity.
Qed.

Lemma remembered_token : sandboxForToken (RememberToken info g) (ciToken info) = Some (ciClaimID info).
Proof.
  apply sandboxForToken_Some. split; [done|]. change (RememberToken info g) with (apply_op g (Remember info)).
  rewrite apply_op_byToken by done. cbn [says_token].
  by rewrite bool_decide_true.
Qed.

Lemma authorize_remembered h : bearer h = ciToken info -> authorize (RememberToken info g) h = true.
Proof.
  intros Hb. unfold authorize. case_bool_decide; [done|]. destruct (_ && _); [done|].
  rewrite Hb, (bool_decide_true (ciToken info <> "")) by done. by rewrite remembered_token.
Qed.
End remembered.

(** C13.  What a claim hands out can be used at once.  With the gateway as the
    store's observer, a claim that fails tells it nothing, and one that delivers
    tells it exactly the sandbox delivered; from then on, before any node has
    published it, the sandbox opens under its claim id, its published rendering,
    its object name and its namespaced name, by dialling its owner only.  The e2b
    reply of that claim suffices: a request to the host it spells
    ([port-sandboxID.domain]), or to any host that names no sandbox, with the
    access token of the reply as bearer passes the credential check and attaches
    to the same sandbox at its owner with that token. *)
Theorem created_sandbox_opens cfg s ns name pool uid (g : Gateway) srv template port domain :
  hasClaimObserver cfg = true -> bare port ->
  history delivers (fun out h =>
      match out.1 with
      | Err _ => observed h = []
      | Ok a =>
          let info := mkClaimInfo (asSandboxName a) ns name (asToken a) (asAddress a) in
          let g' := RememberToken info g in
          let reply := E2b.sandboxOf srv template (asSandboxName a) (asNode a) (asToken a) in
          observed h = [info] /\
          (forall id supplied,
             id = asSandboxName a \/ id = E2b.esSandboxID reply \/ (name <> "" /\ id = name) \/
             (ns <> "" /\ name <> "" /\ id = ns +:+ "/" +:+ name) ->
             attaches g' id supplied info) /\
          (forall r,
             rqHost r = port +:+ "-" +:+ E2b.esSandboxID reply +:+ "." +:+ domain \/ sandboxFromHost (rqHost r) = "" ->
             bearer (rqHeader r) = E2b.esEnvdAccessToken reply ->
             authorize g' (rqHeader r) = true /\ attaches g' (envdSandboxID g' r) (bearer (rqHeader r)) info)
      end)
    (Claim cfg s ns name pool uid) [].
Proof.
  intros Hobs Hport. eapply history_mono; cycle 1.
  { apply history_and; [apply (history_rsp any_answer); [done|]; by apply Claim_observed|].
    eapply (spec_history (fun _ _ => True) delivers), Claim_delivers. }
  cbn beta. intros [[a|e] s'] h [Hh [Ha _]]; [|done]. specialize (Ha a eq_refl) as (Hid & Htok & Haddr).
  cbn [fst] in Hh |- *. cbn zeta. set (info := mkClaimInfo (asSandboxName a) ns name (asToken a) (asAddress a)) in *.
  cbn [E2b.sandboxOf E2b.esSandboxID E2b.esEnvdAccessToken].
  assert (ciClaimID info <> "") as Hid' by done. assert (ciToken info <> "") as Htok' by done.
  assert (ciNodeAddr info <> "") as Haddr' by done. destruct (claimID_identity info Hid') as [Hi Hp].
  split; [done|]. split.
  - intros id supplied Hnames. apply attaches_identity; [done..|].
    destruct Hnames as [->|[->|[[Hn ->]|(Hns & Hn & ->)]]]; [done|done|..];
      (unfold identities; apply elem_of_app; right; cbn [ciName ciNamespace info];
       rewrite (bool_decide_true (name <> "")) by done); [set_solver|].
    rewrite (bool_decide_true (ns <> "")) by done. set_solver.
  - intros r Hhost Hb. split; [by apply authorize_remembered|]. apply attaches_identity; [done..|].
    unfold envdSandboxID. destruct Hhost as [->|Hhost].
    + rewrite host_roundtrip by done. by rewrite bool_decide_true by (by apply publicID_nonempty).
    + rewrite Hhost, bool_decide_false by tauto. rewrite Hb. change (asToken a) with (ciToken info).
      by rewrite remembered_token.
Qed.

(** ** Resolving published sandboxes *)

(** The inventories as the nodes publish them. *)
Definition publishes (nodes : list string) (inv : string -> result NodeInventory) (X : Type) (e : ExecE X) : X -> Prop :=
  match e with
  | XListNodes => fun r => r = Ok nodes
  | XNodeInventory n => fun r => r = inv n
  | _ => fun _ => True
  end.

(** A readable node of [nodes] lists an entry that answers to [id]. *)
Definition listed (nodes : list string) (inv : string -> result NodeInventory) (id : string)
    (i : NodeInventory) (e : InventoryEntry) : Prop :=
  exists n, n ∈ nodes /\ inv n = Ok i /\ e ∈ niEntries i /\ matchesEntry id e = true.

Definition resolution (nodes : list string) (inv : string -> result NodeInventory) (id : string)
    (r : result (string * string)) : Prop :=
  match r with
  | Ok (claimID, addr) => exists i e, listed nodes inv id i e /\ claimID = ieID e /\ addr = niAddress i /\ addr <> ""
  | Err x => IsUnknownSandbox x = true /\ forall i e, listed nodes inv id i e ->
               exists i' e', listed nodes inv id i' e' /\ niAddress i' = ""
  end.

Lemma listed_cons n nodes inv id i e :
  listed (n :: nodes) inv id i e <->
  (inv n = Ok i /\ e ∈ niEntries i /\ matchesEntry id e = true) \/ listed nodes inv id i e.
Proof. unfold listed. setoid_rewrite elem_of_cons. naive_solver. Qed.

Lemma resolution_cons n nodes inv id r :
  (forall i e, inv n = Ok i -> e ∈ niEntries i -> matchesEntry id e = true -> False) ->
  resolution nodes inv id r -> resolution (n :: nodes) inv id r.
Proof.
  intros Hn. destruct r as [[cid addr]|x]; cbn [resolution].
  - intros (i & e & Hl & Hrest). exists i, e. split; [|done]. apply listed_cons. by right.
  - intros [Hx Hall]. split; [done|]. intros i e [(Hi & He & Hm)|Hl]%listed_cons; [by destruct (Hn i e)|].
    destruct (Hall i e Hl) as (i' & e' & Hl' & Ha). exists i', e'. split; [|done]. apply listed_cons. by right.
Qed.

Lemma resolveOn_exact nodes inv allowed id :
  spec (fun _ _ => True) (publishes allowed inv) (resolution nodes inv id) (resolveOn id nodes).
Proof.
  induction nodes as [|n nodes IH]; cbn [resolveOn].
  - split; [done|]. intros i e (n & Hn & _). by apply elem_of_nil in Hn.
  - cbn [bind call spec]. split; [done|]. intros r ->. destruct (inv n) as [i|x] eqn:Ei.
    + destruct (List.find (matchesEntry id) (niEntries i)) as [e|] eqn:Ef.
      * apply find_some in Ef as [Hin%list_elem_of_In Hm].
        assert (listed (n :: nodes) inv id i e) as Hl by (apply listed_cons; auto).
        case_bool_decide as Ha; cbn [spec resolution]; [|by exists i, e]. split; [done|]. intros _ _ _. by exists i, e.
      * eapply spec_mono; [done| |exact IH]. intros r. apply resolution_cons.
        intros i' e Hi' He Hm. rewrite Ei in Hi'. injection Hi' as <-. apply list_elem_of_In in He.
        pose proof (find_none _ _ Ef e He). congruence.
    + eapply spec_mono; [done| |exact IH]. intros r. apply resolution_cons. congruence.
Qed.

(** The identities of a published claim. *)
Lemma matchesEntry_identities e ns name uid id :
  ClaimRef.plain ns -> ClaimRef.plain name -> ieID e <> "" ->
  ieName e = ClaimRef.formatClaimRef ns name uid ->
  id = ieID e \/ id = E2bId.publicID (ieID e) \/ (name <> "" /\ id = name) \/ id = ns +:+ "/" +:+ name ->
  matchesEntry id e = true.
Proof.
  intros Hns Hname He Hn Hid. unfold matchesEntry.
  assert (Hsame : forall x, x = ieID e \/ x = E2bId.publicID (ieID e) -> sameID (ieID e) x = true).
  { intros x Hx. apply IdFacts.renderings_agree. unfold E2bId.matchesID.
    rewrite (bool_decide_false (ieID e = "")) by done. rewrite (bool_decide_false (x = "")).
    - destruct Hx as [->| ->]; [by rewrite bool_decide_true|]. cbn [orb].
      by rewrite (bool_decide_true (E2bId.publicID (ieID e) = E2bId.publicID (ieID e))), orb_true_r.
    - destruct Hx as [->| ->]; [done|]. by apply publicID_nonempty. }
  destruct Hid as [Hx|[Hx|Hid]]; [by rewrite Hsame by auto..|].
  apply orb_true_iff. right. unfold sameName. rewrite Hn, ClaimRef.split_entry_name_agrees by done.
  rewrite (bool_decide_false (ClaimRef.formatClaimRef ns name uid = "")).
  2: { unfold ClaimRef.formatClaimRef. case_bool_decide; by destruct ns. }
  destruct Hid as [[Hne ->]| ->].
  - by rewrite (bool_decide_false (name = "")), (bool_decide_true (name = name)).
  - rewrite (bool_decide_false (ns +:+ "/" +:+ name = "")) by (by destruct ns).
    by rewrite (bool_decide_true (ns +:+ "/" +:+ name = ns +:+ "/" +:+ name)), orb_true_r.
Qed.

(** The resolver answers exactly what the inventories hold.  When every node
    answers with its published inventory, an id resolves to the claim id and the
    address of a readable node that lists an entry answering to it, or is
    reported unknown (which becomes 404); it is unknown only if no readable node
    lists one, or one that does advertises no address.  An entry published for a
    claim answers to its claim id, the rendering the e2b surface gave out, its
    object name and its namespaced name. *)
Theorem resolver_exact (g : Gateway) (nodes : list string) (inv : string -> result NodeInventory) (id : string) :
  gwSource g = true ->
  spec (fun _ _ => True) (publishes nodes inv) (resolution nodes inv id) (Resolve g id) /\
  (forall e ns name uid, ClaimRef.plain ns -> ClaimRef.plain name -> ieID e <> "" ->
     ieName e = ClaimRef.formatClaimRef ns name uid ->
     id = ieID e \/ id = E2bId.publicID (ieID e) \/ (name <> "" /\ id = name) \/ id = ns +:+ "/" +:+ name ->
     matchesEntry id e = true).
Proof.
  intros Hs. split; [|intros e ns name uid ?????; by apply (matchesEntry_identities e ns name uid)].
  unfold Resolve. rewrite Hs. cbn [negb bind call spec]. split; [done|]. intros r ->. apply resolveOn_exact.
Qed.

(** ** Behaviours worth knowing *)

(** A server's request carries its host outside the header, so the envd services,
    which read the host from the header, see none: an RPC whose bearer token this
    process did not hand out is refused as naming no sandbox, whatever host it
    was sent to. *)
Theorem rpc_needs_known_credential decodeRPC (g : Gateway) (r : Request) (c : RpcCall) :
  rqHeader r !! "Host" = None -> sandboxForToken g (bearer (rqHeader r)) = None -> decodeRPC r = Some c ->
  exists e, serveRPC decodeRPC g r = Ret (Rpc (inr (NewError CodeInvalidArgument e)), g) \/
            serveRPC decodeRPC g r = Ret (Stream (Some (NewError CodeInvalidArgument e)), g).
Proof.
  intros Hh Ht Hd.
  assert (openEnvd g (Get (rqHeader r) "Host") (rqHeader r) =
          Ret (inr (NewError CodeInvalidArgument
                 (Errorf "execgw: request host names no sandbox and its credential matches none")), g)) as Ho.
  { assert (Get (rqHeader r) "Host" = "") as ->.
    { unfold Get. change (CanonicalHeaderKey "Host") with "Host". by rewrite Hh. }
    unfold openEnvd. change (sandboxFromHost "") with "". rewrite bool_decide_true by done. by rewrite Ht. }
  unfold serveRPC, Start, Stat, ListDir, MakeDir, Remove, Move. rewrite Hd.
  destruct c; rewrite Ho; eexists; cbn [bind]; [right|left..]; reflexivity.
Qed.

Definition info1 : ClaimInfo := mkClaimInfo "sb_1" "team-a" "web" "tok-1" "10.0.0.1:80".
Definition info2 : ClaimInfo := mkClaimInfo "sb_2" "team-b" "web" "tok-2" "10.0.0.2:80".
Definition gw0 : Gateway := New true "fleet" ["key"].

(** Object names are indexed without their namespace: a second sandbox of the
    same name takes the name over, and forgetting the second leaves the first
    without it. *)
Example bare_names_shared :
  let g := RememberToken info2 (RememberToken info1 gw0) in
  (clClaimID <$> remembered (RememberToken info1 gw0) "web") = Some "sb_1" /\
  (clClaimID <$> remembered g "web") = Some "sb_2" /\
  remembered (ForgetToken info2 g) "web" = None /\
  (clClaimID <$> remembered (ForgetToken info2 g) "team-a/web") = Some "sb_1".
Proof. vm_compute. repeat split. Qed.

(** The port prefix of a host is not checked: the router's own service name is
    read as naming a sandbox, and its caller's credential is not consulted. *)
Example service_host_names_sandbox :
  let r := mkRequest "GET" ["files"] "sandbox-router-svc.default.svc:8080"
             {["Authorization" := ["Bearer tok-1"]]} "/etc/hostname" (Ok "") (Ok ([], None)) in
  sandboxForToken (RememberToken info1 gw0) (bearer (rqHeader r)) = Some "sb_1" /\
  envdSandboxID (RememberToken info1 gw0) r = "router-svc".
Proof. vm_compute. split; reflexivity. Qed.

(** ** Witnesses *)

#[local] Instance no_body : E2b.Decoder ExecuteRequest := fun _ => Err (Errorf "EOF").

Definition anonymous : Request := mkRequest "GET" ["download"; "etc"; "hostname"] "gw" ∅ "" (Ok "") (Ok ([], None)).
Definition withBearer : Request :=
  mkRequest "GET" ["files"] "gw" {["Authorization" := ["Bearer tok-1"]]} "/etc/hostname" (Ok "") (Ok ([], None)).

Lemma data_plane_authorized_witness :
  (exists msg, startRouter (fun _ => None) (RememberToken info1 gw0) anonymous =
                 Ret (Http 401 (BErr 401 msg), RememberToken info1 gw0)) /\
  spec (fun X e => call_ok (RememberToken info1 gw0) "tok-1" X e /\
                   ("tok-1" = "" -> keyed (RememberToken info1 gw0) (rqHeader withBearer))) any_answer
    (fun out => same_index (RememberToken info1 gw0) out.2)
    (startRouter (fun _ => None) (RememberToken info1 gw0) withBearer).
Proof.
  split.
  - apply (data_plane_authorized (fun _ => None) (RememberToken info1 gw0) anonymous); [done| |reflexivity].
    intros [Hk _]. by apply Hk.
  - exact (proj2 (data_plane_authorized (fun _ => None) (RememberToken info1 gw0) withBearer ltac:(done))).
Defined.

Definition inv1 : NodeInventory :=
  mkInventory "7" "n1" [mkEntry "team-a/web" "sb_1" "Running" "" "10.0.0.1"] "10.0.0.1:80" [].

Definition fleet1 (n : string) : result NodeInventory := if bool_decide (n = "n1") then Ok inv1 else Err (Errorf "gone").

Definition answering : handler ExecE unit := fun X e w =>
  match e in ExecE X return X * unit with
  | XListNodes => (Ok ["n0"; "n1"], w)
  | XNodeInventory n => (fleet1 n, w)
  | XConnect _ _ | XLookup _ _ _ | XWriteFile _ _ _ | XMkdir _ _ _ | XRemove _ _ _ | XRename _ _ _ | XSend _ => (None, w)
  | XRun _ _ => (mkRun [] 0 None, w)
  | XReadFile _ _ => (Ok "", w)
  | XListDir _ _ => (Ok [], w)
  | XStat _ _ => (Err (Errorf "gone"), w)
  end.

Lemma resolver_exact_witness :
  (run answering (Resolve gw0 "sb-1") tt).1 = Ok ("sb_1", "10.0.0.1:80") /\
  resolution ["n0"; "n1"] fleet1 "sb-1" (run answering (Resolve gw0 "sb-1") tt).1 /\
  matchesEntry "sb-1" (mkEntry "team-a/web" "sb_1" "Running" "" "10.0.0.1") = true.
Proof.
  destruct (resolver_exact gw0 ["n0"; "n1"] fleet1 "sb-1" eq_refl) as [Hr Hm].
  split_and!; [vm_compute; reflexivity| |].
  - eapply (spec_run _ _ _ answering) in Hr; [exact (proj1 Hr)|]. by intros X [].
  - apply (Hm _ "team-a" "web" ""); [split; reflexivity..|done|reflexivity|]. right. left. vm_compute. reflexivity.
Defined.

Lemma rpc_needs_known_credential_witness :
  exists e, serveRPC (fun _ => Some (RStat "/etc")) gw0 withBearer = Ret (Rpc (inr (NewError CodeInvalidArgument e)), gw0) \/
            serveRPC (fun _ => Some (RStat "/etc")) gw0 withBearer =
              Ret (Stream (Some (NewError CodeInvalidArgument e)), gw0).
Proof. apply (rpc_needs_known_credential (fun _ => Some (RStat "/etc")) gw0 withBearer (RStat "/etc")); reflexivity. Defined.

(** A fleet of one node with a warm sandbox. *)
Definition warm1 : NodeInventory :=
  mkInventory "7" "n1" [] "10.0.0.1:80" [Pool.mkPoolCapacity "python" "none" "small" 1 1].

Definition claiming : handler StoreE unit := fun X e w =>
  match e in StoreE X return X * unit with
  | ENow => (0, w)
  | EListNodes => (Ok ["n1"], w)
  | ENodeInventory _ => (Ok warm1, w)
  | EIntN _ => (0, w)
  | EClaimObserver _ => (tt, w)
  | ESandboxd _ _ c =>
      (match c in SandboxdCall Y return Y with
       | SdClaim _ => Ok (mkClaimResult "sb_1" "tok-1" "10.0.0.1:80")
       | SdRelease _ _ | SdHibernate _ | SdWake _ | SdDeleteCheckpoint _ => None
       | SdFork _ _ | SdCheckpoint _ _ | SdCheckpoints | SdClaimCheckpoint _ _ | SdPromote _ _ | SdStats _ =>
           Err (Errorf "unused")
       end, w)
  end.

Definition observing : config := mkConfig "fleet" true true.
Definition claim1 : prog StoreE (result Assignment * store) :=
  Claim observing NewScatterGatherStore "team-a" "web" (Pool.mkPoolKey "python" "none" "small") "uid-1".
Definition e2bServer : E2b.Server := E2b.mkServer (E2b.mkOptions "team-a" "sandbox.example" "0.4.0" [] true "small" true) ∅.
Definition fromHost : Request :=
  mkRequest "GET" ["files"] "49983-sb-1.sandbox.example" {["Authorization" := ["Bearer tok-1"]]} "/etc/hostname"
    (Ok "") (Ok ([], None)).

Lemma claiming_delivers X e w : delivers X e (claiming X e w).1.
Proof. destruct e as [|? | |?|Y addr tok c|?]; try done. destruct c; try done. cbn. by intros res [= <-]. Qed.

Lemma created_sandbox_opens_witness :
  (run claiming claim1 tt).1.1 = Ok (mkAssignment "sb_1" "n1" "10.0.0.1:80" "tok-1") /\
  attaches (RememberToken info1 gw0) "team-a/web" "" info1 /\
  authorize (RememberToken info1 gw0) (rqHeader fromHost) = true /\
  attaches (RememberToken info1 gw0) (envdSandboxID (RememberToken info1 gw0) fromHost) "tok-1" info1.
Proof.
  assert ((run claiming claim1 tt).1.1 = Ok (mkAssignment "sb_1" "n1" "10.0.0.1:80" "tok-1")) as Hrun
    by (vm_compute; reflexivity).
  pose proof (history_run delivers _ claiming claim1 tt [] claiming_delivers
    (created_sandbox_opens observing NewScatterGatherStore "team-a" "web" (Pool.mkPoolKey "python" "none" "small") "uid-1"
       gw0 e2bServer "python" "49983" "sandbox.example" eq_refl (conj eq_refl (conj eq_refl eq_refl)))) as H.
  cbn beta in H. rewrite Hrun in H. destruct H as (_ & Hids & Hreq). split; [exact Hrun|]. split.
  - apply Hids. right. right. right. split_and!; done.
  - apply (Hreq fromHost); [left|]; vm_compute; reflexivity.
Defined.

End ExecFacts.
