(* ===== verification/Metrics.v ===== *)
(** * Metrics: the sandbox collector and the claim latencies.

    Models [internal/metrics/sandbox_collector.go], the recording functions of
    [internal/metrics/metrics.go] and the part of the SandboxClaim controller
    that feeds them.  A Prometheus vector is known by its name; an observation is
    the vector, the label values and the value in milliseconds.  The theorems say
    that one scrape counts every sandbox exactly once under its own labels, that
    what is measured never changes what the controller remembers, and which
    latencies can be recorded.  Parsing a timestamp is an argument. *)

From S2P Require Import Prelude GoStrings K8s Types SandboxModel WarmPool ClaimModel.

Module Metrics.
Import ClaimController.
#[local] Open Scope prog_scope.

Definition LaunchTypeWarm : string := "warm".
Definition LaunchTypeCold : string := "cold".
Definition LaunchTypeUnknown : string := "unknown".
Definition WebhookAnnotation : string := "agents.x-k8s.io/webhook-first-observed-at".

(** ** The collector *)

Record AgentSandboxesMetricKey := mkMetricKey {
  akNamespace : string; akReadyCondition : string; akExpired : string; akLaunchType : string;
  akTemplate : string; akOwnedBy : string; akCreatedBy : string
}.

#[export] Instance AgentSandboxesMetricKey_eq_dec : EqDecision AgentSandboxesMetricKey.
Proof. solve_decision. Defined.
#[export] Program Instance AgentSandboxesMetricKey_countable : Countable AgentSandboxesMetricKey :=
  inj_countable' (fun k => (akNamespace k, akReadyCondition k, akExpired k, akLaunchType k,
                            akTemplate k, akOwnedBy k, akCreatedBy k))
    (fun '(a, b, c, d, e, f, g) => mkMetricKey a b c d e f g) _.
Next Obligation. by intros []. Qed.

(** A constant metric: value and label values. *)
Record Metric := mkMetric { mtValue : Z; mtLabels : list string }.

Definition labelValues (k : AgentSandboxesMetricKey) : list string :=
  [akNamespace k; akReadyCondition k; akExpired k; akLaunchType k; akTemplate k; akOwnedBy k; akCreatedBy k].

Definition NewAgentSandboxesConstMetric (count : Z) (key : AgentSandboxesMetricKey) : Metric :=
  mkMetric count (labelValues key).

Section collector.
Context `{ConditionLib} `{OwnerLib}.

Definition ownedBy (m : ObjectMeta) : string :=
  match GetControllerOf m with
  | Some ref =>
      if bool_decide (orAPIVersion ref = "extensions.agents.x-k8s.io/v1beta1") then
        if bool_decide (orKind ref = "SandboxClaim") then "SandboxClaim"
        else if bool_decide (orKind ref = "SandboxWarmPool") then "SandboxWarmPool" else "None"
      else "None"
  | None => "None"
  end.

Definition keyOf (sb : Sandbox) : AgentSandboxesMetricKey :=
  let '(ready, expired) :=
    match FindStatusCondition (sbConditions sb) SandboxConditionReady with
    | Some c => (if bool_decide (cStatus c = ConditionTrue) then "true" else "false",
                 if bool_decide (cReason c = SandboxReasonExpired) then "true" else "false")
    | None => ("false", "false")
    end in
  let launchType := if bool_decide (mget (sbLabels sb) SandboxLaunchTypeLabel = SandboxLaunchTypeWarm)
                    then LaunchTypeWarm else LaunchTypeCold in
  let template := match sbAnnotations sb !! SandboxTemplateRefAnnotation with
                  | Some t => if bool_decide (t <> "") then t else "unknown"
                  | None => "unknown"
                  end in
  let createdBy := match sbLabels sb !! CreatedByLabel with
                   | Some v => SandboxController.NormalizeCreatedBy v
                   | None => "unknown"
                   end in
  mkMetricKey (sbNamespace sb) ready expired launchType template (ownedBy (sbMeta sb)) createdBy.

(** [counts[key]++] over the items. *)
Definition countKeys (items : list Sandbox) : gmap AgentSandboxesMetricKey Z :=
  foldl (fun counts sb => <[keyOf sb := default 0 (counts !! keyOf sb) + 1]> counts) ∅ items.

(** What is sent to the channel, given the answer of [List]. *)
Definition Collect (listed : result (list Sandbox)) : list Metric :=
  match listed with
  | Err _ => []
  | Ok items => (fun kc => NewAgentSandboxesConstMetric kc.2 kc.1) <$> map_to_list (countKeys items)
  end.

(** ** Claim latencies *)

Inductive vector := ClaimStartupLatency | ClaimControllerStartupLatency | SandboxCreationLatency.

Inductive MetricE : Type -> Type :=
| MNow : MetricE Z
| MObserve (v : vector) (labels : list string) (ms : Z) : MetricE unit.

Definition Milliseconds (d : Z) : Z := Z.quot d 1000000.

Definition RecordClaimStartupLatency (startTime : Z) (launchType templateName warmPoolName : string) :
    prog MetricE unit :=
  now <- call MNow;;
  call (MObserve ClaimStartupLatency [launchType; templateName; warmPoolName] (Milliseconds (time_Sub now startTime))).

Definition RecordClaimControllerStartupLatency (startTime : Z) (launchType templateName warmPoolName : string) :
    prog MetricE unit :=
  now <- call MNow;;
  call (MObserve ClaimControllerStartupLatency [launchType; templateName; warmPoolName]
          (Milliseconds (time_Sub now startTime))).

Definition RecordSandboxCreationLatency (duration : Z) (namespace launchType templateName : string) :
    prog MetricE unit :=
  call (MObserve SandboxCreationLatency [namespace; launchType; templateName] (Milliseconds duration)).

Definition getLaunchType (sandbox : option Sandbox) : string :=
  match sandbox with
  | None => LaunchTypeUnknown
  | Some sb => if bool_decide (mget (sbLabels sb) SandboxLaunchTypeLabel = SandboxLaunchTypeWarm)
               then LaunchTypeWarm else LaunchTypeCold
  end.

Definition resolveTemplateName (sandbox : option Sandbox) : string :=
  match sandbox with
  | None => "__unknown__"
  | Some sb => if bool_decide (mget (sbAnnotations sb) SandboxTemplateRefAnnotation <> "")
               then mget (sbAnnotations sb) SandboxTemplateRefAnnotation else "__unknown__"
  end.

Section latencies.
Context (parseTime : string -> option Z).

Definition recordClaimStartupLatency (claim : SandboxClaim) (launchType templateName warmPoolName : string) :
    prog MetricE unit :=
  let seen := mget (scAnnotations claim) WebhookAnnotation in
  if bool_decide (seen = "") then Ret tt
  else match parseTime seen with
       | None => Ret tt
       | Some t =>
           now <- call MNow;;
           if time_Sub now t <? 0 then Ret tt
           else RecordClaimStartupLatency t launchType templateName warmPoolName
       end.

(** The deferred deletion runs on both ways out of the branch. *)
Definition recordControllerStartupLatency (claim : SandboxClaim) (launchType templateName warmPoolName : string)
    (st : ClaimState) : prog MetricE ClaimState :=
  let observed := mget (scAnnotations claim) ObservabilityAnnotation in
  if bool_decide (observed <> "") then
    let! _ := (match parseTime observed with
               | None => Ret tt
               | Some t => RecordClaimControllerStartupLatency t launchType templateName warmPoolName
               end) in
    Ret (set_observed (delete (claimKey claim)) st)
  else Ret st.

Definition recordSandboxCreationLatency (sandbox : option Sandbox) (launchType templateName : string) :
    prog MetricE unit :=
  match sandbox with
  | None => Ret tt
  | Some sb =>
      if bool_decide (mCreationTimestamp (sbMeta sb) = 0) then Ret tt
      else match FindStatusCondition (sbConditions sb) SandboxConditionReady with
           | None => Ret tt
           | Some c =>
               if bool_decide (cStatus c <> ConditionTrue) || bool_decide (cLastTransitionTime c = 0) then Ret tt
               else let latency := time_Sub (cLastTransitionTime c) (mCreationTimestamp (sbMeta sb)) in
                    if 0 <=? latency then RecordSandboxCreationLatency latency (sbNamespace sb) launchType templateName
                    else Ret tt
           end
  end.

Definition readyTrue (cs : list Condition) : bool :=
  match FindStatusCondition cs SandboxConditionReady with
  | Some c => bool_decide (cStatus c = ConditionTrue)
  | None => false
  end.

(** The whole of [recordCreationLatencyMetric], of which [ClaimModel] keeps the
    effect on the controller's memory. *)
Definition measureCreation (old claim : SandboxClaim) (sandbox : option Sandbox) (st : ClaimState) :
    prog MetricE ClaimState :=
  if negb (readyTrue (scConditions claim)) then Ret st
  else if readyTrue (scConditions old) then
    Ret (match observedTimes st !! claimKey claim with
         | Some (_, uid) => if bool_decide (uid = scUID claim) then set_observed (delete (claimKey claim)) st else st
         | None => st
         end)
  else
    let launchType := getLaunchType sandbox in
    let templateName := resolveTemplateName sandbox in
    let warmPoolName := scWarmPoolRef claim in
    let! _ := recordClaimStartupLatency claim launchType templateName warmPoolName in
    let! st := recordControllerStartupLatency claim launchType templateName warmPoolName st in
    let! _ := recordSandboxCreationLatency sandbox launchType templateName in
    Ret st.
End latencies.

(** ** One scrape counts every sandbox once *)

Definition tally (items : list Sandbox) (k : AgentSandboxesMetricKey) : Z :=
  Z.of_nat (length (filter (fun sb => keyOf sb = k) items)).

Lemma labelValues_inj : Inj (=) (=) labelValues.
Proof. intros [] [] [= -> -> -> -> -> -> ->]. done. Qed.

Lemma tally_snoc items sb k :
  tally (items ++ [sb]) k = if decide (keyOf sb = k) then tally items k + 1 else tally items k.
Proof.
  unfold tally. rewrite filter_app, length_app, filter_cons. destruct (decide (keyOf sb = k)); cbn; lia.
Qed.

Lemma countKeys_snoc items sb :
  countKeys (items ++ [sb]) =
  <[keyOf sb := default 0 (countKeys items !! keyOf sb) + 1]> (countKeys items).
Proof. unfold countKeys. by rewrite foldl_app. Qed.

(** The map holds the tally of exactly the keys that occur. *)
Lemma countKeys_tally items k :
  countKeys items !! k = if decide (k ∈ keyOf <$> items) then Some (tally items k) else None.
Proof.
  induction items as [|sb items IH] using rev_ind; [done|].
  rewrite countKeys_snoc, tally_snoc. destruct (decide (keyOf sb = k)) as [<-|Hne].
  - rewrite lookup_insert_eq, decide_True by (rewrite fmap_app, elem_of_app; right; by apply list_elem_of_singleton).
    f_equal. rewrite IH. destruct (decide _) as [Hin|Hout]; cbn; [done|]. unfold tally.
    destruct (filter (fun sb' => keyOf sb' = keyOf sb) items) as [|sb' l] eqn:E; cbn; [done|].
    destruct Hout. assert (sb' ∈ filter (fun sb' => keyOf sb' = keyOf sb) items) as [<- Hin]%list_elem_of_filter
      by (rewrite E; left). by apply list_elem_of_fmap_2.
  - rewrite lookup_insert_ne, IH by done.
    assert (k ∈ keyOf <$> items ++ [sb] <-> k ∈ keyOf <$> items) as Hiff.
    { rewrite fmap_app, elem_of_app. split; [|by left]. intros [|Hs]; [done|].
      apply list_elem_of_singleton in Hs. congruence. }
    by destruct (decide (k ∈ keyOf <$> items)), (decide (k ∈ keyOf <$> items ++ [sb])); tauto || idtac.
Qed.

Definition total (m : gmap AgentSandboxesMetricKey Z) : Z := map_fold (fun _ c t => c + t) 0 m.

Lemma total_insert m k c : total (<[k := c]> m) = c + total (delete k m).
Proof.
  unfold total. rewrite <-insert_delete_eq. rewrite map_fold_insert_L; [done|intros; lia|apply lookup_delete_eq].
Qed.

Lemma total_add m k : total (<[k := default 0 (m !! k) + 1]> m) = total m + 1.
Proof.
  rewrite total_insert. destruct (m !! k) as [c|] eqn:E; cbn [default].
  - rewrite <-(insert_delete_id m k c E) at 2. rewrite total_insert, delete_delete_eq. cbn. lia.
  - rewrite delete_id by done. cbn. lia.
Qed.

Lemma countKeys_total items : total (countKeys items) = Z.of_nat (length items).
Proof.
  induction items as [|sb items IH] using rev_ind; [done|].
  rewrite countKeys_snoc, total_add, IH, length_app. cbn. lia.
Qed.

(** Label values other than the namespace and the template come from fixed sets. *)
Definition bounded_labels (k : AgentSandboxesMetricKey) : Prop :=
  akReadyCondition k ∈ ["true"; "false"] /\ akExpired k ∈ ["true"; "false"] /\
  akLaunchType k ∈ ["warm"; "cold"] /\ akTemplate k <> "" /\
  akOwnedBy k ∈ ["SandboxClaim"; "SandboxWarmPool"; "None"] /\
  akCreatedBy k ∈ ["go-client"; "python-client"; "controller"; "loadgen"; "unknown"].

Ltac pick_label := apply (bool_decide_unpack _); vm_compute; exact I.

Lemma normalized v :
  SandboxController.NormalizeCreatedBy v ∈ ["go-client"; "python-client"; "controller"; "loadgen"; "unknown"].
Proof. unfold SandboxController.NormalizeCreatedBy. case_bool_decide as E; [|pick_label]. set_solver. Qed.

Lemma keyOf_bounded_labels sb : bounded_labels (keyOf sb).
Proof.
  unfold keyOf, bounded_labels.
  destruct (FindStatusCondition _ _) as [c|]; cbn [akReadyCondition akExpired akLaunchType akTemplate akOwnedBy akCreatedBy].
  all: split_and!.
  all: try match goal with |- context [bool_decide ?P] => destruct (bool_decide P) end; try pick_label.
  all: try (unfold ownedBy; destruct (GetControllerOf _) as [r|]; [|pick_label];
            destruct (bool_decide _); [|pick_label]; destruct (bool_decide _); [pick_label|];
            destruct (bool_decide _); pick_label).
  all: try (destruct (sbLabels sb !! CreatedByLabel); [apply normalized|pick_label]).
  all: destruct (sbAnnotations sb !! SandboxTemplateRefAnnotation); [|discriminate];
       case_bool_decide; [done|discriminate].
Qed.

(** ** What the measurements leave behind *)

Definition sampled (X : Type) (e : MetricE X) (_ : X) : option (vector * list string * Z) :=
  match e with MObserve v labels ms => Some (v, labels, ms) | MNow => None end.
Abbreviation samples := (witnessed sampled).

Definition reading (X : Type) (e : MetricE X) : X -> option Z :=
  match e with MNow => fun t => Some t | MObserve _ _ _ => fun _ => None end.
Abbreviation readings := (witnessed reading).

Definition guarded (s : vector * list string * Z) : Prop :=
  s.1.1 <> ClaimControllerStartupLatency -> 0 <= s.2.

Lemma Milliseconds_nonneg d : 0 <= d -> 0 <= Milliseconds d.
Proof. intros. unfold Milliseconds. apply Z.quot_pos; lia. Qed.

Lemma time_Sub_later a b t : a <= b -> 0 <= time_Sub a t -> 0 <= time_Sub b t.
Proof. unfold time_Sub, int64_min, int64_max. lia. Qed.

(** What a part adds to the samples: at most one, of vector [v]. *)
Definition adds (v : vector) (h h' : list (event MetricE)) : Prop :=
  samples h' = samples h \/ exists labels ms, samples h' = samples h ++ [(v, labels, ms)].

Definition measured (v : vector) (h h' : list (event MetricE)) : Prop :=
  adds v h h' /\ (exists new, readings h' = readings h ++ new) /\
  (StronglySorted Z.le (readings h') -> Forall guarded (samples h) -> Forall guarded (samples h')).

Lemma measured_refl v h : measured v h h.
Proof. split_and!; [by left|exists []; by rewrite app_nil_r|done]. Qed.

Lemma sampled_snoc h v labels ms x : samples (h ++ [Ev (MObserve v labels ms) x]) = samples h ++ [(v, labels, ms)].
Proof. by rewrite witnessed_app. Qed.
Lemma sampled_now h (t : Z) : samples (h ++ [Ev MNow t]) = samples h.
Proof. rewrite witnessed_app. apply app_nil_r. Qed.
Lemma reading_snoc h v labels ms x : readings (h ++ [Ev (MObserve v labels ms) x]) = readings h.
Proof. rewrite witnessed_app. apply app_nil_r. Qed.
Lemma reading_now h (t : Z) : readings (h ++ [Ev MNow t]) = readings h ++ [t].
Proof. by rewrite witnessed_app. Qed.

Lemma sorted_last_two (l : list Z) a b : StronglySorted Z.le ((l ++ [a]) ++ [b]) -> a <= b.
Proof.
  rewrite <-app_assoc. induction l as [|x l IH]; cbn; intros Hs; inversion Hs as [|? ? Hs' Hall]; subst; [|auto].
  by inversion Hall.
Qed.

Lemma guarded_snoc h v labels ms : Forall guarded (samples h) -> guarded (v, labels, ms) ->
  Forall guarded (samples h ++ [(v, labels, ms)]).
Proof. intros. apply Forall_app; split; [done|by constructor]. Qed.

Section parts.
Context (parseTime : string -> option Z) (claim : SandboxClaim) (lt tpl pool : string).

Lemma startup_measured h :
  history any_answer (fun _ => measured ClaimStartupLatency h) (recordClaimStartupLatency parseTime claim lt tpl pool) h.
Proof.
  unfold recordClaimStartupLatency. destruct (bool_decide _); [apply measured_refl|].
  destruct (parseTime _) as [t|]; [|apply measured_refl]. cbn [bind call history]. intros now _.
  destruct (Z.ltb_spec (time_Sub now t) 0) as [|Hle]; cbn [history RecordClaimStartupLatency bind call].
  - split_and!; [left; apply sampled_now|exists [now]; apply reading_now|]. by rewrite sampled_now.
  - intros later _ [] _. unfold measured, adds.
    rewrite !sampled_snoc, !reading_snoc, !sampled_now, !reading_now.
    split_and!; [right; by do 2 eexists|exists [now; later]; by rewrite <-app_assoc|].
    intros Hs Hg. apply guarded_snoc; [done|]. intros _. apply Milliseconds_nonneg.
    eapply time_Sub_later; [by eapply sorted_last_two|done].
Qed.

Lemma controller_measured st h :
  history any_answer (fun st' h' =>
      st' = (if bool_decide (mget (scAnnotations claim) ObservabilityAnnotation <> "")
             then set_observed (delete (claimKey claim)) st else st) /\
      measured ClaimControllerStartupLatency h h')
    (recordControllerStartupLatency parseTime claim lt tpl pool st) h.
Proof.
  unfold recordControllerStartupLatency. destruct (bool_decide _); [|split; [done|apply measured_refl]].
  destruct (parseTime _) as [t|]; [|split; [done|apply measured_refl]].
  cbn [bind call history RecordClaimControllerStartupLatency]. intros now _ [] _. split; [done|].
  unfold measured, adds. rewrite !sampled_snoc, !reading_snoc, !sampled_now, !reading_now.
  split_and!; [right; by do 2 eexists|by eexists|]. intros Hs Hg. apply guarded_snoc; [done|]. by intros [].
Qed.

Lemma creation_measured sandbox h :
  history any_answer (fun _ => measured SandboxCreationLatency h) (recordSandboxCreationLatency sandbox lt tpl) h.
Proof.
  unfold recordSandboxCreationLatency. destruct sandbox as [sb|]; [|apply measured_refl].
  destruct (bool_decide _); [apply measured_refl|]. destruct (FindStatusCondition _ _) as [c|]; [|apply measured_refl].
  destruct (_ || _); [apply measured_refl|]. destruct (Z.leb_spec 0 (time_Sub (cLastTransitionTime c) (mCreationTimestamp (sbMeta sb)))) as [Hle|]; [|apply measured_refl].
  cbn [RecordSandboxCreationLatency call history]. intros [] _. unfold measured, adds.
  rewrite sampled_snoc, reading_snoc. split_and!; [right; by do 2 eexists|exists []; by rewrite app_nil_r|].
  intros Hs Hg. apply guarded_snoc; [done|]. intros _. by apply Milliseconds_nonneg.
Qed.
End parts.

(** A claim that became ready in this pass. *)
Definition becameReady (old claim : SandboxClaim) : Prop :=
  readyTrue (scConditions old) = false /\ readyTrue (scConditions claim) = true.

Lemma sorted_prefix (l l' : list Z) : StronglySorted Z.le (l ++ l') -> StronglySorted Z.le l.
Proof. induction l as [|x l IH]; cbn; intros Hs; inversion Hs as [|? ? Hs' Hall]; subst; constructor; [auto|].
  apply Forall_app in Hall. tauto. Qed.

Lemma measured_nodup (h1 h2 h3 : list (event MetricE)) :
  adds ClaimStartupLatency [] h1 -> adds ClaimControllerStartupLatency h1 h2 -> adds SandboxCreationLatency h2 h3 ->
  NoDup ((fun s => s.1.1) <$> samples h3).
Proof.
  intros [E1|(? & ? & E1)] [E2|(? & ? & E2)] [E3|(? & ? & E3)]; rewrite E3, E2, E1; cbn;
    repeat constructor; set_solver.
Qed.

Lemma no_sample (P Q : Prop) :
  P -> P /\ (samples [] <> [] -> Q) /\ NoDup ((fun s => s.1.1) <$> samples []) /\
  (StronglySorted Z.le (readings []) -> Forall guarded (samples [])).
Proof. intros HP. split_and!; [done|by intros []|apply NoDup_nil_2|by constructor]. Qed.

(** Measuring a claim's start-up does not change what the controller
    remembers: the state after is the one the reconcile model computes, whatever
    the clock says and whatever the annotations hold.  A sample is taken only in
    the pass in which the claim became ready, at most one per histogram; with a
    clock that does not run backwards the start-up and the creation latencies
    are never negative (the controller latency has no such guard). *)
Theorem measurement_transparent parseTime old claim sandbox st :
  history any_answer (fun st' h =>
      st' = recordCreationLatencyMetric old claim st /\
      (samples h <> [] -> becameReady old claim) /\
      NoDup ((fun s => s.1.1) <$> samples h) /\
      (StronglySorted Z.le (readings h) -> Forall guarded (samples h)))
    (measureCreation parseTime old claim sandbox st) [].
Proof.
  unfold measureCreation, recordCreationLatencyMetric, becameReady. fold (readyTrue (scConditions claim)).
  fold (readyTrue (scConditions old)).
  destruct (readyTrue (scConditions claim)); cbn [negb]; [|by apply (no_sample (st = st))].
  destruct (readyTrue (scConditions old)); [by apply no_sample|].
  eapply history_bind; [apply startup_measured|]. intros _ h1 (A1 & (n1 & R1) & G1).
  eapply history_bind; [apply controller_measured|]. intros st' h2 (-> & A2 & (n2 & R2) & G2).
  eapply history_bind; [apply creation_measured|]. intros _ h3 (A3 & (n3 & R3) & G3).
  split_and!; [done|done|by eapply measured_nodup|]. intros Hs.
  pose proof Hs as S2. rewrite R3 in S2. apply sorted_prefix in S2. pose proof S2 as S1. rewrite R2 in S1.
  apply sorted_prefix in S1. auto.
Qed.

(** C38.  One scrape counts every sandbox exactly once under its own labels: no
    two metrics carry the same labels, each metric's value is the number of
    listed sandboxes with these labels and positive, every sandbox is counted,
    the values add up to the number of sandboxes, and the label values other
    than namespace and template come from fixed sets.  When the list fails
    nothing is sent. *)
Theorem scrape_counts_exact items :
  (forall e, Collect (Err e) = []) /\
  NoDup (mtLabels <$> Collect (Ok items)) /\
  Forall (fun m => exists k, bounded_labels k /\ mtLabels m = labelValues k /\ mtValue m = tally items k /\ 0 < tally items k)
    (Collect (Ok items)) /\
  Forall (fun sb => labelValues (keyOf sb) ∈ mtLabels <$> Collect (Ok items)) items /\
  foldr Z.add 0 (mtValue <$> Collect (Ok items)) = Z.of_nat (length items).
Proof.
  assert (E : mtLabels <$> Collect (Ok items) = labelValues <$> (map_to_list (countKeys items)).*1).
  { cbn. by rewrite <-!list_fmap_compose. }
  split_and!; [done|..].
  - rewrite E. apply NoDup_fmap_2; [apply labelValues_inj|]. apply NoDup_fst_map_to_list.
  - apply Forall_fmap, Forall_forall. intros [k c] Hkc%elem_of_map_to_list. cbn. exists k.
    rewrite countKeys_tally in Hkc. destruct (decide _) as [Hin|]; [|done]. simplify_eq.
    apply list_elem_of_fmap in Hin as (sb & -> & Hsb). split_and!; [apply keyOf_bounded_labels|done..|].
    unfold tally. destruct (filter _ items) as [|sb' l] eqn:Ef; [|cbn; lia].
    assert (sb ∈ filter (fun sb' => keyOf sb' = keyOf sb) items) as Hf by by apply list_elem_of_filter.
    rewrite Ef in Hf. by apply not_elem_of_nil in Hf.
  - apply Forall_forall. intros sb Hsb. rewrite E. apply list_elem_of_fmap_2, list_elem_of_fmap.
    exists (keyOf sb, tally items (keyOf sb)). split; [done|]. apply elem_of_map_to_list.
    rewrite countKeys_tally, decide_True; [done|]. by apply list_elem_of_fmap_2.
  - rewrite <-countKeys_total. unfold total. rewrite map_fold_foldr. clear E. cbn.
    induction (map_to_list (countKeys items)) as [|[k c] l IH]; cbn; [done|]. f_equal. exact IH.
Qed.
End collector.

(** The controller latency of a claim observed in the future, say by another
    replica with a faster clock or written by a client, is a negative sample;
    the same time in the webhook annotation is refused. *)
Lemma negative_controller_latency `{ConditionLib} parseTime claim lt tpl pool now t st :
  parseTime (mget (scAnnotations claim) ObservabilityAnnotation) = Some t ->
  mget (scAnnotations claim) ObservabilityAnnotation <> "" ->
  mget (scAnnotations claim) WebhookAnnotation = mget (scAnnotations claim) ObservabilityAnnotation ->
  t - now >= 1000000 ->
  history (fun X e => match e in MetricE X return X -> Prop with MNow => fun x => x = now | _ => fun _ => True end)
    (fun _ h => exists ms, witnessed sampled h = [(ClaimControllerStartupLatency, [lt; tpl; pool], ms)] /\ ms < 0)
    (recordClaimStartupLatency parseTime claim lt tpl pool;;;
     recordControllerStartupLatency parseTime claim lt tpl pool st) [].
Proof.
  intros Hp Hne Hw Ht. unfold recordClaimStartupLatency, recordControllerStartupLatency.
  rewrite Hw, (bool_decide_false _ Hne), (bool_decide_true _ Hne), Hp. cbn [bind call history]. intros ? ->.
  assert (time_Sub now t < 0) as Hneg by (unfold time_Sub, int64_min, int64_max; lia).
  rewrite (proj2 (Z.ltb_lt _ _) Hneg). cbn [bind call history RecordClaimControllerStartupLatency].
  intros ? -> [] _. eexists. split; [reflexivity|]. unfold Milliseconds.
  assert (time_Sub now t <= -1000000) by (unfold time_Sub, int64_min, int64_max; lia).
  assert (Hq : time_Sub now t ÷ 1000000 <= -1000000 ÷ 1000000) by (apply Z.quot_le_mono; lia).
  change (-1000000 ÷ 1000000) with (-1) in Hq. lia.
Qed.
End Metrics.
