(* ===== verification/LoadGen.v ===== *)
(** * LoadGen: the load generator that creates sandboxes.

    Models [cmd/sandbox-sdk-loadgen/main.go], whose package comment promises hard
    bounds: exactly [--total] creates, no more live claims than workers, and in
    cycle mode no more than [--target].  Its workers are goroutines over shared
    atomic counters; they run in every interleaving ([Interleave]), against a
    cluster that may fail a call and still have applied it, with time passing and
    the context ending at any moment.

    Latencies are in nanoseconds; deadlines of single calls, flag parsing, the
    metrics server and log lines are left out. *)

From S2P Require Import Prelude GoStrings K8s PoolKey Types Interleave.

Module LoadGen.
#[local] Open Scope prog_scope.

Record options := mkOptions {
  oNamespace : string; oImage : string; oNamegen : string;
  oConcurrency : Z; oTotal : Z; oInterval : Z; oCleanup : bool; oReleaseTimeout : Z;
  oWaveSize : Z; oWavePause : Z; oTarget : Z; oDeleteConcurrency : Z; oLoop : bool
}.

Definition set_cleanup (b : bool) (o : options) : options :=
  mkOptions (oNamespace o) (oImage o) (oNamegen o) (oConcurrency o) (oTotal o) (oInterval o) b (oReleaseTimeout o)
    (oWaveSize o) (oWavePause o) (oTarget o) (oDeleteConcurrency o) (oLoop o).
Definition set_concurrency (n : Z) (o : options) : options :=
  mkOptions (oNamespace o) (oImage o) (oNamegen o) n (oTotal o) (oInterval o) (oCleanup o) (oReleaseTimeout o)
    (oWaveSize o) (oWavePause o) (oTarget o) (oDeleteConcurrency o) (oLoop o).

(** The hard gate of [main]: an error ends the process before any call. *)
Definition checkOptions (o : options) : result options :=
  if bool_decide (oConcurrency o <= 0) then Err (Errorf "--concurrency must be > 0")
  else if bool_decide (oWaveSize o > 0) then
    if bool_decide (oTarget o <= 0) then Err (Errorf "--target is required and must be > 0 in cycle mode")
    else if bool_decide (oDeleteConcurrency o <= 0) then Err (Errorf "--delete-concurrency must be > 0")
    else Ok (set_cleanup false o)
  else if bool_decide (oTotal o <= 0) then Err (Errorf "--total is required and must be > 0")
  else Ok (if bool_decide (oConcurrency o > oTotal o) then set_concurrency (oTotal o) o else o).

(** ** Calls *)

Inductive shared := issued | seq | created | failed | released | leaked | deleted.
#[export] Instance shared_eq_dec : EqDecision shared.
Proof. solve_decision. Defined.

Inductive metric :=
| createSeconds | deleteSeconds | execSeconds | execsTotal | execFailed | createsTotal | deletesTotal | deleteRetries
| leakedTotal | createFailed (reason : string) | inflight | cyclesTotal | phaseGauge.

(** [LAdd]: [atomic.AddInt64(c, 1)].  [LSleep]: a [select] on [ctx.Done()] and
    [time.After(d)], true if the context ended.  [LRecv]: a receive from the work
    channel, [None] once it is closed and drained. *)
Inductive LoadE : Type -> Type :=
| LCtxErr : LoadE bool
| LSleep (d : Z) : LoadE bool
| LNow : LoadE Z
| LAdd (c : shared) : LoadE Z
| LMetric (m : metric) (v : Z) : LoadE unit
| LCreate (sb : Sandbox) : LoadE (result Sandbox)
| LExec (addr id tok : string) : LoadE (option gerror)
| LDelete (sb : Sandbox) : LoadE (option gerror)
| LSend (sb : Sandbox) : LoadE unit
| LClose : LoadE unit
| LRecv : LoadE (option Sandbox).

Definition addressAnnotation : string := "sandbox.cocoonstack.io/address".
Definition tokenAnnotation : string := "sandbox.cocoonstack.io/token".
Definition claimIDAnnotation : string := "sandbox.cocoonstack.io/claim-id".

Definition noResources : ResourceList := mkResources None None.

Definition newSandbox (ns name image : string) : Sandbox :=
  mkSandbox (mkMeta name "" ns "" "" 0 0 None {["agents.x-k8s.io/created-by" := "sdk-loadgen"]} ∅ [])
    (mkSandboxSpec
       (mkBlueprint
          (mkPodTemplate
             (mkPodSpec [mkContainer "sandbox" image noResources noResources [] []]
                [] [] "" ∅ [] None None None "" None "") (mkPodMetadata ∅ ∅)) [] None)
       None None ModeUnset) emptyStatus.

Definition IsServiceUnavailable := has_reason ReasonServiceUnavailable.
Definition IsTooManyRequests := has_reason ReasonTooManyRequests.
Definition IsInternalError := has_reason ReasonInternalError.
Definition IsServerTimeout := has_reason ReasonServerTimeout.
Definition IsTimeout := has_reason ReasonTimeout.
Definition DeadlineExceeded : gerror := Sentinel "context deadline exceeded".

Definition failReasons : list string :=
  ["no-warm-503"; "throttled-429"; "internal-500"; "timeout"; "conflict"; "other"].

Definition classify (err : gerror) : string :=
  if IsServiceUnavailable err then "no-warm-503"
  else if IsTooManyRequests err then "throttled-429"
  else if IsInternalError err then "internal-500"
  else if IsServerTimeout err || IsTimeout err || bool_decide (err = DeadlineExceeded) then "timeout"
  else if IsConflict err || IsAlreadyExists err then "conflict"
  else "other".

Definition createOne (o : options) (name : string) : prog LoadE (result Sandbox) :=
  let sb := newSandbox (oNamespace o) name (oImage o) in
  call (LMetric inflight 1);;;
  start <- call LNow;;
  r <- call (LCreate sb);;
  now <- call LNow;;
  let elapsed := time_Sub now start in
  call (LMetric inflight (-1));;;
  match r with
  | Err err => call (LMetric (createFailed (classify err)) 1);;; Ret (Err err)
  | Ok sb =>
      call (LMetric createSeconds elapsed);;;
      call (LMetric createsTotal 1);;;
      let addr := mget (sbAnnotations sb) addressAnnotation in
      let id := mget (sbAnnotations sb) claimIDAnnotation in
      let tok := mget (sbAnnotations sb) tokenAnnotation in
      (if bool_decide (addr <> "") && bool_decide (id <> "") && bool_decide (tok <> "") then
         xerr <- call (LExec addr id tok);;
         match xerr with
         | None => now <- call LNow;; call (LMetric execSeconds (time_Sub now start));;; call (LMetric execsTotal 1)
         | Some _ => call (LMetric execFailed 1)
         end
       else call (LMetric execFailed 1));;;
      Ret (Ok sb)
  end.

(** [None]: out of fuel. *)
Fixpoint retryDelete (fuel : nat) (sb : Sandbox) (deadline : Z) : prog LoadE (option bool) :=
  match fuel with
  | O => Ret None
  | S fuel =>
      start <- call LNow;;
      err <- call (LDelete sb);;
      match err with
      | None =>
          now <- call LNow;;
          call (LMetric deleteSeconds (time_Sub now start));;;
          call (LMetric deletesTotal 1);;;
          Ret (Some true)
      | Some err =>
          (if IsNotFound err then call (LMetric deleteRetries 1) else Ret tt);;;
          ended <- call LCtxErr;;
          late <- (if ended : bool then Ret true else now <- call LNow;; Ret (bool_decide (deadline < now)));;
          if late : bool then call (LMetric leakedTotal 1);;; Ret (Some false)
          else call (LSleep (2 * time_second));;; retryDelete fuel sb deadline
      end
  end.

Definition releaseWithRetry (fuel : nat) (o : options) (sb : Sandbox) : prog LoadE (option bool) :=
  now <- call LNow;; retryDelete fuel sb (time_Add now (oReleaseTimeout o)).

(** ** The workers *)

(** How a worker's loop ended. *)
Inductive exit := Exhausted | Cancelled | OutOfFuel | Dispatched (listed : Z) (ended : bool).

Definition sandboxName (o : options) (n : Z) : string := oNamegen o +:+ "-" +:+ pretty n.

(** What [run] does with a created sandbox; false: out of fuel. *)
Definition cleanUp (fuel : nat) (o : options) (sb : Sandbox) : prog LoadE bool :=
  if oCleanup o then
    ok <- releaseWithRetry fuel o sb;;
    match ok with
    | Some true => call (LAdd released);;; Ret true
    | Some false => call (LAdd leaked);;; Ret true
    | None => Ret false
    end
  else Ret true.

(** One goroutine of [run]; [rounds] bounds its iterations, [retries] those of a
    release. *)
Fixpoint runWorker (rounds retries : nat) (o : options) : prog LoadE exit :=
  match rounds with
  | O => Ret OutOfFuel
  | S rounds =>
      ended <- call LCtxErr;;
      if ended : bool then Ret Cancelled
      else
        slot <- call (LAdd issued);;
        if bool_decide (slot > oTotal o) then Ret Exhausted
        else
          r <- createOne o (sandboxName o slot);;
          ok <- match r with
                | Err _ => call (LAdd failed);;; Ret true
                | Ok sb => call (LAdd created);;; cleanUp retries o sb
                end;;
          if negb ok then Ret OutOfFuel
          else if bool_decide (oInterval o > 0) then
            ended <- call (LSleep (oInterval o));;
            if ended : bool then Ret Cancelled else runWorker rounds retries o
          else runWorker rounds retries o
  end.

(** One goroutine of [createBatch]. *)
Fixpoint batchWorker (rounds : nat) (o : options) (n : Z) : prog LoadE exit :=
  match rounds with
  | O => Ret OutOfFuel
  | S rounds =>
      ended <- call LCtxErr;;
      if ended : bool then Ret Cancelled
      else
        slot <- call (LAdd issued);;
        if bool_decide (slot > n) then Ret Exhausted
        else
          k <- call (LAdd seq);;
          r <- createOne o (sandboxName o k);;
          match r with Err _ => call (LAdd failed) | Ok _ => call (LAdd created) end;;;
          (if bool_decide (oInterval o > 0) then call (LSleep (oInterval o));;; Ret tt else Ret tt);;;
          batchWorker rounds o n
  end.

(** One goroutine of [deleteAll]; [rounds] bounds what it receives. *)
Fixpoint deleteWorker (rounds retries : nat) (o : options) : prog LoadE exit :=
  match rounds with
  | O => Ret OutOfFuel
  | S rounds =>
      item <- call LRecv;;
      match item with
      | None => Ret Exhausted
      | Some sb =>
          ok <- releaseWithRetry retries o sb;;
          match ok with
          | None => Ret OutOfFuel
          | Some ok => call (LAdd (if ok then deleted else leaked));;; deleteWorker rounds retries o
          end
      end
  end.

(** The loop of [deleteAll] that feeds them; the result is [listed] and whether
    the context ended it. *)
Fixpoint dispatch (o : options) (listed : Z) (items : list Sandbox) : prog LoadE exit :=
  match items with
  | [] => call LClose;;; Ret (Dispatched listed false)
  | sb :: items =>
      if negb (HasPrefix (sbName sb) (oNamegen o +:+ "-")) then dispatch o listed items
      else
        ended <- call LCtxErr;;
        if ended : bool then call LClose;;; Ret (Dispatched (listed + 1) true)
        else call (LSend sb);;; dispatch o (listed + 1) items
  end.

(** Rounds that are enough: a release sleeps two seconds between its attempts; a
    worker draws a slot in every round. *)
Definition retriesFor (o : options) : nat := Z.to_nat (Z.max 0 (oReleaseTimeout o) / (2 * time_second) + 2).
Definition roundsFor (limit : Z) : nat := Z.to_nat (limit + 1).

Definition min64 (a b : Z) : Z := if bool_decide (a < b) then a else b.

(** ** Cycle mode *)

(** The calls of the loop that runs the phases: [YBatch n] is a whole
    [createBatch], answered with [s.issued]; [YRelease] is [deleteAll] after its
    listing. *)
Inductive CycleE : Type -> Type :=
| YCtxErr : CycleE bool
| YPhase (v : Z) : CycleE unit
| YBatch (n : Z) : CycleE Z
| YPause (d : Z) : CycleE unit
| YList : CycleE (result (list Sandbox))
| YRelease (items : list Sandbox) : CycleE (Z * Z * Z)
| YCycle : CycleE unit.

Definition deleteAll : prog CycleE (Z * Z * Z) :=
  r <- call YList;;
  match r with
  | Err _ => Ret (0, 0, 0)
  | Ok items => call (YRelease items)
  end.

(** The create phase of one cycle; false: out of fuel. *)
Fixpoint createWaves (fuel : nat) (o : options) (issued : Z) : prog CycleE bool :=
  match fuel with
  | O => Ret false
  | S fuel =>
      if negb (bool_decide (issued < oTarget o)) then Ret true
      else
        ended <- call YCtxErr;;
        if ended : bool then Ret true
        else
          let n := oTarget o - issued in
          let n := if bool_decide (n > oWaveSize o) then oWaveSize o else n in
          call (YPhase 1);;;
          k <- call (YBatch n);;
          let issued := issued + k in
          if bool_decide (issued >= oTarget o) then Ret true
          else
            ended <- call YCtxErr;;
            if ended : bool then Ret true
            else call (YPhase 2);;; call (YPause (oWavePause o));;; createWaves fuel o issued
  end.

(** [Running]: the cycles asked for are over, the loop is not. *)
Inductive outcome := Running | Stopped | Starved.

Definition wavesFor (o : options) : nat := Z.to_nat (oTarget o + 1).

Fixpoint runCycles (cycles : nat) (o : options) : prog CycleE outcome :=
  match cycles with
  | O => Ret Running
  | S cycles =>
      ended <- call YCtxErr;;
      if ended : bool then call (YPhase 0);;; Ret Stopped
      else
        ok <- createWaves (wavesFor o) o 0;;
        if negb ok then Ret Starved
        else
          ended <- call YCtxErr;;
          if ended : bool then call (YPhase 0);;; Ret Stopped
          else
            call (YPhase 3);;;
            deleteAll;;;
            call YCycle;;;
            if negb (oLoop o) then call (YPhase 0);;; Ret Stopped else runCycles cycles o
  end.

(** ** The cluster the workers run against *)

(** [wSent]: the names of the create calls, in order.  [wLive]: the sandboxes that
    exist.  [wLost]: those reported as leaked, and those whose create failed
    although it took effect. *)
Record world := mkWorld {
  wCount : shared -> Z; wSent : list string; wLive : gset string; wLost : gset string;
  wNow : Z; wDone : bool; wWork : list Sandbox; wClosed : bool; wDeletes : list string
}.

Definition bump (c : shared) (w : world) : world :=
  mkWorld (fun c' => if decide (c' = c) then wCount w c + 1 else wCount w c') (wSent w) (wLive w) (wLost w)
    (wNow w) (wDone w) (wWork w) (wClosed w) (wDeletes w).
Definition sent (name : string) (w : world) : world :=
  mkWorld (wCount w) (wSent w ++ [name]) (wLive w) (wLost w) (wNow w) (wDone w) (wWork w) (wClosed w) (wDeletes w).
Definition live_lost (live lost : gset string) (w : world) : world :=
  mkWorld (wCount w) (wSent w) live lost (wNow w) (wDone w) (wWork w) (wClosed w) (wDeletes w).
Definition passed (now : Z) (ended : bool) (w : world) : world :=
  mkWorld (wCount w) (wSent w) (wLive w) (wLost w) now ended (wWork w) (wClosed w) (wDeletes w).
Definition set_work (work : list Sandbox) (closed : bool) (w : world) : world :=
  mkWorld (wCount w) (wSent w) (wLive w) (wLost w) (wNow w) (wDone w) work closed (wDeletes w).
Definition asked (name : string) (w : world) : world :=
  mkWorld (wCount w) (wSent w) (wLive w) (wLost w) (wNow w) (wDone w) (wWork w) (wClosed w) (wDeletes w ++ [name]).

(** Where a worker stands between its calls. *)
Inductive phase :=
| Idle
| Feeding                   (* the loop that fills the work channel *)
| Reserved (slot : Z)       (* has a slot, no call made for it yet *)
| Named (k : Z)             (* ... and a number for the name *)
| Made (name : string)      (* created, not counted yet *)
| Unmade                    (* failed, not counted yet *)
| Holding (name : string)   (* owns a live sandbox it has to release *)
| Freed                     (* released, not counted yet *)
| GivenUp                   (* leaked, not counted yet *)
| Fed                       (* has closed the work channel *)
| Over.                     (* drew a slot past the limit, or found the channel closed *)

(** [lTaken]: how many items it received so far; [lRest]: the names of those it has
    still to send. *)
Record local_state := mkLocal { lPhase : phase; lTaken : Z; lRest : list string }.

Definition at_phase (p : phase) (l : local_state) : local_state := mkLocal p (lTaken l) (lRest l).

(** The call on the cluster, given the time before it; the clock may have moved
    and the context ended meanwhile. *)
Definition effect (before : Z) (w : world) (l : local_state) (X : Type) (e : LoadE X) : X -> world -> Prop :=
  match e with
  | LCtxErr => fun x w' => x = wDone w /\ w' = w
  | LSleep d => fun x w' => w' = w /\ if x then wDone w = true else before + d <= wNow w
  | LNow => fun x w' => x = wNow w /\ w' = w
  | LAdd c => fun x w' => x = wCount w c + 1 /\ w' = bump c w
  | LMetric m _ => fun _ w' =>
      match m, lPhase l with
      | leakedTotal, Holding n => w' = live_lost (wLive w) ({[n]} ∪ wLost w) w
      | _, _ => w' = w
      end
  | LCreate sb => fun x w' =>
      match x with
      | Ok sb' => sbName sb' = sbName sb /\ w' = sent (sbName sb) (live_lost ({[sbName sb]} ∪ wLive w) (wLost w) w)
      | Err _ => w' = sent (sbName sb) w
                 \/ w' = sent (sbName sb) (live_lost ({[sbName sb]} ∪ wLive w) ({[sbName sb]} ∪ wLost w) w)
      end
  | LExec _ _ _ => fun _ w' => w' = w
  | LDelete sb => fun x w' =>
      let gone := asked (sbName sb) (live_lost (wLive w ∖ {[sbName sb]}) (wLost w) w) in
      match x with None => w' = gone | Some _ => w' = gone \/ w' = asked (sbName sb) w end
  | LSend sb => fun _ w' => w' = set_work (wWork w ++ [sb]) (wClosed w) w
  | LClose => fun _ w' => w' = set_work (wWork w) true w
  | LRecv => fun x w' =>
      match x with
      | Some sb => exists rest, wWork w = sb :: rest /\ w' = set_work rest (wClosed w) w
      | None => wWork w = [] /\ wClosed w = true /\ w' = w
      end
  end.

(** The three pools of workers: of [run], of [createBatch] and of [deleteAll]. *)
Inductive mode := Run | Batch | Release.
#[export] Instance mode_eq_dec : EqDecision mode.
Proof. solve_decision. Defined.

Section pool.
Context (o : options).
(** The limit of the slots, the pool, and whether a worker releases what it
    created. *)
Context (limit : Z) (md : mode) (keep : bool).

Definition after (X : Type) (e : LoadE X) (l : local_state) : X -> local_state :=
  match e with
  | LAdd c => fun x =>
      match c, lPhase l with
      | issued, _ => at_phase (if bool_decide (x > limit) then Over else Reserved x) l
      | seq, _ => at_phase (Named x) l
      | created, Made n => at_phase (if keep then Holding n else Idle) l
      | created, _ | failed, _ | released, _ | leaked, _ | deleted, _ => at_phase Idle l
      end
  | LMetric leakedTotal _ => fun _ => at_phase GivenUp l
  | LCreate sb => fun x => at_phase (match x with Ok _ => Made (sbName sb) | Err _ => Unmade end) l
  | LDelete _ => fun x => match x with None => at_phase Freed l | Some _ => l end
  | LSend _ => fun _ => mkLocal (lPhase l) (lTaken l) (tail (lRest l))
  | LClose => fun _ => at_phase Fed l
  | LRecv => fun x => match x with
                      | Some sb => mkLocal (Holding (sbName sb)) (lTaken l + 1) (lRest l)
                      | None => at_phase Over l
                      end
  | _ => fun _ => l
  end.

Definition answers (X : Type) (e : LoadE X) (w : world) (l : local_state) (x : X) (w' : world) (l' : local_state) :
    Prop :=
  exists now ended, wNow w <= now /\ (wDone w = true -> ended = true) /\
    effect (wNow w) (passed now ended w) l X e x w' /\ l' = after X e l x.

(** A slot a name can be taken from. *)
Definition ready (k : Z) : phase := if bool_decide (md = Batch) then Named k else Reserved k.

(** The protocol of a worker. *)
Definition may (X : Type) (e : LoadE X) (l : local_state) : Prop :=
  match e with
  | LAdd c =>
      match c with
      | issued => md <> Release /\ lPhase l = Idle
      | seq => md = Batch /\ exists slot, lPhase l = Reserved slot
      | created => exists n, lPhase l = Made n
      | failed => lPhase l = Unmade
      | released => md = Run /\ lPhase l = Freed
      | deleted => md = Release /\ lPhase l = Freed
      | leaked => lPhase l = GivenUp
      end
  | LMetric leakedTotal _ => exists n, lPhase l = Holding n
  | LCreate sb => exists k, lPhase l = ready k /\ sbName sb = sandboxName o k
  | LDelete sb => lPhase l = Holding (sbName sb)
  | LSend sb =>
      md = Release /\ lPhase l = Feeding /\ head (lRest l) = Some (sbName sb) /\
      HasPrefix (sbName sb) (oNamegen o +:+ "-") = true
  | LClose => md = Release /\ lPhase l = Feeding
  | LRecv => md = Release /\ lPhase l = Idle
  | _ => True
  end.
End pool.

End LoadGen.
