(* ===== verification/LoadFacts.v ===== *)
(** * LoadFacts: the load generator keeps its promises.

    The workers of [LoadGen] obey the protocol of their phases; what follows for
    every interleaving is proved on the phases alone: the books of the shared
    counters balance, names are used once, and every live sandbox is in the hand
    of a worker or reported as lost.  The loops have enough fuel. *)

From S2P Require Import Prelude GoStrings K8s PoolKey Types Interleave LoadGen.

Module LoadFacts.
Import LoadGen.
#[local] Open Scope prog_scope.

(** ** The workers obey the protocol *)

(** One call: the obligation of the protocol, then every answer. *)
Ltac obey :=
  cbn [bind call obeys]; split;
  [|intros ?w ?x ?w' ?l' (?now & ?ended & ?Hnow & ?Hended & ?He & ->); cbn [after effect] in *].

Lemma at_phase_idem p q l : at_phase p (at_phase q l) = at_phase p l.
Proof. done. Qed.

Lemma at_phase_same p l : lPhase l = p -> at_phase p l = l.
Proof. by destruct l; intros <-. Qed.

Section obedience.
Context (o : options) (limit : Z) (md : mode) (keep : bool).

Abbreviation obeys := (Interleave.obeys (answers limit keep) (may o md)).

Lemma createOne_obeys k l :
  lPhase l = ready md k ->
  obeys (fun r l' => match r with
                     | Ok sb => sbName sb = sandboxName o k /\ l' = at_phase (Made (sandboxName o k)) l
                     | Err _ => l' = at_phase Unmade l
                     end) (createOne o (sandboxName o k)) l.
Proof.
  intros Hl. unfold createOne. do 2 (obey; [done|]). obey; [by exists k|].
  destruct x1 as [sb|e].
  - destruct He1 as [Hsb _]. cbn [sbName newSandbox sbMeta mName] in *. do 4 (obey; [done|]).
    destruct (bool_decide _ && _ && _); [|by obey].
    obey; [done|]. destruct x5; [by obey|]. do 2 (obey; [done|]). by obey.
  - do 3 (obey; [done|]). done.
Qed.

Lemma retryDelete_obeys fuel sb deadline l :
  lPhase l = Holding (sbName sb) ->
  obeys (fun r l' => match r with
                     | Some true => l' = at_phase Freed l
                     | Some false => l' = at_phase GivenUp l
                     | None => l' = l
                     end) (retryDelete fuel sb deadline) l.
Proof.
  intros Hl. induction fuel as [|fuel IH]; [done|]. cbn [retryDelete]. obey; [done|]. obey; [done|].
  destruct x0 as [err|]; [|by do 3 (obey; [done|])].
  destruct (IsNotFound err); cbn [bind]; [obey; [done|]|].
  all: obey; [done|]; match goal with |- Interleave.obeys _ _ _ (bind (if ?b then _ else _) _) _ => destruct b end;
    [obey; [by eexists|done]|]; obey; [done|]; destruct (bool_decide _); [obey; [by eexists|done]|]; obey; [done|]; exact IH.
Qed.

Lemma releaseWithRetry_obeys fuel sb l :
  lPhase l = Holding (sbName sb) ->
  obeys (fun r l' => match r with
                     | Some true => l' = at_phase Freed l
                     | Some false => l' = at_phase GivenUp l
                     | None => l' = l
                     end) (releaseWithRetry fuel o sb) l.
Proof. intros Hl. unfold releaseWithRetry. obey; [done|]. by apply retryDelete_obeys. Qed.
End obedience.

(** Where a worker's loop leaves it. *)
Definition finished (r : exit) (l : local_state) : Prop :=
  match r with Exhausted => lPhase l = Over | Cancelled => lPhase l = Idle | _ => True end.

Lemma runWorker_obeys rounds retries o l :
  lPhase l = Idle ->
  Interleave.obeys (answers (oTotal o) (oCleanup o)) (may o Run) finished (runWorker rounds retries o) l.
Proof.
  revert l. induction rounds as [|rounds IH]; intros l Hl; [done|]. cbn [runWorker]. obey; [done|].
  destruct x; [done|]. obey; [done|]. case_bool_decide; [done|].
  eapply obeys_bind; [by apply createOne_obeys|]. intros r l1 Hr.
  eapply (obeys_bind _ _ (fun ok l' => ok = true -> lPhase l' = Idle)).
  - destruct r as [sb|e].
    + destruct Hr as [Hsb ->]. obey; [by eexists|]. unfold cleanUp. destruct (oCleanup o); [|done].
      eapply obeys_bind; [apply releaseWithRetry_obeys; cbn; congruence|].
      intros [[]|] l2 Hl2; [..|done]; subst l2; by obey.
    + subst l1. by obey.
  - intros [] l2 Hl2; cbn [negb]; [|done]. specialize (Hl2 eq_refl). case_bool_decide; [|by apply IH].
    obey; [done|]. match goal with |- Interleave.obeys _ _ _ (if ?b then _ else _) _ => destruct b end; [done|]. by apply IH.
Qed.

Lemma batchWorker_obeys rounds o n l :
  lPhase l = Idle ->
  Interleave.obeys (answers n false) (may o Batch) finished (batchWorker rounds o n) l.
Proof.
  revert l. induction rounds as [|rounds IH]; intros l Hl; [done|]. cbn [batchWorker]. obey; [done|].
  destruct x; [done|]. obey; [done|]. case_bool_decide; [done|]. obey; [by split; [|eexists]|].
  eapply obeys_bind; [by apply createOne_obeys|]. intros r l1 Hr.
  destruct r as [sb|e]; [destruct Hr as [Hsb ->]|subst l1]; cbn [bind].
  all: obey; [by try eexists|]; case_bool_decide; cbn [bind]; [obey; [done|]|]; by apply IH.
Qed.

(** ** The books *)

Definition reserved_at (l : local_state) : Z := match lPhase l with Reserved _ | Named _ => 1 | _ => 0 end.
Definition uncounted_at (l : local_state) : Z := match lPhase l with Made _ | Unmade => 1 | _ => 0 end.
Definition in_hand (l : local_state) : Z := match lPhase l with Holding _ | Freed | GivenUp => 1 | _ => 0 end.
Definition over_at (l : local_state) : Z := match lPhase l with Over => 1 | _ => 0 end.

Lemma sum_put {A} (f : A -> Z) (l : list A) i a a' :
  l !! i = Some a -> sum_over f (<[i := a']> l) = sum_over f l - f a + f a'.
Proof.
  revert i. induction l as [|b l IH]; intros [|i] Hi; [done|done| |].
  - injection Hi as ->. change (<[0%nat := a']> (a :: l)) with (a' :: l). rewrite !sum_over_cons. lia.
  - change (<[S i := a']> (b :: l)) with (b :: <[i := a']> l). rewrite !sum_over_cons, (IH i Hi). lia.
Qed.

Lemma sum_nonneg {A} (f : A -> Z) (l : list A) : (forall a, 0 <= f a) -> 0 <= sum_over f l.
Proof. intros Hf. induction l as [|a l IH]; [done|]. rewrite sum_over_cons. specialize (Hf a). lia. Qed.

Lemma sum_at {A} (f : A -> Z) (l : list A) i a : (forall a, 0 <= f a) -> l !! i = Some a -> f a <= sum_over f l.
Proof.
  intros Hf Hi. assert (Hs := sum_put f l i a a Hi). assert (H0 := sum_nonneg f (delete i l) Hf).
  rewrite <-(take_drop_middle l i a Hi), <-(sum_over_perm f _ _ (Permutation_middle _ _ _)), sum_over_cons.
  assert (H1 := sum_nonneg f (take i l ++ drop (S i) l) Hf). lia.
Qed.

Lemma weights_nonneg f ls : f ∈ [reserved_at; uncounted_at; in_hand; over_at] -> 0 <= sum_over f ls.
Proof.
  intros Hf. apply sum_nonneg. intros l. unfold reserved_at, uncounted_at, in_hand, over_at in Hf.
  repeat (apply elem_of_cons in Hf as [->|Hf]; [by destruct (lPhase l)|]). by apply elem_of_nil in Hf.
Qed.

(** What a step of [run] or [createBatch] does to the counters, the calls sent and
    the sandboxes, by the phase of the worker. *)
Section moves.
Context (o : options) (limit : Z) (md : mode) (keep : bool).
Context (Hmode : md <> Release).

Definition core (w : world) : (shared -> Z) * list string * gset string * gset string :=
  (wCount w, wSent w, wLive w, wLost w).

Inductive move (w w' : world) : phase -> phase -> Prop :=
| mv_stay p live : live ⊆ wLive w -> core w' = core (live_lost live (wLost w) w) -> move w w' p p
| mv_draw : core w' = core (bump issued w) ->
    move w w' Idle (if bool_decide (wCount w issued + 1 > limit) then Over else Reserved (wCount w issued + 1))
| mv_number slot : md = Batch -> core w' = core (bump seq w) -> move w w' (Reserved slot) (Named (wCount w seq + 1))
| mv_make k : core w' = core (sent (sandboxName o k) (live_lost ({[sandboxName o k]} ∪ wLive w) (wLost w) w)) ->
    move w w' (ready md k) (Made (sandboxName o k))
| mv_unmake k live lost :
    live ∖ lost ⊆ wLive w ∖ wLost w -> wLost w ⊆ lost ->
    core w' = core (sent (sandboxName o k) (live_lost live lost w)) -> move w w' (ready md k) Unmade
| mv_count_made n : core w' = core (bump created w) -> move w w' (Made n) (if keep then Holding n else Idle)
| mv_count_failed : core w' = core (bump failed w) -> move w w' Unmade Idle
| mv_free n : core w' = core (live_lost (wLive w ∖ {[n]}) (wLost w) w) -> move w w' (Holding n) Freed
| mv_give_up n : core w' = core (live_lost (wLive w) ({[n]} ∪ wLost w) w) -> move w w' (Holding n) GivenUp
| mv_count_released : md = Run -> core w' = core (bump released w) -> move w w' Freed Idle
| mv_count_leaked : core w' = core (bump leaked w) -> move w w' GivenUp Idle.

Lemma answers_move X (e : LoadE X) w l x w' l' :
  may o md X e l -> answers limit keep X e w l x w' l' -> move w w' (lPhase l) (lPhase l').
Proof.
  intros Hm (now & ended & Hnow & Hend & He & ->).
  assert (Hstay : core w' = core w -> move w w' (lPhase l) (lPhase l))
    by (intros Hc; by apply (mv_stay w w' (lPhase l) (wLive w))).
  destruct e as [|d| |c|m v|sb|addr id tok|sb|sb| |]; cbn [effect after may] in *.
  - apply Hstay. by destruct He as [_ ->].
  - apply Hstay. by destruct He as [-> _].
  - apply Hstay. by destruct He as [_ ->].
  - destruct He as [-> ->]. destruct c; cbn [lPhase at_phase].
    + destruct Hm as [_ ->]. refine (mv_draw w (bump issued (passed now ended w)) _). reflexivity.
    + destruct Hm as [Hb [slot ->]]. refine (mv_number w (bump seq (passed now ended w)) slot Hb _). reflexivity.
    + destruct Hm as [n ->]. by apply mv_count_made.
    + rewrite Hm. by apply mv_count_failed.
    + destruct Hm as [? ->]. by apply mv_count_released.
    + rewrite Hm. by apply mv_count_leaked.
    + by destruct Hm as [? _].
  - destruct m; try (apply Hstay; by rewrite He). destruct Hm as [n Hn]. cbn [lPhase at_phase]. rewrite Hn in *.
    subst w'. by apply mv_give_up.
  - destruct Hm as (k & -> & Hk). cbn [lPhase at_phase]. rewrite Hk in *. destruct x as [sb'|e].
    + destruct He as [_ ->]. by apply mv_make.
    + destruct He as [->| ->]; [apply (mv_unmake _ _ k (wLive w) (wLost w)); done|].
      apply (mv_unmake _ _ k ({[sandboxName o k]} ∪ wLive w) ({[sandboxName o k]} ∪ wLost w)); [set_solver|set_solver|done].
  - apply Hstay. by rewrite He.
  - rewrite Hm. destruct x as [e|]; cbn [lPhase at_phase]; [rewrite Hm|].
    + destruct He as [->| ->].
      * by apply (mv_stay _ _ _ (wLive w ∖ {[sbName sb]})); [set_solver|].
      * by apply (mv_stay _ _ _ (wLive w)).
    + subst w'. by apply mv_free.
  - by destruct Hm.
  - by destruct Hm.
  - by destruct Hm.
Qed.
End moves.

Section books.
Context (o : options) (limit : Z) (md : mode) (keep : bool).
Context (Hmode : md <> Release) (Hkeep : keep = true -> md = Run).

Record books (c : world * list local_state) : Prop := {
  books_slots : Z.of_nat (length (wSent c.1)) + sum_over reserved_at c.2 = Z.min (wCount c.1 issued) limit;
  books_creates : Z.of_nat (length (wSent c.1)) =
    wCount c.1 created + wCount c.1 failed + sum_over uncounted_at c.2;
  books_releases : keep = true ->
    wCount c.1 created = wCount c.1 released + wCount c.1 leaked + sum_over in_hand c.2;
  books_none_held : keep = false -> sum_over in_hand c.2 = 0;
  books_over : wCount c.1 issued <= limit + sum_over over_at c.2;
  books_past : sum_over over_at c.2 = 0 \/ limit < wCount c.1 issued
}.

Lemma books_step c c' : lstep (answers limit keep) (may o md) c c' -> books c -> books c'.
Proof.
  intros [w ls i X e l x w' l' Hi Hm Ha] [H1 H2 H3 H4 H5 H6]. apply (answers_move o limit md keep Hmode) in Ha; [|done].
  cbn [fst snd] in *.
  assert (Ho := weights_nonneg over_at ls ltac:(set_solver)). assert (Hh := weights_nonneg in_hand ls ltac:(set_solver)).
  assert (Hl : in_hand l <= sum_over in_hand ls)
    by (apply (sum_at in_hand ls i); [intros a; unfold in_hand; by destruct (lPhase a)|done]).
  assert (Hw : forall f, sum_over f (<[i := l']> ls) = sum_over f ls - f l + f l') by (intros; by apply sum_put).
  split; cbn [fst snd]; rewrite ?Hw;
    generalize dependent (sum_over reserved_at ls); generalize dependent (sum_over uncounted_at ls);
    generalize dependent (sum_over in_hand ls); generalize dependent (sum_over over_at ls); clear Hw Hi Hm;
    unfold reserved_at, uncounted_at, in_hand, over_at in *; intros;
    (inversion Ha as [p live Hlive Hc Hp Hp'|Hc Hp Hp'|slot ? Hc Hp Hp'|k Hc Hp Hp'|k live lost ? ? Hc Hp Hp'|n Hc Hp Hp'
                     |Hc Hp Hp'|n Hc Hp Hp'|n Hc Hp Hp'|? Hc Hp Hp'|Hc Hp Hp'];
     injection Hc as Hcnt Hsent _ _; unfold ready in *; rewrite ?Hcnt, ?Hsent, <-?Hp, <-?Hp', ?length_app;
     rewrite <-?Hp in Hl);
    clear Hcnt Hsent; cbn [core bump sent live_lost wCount wSent length]; repeat case_decide; repeat case_bool_decide; try done;
    try destruct keep; try done; cbn [length];
    lia || (specialize (H3 eq_refl); lia) || (specialize (H4 eq_refl); lia).
Qed.
End books.

(** ** Every name is used once *)

Lemma omap_put {A B} (f : A -> option B) (l : list A) i a a' :
  l !! i = Some a -> omap f (<[i := a']> l) ++ option_list (f a) ≡ₚ option_list (f a') ++ omap f l.
Proof.
  intros Hi. assert (Hlt := lookup_lt_Some _ _ _ Hi). rewrite insert_take_drop by done.
  rewrite <-(take_drop_middle l i a Hi) at 3. rewrite !omap_app. cbn.
  destruct (f a) as [b|], (f a') as [b'|]; cbn [option_list]; rewrite ?app_nil_r; cbn; solve_Permutation.
Qed.

Lemma sandboxName_inj o : Inj (=) (=) (sandboxName o).
Proof.
  intros k k' H. unfold sandboxName in H. apply (inj (pretty (A := Z))).
  revert H. generalize (oNamegen o). intros a. induction a as [|c a IH]; intros H.
  - change ("" +:+ "-" +:+ pretty k = "" +:+ "-" +:+ pretty k') with (String "-" (pretty k) = String "-" (pretty k')) in H.
    by injection H.
  - rewrite !app_string_cons in H. injection H as H. by apply IH.
Qed.

Section names.
Context (o : options) (limit : Z) (md : mode) (keep : bool).
Context (Hmode : md <> Release).

Definition number_of (p : phase) : option Z :=
  match p with
  | Named k => Some k
  | Reserved k => if bool_decide (md = Batch) then None else Some k
  | _ => None
  end.

Definition number (l : local_state) : option Z := number_of (lPhase l).

Definition counter : shared := if bool_decide (md = Batch) then seq else issued.

Lemma number_ready k : number_of (ready md k) = Some k.
Proof. unfold ready. case_bool_decide; cbn; [done|]. by rewrite bool_decide_false. Qed.

(** The numbers used, by calls sent and by workers about to send one. *)
Definition numbered (n0 : Z) (c : world * list local_state) : Prop :=
  exists ks, wSent c.1 = sandboxName o <$> ks /\ NoDup (ks ++ omap number c.2) /\
    Forall (fun k => n0 < k <= wCount c.1 counter) (ks ++ omap number c.2).

Lemma numbered_same n0 w w' ls ls' :
  omap number ls' ≡ₚ omap number ls -> wSent w' = wSent w -> wCount w counter <= wCount w' counter ->
  numbered n0 (w, ls) -> numbered n0 (w', ls').
Proof.
  intros Hp Hs Hc (ks & Hks & Hnd & Hall). exists ks. cbn [fst snd] in *. rewrite Hs, Hp. split_and!; [done..|].
  eapply Forall_impl; [exact Hall|]. cbn. lia.
Qed.

Lemma numbered_draw n0 w w' ls ls' :
  omap number ls' ≡ₚ (wCount w counter + 1) :: omap number ls -> wSent w' = wSent w ->
  wCount w' counter = wCount w counter + 1 -> n0 <= wCount w counter -> numbered n0 (w, ls) -> numbered n0 (w', ls').
Proof.
  intros Hp Hs Hc Hn (ks & Hks & Hnd & Hall). exists ks. cbn [fst snd] in *. rewrite Hs, Hp, <-Permutation_middle.
  split_and!; [done| |].
  - apply NoDup_cons. split; [|done]. intros Hin. rewrite Forall_forall in Hall. specialize (Hall _ Hin). lia.
  - constructor; [lia|]. eapply Forall_impl; [exact Hall|]. cbn. lia.
Qed.

Lemma numbered_use n0 w w' ls ls' k :
  k :: omap number ls' ≡ₚ omap number ls -> wSent w' = wSent w ++ [sandboxName o k] ->
  wCount w' counter = wCount w counter -> numbered n0 (w, ls) -> numbered n0 (w', ls').
Proof.
  intros Hp Hs Hc (ks & Hks & Hnd & Hall). exists (ks ++ [k]). cbn [fst snd] in *.
  rewrite <-Hp in Hnd, Hall. rewrite Hs, Hks, Hc, fmap_app, <-app_assoc. done.
Qed.

Lemma counters_grow w w' p p' c : move o limit md keep w w' p p' -> wCount w c <= wCount w' c.
Proof.
  destruct 1 as [? ? ? Hc|Hc|? ? Hc|? Hc|? ? ? ? ? Hc|? Hc|Hc|? Hc|? Hc|? Hc|Hc]; injection Hc as -> _ _ _; cbn; try lia;
    case_decide; subst; lia.
Qed.

Lemma numbered_step n0 c c' :
  lstep (answers limit keep) (may o md) c c' ->
  numbered n0 c /\ n0 <= wCount c.1 counter -> numbered n0 c' /\ n0 <= wCount c'.1 counter.
Proof.
  intros [w ls i X e l x w' l' Hi Hm Ha] [Hn H0]. apply (answers_move o limit md keep Hmode) in Ha; [|done].
  assert (Hg := counters_grow _ _ _ _ counter Ha). cbn [fst snd] in *. split; [|lia].
  assert (Hput := omap_put number ls i l l' Hi). unfold number at 2 3 in Hput.
  assert (Hsame : number_of (lPhase l') = number_of (lPhase l) -> wSent w' = wSent w -> numbered n0 (w', <[i := l']> ls)).
  { intros E Hs. eapply numbered_same; [|exact Hs|exact Hg|exact Hn]. rewrite E, Permutation_app_comm in Hput.
    by apply Permutation_app_inv_l in Hput. }
  inversion Ha as [p live Hlive Hc Hp Hp'|Hc Hp Hp'|slot Hb Hc Hp Hp'|k Hc Hp Hp'|k live lost ? ? Hc Hp Hp'|n Hc Hp Hp'
                  |Hc Hp Hp'|n Hc Hp Hp'|n Hc Hp Hp'|? Hc Hp Hp'|Hc Hp Hp'];
    injection Hc as Hcnt Hsent _ _; try (apply Hsame; [first [congruence|by rewrite <-Hp, <-Hp']|done]).
  - case_bool_decide as Hlim; [apply Hsame; [by rewrite <-Hp, <-Hp'|done]|].
    destruct (decide (md = Batch)) as [Hb|Hb].
    + apply Hsame; [|done]. rewrite <-Hp, <-Hp'. cbn [number_of]. by rewrite bool_decide_true.
    + rewrite <-Hp, <-Hp' in Hput. cbn [number_of option_list app] in Hput. rewrite bool_decide_false, app_nil_r in Hput by done.
      assert (counter = issued) as Hcounter by (unfold counter; by rewrite bool_decide_false).
      eapply numbered_draw; [|exact Hsent| |exact H0|exact Hn]; rewrite Hcounter; [exact Hput|]. by rewrite Hcnt.
  - rewrite <-Hp, <-Hp' in Hput. cbn [number_of option_list app] in Hput. rewrite bool_decide_true, app_nil_r in Hput by done.
    assert (counter = seq) as Hcounter by (unfold counter; by rewrite bool_decide_true).
    eapply numbered_draw; [|exact Hsent| |exact H0|exact Hn]; rewrite Hcounter; [exact Hput|]. by rewrite Hcnt.
  - rewrite <-Hp, <-Hp', number_ready in Hput. cbn [number_of option_list app] in Hput. rewrite Permutation_app_comm in Hput.
    eapply numbered_use; [exact Hput|exact Hsent|by rewrite Hcnt|exact Hn].
  - rewrite <-Hp, <-Hp', number_ready in Hput. cbn [number_of option_list app] in Hput. rewrite Permutation_app_comm in Hput.
    eapply numbered_use; [exact Hput|exact Hsent|by rewrite Hcnt|exact Hn].
  - apply Hsame; [|done]. rewrite <-Hp, <-Hp'. by destruct keep.
Qed.
End names.

(** ** Every live sandbox is in somebody's hand *)

Definition held (l : local_state) : option string :=
  match lPhase l with Made n | Holding n => Some n | _ => None end.

Lemma size_list_set (l : list string) : (size (list_to_set (C := gset string) l) <= length l)%nat.
Proof.
  induction l as [|a l IH]; cbn; [by rewrite size_empty|]. destruct (decide (a ∈ (list_to_set l : gset string))).
  - rewrite subseteq_union_1_L by set_solver. lia.
  - rewrite size_union by set_solver. rewrite size_singleton. lia.
Qed.

Section cover.
Context (o : options) (limit : Z) (live0 : gset string).

Definition covered (c : world * list local_state) : Prop :=
  forall n, n ∈ wLive c.1 -> n ∈ live0 \/ n ∈ wLost c.1 \/ n ∈ omap held c.2.

Lemma held_put (ls : list local_state) (i : nat) l l' n :
  ls !! i = Some l -> n ∈ omap held ls -> held l' = Some n \/ held l = Some n \/ n ∈ omap held (<[i := l']> ls).
Proof.
  intros Hi Hin. assert (Hp := omap_put held ls i l l' Hi).
  assert (n ∈ omap held (<[i := l']> ls) ++ option_list (held l)) as [?|Hn]%elem_of_app.
  { rewrite Hp. apply elem_of_app. by right. }
  - by right; right.
  - right; left. destruct (held l); cbn in Hn; [|by apply elem_of_nil in Hn]. by apply list_elem_of_singleton in Hn as ->.
Qed.

Lemma held_new (ls : list local_state) (i : nat) l l' n : ls !! i = Some l -> held l' = Some n -> n ∈ omap held (<[i := l']> ls).
Proof.
  intros Hi Hn. apply list_elem_of_omap. exists l'. split; [|done]. apply list_elem_of_insert.
  by apply lookup_lt_is_Some_1; eexists.
Qed.

Lemma covered_step c c' : lstep (answers limit true) (may o Run) c c' -> covered c -> covered c'.
Proof.
  intros [w ls i X e l x w' l' Hi Hm Ha] Hcov n Hn. apply (answers_move o limit Run true) in Ha; [|done..].
  cbn [fst snd] in *.
  assert (Hkeep : n ∈ wLive w -> wLost w ⊆ wLost w' -> (held l = Some n -> held l' = Some n \/ n ∈ wLost w') ->
            n ∈ live0 \/ n ∈ wLost w' \/ n ∈ omap held (<[i := l']> ls)).
  { intros Hl Hsub Hown. destruct (Hcov n Hl) as [?|[?|Hh]]; [by left|right; left; set_solver|].
    destruct (held_put ls i l l' n Hi Hh) as [Hh'|[Hh'|?]]; [right; right; by eapply held_new| |by right; right].
    destruct (Hown Hh') as [?|?]; [right; right; by eapply held_new|by right; left]. }
  unfold held in Hkeep.
  inversion Ha as [p live Hlive Hc Hp Hp'|Hc Hp Hp'|slot Hb Hc Hp Hp'|k Hc Hp Hp'|k live lost ? ? Hc Hp Hp'|m Hc Hp Hp'
                  |Hc Hp Hp'|m Hc Hp Hp'|m Hc Hp Hp'|? Hc Hp Hp'|Hc Hp Hp'];
    injection Hc as _ _ Hlv Hls; rewrite Hlv in Hn; rewrite <-?Hp, <-?Hp', ?Hls in Hkeep.
  - rewrite Hls. rewrite Hp, Hp' in Hkeep. apply Hkeep; [set_solver|done|]. by left.
  - rewrite Hls. by apply Hkeep.
  - done.
  - rewrite Hls. apply elem_of_union in Hn as [->%elem_of_singleton|Hn]; [|by apply Hkeep].
    right; right. eapply held_new; [done|]. unfold held. by rewrite <-Hp'.
  - rewrite Hls. destruct (decide (n ∈ lost)); [by right; left|]. apply Hkeep; [set_solver|set_solver|done].
  - rewrite Hls. apply Hkeep; [done|done|]. by left.
  - rewrite Hls. by apply Hkeep.
  - rewrite Hls. apply Hkeep; [set_solver|done|]. intros [= ->]. set_solver.
  - rewrite Hls. apply Hkeep; [done|set_solver|]. intros [= ->]. right. set_solver.
  - rewrite Hls. by apply Hkeep.
  - rewrite Hls. by apply Hkeep.
Qed.

Lemma covered_size c : covered c -> Z.of_nat (size (wLive c.1 ∖ (live0 ∪ wLost c.1))) <= Z.of_nat (length c.2).
Proof.
  intros Hcov. apply inj_le. transitivity (size (list_to_set (C := gset string) (omap held c.2))).
  - apply subseteq_size. intros n Hn. apply elem_of_difference in Hn as [Hl Hno]. apply elem_of_list_to_set.
    destruct (Hcov n Hl) as [?|[?|?]]; [set_solver|set_solver|done].
  - transitivity (length (omap held c.2)).
    + apply size_list_set.
    + induction c.2 as [|a l IH]; cbn; [done|]. destruct (held a); cbn; lia.
Qed.
End cover.

(** ** The loops end *)

Definition rely (w w' : world) : Prop :=
  wCount w issued <= wCount w' issued /\ wNow w <= wNow w' /\ (wDone w = true -> wDone w' = true).

#[export] Instance rely_preorder : PreOrder rely.
Proof. split; unfold rely; [intros w; split_and!; done|]. intros a b c (?&?&?) (?&?&?). split_and!; [lia|lia|auto]. Qed.

Lemma answers_rely limit keep X (e : LoadE X) w l x w' l' : answers limit keep X e w l x w' l' -> rely w w'.
Proof.
  intros (now & ended & Hnow & Hend & He & _). assert (Hp : rely w (passed now ended w)) by by split_and!.
  etrans; [exact Hp|]. generalize dependent (passed now ended w). clear. intros w0 He _.
  assert (Hb : forall c, rely w0 (bump c w0)) by (intros c; split_and!; cbn; [case_decide; subst; lia|done|done]).
  destruct e; cbn [effect] in He; repeat match goal with
    | H : _ /\ _ |- _ => destruct H
    | H : exists _, _ |- _ => destruct H
    | H : match ?x with _ => _ end |- _ => destruct x
    | H : _ \/ _ |- _ => destruct H
    end; subst; try apply Hb; by split_and!.
Qed.

Section fuel.
Context (limit : Z) (keep : bool).

Abbreviation rg := (Interleave.rg (answers limit keep) rely).

Lemma rg_call {X B} (e : LoadE X) (k : X -> prog LoadE B) post w l :
  (forall w1 x w2 l', rely w w1 -> answers limit keep X e w1 l x w2 l' -> rely w1 w2 -> rg post (k x) w2 l') ->
  rg post (bind (call e) k) w l.
Proof. apply (rely_call (answers limit keep) rely). exact (answers_rely limit keep). Qed.

Lemma rg_skip {A B} (p : prog LoadE A) (k : A -> prog LoadE B) post w l :
  (forall a w' l', rely w w' -> rg post (k a) w' l') -> rg post (bind p k) w l.
Proof. apply (rely_skip (answers limit keep) rely). exact (answers_rely limit keep). Qed.

(** Enough attempts for what is left until the deadline, or one more once the
    context ended. *)
Definition enough (fuel : nat) (deadline : Z) (w : world) : Prop :=
  (1 <= fuel)%nat /\ (wDone w = true \/ deadline - wNow w < 2 * time_second * (Z.of_nat fuel - 1)).

Lemma enough_rely fuel deadline w w' : rely w w' -> enough fuel deadline w -> enough fuel deadline w'.
Proof. intros (_ & Hn & Hd) [Hf [H|H]]; split; [done|left; auto|done|right; lia]. Qed.

Lemma retryDelete_rg fuel sb deadline w l :
  enough fuel deadline w -> rg (fun r w' _ => r <> None /\ rely w w') (retryDelete fuel sb deadline) w l.
Proof.
  assert (H : forall w0, rely w0 w -> enough fuel deadline w ->
            rg (fun r w' _ => r <> None /\ rely w0 w') (retryDelete fuel sb deadline) w l); [|intros; by apply H].
  intros w0. revert w l. induction fuel as [|fuel IH]; intros w l Hw [Hf He]; [lia|]. cbn [retryDelete].
  assert (Hret : forall (b : bool) w' l', rely w w' -> rg (fun r w' _ => r <> None /\ rely w0 w') (Ret (Some b)) w' l').
  { intros b w' l' Hw' w'' Hw''. split; [done|]. by etrans; [|etrans]. }
  apply rg_skip. intros start w1 l1 H1. apply rg_skip. intros [err|] w2 l2 H2.
  2: { apply rg_skip. intros ? w3 l3 H3. apply rg_skip. intros ? w4 l4 H4. apply rg_skip. intros ? w5 l5 H5.
       apply Hret. by repeat (etrans; [eassumption|]). }
  apply rg_skip. intros _ w3 l3 H3. apply rg_call. intros w4 ended w5 l5 H4 (now4 & e4 & _ & _ & [-> ->] & _) H5.
  assert (H05 : rely w (passed now4 e4 w4)) by by repeat (etrans; [eassumption|]).
  destruct (wDone (passed now4 e4 w4)) eqn:Ed; cbn [bind].
  { apply rg_skip. intros _ w6 l6 H6. apply Hret. by etrans. }
  apply rg_call. intros w6 now w7 l7 H6 (now6 & e6 & _ & _ & [-> ->] & _) H7.
  assert (H07 : rely w (passed now6 e6 w6)) by by etrans; [|etrans].
  case_bool_decide as Hlate. { apply rg_skip. intros _ w8 l8 H8. apply Hret. by etrans. }
  apply rg_call. intros w8 b w9 l9 H8 (now8 & e8 & Hn8 & Hd8 & [-> Hs] & _) H9.
  assert (H09 : rely w (passed now8 e8 w8)) by by etrans; [|etrans].
  apply IH; [by etrans|]. cbn [wNow passed] in *.
  destruct H07 as (_ & Hn7 & _), H8 as (_ & Hn8' & _), H05 as (_ & _ & Hd5). cbn [wNow passed] in *.
  destruct He as [He|He]; [by rewrite (Hd5 He) in Ed|]. unfold enough, time_second in *.
  split; [lia|]. destruct b; [by left|right; cbn [wNow passed]; lia].
Qed.

Lemma releaseWithRetry_rg o sb w l :
  rg (fun r w' _ => r <> None /\ rely w w') (releaseWithRetry (retriesFor o) o sb) w l.
Proof.
  unfold releaseWithRetry. apply rg_call. intros w1 now w2 l2 H1 (n & e & Hn & Hd & [-> ->] & _) H2.
  eapply (rg_mono (answers limit keep) rely); [|apply retryDelete_rg].
  { cbn beta. intros r w' _ [Hr Hw']. split; [done|]. by etrans; [|etrans]. }
  unfold retriesFor, time_Add, enough. cbn [wNow passed]. unfold time_second.
  assert (0 <= Z.max 0 (oReleaseTimeout o) / (2 * 1000000000)) by (apply Z.div_pos; lia).
  assert (Hm := Z.mul_succ_div_gt (Z.max 0 (oReleaseTimeout o)) (2 * 1000000000)).
  split; [lia|]. right. rewrite Z2Nat.id by lia. lia.
Qed.

(** A worker draws a slot in every round, so it is past the limit in time. *)
Definition fair_end (r : exit) (w : world) (_ : local_state) : Prop :=
  match r with Exhausted => True | Cancelled => wDone w = true | _ => False end.

Lemma fair_ret r w l : fair_end r w l -> rg fair_end (Ret r) w l.
Proof. intros Hr w' (_ & _ & Hw). destruct r; cbn in *; auto. Qed.

Definition left (w : world) : Z := 1 + Z.max 0 (limit - wCount w issued).

Lemma left_rely w w' : rely w w' -> left w' <= left w.
Proof. intros (Hc & _ & _). unfold left. lia. Qed.

(** The head of a worker's loop: the context, then a slot. *)
Lemma draw_rg (f : Z -> prog LoadE exit) w l :
  (forall slot w' l', slot <= limit -> left w' < left w -> rg fair_end (f slot) w' l') ->
  rg fair_end (ended <- call LCtxErr;; if ended : bool then Ret Cancelled else
               slot <- call (LAdd issued);; if bool_decide (slot > limit) then Ret Exhausted else f slot) w l.
Proof.
  intros Hf. apply rg_call. intros w1 ended w2 l2 H1 (n & e & _ & _ & [-> ->] & _) H2.
  destruct (wDone (passed n e w1)) eqn:Ed; [by apply fair_ret|].
  apply rg_call. intros w3 slot w4 l4 H3 (n4 & e4 & _ & _ & [-> ->] & _) H4.
  case_bool_decide; [by apply fair_ret|]. apply Hf; [lia|].
  assert (Hr : rely w w3) by by etrans; [|etrans]. destruct Hr as (Hc & _ & _). unfold left.
  change (wCount (bump issued (passed n4 e4 w3)) issued) with (wCount w3 issued + 1). cbn [wCount passed] in *. lia.
Qed.

Lemma runWorker_rg rounds o w l :
  limit = oTotal o -> left w <= Z.of_nat rounds -> rg fair_end (runWorker rounds (retriesFor o) o) w l.
Proof.
  intros Hlim. revert w l. induction rounds as [|rounds IH]; intros w l Hl; [unfold left in Hl; lia|].
  cbn [runWorker]. rewrite <-Hlim. apply draw_rg. intros slot w1 l1 Hslot H1.
  assert (Hagain : forall w' l', rely w1 w' -> rg fair_end (runWorker rounds (retriesFor o) o) w' l').
  { intros w' l' Hw'. apply IH. assert (Hx := left_rely _ _ Hw'). lia. }
  apply rg_skip. intros r w2 l2 H2.
  eapply (rg_bind (answers limit keep) rely (fun ok w' _ => ok = true /\ rely w1 w')).
  - destruct r as [sb|e]; apply rg_skip; intros _ w3 l3 H3.
    2: { intros w4 H4. split; [done|]. by etrans; [|etrans]. }
    unfold cleanUp. destruct (oCleanup o).
    2: { intros w4 H4. split; [done|]. by etrans; [|etrans]. }
    eapply (rg_bind (answers limit keep) rely); [apply releaseWithRetry_rg|].
    intros [[]|] w4 l4 [Hr H4]; [| |done]; apply rg_skip; intros _ w5 l5 H5 w6 H6; (split; [done|]);
      by repeat (etrans; [eassumption|]).
  - intros ok w3 l3 [-> H3]. cbn [negb]. case_bool_decide; [|by apply Hagain].
    apply rg_call. intros w4 b w5 l5 H4 (n & e & _ & _ & [-> Hb] & _) H5.
    destruct b; [by apply fair_ret|]. apply Hagain. by etrans; [|etrans].
Qed.

Lemma batchWorker_rg rounds o w l :
  left w <= Z.of_nat rounds -> rg fair_end (batchWorker rounds o limit) w l.
Proof.
  revert w l. induction rounds as [|rounds IH]; intros w l Hl; [unfold left in Hl; lia|].
  cbn [batchWorker]. apply draw_rg. intros slot w1 l1 Hslot H1.
  apply rg_skip. intros k w2 l2 H2. apply rg_skip. intros r w3 l3 H3. apply rg_skip. intros _ w4 l4 H4.
  apply rg_skip. intros _ w5 l5 H5. apply IH.
  assert (Hx : rely w1 w5) by by repeat (etrans; [eassumption|]). apply left_rely in Hx. lia.
Qed.
End fuel.

(** ** A bounded run *)

Definition idle : local_state := mkLocal Idle 0 [].

(** Counters at zero (the sequence of names lives on) and no call sent. *)
Definition new_run (w : world) : Prop := wSent w = [] /\ forall c, c <> seq -> wCount w c = 0.

Definition ended (t : @thread LoadE local_state exit) : Prop := exists r, code t = Ret r.

Lemma idle_sum f n : f idle = 0 -> sum_over f (replicate n idle) = 0.
Proof. intros Hf. induction n as [|n IH]; [done|]. cbn [replicate]. by rewrite sum_over_cons, Hf, IH. Qed.

Lemma idle_omap {B} (f : local_state -> option B) n : f idle = None -> omap f (replicate n idle) = [].
Proof. intros Hf. induction n as [|n IH]; [done|]. cbn. by rewrite Hf. Qed.

(** What a pool of slot-drawing workers has done, in every interleaving. *)
Section slots.
Context (o : options) (limit workers : Z) (md : mode) (keep : bool) (worker : prog LoadE exit).
Context (Hlimit : 0 <= limit) (Hworkers : 0 < workers) (Hmode : md <> Release) (Hkeep : keep = true -> md = Run).
Context (Hobeys : forall l, lPhase l = Idle -> obeys (answers limit keep) (may o md) finished worker l).
Context (Hends : forall w l, wCount w issued = 0 -> rg (answers limit keep) rely (fair_end) worker w l).

Definition reached (w0 w : world) (ts : list thread) : Prop :=
  steps (answers limit keep) worker (fun _ => False) (w0, crew (Z.to_nat workers) (mkThread worker idle)) (w, ts).

Lemma reached_phases w0 w ts :
  reached w0 w ts ->
  all_obey (answers limit keep) (may o md) finished ts /\
  star (lstep (answers limit keep) (may o md)) (w0, replicate (Z.to_nat workers) idle) (w, locals ts) /\
  Z.of_nat (length (locals ts)) = workers.
Proof.
  intros Hs. destruct (protocol_sound _ (may o md) finished worker _ _ Hs) as (H1 & H2 & H3).
  { apply crew_all. by apply Hobeys. }
  cbn [fst snd] in *. rewrite crew_locals in H2. split_and!; [done|done|]. rewrite locals_length, H3, crew_length. lia.
Qed.

Lemma reached_books w0 w ts : new_run w0 -> reached w0 w ts -> books limit keep (w, locals ts).
Proof.
  intros [Hs Hc] (_ & Hstar & _)%reached_phases. eapply star_inv; [|shelve|exact Hstar].
  intros c c' Hb Hstep. by eapply books_step.
  Unshelve. split; cbn [fst snd]; rewrite ?idle_sum, ?Hs, ?Hc by done; cbn; lia.
Qed.

Lemma reached_numbered w0 w ts :
  new_run w0 -> reached w0 w ts -> numbered o md (wCount w0 (counter md)) (w, locals ts).
Proof.
  intros [Hs _] (_ & Hstar & _)%reached_phases.
  apply (star_inv _ (fun c => numbered o md (wCount w0 (counter md)) c /\ wCount w0 (counter md) <= wCount c.1 (counter md))
           _ _ ltac:(intros; by eapply numbered_step)) in Hstar; [by destruct Hstar|].
  split; [|done]. exists []. cbn [fst snd]. rewrite idle_omap by done. split_and!; [done|apply NoDup_nil_2|done].
Qed.

Lemma reached_ends w0 w ts : new_run w0 -> reached w0 w ts -> Forall ended ts ->
  Forall (fun t => exists r, code t = Ret r /\ fair_end r w (local t) /\ finished r (local t)) ts.
Proof.
  intros [_ Hc] Hr Hend. destruct (reached_phases _ _ _ Hr) as (Hob & _ & _).
  destruct (each_steps (answers limit keep) rely worker (fun _ => False) fair_end _ _ ltac:(done) Hr) as [Hall _].
  { apply crew_all. apply Hends. by apply Hc. }
  unfold each, all_obey in *. cbn [fst snd] in *. clear Hr. induction Hend as [|t ts [r Hr] _ IH]; [constructor|].
  inversion Hob as [|? ? Ho Hob']; inversion Hall as [|? ? Ha Hall']; subst. constructor; [|by apply IH].
  exists r. rewrite Hr in Ho, Ha. cbn in Ho, Ha. split_and!; [done| |done]. by apply Ha.
Qed.

Lemma over_all ls : Forall (fun l => lPhase l = Over) ls -> sum_over over_at ls = Z.of_nat (length ls).
Proof.
  induction 1 as [|l ls Hl _ IH]; [done|]. rewrite sum_over_cons, IH. unfold over_at. rewrite Hl. cbn [length]. lia.
Qed.

Lemma rest_zero f ls :
  f ∈ [reserved_at; uncounted_at; in_hand] -> Forall (fun l => lPhase l = Over \/ lPhase l = Idle) ls -> sum_over f ls = 0.
Proof.
  intros Hf. induction 1 as [|l ls Hl _ IH]; [done|]. rewrite sum_over_cons, IH.
  unfold reserved_at, uncounted_at, in_hand in Hf.
  repeat (apply elem_of_cons in Hf as [->|Hf]; [by destruct Hl as [->| ->]|]). by apply elem_of_nil in Hf.
Qed.

(** The accounts at the end of a run. *)
Definition settled (w : world) : Prop :=
  let n := min64 (wCount w issued) limit in
  n = Z.of_nat (length (wSent w)) /\ n = wCount w created + wCount w failed /\
  (keep = true -> wCount w created = wCount w released + wCount w leaked) /\
  (wDone w = false -> n = limit).

Lemma run_settles w0 w ts : new_run w0 -> reached w0 w ts -> Forall ended ts -> settled w.
Proof.
  intros Hnew Hr Hend. assert (Hf := reached_ends _ _ _ Hnew Hr Hend). destruct (reached_phases _ _ _ Hr) as (_ & _ & Hlen).
  destruct (reached_books _ _ _ Hnew Hr) as [H1 H2 H3 _ H5 H6]. cbn [fst snd] in *.
  assert (Hrest : Forall (fun l => lPhase l = Over \/ lPhase l = Idle) (locals ts)).
  { eapply locals_all; [|exact Hf]. intros t (r & _ & Ha & Hb). destruct r; cbn in *; auto; done. }
  rewrite (rest_zero reserved_at) in H1 by (set_solver || done). rewrite (rest_zero uncounted_at) in H2 by (set_solver || done).
  rewrite (rest_zero in_hand) in H3 by (set_solver || done).
  assert (Hn : min64 (wCount w issued) limit = Z.min (wCount w issued) limit) by (unfold min64; case_bool_decide; lia).
  unfold settled. cbn zeta. rewrite Hn. split_and!; [lia|lia|intros Hk; specialize (H3 Hk); lia|]. intros Hd.
  rewrite over_all in H6; [lia|]. eapply locals_all; [|exact Hf]. intros t (r & _ & Ha & Hb).
  destruct r; cbn in *; [done|congruence|done|done].
Qed.
End slots.

Lemma never_starved limit workers keep worker w0 w ts :
  (forall w l, wCount w issued = 0 -> rg (answers limit keep) rely fair_end worker w l) ->
  new_run w0 -> reached limit workers keep worker w0 w ts -> Forall (fun t => code t <> Ret OutOfFuel) ts.
Proof.
  intros Hends [_ Hc] Hr.
  destruct (each_steps (answers limit keep) rely worker (fun _ => False) fair_end _ _ ltac:(done) Hr) as [Hall _].
  { apply crew_all. apply Hends. by apply Hc. }
  eapply pool_impl; [|exact Hall]. cbn [fst snd]. intros t Ht Hc'. rewrite Hc' in Ht. cbn in Ht. by apply (Ht w).
Qed.

(** One run of [main] outside cycle mode: the workers of [run]. *)
Definition run_reached (o : options) : world -> world -> list thread -> Prop :=
  reached (oTotal o) (oConcurrency o) (oCleanup o) (runWorker (roundsFor (oTotal o)) (retriesFor o) o).

Lemma runWorker_ends o w l :
  0 <= oTotal o -> wCount w issued = 0 ->
  rg (answers (oTotal o) (oCleanup o)) rely fair_end (runWorker (roundsFor (oTotal o)) (retriesFor o) o) w l.
Proof. intros Ht Hc. apply runWorker_rg; [done|]. unfold left, roundsFor. rewrite Hc. lia. Qed.

Lemma run_covered o w0 w ts :
  0 < oConcurrency o -> oCleanup o = true -> run_reached o w0 w ts ->
  Z.of_nat (size (wLive w ∖ (wLive w0 ∪ wLost w))) <= oConcurrency o.
Proof.
  intros Hw Hk Hr.
  destruct (reached_phases o _ _ Run _ _ Hw (fun l => runWorker_obeys _ _ o l) _ _ _ Hr) as (_ & Hstar & Hlen).
  rewrite Hk in Hstar. rewrite <-Hlen. apply (covered_size (wLive w0) (w, locals ts)).
  eapply star_inv; [intros c c' Hc Hs; by eapply covered_step| |exact Hstar]. intros n Hn. by left.
Qed.

(** C27.  The promise of the load generator.  With options the gate lets through, in
    every interleaving of its workers, with calls failing (and possibly applied
    all the same), time passing and the context ending at any moment: never more
    than [--total] creates are sent, each under a name of its own; with
    [--cleanup] the live sandboxes of the run, those reported as leaked or
    created by a failed call apart, never exceed [--concurrency]; no worker runs
    out of its bounds; and once all have ended, the summary adds up (issued =
    created + failed, created = released + leaked), with exactly [--total] issued
    unless the context ended. *)
Theorem exact_bounded_run (o0 o : options) (w0 w : world) (ts : list thread) :
  checkOptions o0 = Ok o -> oWaveSize o0 <= 0 -> new_run w0 -> run_reached o w0 w ts ->
  oTotal o = oTotal o0 /\ oConcurrency o <= oConcurrency o0 /\
  Z.of_nat (length (wSent w)) <= oTotal o /\ NoDup (wSent w) /\
  (oCleanup o = true -> Z.of_nat (size (wLive w ∖ (wLive w0 ∪ wLost w))) <= oConcurrency o) /\
  Forall (fun t => code t <> Ret OutOfFuel) ts /\
  (Forall ended ts -> settled (oTotal o) (oCleanup o) w).
Proof.
  intros Hgate Hwave Hnew Hr.
  assert (0 < oTotal o /\ 0 < oConcurrency o /\ oTotal o = oTotal o0 /\ oConcurrency o <= oConcurrency o0)
    as (Ht & Hc & Ht0 & Hc0).
  { unfold checkOptions in Hgate. repeat case_bool_decide; simplify_eq; cbn; lia. }
  pose proof (fun l => runWorker_obeys (roundsFor (oTotal o)) (retriesFor o) o l) as Hob.
  assert (Ht' : 0 <= oTotal o) by lia. pose proof (fun w l => runWorker_ends o w l Ht') as Hend.
  assert (Hrun : Run <> Release) by done.
  destruct (reached_books o _ _ Run _ _ Ht' Hc Hrun ltac:(done) Hob _ _ _ Hnew Hr) as [H1 _ _ _ _ _].
  destruct (reached_numbered o _ _ Run _ _ Hc Hrun Hob _ _ _ Hnew Hr) as (ks & Hks & Hnd & _).
  cbn [fst snd] in *. split_and!; [done|done| | |intros Hk; exact (run_covered o w0 w ts Hc Hk Hr)| |].
  - assert (Hz := weights_nonneg reserved_at (locals ts) ltac:(set_solver)). lia.
  - rewrite Hks. apply NoDup_fmap_2; [apply sandboxName_inj|]. by apply NoDup_app in Hnd as [? _].
  - exact (never_starved _ _ _ _ w0 w ts Hend Hnew Hr).
  - by apply (run_settles o _ _ Run _ _ Ht' Hc Hrun ltac:(done) Hob Hend w0 w ts Hnew Hr).
Qed.

(** ** A wave of creates *)

Definition batch_reached (o : options) (n : Z) : world -> world -> list thread -> Prop :=
  reached n (oConcurrency o) false (batchWorker (roundsFor n) o n).

Lemma batchWorker_ends o n w l :
  0 <= n -> wCount w issued = 0 -> rg (answers n false) rely fair_end (batchWorker (roundsFor n) o n) w l.
Proof. intros Hn Hc. apply batchWorker_rg. unfold left, roundsFor. rewrite Hc. lia. Qed.

(** A batch of [n] sends at most [n] creates under numbers not used before, and
    exactly [n] unless the context ended; what it returns is the count sent. *)
Theorem batch_exact (o : options) (n : Z) (w0 w : world) (ts : list thread) :
  0 < oConcurrency o -> 0 <= n -> new_run w0 -> batch_reached o n w0 w ts ->
  Z.of_nat (length (wSent w)) <= n /\
  (exists ks, wSent w = sandboxName o <$> ks /\ NoDup ks /\ Forall (fun k => wCount w0 seq < k <= wCount w seq) ks) /\
  Forall (fun t => code t <> Ret OutOfFuel) ts /\
  (Forall ended ts -> settled n false w).
Proof.
  intros Hc Hn Hnew Hr. pose proof (fun l => batchWorker_obeys (roundsFor n) o n l) as Hob.
  pose proof (fun w l => batchWorker_ends o n w l Hn) as Hend. assert (Hbatch : Batch <> Release) by done.
  assert (Hk : false = true -> Batch = Run) by done.
  destruct (reached_books o _ _ Batch _ _ Hn Hc Hbatch Hk Hob _ _ _ Hnew Hr) as [H1 _ _ _ _ _].
  destruct (reached_numbered o _ _ Batch _ _ Hc Hbatch Hob _ _ _ Hnew Hr) as (ks & Hks & Hnd & Hall).
  cbn [fst snd] in *. split_and!.
  - assert (Hz := weights_nonneg reserved_at (locals ts) ltac:(set_solver)). lia.
  - exists ks. split_and!; [done|by apply NoDup_app in Hnd as [? _]|]. by apply Forall_app in Hall as [? _].
  - exact (never_starved _ _ _ _ w0 w ts Hend Hnew Hr).
  - by apply (run_settles o _ _ Batch _ _ Hn Hc Hbatch Hk Hob Hend w0 w ts Hnew Hr).
Qed.

(** ** A run of two workers *)

Module LoadDemo.

(** A cluster in which every first delete finds nothing yet. *)
Definition answer (w : world) (l : local_state) (X : Type) (e : LoadE X) : option (X * world) :=
  match e in LoadE X return option (X * world) with
  | LCtxErr => Some (wDone w, w)
  | LSleep d => Some (false, passed (wNow w + Z.max 0 d) (wDone w) w)
  | LNow => Some (wNow w, w)
  | LAdd c => Some (wCount w c + 1, bump c w)
  | LMetric m _ =>
      Some (tt, match m, lPhase l with
                | leakedTotal, Holding n => live_lost (wLive w) ({[n]} ∪ wLost w) w
                | _, _ => w
                end)
  | LCreate sb => Some (Ok sb, sent (sbName sb) (live_lost ({[sbName sb]} ∪ wLive w) (wLost w) w))
  | LExec _ _ _ => Some (None, w)
  | LDelete sb =>
      if bool_decide (sbName sb ∈ wDeletes w)
      then Some (None, asked (sbName sb) (live_lost (wLive w ∖ {[sbName sb]}) (wLost w) w))
      else Some (Some (APIStatus ReasonNotFound (sbName sb)), asked (sbName sb) w)
  | LSend sb => Some (tt, set_work (wWork w ++ [sb]) (wClosed w) w)
  | LClose => Some (tt, set_work (wWork w) true w)
  | LRecv =>
      match wWork w with
      | sb :: rest => Some (Some sb, set_work rest (wClosed w) w)
      | [] => if wClosed w then Some (None, w) else None
      end
  end.

Definition respond (limit : Z) (keep : bool) (X : Type) (e : LoadE X) (w : world) (l : local_state) :
    option (X * world * local_state) :=
  match answer w l X e with Some (x, w') => Some (x, w', after limit keep X e l x) | None => None end.

Lemma passed_same w : passed (wNow w) (wDone w) w = w.
Proof. by destruct w. Qed.

Lemma load_respond_answers limit keep X e w l x w' l' :
  respond limit keep X e w l = Some (x, w', l') -> answers limit keep X e w l x w' l'.
Proof.
  unfold respond. destruct (answer w l X e) as [[y w1]|] eqn:Ea; [|done]. intros [= -> -> <-].
  destruct e as [|d| | | | | | | | |]; cbn [answer] in Ea.
  2: { injection Ea as <- <-. exists (wNow w + Z.max 0 d), (wDone w). cbn. split_and!; try done; lia. }
  all: exists (wNow w), (wDone w); rewrite passed_same; (split_and!; [done|done| |done]); cbn [effect];
    repeat case_match; simplify_eq; eauto 6.
Qed.

Definition two : options := mkOptions "ns" "img" "lg" 5 2 0 true (10 * time_second) 0 0 0 1 false.
Definition two' : options := set_concurrency 2 two.
Definition world0 : world := mkWorld (fun _ => 0) [] {["old"]} ∅ 0 false [] false [].
Definition worker : prog LoadE exit := runWorker (roundsFor 2) (retriesFor two') two'.

Definition final : world * list thread :=
  play (respond 2 true) [(0, 7); (1, 20); (0, 200); (1, 200)]%nat world0 (crew 2 (mkThread worker idle)).

Lemma final_reached : run_reached two' world0 final.1 final.2.
Proof.
  unfold run_reached, reached. rewrite <-surjective_pairing.
  apply (play_steps (answers 2 true) worker (fun _ => False)). intros X e s l x s' l'. apply load_respond_answers.
Qed.

Lemma exact_bounded_run_witness :
  wSent final.1 = ["lg-1"; "lg-2"] /\ wLive final.1 = {["old"]} /\ settled 2 true final.1.
Proof.
  split; [vm_compute; reflexivity|]. split; [vm_compute; reflexivity|].
  destruct (exact_bounded_run two two' world0 final.1 final.2) as (_ & _ & _ & _ & _ & _ & Hs).
  - vm_compute; reflexivity.
  - cbn. lia.
  - split; [done|]. done.
  - exact final_reached.
  - apply Hs. unfold ended. vm_compute. repeat constructor; eexists; reflexivity.
Defined.
End LoadDemo.

End LoadFacts.
