(* ===== verification/LoadDelete.v ===== *)
(** * LoadDelete: the delete phase of the load generator.

    The feeding loop and the workers of [deleteAll] over the work channel: nothing
    on the list is lost or handed out twice, only the generator's own sandboxes
    are deleted, and the loops end. *)

From S2P Require Import Prelude GoStrings K8s PoolKey Types Interleave LoadGen LoadFacts.

Module LoadDelete.
Import LoadGen LoadFacts.
#[local] Open Scope prog_scope.

Section delete_phase.
Context (o : options).

Definition owned (sb : Sandbox) : bool := HasPrefix (sbName sb) (oNamegen o +:+ "-").

Abbreviation obeys := (Interleave.obeys (answers 0 false) (may o Release)).
Abbreviation rg := (Interleave.rg (answers 0 false) rely).

Definition ownedNames (items : list Sandbox) : list string :=
  sbName <$> filter (fun sb => owned sb = true) items.

Definition lBudget (l : local_state) : Z := Z.of_nat (length (lRest l)).

(** Where the feeding loop and the workers end.  [k]: the items to hand out, in
    [rounds] at most for one worker. *)
Definition dispatched (k : Z) (rounds : Z) (r : exit) (l : local_state) : Prop :=
  match r with
  | Exhausted => lPhase l = Over
  | Cancelled => False
  | OutOfFuel => lPhase l = Idle /\ lTaken l = rounds \/ exists n, lPhase l = Holding n
  | Dispatched listed e =>
      lPhase l = Fed /\ listed + lBudget l = k + (if e then 1 else 0) /\ (e = false -> lRest l = [])
  end.

Lemma dispatch_obeys k rounds items listed l :
  lPhase l = Feeding -> lRest l = ownedNames items -> listed + lBudget l = k ->
  obeys (dispatched k rounds) (dispatch o listed items) l.
Proof.
  unfold lBudget. revert listed l. induction items as [|sb items IH]; intros listed l Hl Hr Hk; cbn [dispatch].
  { obey; [done|]. unfold dispatched, lBudget. cbn [lPhase at_phase lRest]. rewrite Hr in *. split_and!; [done|lia|done]. }
  unfold ownedNames in Hr. rewrite filter_cons in Hr. fold (owned sb). destruct (owned sb) eqn:Eo; cbn [negb].
  2: { rewrite decide_False in Hr by done. by apply IH. }
  rewrite decide_True in Hr by done. rewrite fmap_cons in Hr. rewrite Hr in Hk. cbn [length] in Hk. obey; [done|]. destruct x.
  - obey; [done|]. unfold dispatched, lBudget. cbn [lPhase at_phase lRest]. rewrite Hr. cbn [length]. split_and!; [done|lia|done].
  - obey; [split_and!; [done|done|by rewrite Hr|done]|]. apply IH; cbn [lPhase lRest]; rewrite ?Hr; cbn [tail]; [done|done|lia].
Qed.

Lemma deleteWorker_obeys k rounds retries l :
  lPhase l = Idle ->
  obeys (dispatched k (lTaken l + Z.of_nat rounds)) (deleteWorker rounds retries o) l.
Proof.
  revert l. induction rounds as [|rounds IH]; intros l Hl; [left; split; [done|lia]|]. cbn [deleteWorker]. obey; [done|].
  destruct x as [sb|]; [|done]. eapply obeys_bind; [by apply releaseWithRetry_obeys|].
  intros [[]|] l1 Hl1; [..|subst l1; right; by eexists]; subst l1; (obey; [done|]).
  all: cbn [at_phase lTaken lRest lPhase].
  all: match goal with |- Interleave.obeys _ _ (dispatched _ ?r) _ ?l => 
         replace r with (lTaken l + Z.of_nat rounds) by (cbn; lia) end; by apply IH.
Qed.

(** Nothing is lost between the feeding loop and the workers, nothing is handed
    out twice, and only the generator's own sandboxes are touched. *)
Record flow (k : Z) (c : world * list local_state) : Prop := {
  flow_items : sum_over lBudget c.2 + Z.of_nat (length (wWork c.1)) + sum_over lTaken c.2 = k;
  flow_counts : wCount c.1 deleted + wCount c.1 leaked + sum_over in_hand c.2 = sum_over lTaken c.2;
  flow_owned : Forall (fun sb => owned sb = true) (wWork c.1)
    /\ Forall (fun l => forall n, held l = Some n -> HasPrefix n (oNamegen o +:+ "-") = true) c.2
    /\ Forall (fun n => HasPrefix n (oNamegen o +:+ "-") = true) (wDeletes c.1);
  flow_shape : Forall (fun l => 0 <= lTaken l /\
                                match lPhase l with Reserved _ | Named _ | Made _ | Unmade => False | _ => True end) c.2;
  flow_order : exists p ws, c.2 = p :: ws /\ (lPhase p = Feeding /\ wClosed c.1 = false \/ lPhase p = Fed /\ wClosed c.1 = true) /\
    Forall (fun l => lRest l = [] /\ lPhase l <> Feeding /\ lPhase l <> Fed) ws /\
    (Exists (fun l => lPhase l = Over) ws -> wClosed c.1 = true /\ wWork c.1 = [])
}.

Lemma phase_feeding l : lPhase l = Feeding \/ lPhase l <> Feeding.
Proof. destruct (lPhase l); (by left) || (by right). Qed.

Lemma Exists_put {A} (P : A -> Prop) (l : list A) i a : Exists P (<[i := a]> l) -> P a \/ Exists P l.
Proof.
  revert i. induction l as [|b l IH]; intros [|i] H; cbn in H; [by right|by right| |].
  - apply Exists_cons in H as [?|?]; [by left|]. right. by apply Exists_cons_tl.
  - apply Exists_cons in H as [?|H]; [by right; apply Exists_cons_hd|].
    destruct (IH i H); [by left|right]. by apply Exists_cons_tl.
Qed.

Lemma flow_feeding k w ls i l : ls !! i = Some l -> flow k (w, ls) -> lPhase l = Feeding -> wClosed w = false.
Proof.
  intros Hi [_ _ _ _ Ho] Hl. cbn [fst snd] in *. destruct Ho as (p & ws & -> & Hp & Hws & _). destruct i as [|i].
  - injection Hi as ->. destruct Hp as [[_ ?]|[? _]]; [done|congruence].
  - by destruct (proj1 (Forall_lookup _ _) Hws i l Hi) as (_ & ? & _).
Qed.

(** One worker's step, by what it changes. *)
Lemma flow_put k w w' ls i l l' :
  ls !! i = Some l -> flow k (w, ls) ->
  lBudget l' + Z.of_nat (length (wWork w')) + lTaken l' = lBudget l + Z.of_nat (length (wWork w)) + lTaken l ->
  wCount w' deleted + wCount w' leaked + in_hand l' - lTaken l' =
    wCount w deleted + wCount w leaked + in_hand l - lTaken l ->
  Forall (fun sb => owned sb = true) (wWork w') ->
  (forall n, held l' = Some n -> HasPrefix n (oNamegen o +:+ "-") = true) ->
  Forall (fun n => HasPrefix n (oNamegen o +:+ "-") = true) (wDeletes w') ->
  0 <= lTaken l' /\
    match lPhase l' with Reserved _ | Named _ | Made _ | Unmade => False | _ => True end ->
  (wClosed w = true -> wWork w = [] -> wWork w' = []) ->
  (lPhase l = Feeding -> lPhase l' = Feeding /\ wClosed w' = wClosed w \/ lPhase l' = Fed /\ wClosed w' = true) ->
  (lPhase l <> Feeding -> lPhase l' <> Feeding /\ (lPhase l' = Fed <-> lPhase l = Fed) /\ lRest l' = lRest l /\ wClosed w' = wClosed w) ->
  (lPhase l' = Over -> lPhase l = Over \/ wClosed w' = true /\ wWork w' = []) ->
  flow k (w', <[i := l']> ls).
Proof.
  intros Hi [H1 H2 (_ & H3b & _) H4 H5] Ha Hb Hc Hd He Hf Hcl Hfe Hnf Hnew.
  cbn [fst snd] in *. destruct H5 as (p & ws & Hls & Hp & Hws & Hov). subst ls. split; cbn [fst snd].
  - rewrite !(sum_put _ _ _ _ _ Hi). lia.
  - rewrite !(sum_put _ _ _ _ _ Hi). lia.
  - split_and!; [done|by apply Forall_insert|done].
  - by apply Forall_insert.
  - assert (Hmono : wClosed w = true -> wClosed w' = true).
    { destruct (phase_feeding l) as [Hx|Hx]; [destruct (Hfe Hx) as [[_ ->]|[_ ->]]; done|]. by destruct (Hnf Hx) as (_ & _ & _ & ->). }
    assert (Hold : Exists (fun l => lPhase l = Over) ws -> wClosed w' = true /\ wWork w' = []).
    { intros Hx. destruct (Hov Hx) as [Hx1 Hx2]. auto. }
    destruct i as [|i]; cbn in Hi |- *.
    + injection Hi as ->. exists l', ws. split_and!; [done| |done|done].
      destruct Hp as [[Hp Hc']|[Hp Hc']]; [destruct (Hfe Hp) as [[? ->]|?]; auto|].
      right. split; [|auto]. apply Hnf; [by rewrite Hp|done].
    + exists p, (<[i := l']> ws). destruct (proj1 (Forall_lookup _ _) Hws i l Hi) as (Hbl & Hfl & Hfd).
      destruct (Hnf Hfl) as (Hnf' & Hfd' & Hbud & Hcl'). split_and!; [done|by rewrite Hcl'| |].
      * apply Forall_insert; [done|]. split_and!; [congruence|done|by rewrite Hfd'].
      * intros [Hx|Hx]%Exists_put; [|by apply Hold]. destruct (Hnew Hx) as [Hlo|?]; [|done].
        apply Hold, Exists_exists. exists l. split; [by eapply list_elem_of_lookup_2|done].
Qed.

Lemma flow_same k w w' ls i l :
  ls !! i = Some l -> flow k (w, ls) -> wCount w' = wCount w -> wWork w' = wWork w -> wClosed w' = wClosed w ->
  Forall (fun n => HasPrefix n (oNamegen o +:+ "-") = true) (wDeletes w') -> flow k (w', <[i := l]> ls).
Proof.
  intros Hi Hf Hc Hw Hcl Hd. pose proof Hf as [_ _ (H3a & H3b & _) H4 _]. cbn [fst snd] in *.
  assert (Hh := proj1 (Forall_lookup _ _) H3b i l Hi). assert (Hl := proj1 (Forall_lookup _ _) H4 i l Hi). cbn beta in *.
  eapply flow_put; [exact Hi|exact Hf|..]; rewrite ?Hc, ?Hw, ?Hcl; auto.
Qed.

Ltac flow_put := unfold lBudget in *; cbn; rewrite ?length_app; cbn [length]; try naive_solver lia.

Lemma flow_step k c c' : lstep (answers 0 false) (may o Release) c c' -> flow k c -> flow k c'.
Proof.
  intros [w ls i X e [ph tk rs] x w' l' Hi Hm (now & en & _ & _ & He & ->)] Hf.
  pose proof Hf as [_ _ (H3a & H3b & H3c) H4 _]. cbn [fst snd] in *.
  assert (Hl := proj1 (Forall_lookup _ _) H4 i _ Hi). assert (Hh := proj1 (Forall_lookup _ _) H3b i _ Hi).
  assert (Hput := fun w' l' => flow_put k w w' ls i _ l' Hi Hf). unfold in_hand, held in Hput, Hh.
  assert (Hsame := fun w' => flow_same k w w' ls i _ Hi Hf).
  destruct e as [|d| |c0|m v|sb|addr id tok|sb|sb| |]; cbn [effect after may lPhase lTaken lRest at_phase passed] in *.
  - destruct He as [_ ->]. by apply Hsame.
  - destruct He as [-> _]. by apply Hsame.
  - destruct He as [_ ->]. by apply Hsame.
  - destruct He as [-> ->]. destruct c0.
    + by destruct Hm.
    + by destruct Hm.
    + destruct Hm as [n ->]. by destruct Hl as (_ & []).
    + subst ph. by destruct Hl as (_ & []).
    + by destruct Hm.
    + subst ph. apply Hput; flow_put.
    + destruct Hm as [_ ->]. apply Hput; flow_put.
  - destruct m; try (subst w'; by apply Hsame). destruct Hm as [n ->]. subst w'. apply Hput; flow_put.
  - destruct Hm as (k' & Hm & _). unfold ready in Hm. rewrite bool_decide_false in Hm by done. subst ph.
    by destruct Hl as (_ & []).
  - subst w'. by apply Hsame.
  - subst ph. assert (HasPrefix (sbName sb) (oNamegen o +:+ "-") = true) as Hpre by by apply Hh.
    assert (Forall (fun n => HasPrefix n (oNamegen o +:+ "-") = true) (wDeletes w ++ [sbName sb])) as Hdel
      by (apply Forall_app; split; [done|by constructor]).
    destruct x as [err|]; [by destruct He as [->| ->]; apply Hsame|]. subst w'. apply Hput; flow_put.
  - destruct Hm as (_ & -> & Hrs & Hpre). destruct rs as [|r rs]; [done|]. subst w'. assert (Hopen := flow_feeding _ _ _ _ _ Hi Hf eq_refl).
    apply Hput; flow_put; [|congruence]. apply Forall_app; split; [done|by constructor].
  - destruct Hm as (_ & ->). subst w'. apply Hput; flow_put.
  - destruct Hm as (_ & ->). destruct x as [sb|].
    + destruct He as (rest & Hw & ->). cbn in Hw. rewrite Hw in *. inversion H3a as [|? ? Hsb Hrest].
      apply Hput; flow_put.
    + destruct He as (Hw & Hcl & ->). apply Hput; flow_put.
Qed.

(** ** Nothing on the list is forgotten *)

Definition on_it (l : local_state) : list string := lRest l ++ option_list (held l).

Definition pending (names : list string) (c : world * list local_state) : Prop :=
  forall n, n ∈ names -> n ∈ wLive c.1 ->
    n ∈ wLost c.1 \/ n ∈ sbName <$> wWork c.1 \/ Exists (fun l => n ∈ on_it l) c.2.

Lemma pending_put names w w' ls i l l' :
  ls !! i = Some l -> wLive w' ⊆ wLive w -> wLost w ⊆ wLost w' ->
  (forall n, n ∈ wLive w' -> n ∈ on_it l \/ n ∈ sbName <$> wWork w ->
     n ∈ wLost w' \/ n ∈ sbName <$> wWork w' \/ n ∈ on_it l') ->
  pending names (w, ls) -> pending names (w', <[i := l']> ls).
Proof.
  intros Hi Hlive Hlost Hn Hp n Hin Hlv. cbn [fst snd] in *.
  assert (Hnew : n ∈ on_it l' -> Exists (fun l => n ∈ on_it l) (<[i := l']> ls)).
  { intros Ha. apply Exists_exists. exists l'. split; [|done]. eapply list_elem_of_lookup_2, list_lookup_insert_eq.
    by eapply lookup_lt_Some. }
  assert (Hcase : n ∈ on_it l \/ n ∈ sbName <$> wWork w ->
                  n ∈ wLost w' \/ n ∈ sbName <$> wWork w' \/ Exists (fun l => n ∈ on_it l) (<[i := l']> ls)).
  { intros Hx. destruct (Hn n Hlv Hx) as [?|[?|?]]; auto. }
  destruct (Hp n Hin) as [Hx|[Hx|Hx]]; [by apply Hlive|left; by apply Hlost|by apply Hcase; right|].
  cbn [snd] in Hx. apply Exists_exists in Hx as (y & Hy & Hny). apply list_elem_of_lookup in Hy as (j & Hj).
  destruct (decide (i = j)) as [<-|Hne]; [simplify_eq; by apply Hcase; left|].
  right; right. apply Exists_exists. exists y. split; [|done]. eapply list_elem_of_lookup_2.
  by rewrite list_lookup_insert_ne.
Qed.

Lemma pending_step k names c c' :
  lstep (answers 0 false) (may o Release) c c' -> flow k c -> pending names c -> pending names c'.
Proof.
  intros [w ls i X e [ph tk rs] x w' l' Hi Hm (now & en & _ & _ & He & ->)] [_ _ _ H4 _].
  cbn [fst snd] in *. assert (Hl := proj1 (Forall_lookup _ _) H4 i _ Hi).
  assert (Hput := fun w' l' => pending_put names w w' ls i _ l' Hi). unfold on_it, held in Hput.
  destruct e as [|d| |c0|m v|sb|addr id tok|sb|sb| |]; cbn [effect after may lPhase lTaken lRest at_phase passed] in *.
  - destruct He as [_ ->]. apply Hput; cbn; set_solver.
  - destruct He as [-> _]. apply Hput; cbn; set_solver.
  - destruct He as [_ ->]. apply Hput; cbn; set_solver.
  - destruct He as [-> ->]. destruct c0; try (by destruct Hm); [destruct Hm as [n ->]|subst ph|subst ph|destruct Hm as [_ ->]].
    1,2: by destruct Hl. all: apply Hput; cbn; set_solver.
  - destruct m; try (subst w'; apply Hput; cbn; set_solver). destruct Hm as [n ->]. subst w'. apply Hput; cbn; set_solver.
  - destruct Hm as (k' & Hm & _). unfold ready in Hm. rewrite bool_decide_false in Hm by done. subst ph. by destruct Hl.
  - subst w'. apply Hput; cbn; set_solver.
  - subst ph. destruct x as [err|]; [destruct He as [->| ->]|subst w']; apply Hput; cbn; set_solver.
  - destruct Hm as (_ & -> & Hrs & Hpre). destruct rs as [|r rs]; [done|]. injection Hrs as ->. subst w'.
    apply Hput; cbn; rewrite ?fmap_app; set_solver.
  - destruct Hm as (_ & ->). subst w'. apply Hput; cbn; set_solver.
  - destruct Hm as (_ & ->). destruct x as [sb|].
    + destruct He as (rest & Hw & ->). cbn in Hw. apply Hput; cbn; rewrite ?Hw; set_solver.
    + destruct He as (Hw & Hcl & ->). apply Hput; cbn; set_solver.
Qed.

(** ** The loops of the delete phase end *)

Definition fed (r : exit) (w : world) (l : local_state) : Prop :=
  match r with
  | OutOfFuel => forall n, lPhase l <> Holding n
  | Dispatched _ e => e = true -> wDone w = true
  | _ => True
  end.

Lemma dispatch_rg items listed w l : rg fed (dispatch o listed items) w l.
Proof.
  revert listed w l. induction items as [|sb items IH]; intros listed w l; cbn [dispatch].
  { apply rg_skip. by intros _ w1 l1 H1 w2 H2. }
  destruct (negb _); [apply IH|]. apply rg_call. intros w1 e w2 l2 H1 (n & en & _ & _ & [-> ->] & _) H2.
  destruct (wDone (passed n en w1)) eqn:Ed.
  - apply rg_skip. intros _ w3 l3 (_ & _ & H3) w4 (_ & _ & H4) _. auto.
  - apply rg_skip. intros _ w3 l3 H3. apply IH.
Qed.

Lemma deleteWorker_rg rounds w l : lPhase l = Idle -> rg fed (deleteWorker rounds (retriesFor o) o) w l.
Proof.
  revert w l. induction rounds as [|rounds IH]; intros w l Hl; cbn [deleteWorker].
  { intros w' _ n. by rewrite Hl. }
  apply rg_call. intros w1 [sb|] w2 l2 H1 _ H2; [|by intros w3 H3].
  eapply (rg_bind (answers 0 false) rely); [apply releaseWithRetry_rg|]. intros [b|] w3 l3 [Hb H3]; [|done].
  apply rg_call. intros w4 x w5 l5 H4 (n & en & _ & _ & _ & ->) H5. apply IH. by destruct b; cbn; destruct (lPhase l3).
Qed.

(** [deleteAll] on what it listed: the feeding loop and its workers. *)
Definition deletePool (items : list Sandbox) : list thread :=
  mkThread (dispatch o 0 items) (mkLocal Feeding 0 (ownedNames items)) ::
  crew (Z.to_nat (oDeleteConcurrency o))
    (mkThread (deleteWorker (S (length (ownedNames items))) (retriesFor o) o) idle).

Definition delete_reached (items : list Sandbox) (w0 w : world) (ts : list thread) : Prop :=
  steps (answers 0 false) (dispatch o 0 []) (fun _ => False) (w0, deletePool items) (w, ts).

Definition new_phase (w : world) : Prop :=
  wWork w = [] /\ wClosed w = false /\ wDeletes w = [] /\ wCount w deleted = 0 /\ wCount w leaked = 0.

Lemma deletePool_flow items w0 :
  new_phase w0 ->
  flow (Z.of_nat (length (ownedNames items))) (w0, locals (deletePool items)) /\
  pending (ownedNames items) (w0, locals (deletePool items)).
Proof.
  intros (Hw & Hc & Hd & Hd0 & Hl0). unfold deletePool. cbn [locals local]. rewrite crew_locals. cbn [local].
  split; [|intros n Hn _; right; right; apply Exists_cons_hd; unfold on_it; cbn; by rewrite app_nil_r].
  split; cbn [fst snd]; rewrite ?sum_over_cons, ?idle_sum, ?Hw, ?Hc, ?Hd, ?Hd0, ?Hl0 by done.
  - unfold lBudget. cbn. lia.
  - cbn. lia.
  - split_and!; [constructor| |constructor]. constructor; [done|]. by apply Forall_replicate.
  - constructor; [done|]. by apply Forall_replicate.
  - eexists _, _. split_and!; [done|by left|by apply Forall_replicate|]. intros Hx. exfalso.
    apply Exists_exists in Hx as (l & [-> _]%elem_of_replicate & Hl). done.
Qed.

Section feeding.
Context (items : list Sandbox) (w0 w : world) (ts : list (@thread LoadE local_state exit)).
Context (Hnew : new_phase w0) (Hr : delete_reached items w0 w ts).

Let k : Z := Z.of_nat (length (ownedNames items)).

Lemma fed_star :
  Forall (fun t => obeys (dispatched k (k + 1)) (code t) (local t)) ts /\
  star (lstep (answers 0 false) (may o Release)) (w0, locals (deletePool items)) (w, locals ts) /\
  length (locals ts) = S (Z.to_nat (oDeleteConcurrency o)).
Proof.
  destruct (protocol_sound _ (may o Release) (dispatched k (k + 1)) _ _ _ Hr) as (H1 & H2 & H3).
  { cbn [snd]. unfold deletePool. constructor.
    - apply dispatch_obeys; [done|done|]. unfold lBudget, k. cbn [local lRest]. lia.
    - apply crew_all. cbn [code local]. replace (k + 1) with (lTaken idle + Z.of_nat (S (length (ownedNames items))))
        by (unfold k; cbn [idle lTaken]; lia). by apply deleteWorker_obeys. }
  cbn [fst snd] in *. split_and!; [done|done|]. rewrite locals_length, H3. unfold deletePool. cbn [length].
  by rewrite crew_length.
Qed.

Lemma fed_flow : flow k (w, locals ts) /\ pending (ownedNames items) (w, locals ts).
Proof.
  destruct fed_star as (_ & H2 & _).
  apply (star_inv _ (fun c => flow k c /\ pending (ownedNames items) c)) in H2; [done| |by apply deletePool_flow].
  intros c c' [Hf Hp] Hs. split; [by eapply flow_step|by eapply pending_step].
Qed.

Lemma fed_taken : Forall (fun l => lTaken l <= k) (locals ts).
Proof.
  destruct fed_flow as ([H1 _ _ H4 _] & _). cbn [fst snd] in *. apply Forall_lookup. intros i l Hi.
  assert (Hrest : 0 <= sum_over lBudget (locals ts)) by (apply sum_nonneg; intros l0; unfold lBudget; lia).
  assert (Hsum : sum_over lTaken (locals ts) = sum_over (fun l => Z.max 0 (lTaken l)) (locals ts)).
  { clear -H4. induction H4 as [|l ls [Hl _] _ IH]; [done|]. rewrite !sum_over_cons. lia. }
  assert (Hat := sum_at (fun l => Z.max 0 (lTaken l)) (locals ts) i l ltac:(intros; lia) Hi). cbn beta in Hat. lia.
Qed.

Lemma fed_ends :
  Forall (fun t => code t <> Ret OutOfFuel) ts /\
  Forall (fun t => forall r, code t = Ret r -> dispatched k (k + 1) r (local t) /\ fed r w (local t)) ts.
Proof.
  destruct fed_star as (Hob & _ & _).
  destruct (each_steps (answers 0 false) rely (dispatch o 0 []) (fun _ => False) fed _ _ ltac:(done) Hr) as [Hall _].
  { constructor; [apply dispatch_rg|]. apply crew_all. by apply deleteWorker_rg. }
  unfold each in Hall. cbn [fst snd] in Hall.
  assert (Hboth : Forall (fun t => forall r, code t = Ret r -> dispatched k (k + 1) r (local t) /\ fed r w (local t)) ts).
  { eapply pool_impl; [|exact (pool_both _ _ _ Hob Hall)]. intros t [Ho Ha] r Hc. rewrite Hc in Ho, Ha. cbn in Ho, Ha.
    split; [done|by apply Ha]. }
  split; [|done]. eapply pool_impl; [|exact (pool_both _ _ _ Hboth (locals_back _ _ fed_taken))]. cbn beta.
  intros t [Ht Htk] Hc. destruct (Ht _ Hc) as [[[_ Hd]|[n Hd]] Hf]; [lia|]. by apply (Hf n).
Qed.

(** All workers at their end: the channel is drained and nothing is in hand. *)
Lemma fed_drained :
  0 < oDeleteConcurrency o -> Forall ended ts ->
  exists t us listed e, ts = t :: us /\ code t = Ret (Dispatched listed e) /\
    listed = wCount w deleted + wCount w leaked + (if e then 1 else 0) /\ (wDone w = false -> e = false) /\
    (e = false -> listed = k /\ forall n, n ∈ ownedNames items -> n ∈ wLive w -> n ∈ wLost w).
Proof.
  intros Hw Hend. destruct fed_flow as ([H1 H2 _ _ Ho] & Hp). destruct fed_star as (_ & _ & Hlen). destruct fed_ends as [Hfuel Hfin].
  cbn [fst snd] in *. destruct Ho as (p & ws & Hls & Hprod & Hws & Hov). destruct ts as [|t us]; [done|].
  cbn [locals length] in *. injection Hls as Ht Hus.
  inversion Hend as [|? ? [r Hc] Hend']; inversion Hfin as [|? ? Hown Hrest]; inversion Hfuel as [|? ? Hnf Hnfs]; subst.
  destruct (Hown r Hc) as [Hd Hf].
  assert (Hover : Forall (fun l => lPhase l = Over) (locals us)).
  { apply (locals_all (fun t => ((exists r, code t = Ret r) /\ code t <> Ret OutOfFuel) /\
             (forall r, code t = Ret r -> dispatched k (k + 1) r (local t) /\ fed r w (local t)) /\
             (lRest (local t) = [] /\ lPhase (local t) <> Feeding /\ lPhase (local t) <> Fed))).
    - intros u (([ru Hru] & Hnu) & Hu & _ & _ & Hnfed). destruct (Hu _ Hru) as [Hdu _]. destruct ru; cbn in Hdu; try done.
      by destruct Hdu as [? _].
    - apply pool_both; [by apply pool_both|]. apply pool_both; [done|]. by apply locals_back in Hws. }
  destruct r as [| | |listed e]; cbn in Hd, Hf.
  - rewrite Hd in Hprod. by destruct Hprod as [[]|[]].
  - done.
  - done.
  - destruct Hd as (Hfed & Hk & Hempty). exists t, us, listed, e.
    assert (Hnil : wWork w = []).
    { apply Hov. destruct (locals us) as [|u0 l0]; [cbn in Hlen; lia|]. inversion Hover; subst. by apply Exists_cons_hd. }
    assert (Hhand : sum_over in_hand (local t :: locals us) = 0).
    { rewrite sum_over_cons, rest_zero; [|by repeat constructor|eapply Forall_impl; [exact Hover|by left]]. unfold in_hand. by rewrite Hfed. }
    assert (Hbud : sum_over lBudget (locals us) = 0).
    { clear -Hws. induction Hws as [|l ls [Hl _] _ IH]; [done|]. rewrite sum_over_cons, IH. unfold lBudget. by rewrite Hl. }
    rewrite Hhand in H2. rewrite Hnil, sum_over_cons, Hbud in H1. cbn [length] in H1.
    split_and!; [done|done|destruct e; lia|intros Hdn; destruct e; [by rewrite Hf in Hdn|done]|].
    intros ->. split; [unfold lBudget in Hk; rewrite Hempty in Hk by done; cbn in Hk; lia|].
    intros n Hn Hlv. destruct (Hp n Hn Hlv) as [?|[Hx|Hx]]; [done| |]; cbn [fst snd] in Hx.
    { rewrite Hnil in Hx. by apply elem_of_nil in Hx. }
    exfalso. apply Exists_cons in Hx as [Hx|Hx]; [unfold on_it, held in Hx; rewrite Hempty, Hfed in Hx by done; by apply elem_of_nil in Hx|].
    apply Exists_exists in Hx as (l & Hl & Hx). rewrite Forall_forall in Hws, Hover. destruct (Hws l Hl) as [Hrl _].
    unfold on_it, held in Hx. rewrite Hrl, (Hover l Hl) in Hx. by apply elem_of_nil in Hx.
Qed.
End feeding.

End delete_phase.

(** The delete phase.  For any listing of the namespace, in every interleaving
    of the feeding loop and the workers, whatever the calls answer: only
    sandboxes with the generator's prefix are deleted, every one of them is handed to one
    worker, no loop runs out of its bounds; and once all have ended, [listed] =
    deleted + leaked (one more if the context ended the loop), and unless the
    context ended every listed sandbox of the generator is gone or reported as
    leaked. *)
Theorem delete_phase_empties (o : options) (items : list Sandbox) (w0 w : world) (ts : list thread) :
  0 < oDeleteConcurrency o -> new_phase w0 -> delete_reached o items w0 w ts ->
  Forall (fun n => HasPrefix n (oNamegen o +:+ "-") = true) (wDeletes w) /\
  wCount w deleted + wCount w leaked <= Z.of_nat (length (ownedNames o items)) /\
  Forall (fun t => code t <> Ret OutOfFuel) ts /\
  (Forall ended ts -> exists t us listed e, ts = t :: us /\ code t = Ret (Dispatched listed e) /\
     listed = wCount w deleted + wCount w leaked + (if e then 1 else 0) /\
     (wDone w = false -> e = false /\ listed = Z.of_nat (length (ownedNames o items)) /\
        forall sb, sb ∈ items -> owned o sb = true -> sbName sb ∈ wLive w -> sbName sb ∈ wLost w)).
Proof.
  intros Hw Hnew Hr. destruct (fed_flow o items w0 w ts Hnew Hr) as ([H1 H2 H3 _ _] & _).
  cbn [fst snd] in *. split_and!; [apply H3| |by apply (fed_ends o items w0 w ts Hnew Hr)|].
  - assert (0 <= sum_over lBudget (locals ts)) by (apply sum_nonneg; intros l; unfold lBudget; lia).
    assert (Hh := weights_nonneg in_hand (locals ts) ltac:(by repeat constructor)). lia.
  - intros Hend. destruct (fed_drained o items w0 w ts Hnew Hr Hw Hend) as (t & us & listed & e & -> & Hc & Hl & Hd & He).
    exists t, us, listed, e. split_and!; [done..|]. intros Hdn. specialize (Hd Hdn). destruct (He Hd) as [Hk Hgone].
    split_and!; [done|done|]. intros sb Hsb Ho. apply Hgone. apply list_elem_of_fmap. exists sb.
    split; [done|]. by apply list_elem_of_filter.
Qed.

(** ** Three sandboxes and one worker *)

Module SweepDemo.
Import LoadDemo.

(** Three sandboxes in the namespace, one of another owner. *)
Definition listing : list Sandbox := (fun n => newSandbox "ns" n "img") <$> ["lg-1"; "old"; "lg-2"].
Definition world1 : world := mkWorld (fun _ => 0) [] {["lg-1"; "old"; "lg-2"]} ∅ 0 false [] false [].

Definition swept : world * list thread :=
  play (respond 0 false) [(0, 2); (1, 30); (0, 10); (1, 100)]%nat world1 (deletePool two' listing).

Lemma delete_phase_empties_witness :
  wLive swept.1 = {["old"]} /\ wDeletes swept.1 = ["lg-1"; "lg-1"; "lg-2"; "lg-2"] /\
  forall sb, sb ∈ listing -> owned two' sb = true -> sbName sb ∈ wLive swept.1 -> sbName sb ∈ wLost swept.1.
Proof.
  split; [vm_compute; reflexivity|]. split; [vm_compute; reflexivity|].
  destruct (delete_phase_empties two' listing world1 swept.1 swept.2) as (_ & _ & _ & Hend).
  - vm_compute; reflexivity.
  - done.
  - unfold delete_reached. rewrite <-surjective_pairing.
    apply (play_steps (answers 0 false) (dispatch two' 0 []) (fun _ => False)). intros X e s l x s' l'. apply load_respond_answers.
  - destruct Hend as (t & us & listed & e & _ & _ & _ & Hd); [|].
    + unfold ended. vm_compute. repeat constructor; eexists; reflexivity.
    + apply Hd. vm_compute; reflexivity.
Defined.
End SweepDemo.

End LoadDelete.
