(* ===== verification/LoadCycles.v ===== *)
(** * LoadCycles: the soak cycle of the load generator.

    The loop of [runCycles] over whole phases: a batch of creates is answered by
    any finished interleaving of the workers of [createBatch], the release of a
    listing by any finished interleaving of those of [deleteAll] ([LoadFacts], [LoadDelete]).
    Shown: a cycle sends exactly [--target] creates, and the generator's live
    sandboxes stay bounded by it, by the listings that failed and by what a
    listing left out (the read view lags behind the creates). *)

From S2P Require Import Prelude GoStrings K8s PoolKey Types Interleave LoadGen LoadFacts LoadDelete.

Module LoadCycles.
Import LoadGen LoadFacts LoadDelete.
#[local] Open Scope prog_scope.

(** The sandboxes with the generator's prefix that live and are not reported as
    lost. *)
Definition mine (o : options) (w : world) : gset string :=
  filter (fun n => HasPrefix n (oNamegen o +:+ "-") = true) (wLive w ∖ wLost w).

(** ** What a phase does to the cluster *)

Definition unlost (w : world) : gset string := wLive w ∖ wLost w.

Lemma lstep_rely limit keep o md c c' : lstep (answers limit keep) (may o md) c c' -> rely c.1 c'.1.
Proof. intros [w ls i X e l x w' l' _ _ Ha]. exact (answers_rely _ _ _ _ _ _ _ _ _ Ha). Qed.

Lemma lstep_grows o limit c c' :
  lstep (answers limit false) (may o Batch) c c' ->
  exists new, wSent c'.1 = wSent c.1 ++ new /\ unlost c'.1 ⊆ unlost c.1 ∪ list_to_set new.
Proof.
  intros [w ls i X e l x w' l' _ Hm Ha]. apply (answers_move o limit Batch false) in Ha; [|done|done]. cbn [fst snd].
  unfold unlost.
  destruct Ha as [p live Hlive Hc|Hc|slot Hb Hc|k Hc|k live lost ? ? Hc|m Hc|Hc|m Hc|m Hc|? Hc|Hc];
    injection Hc as _ Hsent Hlv Hls; rewrite Hsent, Hlv, Hls.
  all: try (exists []; rewrite app_nil_r; split; [done|]; cbn; set_solver).
  all: eexists; split; [reflexivity|]; cbn; set_solver.
Qed.

Lemma batch_grows o n w0 w ts :
  0 < oConcurrency o -> new_run w0 -> batch_reached o n w0 w ts ->
  unlost w ⊆ unlost w0 ∪ list_to_set (wSent w) /\ rely w0 w.
Proof.
  intros Hc [Hs _] Hr. pose proof (fun l => batchWorker_obeys (roundsFor n) o n l) as Hob.
  destruct (reached_phases o n (oConcurrency o) Batch false _ Hc Hob w0 w ts Hr) as (_ & Hstar & _).
  apply (star_inv _ (fun c => unlost c.1 ⊆ unlost w0 ∪ list_to_set (wSent c.1) /\ rely w0 c.1)) in Hstar; [done| |].
  - intros c c' [Hg Hy] Hstep. split; [|etrans; [exact Hy|by eapply lstep_rely]].
    destruct (lstep_grows _ _ _ _ Hstep) as (new & -> & Hsub). rewrite list_to_set_app_L. set_solver.
  - cbn [fst]. rewrite Hs. split; [set_solver|done].
Qed.

Lemma lstep_shrinks o k c c' :
  lstep (answers 0 false) (may o Release) c c' -> flow o k c -> wLive c'.1 ⊆ wLive c.1 /\ wLost c.1 ⊆ wLost c'.1.
Proof.
  intros [w ls i X e [ph tk rs] x w' l' Hi Hm (now & en & _ & _ & He & ->)] [_ _ _ H4 _]. cbn [fst snd] in *.
  assert (Hl := proj1 (Forall_lookup _ _) H4 i _ Hi).
  destruct e as [|d| |c0|m v|sb|addr id tok|sb|sb| |]; cbn [effect after may lPhase] in *.
  6: { destruct Hm as (k' & Hm & _). unfold ready in Hm. rewrite bool_decide_false in Hm by done. subst ph. by destruct Hl. }
  5: { destruct m; try (by subst w'). destruct Hm as [n ->]. subst w'. cbn. set_solver. }
  6: { destruct x; [destruct He as [->| ->]|subst w']; cbn; set_solver. }
  8: { destruct x; [destruct He as (rest & _ & ->)|destruct He as (_ & _ & ->)]; done. }
  all: repeat match goal with H : _ /\ _ |- _ => destruct H end; by subst w'.
Qed.

Lemma release_shrinks o items w0 w ts :
  new_phase w0 -> delete_reached o items w0 w ts -> wLive w ⊆ wLive w0 /\ wLost w0 ⊆ wLost w /\ rely w0 w.
Proof.
  intros Hnew Hr. destruct (fed_star o items w0 w ts Hr) as (_ & H2 & _). destruct (deletePool_flow o items w0 Hnew) as [Hf0 _].
  apply (star_inv _ (fun c => flow o (Z.of_nat (length (ownedNames o items))) c /\
                              wLive c.1 ⊆ wLive w0 /\ wLost w0 ⊆ wLost c.1 /\ rely w0 c.1)) in H2.
  - by destruct H2.
  - intros c c' (Hf & H1 & H3 & Hy) Hs. destruct (lstep_shrinks _ _ _ _ Hs Hf). split_and!.
    + by eapply flow_step.
    + set_solver.
    + set_solver.
    + etrans; [exact Hy|by eapply lstep_rely].
  - done.
Qed.

(** ** The cycle over its phases *)

(** [yIssued]: creates sent in this cycle; [yMissed]: listings that failed;
    [yUnseen]: the most sandboxes of its own that one listing left out. *)
Record cyc := mkCyc { yWorld : world; yIssued : Z; yMissed : Z; yUnseen : Z }.

Definition set_world (w : world) (l : cyc) : cyc := mkCyc w (yIssued l) (yMissed l) (yUnseen l).

(** The counters and the channel of a phase are variables of its function; the
    sequence of names is the cycle's. *)
Definition fresh (w : world) : world :=
  mkWorld (fun c => if decide (c = seq) then wCount w seq else 0) [] (wLive w) (wLost w) (wNow w) (wDone w) [] false [].

Lemma fresh_run w : new_run (fresh w).
Proof. split; [done|]. intros c Hc. cbn. by rewrite decide_False. Qed.

Lemma fresh_phase w : new_phase (fresh w).
Proof. done. Qed.

Section cycles.
Context (o : options).

(** The live sandboxes of the generator that a listing does not name. *)
Definition unseen (items : list Sandbox) (w : world) : gset string :=
  filter (fun n => n ∉ sbName <$> items) (mine o w).

(** A listing names what it names: the read view may lag, so nothing is assumed of
    it; what it leaves out is counted. *)
Definition cyc_answers (X : Type) (e : CycleE X) (_ : unit) (l : cyc) (x : X) (_ : unit) (l' : cyc) : Prop :=
  let w := yWorld l in
  match e in CycleE X return X -> Prop with
  | YCtxErr => fun x => exists now ended, wNow w <= now /\ (wDone w = true -> ended = true) /\
                          x = ended /\ l' = set_world (passed now ended w) l
  | YPhase _ => fun _ => l' = l
  | YPause _ => fun _ => exists now ended, wNow w <= now /\ (wDone w = true -> ended = true) /\
                           l' = set_world (passed now ended w) l
  | YBatch n => fun x => exists w1 ts, batch_reached o n (fresh w) w1 ts /\ Forall ended ts /\
                           x = min64 (wCount w1 issued) n /\ l' = mkCyc w1 (yIssued l + x) (yMissed l) (yUnseen l)
  | YList => fun x =>
      match x with
      | Ok items => l' = mkCyc w (yIssued l) (yMissed l) (yUnseen l `max` Z.of_nat (size (unseen items w)))
      | Err _ => l' = mkCyc w (yIssued l) (yMissed l + 1) (yUnseen l)
      end
  | YRelease items => fun x => exists w1 t us e, delete_reached o items (fresh w) w1 (t :: us) /\ Forall ended (t :: us) /\
                                 code t = Ret (Dispatched x.1.1 e) /\ x.1.2 = wCount w1 deleted /\ x.2 = wCount w1 leaked /\
                                 l' = set_world w1 l
  | YCycle => fun _ => l' = mkCyc w 0 (yMissed l) (yUnseen l)
  end x.

Lemma mine_batch n w w1 ts :
  0 < oConcurrency o -> batch_reached o n (fresh w) w1 ts ->
  Z.of_nat (size (mine o w1)) <= Z.of_nat (size (mine o w)) + Z.of_nat (length (wSent w1)) /\
  (wDone w = true -> wDone w1 = true).
Proof.
  intros Hc Hr. destruct (batch_grows o n _ w1 ts Hc (fresh_run w) Hr) as [Hg Hy].
  assert (Hsub : mine o w1 ⊆ mine o w ∪ list_to_set (wSent w1)).
  { intros m [Hp Hm]%elem_of_filter. apply Hg, elem_of_union in Hm as [Hm|Hm]; [|set_solver].
    apply elem_of_union_l, elem_of_filter. by split. }
  split; [|apply Hy]. apply subseteq_size in Hsub. rewrite size_union_alt in Hsub.
  assert (Hd : (size (list_to_set (wSent w1) ∖ mine o w : gset string) <= size (list_to_set (C := gset string) (wSent w1)))%nat)
    by (apply subseteq_size; set_solver).
  assert (Hs := size_list_set (wSent w1)). lia.
Qed.

Lemma mine_release items w w1 ts :
  delete_reached o items (fresh w) w1 ts -> (size (mine o w1) <= size (mine o w))%nat /\ (wDone w = true -> wDone w1 = true).
Proof.
  intros Hr. destruct (release_shrinks o items _ w1 ts (fresh_phase w) Hr) as (Hl & Hd & Hy). split; [|apply Hy].
  apply subseteq_size. intros m [Hp Hm]%elem_of_filter. apply elem_of_filter. split; [done|].
  cbn [fresh wLive wLost] in *. set_solver.
Qed.

Lemma mine_swept items w w1 ts :
  0 < oDeleteConcurrency o -> delete_reached o items (fresh w) w1 ts -> Forall ended ts -> wDone w1 = false ->
  (size (mine o w1) <= size (unseen items w))%nat.
Proof.
  intros Hc Hr Hend Hd.
  destruct (fed_drained o items _ w1 ts (fresh_phase w) Hr Hc Hend) as (t & us & listed & e & _ & _ & _ & He & Hgone).
  destruct (Hgone (He Hd)) as [_ Hlost]. destruct (release_shrinks o items _ w1 ts (fresh_phase w) Hr) as (Hl & Hls & _).
  apply subseteq_size. intros m [Hp Hm]%elem_of_filter. apply elem_of_difference in Hm as [Hlv Hno].
  apply elem_of_filter. split.
  - intros (sb & -> & Hsb)%list_elem_of_fmap. apply Hno, Hlost; [|done]. apply list_elem_of_fmap. exists sb.
    split; [done|]. by apply list_elem_of_filter.
  - apply elem_of_filter. cbn [fresh wLive wLost] in *. split; [done|set_solver].
Qed.

(** ** The bound *)

Context (own0 : Z).

Definition mine_size (w : world) : Z := Z.of_nat (size (mine o w)).

Record within (l : cyc) : Prop := {
  within_issued : 0 <= yIssued l <= oTarget o;
  within_missed : 0 <= yMissed l /\ 0 <= yUnseen l;
  within_cap : mine_size (yWorld l) <= own0 + oTarget o * (yMissed l + 1) + yUnseen l;
  within_now : wDone (yWorld l) = false ->
    mine_size (yWorld l) <= own0 + yIssued l + oTarget o * yMissed l + yUnseen l
}.

Definition cyc_may (X : Type) (e : CycleE X) (l : cyc) : Prop :=
  within l /\
  match e with
  | YBatch n => wDone (yWorld l) = false /\ 0 < n <= oWaveSize o /\ yIssued l + n <= oTarget o
  | YList => yIssued l = oTarget o
  | _ => True
  end.

Abbreviation cyc_obeys := (Interleave.obeys cyc_answers cyc_may).

Context (Hown : 0 <= own0) (Hconc : 0 < oConcurrency o) (Hwave : 0 < oWaveSize o) (Htarget : 0 < oTarget o)
  (Hdel : 0 < oDeleteConcurrency o).

Lemma within_passed l now ended :
  within l -> (wDone (yWorld l) = true -> ended = true) -> within (set_world (passed now ended (yWorld l)) l).
Proof.
  intros [H1 H2 H3 H4] Hd. split; [done|done|done|]. cbn [yWorld set_world wDone passed yIssued yMissed yUnseen]. intros ->.
  apply H4. by destruct (wDone (yWorld l)); [discriminate Hd|].
Qed.

Lemma within_batch n l w1 ts :
  within l -> wDone (yWorld l) = false -> 0 < n -> yIssued l + n <= oTarget o ->
  batch_reached o n (fresh (yWorld l)) w1 ts -> Forall ended ts ->
  let x := min64 (wCount w1 issued) n in
  within (mkCyc w1 (yIssued l + x) (yMissed l) (yUnseen l)) /\ x <= n /\ (wDone w1 = false -> x = n).
Proof.
  intros [H1 H2 H3 H4] Hd Hn Hle Hr Hend. specialize (H4 Hd).
  destruct (batch_exact o n _ w1 ts Hconc ltac:(lia) (fresh_run _) Hr) as (Hlen & _ & _ & Hset).
  destruct (Hset Hend) as (Hx & _ & _ & Hfull). destruct (mine_batch n _ w1 ts Hconc Hr) as [Hm _].
  cbn zeta. unfold mine_size in *. set (x := min64 (wCount w1 issued) n) in *. clearbody x.
  split_and!; [split; cbn [yWorld yIssued yMissed yUnseen]|lia|done]; unfold mine_size; try lia.
Qed.

(** The calls without an effect on the sandboxes. *)
Lemma phase_obeys {A} (fin : A -> cyc -> Prop) v (p : prog CycleE A) l :
  within l -> cyc_obeys fin p l -> cyc_obeys fin (call (YPhase v);;; p) l.
Proof. intros Hl Hp. split; [done|]. intros [] [] [] l' Ha. cbn [cyc_answers] in Ha. by subst l'. Qed.

Lemma ctx_obeys {A} (fin : A -> cyc -> Prop) (k : bool -> prog CycleE A) l :
  within l ->
  (forall now ended, (wDone (yWorld l) = true -> ended = true) ->
     let l' := set_world (passed now ended (yWorld l)) l in within l' -> cyc_obeys fin (k ended) l') ->
  cyc_obeys fin (bind (call YCtxErr) k) l.
Proof.
  intros Hl Hk. split; [done|]. intros [] x [] l' (now & en & _ & Hen & -> & ->). apply Hk; [done|]. by apply within_passed.
Qed.

Lemma not_ended (b : bool) : (b = true -> false = true) -> b = false.
Proof. destruct b; [intros H; by discriminate H|done]. Qed.

(** The create phase ends, with exactly the target issued unless the context
    ended. *)
Lemma createWaves_obeys fuel l :
  within l -> oTarget o - yIssued l < Z.of_nat fuel ->
  cyc_obeys (fun ok l' => ok = true /\ within l' /\ (wDone (yWorld l') = false -> yIssued l' = oTarget o))
    (createWaves fuel o (yIssued l)) l.
Proof.
  revert l. induction fuel as [|fuel IH]; intros l Hl Hf; cbn [createWaves].
  { destruct Hl as [H1 _ _ _]. lia. }
  assert (H1 := within_issued l Hl). case_bool_decide as Hlt; cbn [negb].
  2: { split_and!; [done|done|]. intros _. lia. }
  apply ctx_obeys; [done|]. intros now [] Hen l1 Hl1; [by split_and!|].
  assert (Hd1 : wDone (yWorld l1) = false) by done. change (yIssued l) with (yIssued l1) in *. clearbody l1.
  cbn zeta. set (n := if bool_decide _ then _ else _). assert (Hn : 0 < n <= oWaveSize o /\ yIssued l1 + n <= oTarget o)
    by (unfold n; case_bool_decide; lia). clearbody n. destruct Hn as [Hn Hle]. apply phase_obeys; [done|].
  split; [done|]. intros [] x [] l2 (w1 & ts & Hr & Hend & Hx & ->).
  destruct (within_batch n l1 w1 ts Hl1 Hd1 ltac:(lia) Hle Hr Hend) as (Hl2 & Hxn & Hfull). rewrite <-Hx in *.
  assert (H2 := within_issued _ Hl2). cbn [yIssued bind] in *.
  case_bool_decide as Hge. { split_and!; [done|done|]. cbn [yIssued yWorld]. lia. }
  apply ctx_obeys; [done|]. intros now3 [] Hen3 l3 Hl3; [by split_and!|]. specialize (Hfull (not_ended _ Hen3)).
  apply phase_obeys; [done|]. split; [done|]. intros [] y [] l5 (now5 & en5 & _ & Hen5 & ->).
  change (yIssued l1 + x) with (yIssued (set_world (passed now5 en5 (yWorld l3)) l3)). apply IH; [by apply within_passed|].
  cbn. lia.
Qed.

Lemma deleteAll_obeys l :
  within l -> yIssued l = oTarget o ->
  cyc_obeys (fun _ l' => within l' /\ within (mkCyc (yWorld l') 0 (yMissed l') (yUnseen l'))) deleteAll l.
Proof.
  intros Hl Hi. pose proof Hl as [H1 H2 H3 H4]. unfold deleteAll. cbn [bind call Interleave.obeys]. split; [done|].
  intros [] [items|err] [] l1; cbn [cyc_answers].
  - intros ->. set (l1 := mkCyc _ _ _ _). assert (within l1) as Hl1.
    { split; unfold l1, mine_size in *; cbn [yIssued yMissed yUnseen yWorld]; [lia|lia|lia|]. intros Hx. specialize (H4 Hx). lia. }
    cbn [call Interleave.obeys]. split; [done|].
    intros [] x [] l2 (w1 & t & us & e & Hr & Hend & _ & _ & _ & ->). unfold l1 in *. clear l1 Hl1.
    cbn [yIssued yMissed yUnseen yWorld set_world] in *.
    destruct (mine_release items _ w1 _ Hr) as [Hm Hd]. assert (Hz := mine_swept items _ w1 _ Hdel Hr Hend).
    split; (split; cbn [yIssued yMissed yUnseen yWorld set_world]; unfold mine_size in *; [lia|lia|lia|]); intros Hx; specialize (Hz Hx); nia.
  - intros ->. cbn [Interleave.obeys].
    split; (split; cbn [yIssued yMissed yUnseen yWorld]; [lia|lia|nia|]); intros Hx; specialize (H4 Hx); nia.
Qed.

Lemma runCycles_obeys cycles l :
  within l -> yIssued l = 0 -> cyc_obeys (fun r l' => within l' /\ r <> Starved) (runCycles cycles o) l.
Proof.
  revert l. induction cycles as [|cycles IH]; intros l Hl Hi; cbn [runCycles]; [done|].
  assert (Hstop : forall l', within l' -> cyc_obeys (fun r l' => within l' /\ r <> Starved) (call (YPhase 0);;; Ret Stopped) l')
    by (intros l' Hl'; by apply phase_obeys).
  apply ctx_obeys; [done|]. intros now [] Hen l1 Hl1; [by apply Hstop|].
  rewrite <-Hi. change (yIssued l) with (yIssued l1). eapply obeys_bind; [apply createWaves_obeys; [done|]|].
  { cbn. unfold wavesFor. lia. }
  intros ok l2 (-> & Hl2 & Hfull). cbn [negb]. apply ctx_obeys; [done|]. intros now3 [] Hen3 l3 Hl3; [by apply Hstop|].
  apply phase_obeys; [done|].
  eapply obeys_bind; [apply deleteAll_obeys; [done|exact (Hfull (not_ended _ Hen3))]|].
  intros _ l5 [Hl5 Hl6]. split; [done|]. intros [] [] [] l6 Ha. cbn [cyc_answers] in Ha. subst l6.
  destruct (oLoop o); cbn [negb]; [by apply IH|by apply Hstop].
Qed.
End cycles.

(** The cycle loop so far, after any sequence of answers. *)
Definition cycles_reached (o : options) (cycles : nat) (w0 : world) (t : thread) : Prop :=
  steps (cyc_answers o) (runCycles cycles o) (fun _ => False)
    (tt, [mkThread (runCycles cycles o) (mkCyc w0 0 0 0)]) (tt, [t]).

(** The cluster between two calls of the loop, or at any moment of a phase. *)
Definition moment (o : options) (t : @thread CycleE cyc outcome) (w : world) : Prop :=
  let w1 := yWorld (local t) in
  w = w1 \/ (exists n k ts, code t = Vis (YBatch n) k /\ batch_reached o n (fresh w1) w ts) \/
  (exists items k ts, code t = Vis (YRelease items) k /\ delete_reached o items (fresh w1) w ts).

(** C28.  The soak cycle.  With options the gate lets through, for any number of
    cycles, at every moment (also in the middle of a phase): the generator's live
    sandboxes are at most [--target] more than it found at the start, plus
    [--target] for every listing that failed, plus the most a single listing left
    out (a listing may lag behind the creates; what it does not name is not
    released).  Not counted are the sandboxes the run reports as leaked and those
    created by a call that failed all the same.  A cycle never issues more than
    [--target] creates, and exactly that many when it reaches its delete phase;
    every wave has between 1 and [--wave-size] creates; the create phase ends. *)
Theorem cycles_bounded (o0 o : options) (cycles : nat) (w0 w : world) (t : thread) :
  checkOptions o0 = Ok o -> 0 < oWaveSize o0 -> cycles_reached o cycles w0 t -> moment o t w ->
  Z.of_nat (size (mine o w)) <= Z.of_nat (size (mine o w0)) + oTarget o * (yMissed (local t) + 1) +
    yUnseen (local t) /\
  0 <= yIssued (local t) <= oTarget o /\
  (forall k, code t = Vis YList k -> yIssued (local t) = oTarget o) /\
  (forall n k, code t = Vis (YBatch n) k -> 0 < n <= oWaveSize o) /\
  code t <> Ret Starved.
Proof.
  intros Hgate Hw Hr Hmom.
  assert (0 < oConcurrency o /\ 0 < oWaveSize o /\ 0 < oTarget o /\ 0 < oDeleteConcurrency o) as (Hc & Hws & Ht & Hd).
  { unfold checkOptions in Hgate. repeat case_bool_decide; simplify_eq; cbn; lia. }
  set (own0 := Z.of_nat (size (mine o w0))).
  destruct (protocol_sound _ (cyc_may o own0) (fun r l => within o own0 l /\ r <> Starved) _ _ _ Hr) as (Hob & _ & _).
  { constructor; [|constructor]. apply runCycles_obeys; try done; [lia|]. split; cbn; unfold mine_size; lia. }
  unfold all_obey in Hob. cbn [snd] in Hob. inversion Hob as [|? ? Hown _]; subst. clear Hob Hr.
  assert (Hin : within o own0 (local t)) by (destruct (code t); apply Hown).
  pose proof Hin as [H1 H2 H3 H4]. unfold mine_size in *. split_and!; [|lia|lia|..].
  - destruct Hmom as [->|[(n & k & ts & Hcode & Hb)|(items & k & ts & Hcode & Hb)]]; [lia| |].
    + rewrite Hcode in Hown. destruct Hown as [[_ (Hnd & Hn & Hle)] _]. specialize (H4 Hnd).
      destruct (mine_batch o n _ w ts Hc Hb) as [Hm _].
      destruct (batch_exact o n _ w ts Hc ltac:(lia) (fresh_run _) Hb) as (Hlen & _). lia.
    + destruct (mine_release o items _ w ts Hb) as [Hm _]. lia.
  - intros k Hcode. rewrite Hcode in Hown. by destruct Hown as [[_ ?] _].
  - intros n k Hcode. rewrite Hcode in Hown. by destruct Hown as [[_ (_ & ? & _)] _].
  - intros Hcode. rewrite Hcode in Hown. by destruct Hown.
Qed.

(** ** Two cycles of one sandbox *)

Module CycleDemo.

Definition soak : options := mkOptions "ns" "img" "lg" 1 0 0 true (10 * time_second) 1 0 1 1 true.
Definition soak' : options := set_cleanup false soak.

Definition is_ret {E L R} (t : @thread E L R) : bool := match code t with Ret _ => true | _ => false end.

Lemma ended_by (ts : list (@thread LoadE local_state exit)) : forallb is_ret ts = true -> Forall ended ts.
Proof.
  induction ts as [|t ts IH]; cbn; [constructor|]. intros [Ht Hts]%andb_prop. constructor; [|by apply IH].
  unfold is_ret in Ht. unfold ended. destruct (code t); [by eexists|done].
Qed.

Definition batch_run (n : Z) (w : world) : world * list thread :=
  play (LoadDemo.respond n false) [(0, 1000)]%nat (fresh w) (crew 1 (mkThread (batchWorker (roundsFor n) soak' n) idle)).

Definition release_run (items : list Sandbox) (w : world) : world * list thread :=
  play (LoadDemo.respond 0 false) [(0, 1000); (1, 1000)]%nat (fresh w) (deletePool soak' items).

(** A cluster whose listings name everything, name nothing yet, or fail. *)
Inductive listing := Current | Lagging | Failing.

Definition cyc_respond (lists : listing) (X : Type) (e : CycleE X) (_ : unit) (l : cyc) : option (X * unit * cyc) :=
  let w := yWorld l in
  match e in CycleE X return option (X * unit * cyc) with
  | YCtxErr => Some (wDone w, tt, set_world (passed (wNow w) (wDone w) w) l)
  | YPhase _ => Some (tt, tt, l)
  | YPause _ => Some (tt, tt, set_world (passed (wNow w) (wDone w) w) l)
  | YBatch n =>
      let '(w1, ts) := batch_run n w in
      if forallb is_ret ts
      then let x := min64 (wCount w1 issued) n in Some (x, tt, mkCyc w1 (yIssued l + x) (yMissed l) (yUnseen l)) else None
  | YList =>
      let listed items := Some (Ok items, tt, mkCyc w (yIssued l) (yMissed l)
                            (yUnseen l `max` Z.of_nat (size (unseen soak' items w)))) in
      match lists with
      | Current => listed ((fun n => newSandbox "ns" n "img") <$> elements (wLive w))
      | Lagging => listed []
      | Failing => Some (Err (Errorf "unavailable"), tt, mkCyc w (yIssued l) (yMissed l + 1) (yUnseen l))
      end
  | YRelease items =>
      let '(w1, ts) := release_run items w in
      match ts with
      | {| code := Ret (Dispatched listed e) |} :: us =>
          if forallb is_ret us then Some ((listed, wCount w1 deleted, wCount w1 leaked), tt, set_world w1 l) else None
      | _ => None
      end
  | YCycle => Some (tt, tt, mkCyc w 0 (yMissed l) (yUnseen l))
  end.

Lemma cyc_respond_answers lists X e s l x s' l' :
  cyc_respond lists X e s l = Some (x, s', l') -> cyc_answers soak' X e s l x s' l'.
Proof.
  destruct e as [| |n| | |items|]; cbn [cyc_respond cyc_answers].
  - intros [= <- _ <-]. by exists (wNow (yWorld l)), (wDone (yWorld l)).
  - by intros [= _ _ <-].
  - destruct (batch_run n (yWorld l)) as [w1 ts] eqn:Eb. destruct (forallb is_ret ts) eqn:Er; [|done].
    intros [= <- _ <-]. exists w1, ts. split_and!; [|by apply ended_by|done|done].
    unfold batch_reached, reached. rewrite <-Eb.
    apply (play_steps (answers n false) _ (fun _ => False)). intros. by apply LoadDemo.load_respond_answers.
  - intros [= _ _ <-]. by exists (wNow (yWorld l)), (wDone (yWorld l)).
  - by destruct lists; intros [= <- _ <-].
  - destruct (release_run items (yWorld l)) as [w1 [|[[[| | |listed e]|] lt] us]] eqn:Eb; try done.
    destruct (forallb is_ret us) eqn:Er; [|done]. intros [= <- _ <-]. exists w1, (mkThread (Ret (Dispatched listed e)) lt), us, e.
    split_and!; [|constructor; [by eexists|by apply ended_by]|done..].
    unfold delete_reached. rewrite <-Eb.
    apply (play_steps (answers 0 false) _ (fun _ => False)). intros. by apply LoadDemo.load_respond_answers.
  - by intros [= _ _ <-].
Qed.

Definition empty : world := mkWorld (fun _ => 0) [] ∅ ∅ 0 false [] false [].

Definition after_calls (lists : listing) (calls : nat) : @thread CycleE cyc outcome :=
  let '(p, _, l) := advance (cyc_respond lists) calls (runCycles 2 soak') tt (mkCyc empty 0 0 0) in mkThread p l.

Lemma after_reached lists calls : cycles_reached soak' 2 empty (after_calls lists calls).
Proof.
  unfold cycles_reached, after_calls.
  destruct (advance (cyc_respond lists) calls (runCycles 2 soak') tt (mkCyc empty 0 0 0)) as [[p []] l] eqn:Ea.
  exact (advance_steps (cyc_answers soak') (runCycles 2 soak') (fun _ => False) (cyc_respond lists)
           (cyc_respond_answers lists) _ _ _ _ [mkThread _ _] 0 _ _ _ eq_refl Ea).
Qed.

(** The second cycle, its sandbox created: the first one's is gone. *)
Lemma cycles_bounded_witness :
  yIssued (local (after_calls Current 14)) = 1 /\ mine soak' (yWorld (local (after_calls Current 14))) = {["lg-2"]} /\
  Z.of_nat (size (mine soak' (yWorld (local (after_calls Current 14))))) <= 0 + 1 * (0 + 1) + 0.
Proof.
  split; [vm_compute; reflexivity|]. split; [vm_compute; reflexivity|].
  destruct (cycles_bounded soak soak' 2 empty (yWorld (local (after_calls Current 14))) (after_calls Current 14)) as (H & _).
  - vm_compute; reflexivity.
  - vm_compute; reflexivity.
  - apply after_reached.
  - by left.
  - etrans; [exact H|]. vm_compute. discriminate.
Defined.

(** A listing that fails is not retried and does not stop the loop: the next cycle
    issues its creates on top of what is left. *)
Lemma failed_listing_exceeds_target :
  let t := after_calls Failing 14 in
  cycles_reached soak' 2 empty t /\ yMissed (local t) = 1 /\ oTarget soak' = 1 /\
  mine soak' (yWorld (local t)) = {["lg-1"; "lg-2"]}.
Proof. split; [apply after_reached|]. vm_compute. by split_and!. Qed.

(** Nor does a listing that succeeds but has not caught up with the creates. *)
Lemma lagging_listing_exceeds_target :
  let t := after_calls Lagging 15 in
  cycles_reached soak' 2 empty t /\ yMissed (local t) = 0 /\ yUnseen (local t) = 1 /\ oTarget soak' = 1 /\
  mine soak' (yWorld (local t)) = {["lg-1"; "lg-2"]}.
Proof. split; [apply after_reached|]. vm_compute. by split_and!. Qed.
End CycleDemo.

End LoadCycles.
