(* ===== verification/ClaimLoad.v ===== *)
(** * ClaimLoad: the load generator that claims warm sandboxes.

    Models [cmd/sandbox-loadgen/main.go]: the setup of its template and pool, the
    wait for a warm pool, and the workers that claim, poll and release.  The
    workers run in every interleaving over one shared counter ([Interleave]), with
    calls failing, time passing and the context ending at any moment.

    Flag parsing, the metrics server, the gauge of the pool and log lines are left
    out; the format of the timestamp is a parameter. *)

From S2P Require Import Prelude GoStrings K8s PoolKey Types Interleave LoadGen LoadFacts.

Module ClaimLoad.
#[local] Open Scope prog_scope.

Record options := mkOptions {
  oReplicas : Z; oNamespace : string; oImage : string; oCreatedBy : string;
  oConcurrency : Z; oTotal : Z; oClaimInterval : Z; oPoll : Z; oClaimTimeout : Z
}.

Definition runtimeAnnotation : string := "sandbox.cocoonstack.io/runtime".
Definition templateName : string := "loadgen-tpl".
Definition warmPoolName : string := "loadgen-pool".
Definition observedAtAnnotation : string := "agents.x-k8s.io/controller-first-observed-at".

Inductive metric :=
| claimSeconds (d : Z) | claimsTotal | boundTotal | claimFailed (reason : string) | inflight (d : Z).

(** [GTicker] starts the polling ticker, [GTick] is the [select] on it and
    [ctx.Done()], [GSleep] that on a timer; both answer true if the context
    ended.  [GPoolTick]: the [select] of the wait for the pool. *)
Inductive GenE : Type -> Type :=
| GCtxErr : GenE bool
| GNow : GenE Z
| GSleep (d : Z) : GenE bool
| GPoolTick : GenE bool
| GTicker : GenE unit
| GTick : GenE bool
| GIssue : GenE Z
| GServed : GenE unit
| GMetric (m : metric) : GenE unit
| GCreate (claim : SandboxClaim) : GenE (option gerror)
| GGet (ns name : string) : GenE (result SandboxClaim)
| GDelete (ns name : string) : GenE (option gerror)
| GCreateTemplate (t : SandboxTemplate) : GenE (option gerror)
| GCreatePool (p : SandboxWarmPool) : GenE (option gerror)
| GGetPool (ns name : string) : GenE (result SandboxWarmPool).

(** ** Setup *)

Definition metaFor (o : options) (name : string) (annotations : strmap) : ObjectMeta :=
  mkMeta name "" (oNamespace o) "" "" 0 0 None {[CreatedByLabel := oCreatedBy o]} annotations [].

Definition setupTemplate (o : options) : SandboxTemplate :=
  mkTemplate (metaFor o templateName ∅)
    (mkBlueprint
       (mkPodTemplate
          (mkPodSpec
             [mkContainer "main" (oImage o)
                (mkResources (Some (50 * (quantity_unit / 1000))) (Some (64 * (1024 * 1024 * quantity_unit))))
                (mkResources None None) [] []]
             [] [] "" ∅ [] None None None "" None "")
          (mkPodMetadata {["app" := "loadgen-warm"]} {[runtimeAnnotation := "sandboxd"]}))
       [] None)
    None "" "" "".

Definition setupPool (o : options) : SandboxWarmPool :=
  mkWarmPool (metaFor o warmPoolName ∅) (Some (oReplicas o)) templateName None 0 0 "".

(** An object that exists already is fine. *)
Definition ensured (msg : string) (e : option gerror) : option gerror :=
  match e with
  | Some err => if IsAlreadyExists err then None else Some (Wrap msg err)
  | None => None
  end.

Definition setup (o : options) : prog GenE (option gerror) :=
  e <- call (GCreateTemplate (setupTemplate o));;
  match ensured "create template" e with
  | Some err => Ret (Some err)
  | None => e <- call (GCreatePool (setupPool o));; Ret (ensured "create warmpool" e)
  end.

Definition poolReadyReplicas (o : options) : prog GenE Z :=
  r <- call (GGetPool (oNamespace o) warmPoolName);;
  Ret (match r with Ok pool => wpStatusReadyReplicas pool | Err _ => 0 end).

(** [Some true]: the pool is warm; [Some false]: the context ended; [None]: still
    waiting after [fuel] rounds. *)
Fixpoint waitPoolWarm (fuel : nat) (o : options) : prog GenE (option bool) :=
  match fuel with
  | O => Ret None
  | S fuel =>
      r <- poolReadyReplicas o;;
      if bool_decide (r >= 1) then Ret (Some true)
      else
        ended <- call GPoolTick;;
        if ended : bool then Ret (Some false) else waitPoolWarm fuel o
  end.

(** ** One claim *)

Definition isReady (conds : list Condition) : bool :=
  existsb (fun c => bool_decide (cType c = "Ready") && bool_decide (cStatus c = ConditionTrue)) conds.

Definition claimName (n : Z) : string := "loadgen-claim-" +:+ pretty n.

(** The polling loop of [claimOnce].  [Some true]: go on to the release;
    [Some false]: the context ended; [None]: out of fuel. *)
Fixpoint pollClaim (fuel : nat) (o : options) (name : string) (start deadline : Z) : prog GenE (option bool) :=
  match fuel with
  | O => Ret None
  | S fuel =>
      cur <- call (GGet (oNamespace o) name);;
      if match cur with Ok c => isReady (scConditions c) | Err _ => false end
      then
        now <- call GNow;;
        call (GMetric (claimSeconds (time_Sub now start)));;;
        call (GMetric boundTotal);;;
        Ret (Some true)
      else
        ended <- call GTick;;
        if ended : bool then Ret (Some false)
        else
          now <- call GNow;;
          (if bool_decide (deadline < now) then call (GMetric (claimFailed "timeout")) else Ret tt);;;
          now <- call GNow;;
          if bool_decide (deadline < now) then Ret (Some true) else pollClaim fuel o name start deadline
  end.

Section claims.
Context (formatTime : Z -> string).

Definition newClaim (o : options) (name : string) (now : Z) : SandboxClaim :=
  mkClaim (metaFor o name {[observedAtAnnotation := formatTime now]}) warmPoolName None (mkPodMetadata ∅ ∅) [] [] [] "" [].

(** False: out of fuel. *)
Definition claimOnce (fuel : nat) (o : options) (name : string) : prog GenE bool :=
  call (GMetric (inflight 1));;;
  now <- call GNow;;
  let claim := newClaim o name now in
  start <- call GNow;;
  err <- call (GCreate claim);;
  match err with
  | Some _ =>
      call (GMetric (claimFailed "create"));;;
      call (GMetric (inflight (-1)));;;
      Ret true
  | None =>
      call (GMetric claimsTotal);;;
      call GTicker;;;
      go <- pollClaim fuel o name start (time_Add start (oClaimTimeout o));;
      match go with
      | None => Ret false
      | Some false => call (GMetric (inflight (-1)));;; Ret true
      | Some true =>
          err <- call (GDelete (oNamespace o) name);;
          (match err with
           | Some e => if IsNotFound e then Ret tt else call (GMetric (claimFailed "delete"))
           | None => Ret tt
           end);;;
          call (GMetric (inflight (-1)));;;
          Ret true
      end
  end.

Inductive exit := Exhausted | Cancelled | OutOfFuel.

Definition past (o : options) (n : Z) : bool := bool_decide (oTotal o > 0) && bool_decide (n > oTotal o).

(** One goroutine of [claimLoop]; [rounds] bounds its iterations, [fuel] the polls
    of a claim. *)
Fixpoint claimWorker (rounds fuel : nat) (o : options) : prog GenE exit :=
  match rounds with
  | O => Ret OutOfFuel
  | S rounds =>
      ended <- call GCtxErr;;
      if ended : bool then Ret Cancelled
      else
        n <- call GIssue;;
        if past o n then Ret Exhausted
        else
          ok <- claimOnce fuel o (claimName n);;
          if negb ok then Ret OutOfFuel
          else
            call GServed;;;
            if bool_decide (oClaimInterval o > 0) then
              ended <- call (GSleep (oClaimInterval o));;
              if ended : bool then Ret Cancelled else claimWorker rounds fuel o
            else claimWorker rounds fuel o
  end.
End claims.

Definition workers (o : options) : Z := if bool_decide (oConcurrency o < 1) then 1 else oConcurrency o.

(** Enough polls: the ticker has passed the deadline by then. *)
Definition pollsFor (o : options) : nat := Z.to_nat (Z.max 0 (oClaimTimeout o) / oPoll o + 2).
Definition roundsFor (o : options) : nat := Z.to_nat (oTotal o + 1).

(** ** The cluster the workers run against *)

(** [gSent]: the names of the create calls; [gMade]: those that succeeded;
    [gAsked]: the names of the delete calls; [gDropped]: the claims a worker left
    behind when the context ended. *)
Record world := mkWorld {
  gIssued : Z; gServed : Z; gInflight : Z; gClaims : Z;
  gSent : list string; gMade : list string; gAsked : list string; gDropped : list string;
  gNow : Z; gDone : bool
}.

Definition passed (now : Z) (ended : bool) (w : world) : world :=
  mkWorld (gIssued w) (gServed w) (gInflight w) (gClaims w) (gSent w) (gMade w) (gAsked w) (gDropped w) now ended.
Definition counted (issued served inflight claims : Z) (w : world) : world :=
  mkWorld (gIssued w + issued) (gServed w + served) (gInflight w + inflight) (gClaims w + claims)
    (gSent w) (gMade w) (gAsked w) (gDropped w) (gNow w) (gDone w).
Definition noted (sent made asked dropped : list string) (w : world) : world :=
  mkWorld (gIssued w) (gServed w) (gInflight w) (gClaims w)
    (gSent w ++ sent) (gMade w ++ made) (gAsked w ++ asked) (gDropped w ++ dropped) (gNow w) (gDone w).

(** Where a worker stands between its calls. *)
Inductive phase :=
| Idle
| Slot (n : Z)      (* has a number *)
| Entered (n : Z)   (* in [claimOnce], nothing created *)
| Made (n : Z)      (* created, not counted *)
| Open (n : Z)      (* created and counted, to be released *)
| Left              (* released, failed or dropped *)
| Out               (* out of [claimOnce], not counted as served *)
| Over.             (* drew a number past the total *)

(** [lStart] and [lTicks]: when the ticker was started, ticks received since. *)
Record local_state := mkLocal { lPhase : phase; lStart : Z; lTicks : Z }.

Definition at_phase (p : phase) (l : local_state) : local_state := mkLocal p (lStart l) (lTicks l).

Section pool.
Context (o : options).

(** A ticker drops ticks its receiver is too slow for; the [k]-th tick received is
    due [k] periods after the start, or later. *)
Definition effect (before : Z) (w : world) (l : local_state) (X : Type) (e : GenE X) : X -> world -> Prop :=
  match e with
  | GCtxErr => fun x w' => x = gDone w /\ w' = w
  | GNow => fun x w' => x = gNow w /\ w' = w
  | GSleep d => fun x w' => w' = w /\ if x then gDone w = true else before + d <= gNow w
  | GPoolTick => fun x w' => w' = w /\ (x = true -> gDone w = true)
  | GTick => fun x w' =>
      if x then gDone w = true /\ w' = match lPhase l with Open n => noted [] [] [] [claimName n] w | _ => w end
      else w' = w /\ lStart l + (lTicks l + 1) * oPoll o <= gNow w
  | GIssue => fun x w' => x = gIssued w + 1 /\ w' = counted 1 0 0 0 w
  | GServed => fun _ w' => w' = counted 0 1 0 0 w
  | GMetric m => fun _ w' =>
      w' = match m with inflight d => counted 0 0 d 0 w | claimsTotal => counted 0 0 0 1 w | _ => w end
  | GCreate c => fun x w' =>
      w' = noted [mName (scMeta c)] (match x with None => [mName (scMeta c)] | Some _ => [] end) [] [] w
  | GDelete _ name => fun _ w' => w' = noted [] [] [name] [] w
  | _ => fun _ w' => w' = w
  end.

Definition after (now : Z) (X : Type) (e : GenE X) (l : local_state) : X -> local_state :=
  match e with
  | GIssue => fun x => at_phase (if past o x then Over else Slot x) l
  | GServed => fun _ => at_phase Idle l
  | GMetric m => fun _ =>
      match m, lPhase l with
      | inflight _, Slot n => at_phase (Entered n) l
      | inflight _, _ => at_phase Out l
      | claimsTotal, Made n => at_phase (Open n) l
      | _, _ => l
      end
  | GCreate _ => fun x => match lPhase l, x with
                          | Entered n, None => at_phase (Made n) l
                          | _, _ => at_phase Left l
                          end
  | GDelete _ _ => fun _ => at_phase Left l
  | GTicker => fun _ => mkLocal (lPhase l) now 0
  | GTick => fun x => if x then at_phase Left l else mkLocal (lPhase l) (lStart l) (lTicks l + 1)
  | _ => fun _ => l
  end.

Definition answers (X : Type) (e : GenE X) (w : world) (l : local_state) (x : X) (w' : world) (l' : local_state) : Prop :=
  exists now ended, gNow w <= now /\ (gDone w = true -> ended = true) /\
    effect (gNow w) (passed now ended w) l X e x w' /\ l' = after now X e l x.

(** The protocol of a worker. *)
Definition may (X : Type) (e : GenE X) (l : local_state) : Prop :=
  match e with
  | GIssue => lPhase l = Idle
  | GServed => lPhase l = Out
  | GMetric (inflight d) => d = 1 /\ (exists n, lPhase l = Slot n) \/ d = -1 /\ lPhase l = Left
  | GMetric claimsTotal => exists n, lPhase l = Made n
  | GCreate c => exists n, lPhase l = Entered n /\ mName (scMeta c) = claimName n
  | GDelete _ name => exists n, lPhase l = Open n /\ name = claimName n
  | GTick => exists n, lPhase l = Open n
  | GCreateTemplate _ | GCreatePool _ | GGetPool _ _ | GPoolTick => False
  | _ => True
  end.
End pool.

End ClaimLoad.
