(* ===== verification/ClaimLoadFacts.v ===== *)
(** * ClaimLoadFacts: what the claiming load generator guarantees.

    Its workers obey the protocol of their phases; on the phases alone it is shown
    that the shared counter hands out every number once, that a claim that was
    created is released once unless the context ends, and that the gauge of
    claims in flight is the number of workers inside [claimOnce].  With a bounded
    total the loops have enough fuel. *)

From S2P Require Import Prelude GoStrings K8s PoolKey Types Interleave LoadGen LoadFacts ClaimLoad.

Module ClaimLoadFacts.
Import ClaimLoad.
#[local] Open Scope prog_scope.

Section facts.
Context (formatTime : Z -> string) (o : options).

Abbreviation obeys := (Interleave.obeys (answers o) (may)).

Ltac obey :=
  cbn [bind call Interleave.obeys]; split;
  [|intros ?w ?x ?w' ?l' (?now & ?ended & ?Hnow & ?Hended & ?He & ->); cbn [after effect] in *].

(** ** The workers obey the protocol *)

Lemma pollClaim_obeys fuel n start deadline l :
  lPhase l = Open n ->
  obeys (fun r l' => lPhase l' = match r with Some false => Left | _ => Open n end)
    (pollClaim fuel o (claimName n) start deadline) l.
Proof.
  revert l. induction fuel as [|fuel IH]; intros l Hl; [done|]. cbn [pollClaim]. obey; [done|].
  match goal with |- Interleave.obeys _ _ _ (if ?b then _ else _) _ => destruct b end.
  { do 2 (obey; [done|]). by obey. }
  obey; [by exists n|]. match goal with |- Interleave.obeys _ _ _ (if ?b then _ else _) _ => destruct b end; [done|].
  obey; [done|]. case_bool_decide; cbn [bind].
  - do 2 (obey; [done|]). case_bool_decide; [done|]. by apply IH.
  - obey; [done|]. case_bool_decide; [done|]. by apply IH.
Qed.

Lemma claimOnce_obeys fuel n l :
  lPhase l = Slot n ->
  obeys (fun ok l' => ok = true -> lPhase l' = Out) (claimOnce formatTime fuel o (claimName n)) l.
Proof.
  intros Hl. unfold claimOnce. obey; [left; split; [done|by exists n]|]. rewrite Hl. do 2 (obey; [done|]).
  obey; [by exists n|]. destruct x2 as [err|]; cbn [lPhase at_phase].
  { obey; [done|]. cbn [lPhase at_phase]. obey; [by right|done]. }
  obey; [by exists n|]. cbn [lPhase at_phase]. obey; [done|]. cbn [lPhase at_phase].
  eapply obeys_bind; [by apply pollClaim_obeys|]. intros [[]|] l1 Hl1; [| |done].
  - obey; [by exists n|]. match goal with |- context [match ?x with Some _ => if IsNotFound _ then _ else _ | None => _ end] => destruct x as [e|]; [destruct (IsNotFound e)|] end; cbn [bind].
    1,3: by obey; [by right|]. obey; [done|]. cbn [lPhase at_phase]. by obey; [by right|].
  - obey; [by right|]. by rewrite Hl1.
Qed.

Definition finished (r : exit) (l : local_state) : Prop :=
  match r with Exhausted => lPhase l = Over | Cancelled => lPhase l = Idle | OutOfFuel => True end.

Lemma claimWorker_obeys rounds fuel l :
  lPhase l = Idle -> obeys finished (claimWorker formatTime rounds fuel o) l.
Proof.
  revert l. induction rounds as [|rounds IH]; intros l Hl; [done|]. cbn [claimWorker]. obey; [done|].
  destruct x; [done|]. obey; [done|]. destruct (past o x); [done|].
  eapply obeys_bind; [by apply claimOnce_obeys|]. intros [] l1 Hl1; cbn [negb]; [|done]. specialize (Hl1 eq_refl).
  obey; [done|]. case_bool_decide; [|by apply IH]. obey; [done|].
  match goal with |- Interleave.obeys _ _ _ (if ?b then _ else _) _ => destruct b end; [done|]. by apply IH.
Qed.

(** ** What a step does *)

(** The world but for the clock. *)
Definition core (w : world) : Z * Z * Z * Z * (list string * list string * list string * list string) :=
  (gIssued w, gServed w, gInflight w, gClaims w, (gSent w, gMade w, gAsked w, gDropped w)).

Inductive move (w w' : world) : phase -> phase -> Prop :=
| mv_stay p : core w' = core w -> move w w' p p
| mv_draw : core w' = core (counted 1 0 0 0 w) ->
    move w w' Idle (if past o (gIssued w + 1) then Over else Slot (gIssued w + 1))
| mv_enter n : core w' = core (counted 0 0 1 0 w) -> move w w' (Slot n) (Entered n)
| mv_make n : core w' = core (noted [claimName n] [claimName n] [] [] w) -> move w w' (Entered n) (Made n)
| mv_fail n : core w' = core (noted [claimName n] [] [] [] w) -> move w w' (Entered n) Left
| mv_count n : core w' = core (counted 0 0 0 1 w) -> move w w' (Made n) (Open n)
| mv_release n : core w' = core (noted [] [] [claimName n] [] w) -> move w w' (Open n) Left
| mv_drop n : gDone w' = true -> core w' = core (noted [] [] [] [claimName n] w) -> move w w' (Open n) Left
| mv_leave : core w' = core (counted 0 0 (-1) 0 w) -> move w w' Left Out
| mv_serve : core w' = core (counted 0 1 0 0 w) -> move w w' Out Idle.

Lemma claim_answers_move X (e : GenE X) w l x w' l' :
  may X e l -> answers o X e w l x w' l' -> move w w' (lPhase l) (lPhase l') /\ (gDone w = true -> gDone w' = true).
Proof.
  intros Hm (now & ended & Hnow & Hend & He & ->).
  destruct e as [| |d| | | | | |m|c|ns name|ns name| | |]; cbn [effect after may] in *.
  - destruct He as [_ ->]. split; [by apply mv_stay|done].
  - destruct He as [_ ->]. split; [by apply mv_stay|done].
  - destruct He as [-> _]. split; [by apply mv_stay|done].
  - done.
  - subst w'. split; [by apply mv_stay|done].
  - destruct Hm as [n Hn]. rewrite Hn in *. destruct x; destruct He as [He1 He2].
    + subst w'. split; [by apply mv_drop|done].
    + subst w'. split; [by apply mv_stay|done].
  - destruct He as [-> ->]. rewrite Hm. split; [by apply (mv_draw w)|done].
  - subst w'. rewrite Hm. split; [by apply mv_serve|done].
  - subst w'. destruct m as [| | | |d]; try (split; [by apply mv_stay|done]).
    + destruct Hm as [n Hn]. rewrite Hn. split; [by apply mv_count|done].
    + destruct Hm as [[-> [n Hn]]|[-> Hn]]; rewrite Hn; (split; [|done]); [by apply mv_enter|by apply mv_leave].
  - destruct Hm as (n & Hn & Hc). rewrite Hn, Hc in *. subst w'. split; [|by destruct x].
    destruct x; [by apply mv_fail|by apply mv_make].
  - subst w'. split; [by apply mv_stay|done].
  - destruct Hm as (n & Hn & ->). rewrite Hn. subst w'. split; [by apply mv_release|done].
  - done.
  - done.
  - done.
Qed.

(** ** The ledger *)

Definition waiting (l : local_state) : Z := match lPhase l with Slot _ | Entered _ => 1 | _ => 0 end.
Definition busy (l : local_state) : Z := match lPhase l with Idle | Over => 0 | _ => 1 end.
Definition inside (l : local_state) : Z := match lPhase l with Entered _ | Made _ | Open _ | Left => 1 | _ => 0 end.
Definition unmarked (l : local_state) : Z := match lPhase l with Made _ => 1 | _ => 0 end.
Definition over (l : local_state) : Z := match lPhase l with Over => 1 | _ => 0 end.

Record ledger (c : world * list local_state) : Prop := {
  led_sent : Z.of_nat (length (gSent c.1)) + sum_over waiting c.2 + sum_over over c.2 = gIssued c.1;
  led_served : gServed c.1 + sum_over busy c.2 + sum_over over c.2 = gIssued c.1;
  led_inflight : gInflight c.1 = sum_over inside c.2;
  led_claims : gClaims c.1 + sum_over unmarked c.2 = Z.of_nat (length (gMade c.1));
  led_over : sum_over over c.2 = if bool_decide (0 < oTotal o) then Z.max 0 (gIssued c.1 - oTotal o) else 0
}.

Lemma ledger_step c c' : lstep (answers o) may c c' -> ledger c -> ledger c'.
Proof.
  intros [w ls i X e l x w' l' Hi Hm Ha] [H1 H2 H3 H4 H5]. apply claim_answers_move in Ha as [Ha _]; [|done]. cbn [fst snd] in *.
  assert (Hw : forall f, sum_over f (<[i := l']> ls) = sum_over f ls - f l + f l') by (intros; by apply LoadFacts.sum_put).
  split; cbn [fst snd]; rewrite ?Hw;
    generalize dependent (sum_over waiting ls); generalize dependent (sum_over busy ls);
    generalize dependent (sum_over inside ls); generalize dependent (sum_over unmarked ls);
    generalize dependent (sum_over over ls); clear Hw Hi Hm; unfold waiting, busy, inside, unmarked, over, past in *; intros;
    (inversion Ha as [p Hc Hp Hp'|Hc Hp Hp'|n Hc Hp Hp'|n Hc Hp Hp'|n Hc Hp Hp'|n Hc Hp Hp'|n Hc Hp Hp'|n Hd Hc Hp Hp'
                     |Hc Hp Hp'|Hc Hp Hp'];
     injection Hc as Hc1 Hc2 Hc3 Hc4 Hc5 Hc6 Hc7 Hc8; rewrite ?Hc1, ?Hc2, ?Hc3, ?Hc4, ?Hc5, ?Hc6, <-?Hp, <-?Hp');
    clear Hc1 Hc2 Hc3 Hc4 Hc5 Hc6 Hc7 Hc8;
    cbn [counted noted gIssued gServed gInflight gClaims gSent gMade]; rewrite ?length_app; cbn [length];
    unfold past; repeat case_bool_decide; cbn [andb]; lia.
Qed.

(** ** Every number once, every claim released *)

Definition number (l : local_state) : option Z := match lPhase l with Slot n | Entered n => Some n | _ => None end.
Definition holding (l : local_state) : option string :=
  match lPhase l with Made n | Open n => Some (claimName n) | _ => None end.

Record receipts (c : world * list local_state) : Prop := {
  rc_names : exists ks, gSent c.1 = claimName <$> ks /\ NoDup (ks ++ omap number c.2) /\
    Forall (fun k => k <= gIssued c.1) (ks ++ omap number c.2);
  rc_made : gMade c.1 ⊆+ gSent c.1;
  rc_open : gMade c.1 ≡ₚ gAsked c.1 ++ gDropped c.1 ++ omap holding c.2;
  rc_done : gDropped c.1 <> [] -> gDone c.1 = true
}.

(** The numbers in use stay, or a new one is drawn. *)
Lemma names_same w w' ls ls' new :
  (exists ks, gSent w = claimName <$> ks /\ NoDup (ks ++ omap number ls) /\
     Forall (fun k => k <= gIssued w) (ks ++ omap number ls)) ->
  gSent w' = gSent w ++ (claimName <$> new) -> gIssued w' = gIssued w -> new ++ omap number ls' ≡ₚ omap number ls ->
  exists ks, gSent w' = claimName <$> ks /\ NoDup (ks ++ omap number ls') /\
     Forall (fun k => k <= gIssued w') (ks ++ omap number ls').
Proof.
  intros (ks & Hks & Hnd & Hall) Hs Hi Hp. exists (ks ++ new). rewrite Hs, Hks, fmap_app, Hi.
  rewrite <-!app_assoc, Hp. by split_and!.
Qed.

Lemma names_draw w w' ls ls' :
  (exists ks, gSent w = claimName <$> ks /\ NoDup (ks ++ omap number ls) /\
     Forall (fun k => k <= gIssued w) (ks ++ omap number ls)) ->
  gSent w' = gSent w -> gIssued w' = gIssued w + 1 ->
  omap number ls' ≡ₚ (gIssued w + 1) :: omap number ls \/ omap number ls' ≡ₚ omap number ls ->
  exists ks, gSent w' = claimName <$> ks /\ NoDup (ks ++ omap number ls') /\
     Forall (fun k => k <= gIssued w') (ks ++ omap number ls').
Proof.
  intros (ks & Hks & Hnd & Hall) Hs Hi Hp. exists ks. rewrite Hs, Hi.
  assert (Hle : Forall (fun k => k <= gIssued w + 1) (ks ++ omap number ls))
    by (eapply Forall_impl; [exact Hall|cbn; lia]).
  destruct Hp as [Hp|Hp]; rewrite Hp; [|by split_and!]. rewrite <-Permutation_middle. split_and!; [done| |].
  - apply NoDup_cons. split; [|done]. rewrite Forall_forall in Hall. intros Hin%Hall. lia.
  - constructor; [lia|done].
Qed.

Lemma receipts_put w w' ls i l l' (new : list Z) (made asked dropped : list string) :
  ls !! i = Some l -> receipts (w, ls) -> gIssued w' = gIssued w ->
  gSent w' = gSent w ++ (claimName <$> new) -> gMade w' = gMade w ++ made -> gAsked w' = gAsked w ++ asked ->
  gDropped w' = gDropped w ++ dropped ->
  new ++ option_list (number l') ≡ₚ option_list (number l) -> made ⊆+ claimName <$> new ->
  made ++ option_list (holding l) ≡ₚ asked ++ dropped ++ option_list (holding l') ->
  (gDone w = true -> gDone w' = true) -> (dropped <> [] -> gDone w' = true) -> receipts (w', <[i := l']> ls).
Proof.
  intros Hi [H1 H2 H3 H4] Hn Hs Hm Ha Hd Hnum Hsub Hh Hdn Hdr. cbn [fst snd] in *.
  assert (HN := LoadFacts.omap_put number ls i l l' Hi). assert (HO := LoadFacts.omap_put holding ls i l l' Hi).
  split; cbn [fst snd].
  - eapply names_same; [exact H1|exact Hs|exact Hn|]. apply (Permutation_app_inv_r (option_list (number l))).
    rewrite <-app_assoc, HN, app_assoc, Hnum. apply Permutation_app_comm.
  - rewrite Hm, Hs. by apply submseteq_app.
  - apply (Permutation_app_inv_r (option_list (holding l))). rewrite Hm, Ha, Hd, H3, <-!app_assoc, HO, Hh. solve_Permutation.
  - rewrite Hd. intros Hne. destruct dropped as [|d dropped]; [|by apply Hdr]. rewrite app_nil_r in Hne. auto.
Qed.

Lemma receipts_step c c' : lstep (answers o) may c c' -> receipts c -> receipts c'.
Proof.
  intros [w ls i X e l x w' l' Hi Hm Ha] Hr. apply claim_answers_move in Ha as [Ha Hd]; [|done].
  assert (Hput := fun new made asked dropped => receipts_put w w' ls i l l' new made asked dropped Hi Hr).
  unfold number, holding in Hput.
  inversion Ha as [p Hc Hp Hp'|Hc Hp Hp'|n Hc Hp Hp'|n Hc Hp Hp'|n Hc Hp Hp'|n Hc Hp Hp'|n Hc Hp Hp'|n Hdn Hc Hp Hp'
                  |Hc Hp Hp'|Hc Hp Hp'];
    injection Hc as Hc1 _ _ _ Hc5 Hc6 Hc7 Hc8; cbn [counted noted gIssued gSent gMade gAsked gDropped] in *.
  2: { pose proof Hr as [H1 H2 H3 H4]. cbn [fst snd] in *.
       assert (HN := LoadFacts.omap_put number ls i l l' Hi). assert (HO := LoadFacts.omap_put holding ls i l l' Hi).
       unfold number at 2 3 in HN. unfold holding at 2 3 in HO. rewrite <-Hp, <-Hp' in HN, HO. cbn [option_list] in *.
       rewrite app_nil_r in HN, HO. split; cbn [fst snd]; rewrite ?Hc5, ?Hc6, ?Hc7, ?Hc8; auto.
       - rewrite <-Hc5. eapply names_draw; [exact H1|done|done|]. rewrite HN. destruct (past _ _); [by right|by left].
       - rewrite HO. by destruct (past _ _). }
  all: rewrite <-?Hp, <-?Hp' in Hput; rewrite ?app_nil_r, ?Z.add_0_r in *; cbn [option_list app] in Hput.
  - apply (Hput [] [] [] []); rewrite ?app_nil_r; rewrite ?Hp; done.
  - by apply (Hput [] [] [] []); rewrite ?app_nil_r.
  - by apply (Hput [n] [claimName n] [] []); rewrite ?app_nil_r.
  - apply (Hput [n] [] [] []); rewrite ?app_nil_r; done || apply submseteq_nil_l.
  - by apply (Hput [] [] [] []); rewrite ?app_nil_r.
  - by apply (Hput [] [] [claimName n] []); rewrite ?app_nil_r.
  - by apply (Hput [] [] [] [claimName n]); rewrite ?app_nil_r.
  - by apply (Hput [] [] [] []); rewrite ?app_nil_r.
  - by apply (Hput [] [] [] []); rewrite ?app_nil_r.
Qed.

(** ** The loops end *)

Definition rely (w w' : world) : Prop :=
  gIssued w <= gIssued w' /\ gNow w <= gNow w' /\ (gDone w = true -> gDone w' = true).

#[export] Instance claim_rely_preorder : PreOrder rely.
Proof. split; unfold rely; [intros w; split_and!; done|]. intros a b c (?&?&?) (?&?&?). split_and!; [lia|lia|auto]. Qed.

Lemma claim_answers_rely X (e : GenE X) w l x w' l' : answers o X e w l x w' l' -> rely w w'.
Proof.
  intros (now & ended & Hnow & Hend & He & _). assert (Hp : rely w (passed now ended w)) by by split_and!.
  etrans; [exact Hp|]. clear Hp Hnow Hend. generalize dependent (passed now ended w). intros w0 He.
  assert (Hc : forall a b c d, 0 <= a -> rely w0 (counted a b c d w0)) by (intros; split_and!; cbn; [lia|done|done]).
  destruct e; cbn [effect] in He; repeat match goal with
    | H : _ /\ _ |- _ => destruct H
    | H : context [if ?x then _ else _] |- _ => destruct x
    | H : context [match ?x with _ => _ end] |- _ => destruct x
    end; subst; try (by apply Hc); by split_and!.
Qed.

Abbreviation rg := (Interleave.rg (answers o) rely).

Lemma rg_step {X B} (e : GenE X) (k : X -> prog GenE B) post w l :
  (forall w1 x w2 l', rely w w1 -> answers o X e w1 l x w2 l' -> rely w1 w2 -> rg post (k x) w2 l') ->
  rg post (bind (call e) k) w l.
Proof. apply (rely_call (answers o) rely). exact claim_answers_rely. Qed.

Lemma rg_pass {A B} (p : prog GenE A) (k : A -> prog GenE B) post w l :
  (forall a w' l', rely w w' -> rg post (k a) w' l') -> rg post (bind p k) w l.
Proof. apply (rely_skip (answers o) rely). exact claim_answers_rely. Qed.

Context (Hpoll : 0 < oPoll o).

(** Each round waits for a tick; the ticks pass the deadline in time. *)
Lemma pollClaim_rg fuel name start deadline w l :
  (1 <= fuel)%nat -> deadline <= lStart l + oClaimTimeout o ->
  oClaimTimeout o < (lTicks l + Z.of_nat fuel) * oPoll o ->
  rg (fun r w' _ => r <> None /\ rely w w') (pollClaim fuel o name start deadline) w l.
Proof.
  assert (H : forall w0, rely w0 w -> (1 <= fuel)%nat -> deadline <= lStart l + oClaimTimeout o ->
            oClaimTimeout o < (lTicks l + Z.of_nat fuel) * oPoll o ->
            rg (fun r w' _ => r <> None /\ rely w0 w') (pollClaim fuel o name start deadline) w l); [|intros; by apply H].
  intros w0. revert w l. induction fuel as [|fuel IH]; intros w l Hw Hf Hdl Hen; [lia|]. cbn [pollClaim].
  assert (Hret : forall (b : bool) w' l', rely w w' -> rg (fun r w' _ => r <> None /\ rely w0 w') (Ret (Some b)) w' l').
  { intros b w' l' Hw' w'' Hw''. split; [done|]. by etrans; [|etrans]. }
  apply rg_step. intros w1 cur w2 l2 H1 (n2 & e2 & _ & _ & _ & ->) H2. cbn [after].
  match goal with |- Interleave.rg _ _ _ (if ?b then _ else _) _ _ => destruct b end.
  { apply rg_pass. intros ? w3 l3 H3. apply rg_pass. intros ? w4 l4 H4. apply rg_pass. intros ? w5 l5 H5.
    apply Hret. by repeat (etrans; [eassumption|]). }
  apply rg_step. intros w3 x w4 l4 H3 (n4 & e4 & _ & _ & He4 & ->) H4. cbn [after effect] in *.
  destruct x; [apply Hret; by repeat (etrans; [eassumption|])|]. destruct He4 as [-> Htick].
  apply rg_step. intros w5 now w6 l6 H5 (n6 & e6 & _ & _ & He6 & ->) H6. cbn [after].
  eapply (rg_bind (answers o) rely (fun _ w' l' => rely w6 w' /\ l' = mkLocal (lPhase l) (lStart l) (lTicks l + 1))).
  { case_bool_decide; [|by intros w' Hw'].
    change (call (GMetric (claimFailed "timeout"))) with (bind (call (GMetric (claimFailed "timeout"))) (fun x => Ret x)).
    apply rg_step. intros w7 y w8 l8 H7 (n8 & e8 & _ & _ & _ & ->) H8 w9 H9. split; [by etrans; [|etrans]|done]. }
  intros _ w7 l7 [H7 ->]. apply rg_step. intros w8 now' w9 l9 H8 (n9 & e9 & Hn9 & _ & He9 & ->) H9. cbn [effect after] in *.
  destruct He9 as [-> ->].
  assert (Hall : rely (passed n4 e4 w3) (passed n9 e9 w8)) by by repeat (etrans; [eassumption|]).
  assert (Hfrom : rely w (passed n9 e9 w8)) by by repeat (etrans; [eassumption|]).
  case_bool_decide as Hlate; [by apply Hret|]. destruct Hall as (_ & Hclock & _). cbn [gNow passed] in *.
  apply IH; cbn [lStart lTicks]; [by etrans|nia|lia|nia].
Qed.

Lemma polls_enough : (1 <= pollsFor o)%nat /\ oClaimTimeout o < Z.of_nat (pollsFor o) * oPoll o.
Proof.
  unfold pollsFor. assert (0 <= Z.max 0 (oClaimTimeout o) / oPoll o) by (apply Z.div_pos; lia).
  assert (Hm := Z.mul_succ_div_gt (Z.max 0 (oClaimTimeout o)) (oPoll o)). split; [lia|]. rewrite Z2Nat.id by lia. nia.
Qed.

Lemma claimOnce_rg name w l :
  rg (fun ok w' _ => ok = true /\ rely w w') (claimOnce formatTime (pollsFor o) o name) w l.
Proof.
  unfold claimOnce. apply rg_pass. intros _ w1 l1 H1. apply rg_pass. intros now w2 l2 H2.
  apply rg_step. intros w3 start w4 l4 H3 (n4 & e4 & _ & _ & [-> ->] & ->) H4. cbn [after].
  assert (H04 : rely w (passed n4 e4 w3)) by by repeat (etrans; [eassumption|]).
  assert (Hend : forall w' l', rely (passed n4 e4 w3) w' ->
            rg (fun ok w' _ => ok = true /\ rely w w') (call (GMetric (inflight (-1)));;; Ret true) w' l').
  { intros w' l' Hw'. apply rg_pass. intros _ w5 l5 H5 w6 H6. split; [done|]. by repeat (etrans; [eassumption|]). }
  apply rg_pass. intros err w5 l5 H5. destruct err as [err|].
  { apply rg_pass. intros _ w6 l6 H6. apply Hend. by etrans. }
  apply rg_pass. intros _ w6 l6 H6. apply rg_step. intros w7 [] w8 l8 H7 (n8 & e8 & Hn8 & _ & -> & ->) H8. cbn [after].
  assert (H48 : rely (passed n4 e4 w3) (passed n8 e8 w7)) by by repeat (etrans; [eassumption|]).
  destruct polls_enough as [Hp1 Hp2].
  eapply (rg_bind (answers o) rely); [apply pollClaim_rg; cbn [lStart lTicks]; [done| |lia]|].
  { destruct H48 as (_ & Hclock & _). cbn [gNow passed] in *. unfold time_Add. lia. }
  intros [[]|] w9 l9 [Hr H9]; [| |done]; [|apply Hend; by etrans].
  apply rg_pass. intros err w10 l10 H10. apply rg_pass. intros _ w11 l11 H11. apply Hend. by repeat (etrans; [eassumption|]).
Qed.

Definition fair_end (r : exit) (w : world) (_ : local_state) : Prop :=
  match r with Exhausted => True | Cancelled => gDone w = true | OutOfFuel => False end.

Lemma fair_done r w l : fair_end r w l -> rg fair_end (Ret r) w l.
Proof. intros Hr w' (_ & _ & Hw). destruct r; cbn in *; auto. Qed.

Definition remaining (w : world) : Z := 1 + Z.max 0 (oTotal o - gIssued w).

Context (Htotal : 0 < oTotal o).

Lemma claimWorker_rg rounds w l :
  remaining w <= Z.of_nat rounds -> rg fair_end (claimWorker formatTime rounds (pollsFor o) o) w l.
Proof.
  revert w l. induction rounds as [|rounds IH]; intros w l Hl; [unfold remaining in Hl; lia|]. cbn [claimWorker].
  apply rg_step. intros w1 ended w2 l2 H1 (n & e & _ & _ & [-> ->] & ->) H2. cbn [after].
  destruct (gDone (passed n e w1)) eqn:Ed; [by apply fair_done|].
  apply rg_step. intros w3 slot w4 l4 H3 (n4 & e4 & _ & _ & [-> ->] & ->) H4.
  destruct (past o _) eqn:Epast; [by apply fair_done|].
  assert (Hless : remaining (counted 1 0 0 0 (passed n4 e4 w3)) < remaining w).
  { assert (Hr : rely w w3) by by etrans; [|etrans]. destruct Hr as (Hc & _ & _). unfold past, remaining in *.
    rewrite bool_decide_true in Epast by lia. apply bool_decide_eq_false in Epast. cbn [gIssued counted passed] in *. lia. }
  assert (Hagain : forall w' l', rely (counted 1 0 0 0 (passed n4 e4 w3)) w' ->
            rg fair_end (claimWorker formatTime rounds (pollsFor o) o) w' l').
  { intros w' l' (Hc & _ & _). apply IH. unfold remaining in *. lia. }
  eapply (rg_bind (answers o) rely); [apply claimOnce_rg|]. intros ok w5 l5 [-> H5]. cbn [negb].
  apply rg_pass. intros _ w6 l6 H6. case_bool_decide; [|apply Hagain; by etrans].
  apply rg_step. intros w7 b w8 l8 H7 (n8 & e8 & _ & _ & [-> Hb] & ->) H8.
  destruct b; [by apply fair_done|]. apply Hagain. by repeat (etrans; [eassumption|]).
Qed.

(** ** A bounded run *)

Definition idle : local_state := mkLocal Idle 0 0.

Definition new_run (w : world) : Prop :=
  gIssued w = 0 /\ gServed w = 0 /\ gInflight w = 0 /\ gClaims w = 0 /\
  gSent w = [] /\ gMade w = [] /\ gAsked w = [] /\ gDropped w = [].

Definition ended (t : @thread GenE local_state exit) : Prop := exists r, code t = Ret r.

Definition loop_reached (w0 w : world) (ts : list thread) : Prop :=
  let worker := claimWorker formatTime (roundsFor o) (pollsFor o) o in
  steps (answers o) worker (fun _ => False) (w0, crew (Z.to_nat (workers o)) (mkThread worker idle)) (w, ts).

Lemma workers_pos : 0 < workers o.
Proof. unfold workers. case_bool_decide; lia. Qed.

Lemma fresh_sum f n : f idle = 0 -> sum_over f (replicate n idle) = 0.
Proof. intros Hf. induction n as [|n IH]; [done|]. cbn [replicate]. by rewrite sum_over_cons, Hf, IH. Qed.

Lemma fresh_omap {B} (f : local_state -> option B) n : f idle = None -> omap f (replicate n idle) = [].
Proof. intros Hf. induction n as [|n IH]; [done|]. cbn. by rewrite Hf. Qed.

Section run.
Context (w0 w : world) (ts : list (@thread GenE local_state exit)).
Context (Hnew : new_run w0) (Hr : loop_reached w0 w ts).

Lemma run_books :
  Forall (fun t => obeys finished (code t) (local t)) ts /\ ledger (w, locals ts) /\ receipts (w, locals ts) /\
  Z.of_nat (length (locals ts)) = workers o.
Proof.
  destruct (protocol_sound _ may finished _ _ _ Hr) as (H1 & H2 & H3).
  { apply crew_all. by apply claimWorker_obeys. }
  assert (Hw := workers_pos). cbn [fst snd] in *. rewrite crew_locals in H2. cbn [local] in H2.
  rewrite locals_length, H3, crew_length, Z2Nat.id by lia. split; [done|]. apply and_assoc. split; [|done].
  destruct Hnew as (N1 & N2 & N3 & N4 & N5 & N6 & N7 & N8).
  apply (star_inv _ (fun c => ledger c /\ receipts c)) in H2; [done| |].
  - intros c c' [Ha Hb] Hs. split; [by eapply ledger_step|by eapply receipts_step].
  - split; split; cbn [fst snd]; rewrite ?fresh_sum, ?fresh_omap, ?N1, ?N2, ?N3, ?N4, ?N5, ?N6, ?N7, ?N8 by done; try done.
    + case_bool_decide; lia.
    + exists []. split_and!; [done|apply NoDup_nil_2|done].
Qed.

Lemma run_ends :
  Forall (fun t => code t <> Ret OutOfFuel) ts /\
  Forall (fun t => forall r, code t = Ret r -> finished r (local t) /\ fair_end r w (local t)) ts.
Proof.
  destruct run_books as (Hob & _ & _ & _). destruct Hnew as (N1 & _).
  destruct (each_steps (answers o) rely _ (fun _ => False) fair_end _ _ ltac:(done) Hr) as [Hall _].
  { apply crew_all. apply claimWorker_rg. unfold remaining, roundsFor. cbn [fst]. rewrite N1. lia. }
  unfold each in Hall. cbn [fst snd] in Hall.
  assert (Hboth : Forall (fun t => forall r, code t = Ret r -> finished r (local t) /\ fair_end r w (local t)) ts).
  { eapply pool_impl; [|exact (pool_both _ _ _ Hob Hall)]. intros t [Ho Ha] r Hc. rewrite Hc in Ho, Ha. cbn in Ho, Ha.
    split; [done|by apply Ha]. }
  split; [|done]. eapply pool_impl; [|exact Hboth]. intros t Ht Hc. by destruct (Ht _ Hc).
Qed.

(** Where the workers are at the end. *)
Lemma run_rest :
  Forall ended ts ->
  Forall (fun l => lPhase l = Over \/ lPhase l = Idle /\ gDone w = true) (locals ts).
Proof.
  intros Hend. destruct run_ends as [_ Hfin]. eapply locals_all; [|exact (pool_both _ _ _ Hend Hfin)].
  intros t [[r Hc] Ht]. destruct (Ht r Hc) as [Hf Hg]. destruct r; cbn in Hf, Hg; [by left|by right|done].
Qed.
End run.

End facts.

Lemma sum_all {A} (f : A -> Z) (ls : list A) a : Forall (fun l => f l = a) ls -> sum_over f ls = a * Z.of_nat (length ls).
Proof. induction 1 as [|l ls Hl _ IH]; [cbn; lia|]. rewrite sum_over_cons, IH, Hl. cbn [length]. lia. Qed.

Lemma sum_unit {A} (f : A -> Z) (ls : list A) :
  (forall l, 0 <= f l <= 1) -> 0 <= sum_over f ls <= Z.of_nat (length ls).
Proof. intros Hf. induction ls as [|l ls IH]; [cbn; lia|]. rewrite sum_over_cons. specialize (Hf l). cbn [length]. lia. Qed.

Lemma holding_inside ls : Z.of_nat (length (omap holding ls)) <= sum_over inside ls.
Proof.
  induction ls as [|l ls IH]; [done|]. rewrite sum_over_cons. cbn [omap list_omap].
  unfold holding at 1, inside at 1. destruct (lPhase l); cbn [length]; lia.
Qed.

(** C29.  A bounded claim run.  In every interleaving of the workers, whatever the
    calls answer: at most [--total] claims are created, each under a name of its
    own; the gauge of claims in flight is the number of workers inside
    [claimOnce], so it is between 0 and the number of workers; a delete is asked
    for at most once per claim and only for claims whose create succeeded; every
    such claim has been asked to be deleted, was given up when the context ended,
    or is still open, and the gauge covers the open ones; every loop ends within
    its bounds; and once all workers have ended, nothing is in flight, the
    counters agree with the calls, and unless the context ended exactly [--total]
    claims were issued and a delete was asked for each claim created, once and
    whatever its answer: a refused delete is counted and not retried
    ([refused_delete_not_retried]). *)
Theorem claim_loop_exact (formatTime : Z -> string) (o : options) (w0 w : world) (ts : list thread) :
  0 < oPoll o -> 0 < oTotal o -> new_run w0 -> loop_reached formatTime o w0 w ts ->
  Z.of_nat (length (gSent w)) <= oTotal o /\ NoDup (gSent w) /\
  (gInflight w = sum_over inside (locals ts) /\ 0 <= gInflight w <= workers o) /\
  NoDup (gAsked w) /\ (forall n, n ∈ gAsked w -> n ∈ gMade w) /\
  (exists opened, gMade w ≡ₚ gAsked w ++ gDropped w ++ opened /\ Z.of_nat (length opened) <= gInflight w /\
     (gDropped w <> [] -> gDone w = true)) /\
  Forall (fun t => code t <> Ret OutOfFuel) ts /\
  (Forall ended ts ->
   gInflight w = 0 /\ gClaims w = Z.of_nat (length (gMade w)) /\ gServed w = Z.of_nat (length (gSent w)) /\
   (gDone w = false -> gServed w = oTotal o /\ gAsked w ≡ₚ gMade w)).
Proof.
  intros Hp Ht Hnew Hr.
  destruct (run_books formatTime o Ht w0 w ts Hnew Hr) as (_ & [L1 L2 L3 L4 L5] & [R1 R2 R3 R4] & Hlen). cbn [fst snd] in *.
  assert (Hwait := sum_unit waiting (locals ts) ltac:(intros l; unfold waiting; destruct (lPhase l); lia)).
  assert (Hin := sum_unit inside (locals ts) ltac:(intros l; unfold inside; destruct (lPhase l); lia)).
  rewrite bool_decide_true in L5 by done. destruct R1 as (ks & Hks & Hnd & _).
  assert (Hsent : NoDup (gSent w)).
  { rewrite Hks. apply NoDup_fmap_2; [|by apply NoDup_app in Hnd as [? _]].
    intros a b Hab. apply (inj (pretty (A := Z))). unfold claimName in Hab. by injection Hab. }
  assert (Hmade : NoDup (gMade w)).
  { destruct (submseteq_Permutation _ _ R2) as [k Hk]. rewrite Hk in Hsent. by apply NoDup_app in Hsent as [? _]. }
  destruct (run_ends formatTime o Hp Ht w0 w ts Hnew Hr) as [Hfuel _].
  split_and!; [lia|done|done|lia|lia| | | |done|].
  - rewrite R3 in Hmade. by apply NoDup_app in Hmade as [? _].
  - intros n Hn. rewrite R3. apply elem_of_app. by left.
  - exists (omap holding (locals ts)). split_and!; [done| |done]. rewrite L3. apply holding_inside.
  - intros Hend. assert (Hrest := run_rest formatTime o Hp Ht w0 w ts Hnew Hr Hend).
    assert (Hzero : forall f, (forall l, lPhase l = Over \/ lPhase l = Idle -> f l = 0) -> sum_over f (locals ts) = 0).
    { intros f Hf. rewrite (sum_all f (locals ts) 0); [lia|]. eapply Forall_impl; [exact Hrest|]. intros l Hl. apply Hf. naive_solver. }
    rewrite (Hzero waiting), (Hzero busy), (Hzero inside), (Hzero unmarked) in *
      by (intros l [Hl|Hl]; unfold waiting, busy, inside, unmarked; by rewrite Hl).
    split_and!; [lia|lia|lia|]. intros Hd.
    rewrite (sum_all over (locals ts) 1) in *
      by (eapply Forall_impl; [exact Hrest|]; intros l [Hl|[_ Hl]]; [unfold over; by rewrite Hl|congruence]).
    assert (Hw := workers_pos o). split; [lia|]. rewrite R3.
    assert (gDropped w = []) as -> by (destruct (gDropped w); [done|]; by rewrite R4 in Hd).
    assert (omap holding (locals ts) = []) as ->; [|by rewrite !app_nil_r].
    clear -Hrest. induction Hrest as [|l ls Hl _ IH]; [done|]. cbn. rewrite IH. unfold holding.
    by destruct Hl as [->|[-> _]].
Qed.

(** ** A run of two workers *)

Module ClaimLoadDemo.

Definition demo : options := mkOptions 2 "ns" "img" "loadgen" 2 3 0 10 100.
Definition stamp (_ : Z) : string := "t".

Definition served (ready : bool) (name : string) : SandboxClaim :=
  let c := newClaim stamp demo name 0 in
  mkClaim (scMeta c) (scWarmPoolRef c) None (scAdditionalPodMetadata c) [] []
    (if ready then [mkCondition "Ready" ConditionTrue 0 0 "" ""] else []) "" [].

(** A cluster that serves every claim but the second; the clock moves with the
    ticks.  With [stop] the context ends at the first of them. *)
Definition answer (stop : bool) (w : world) (l : local_state) (X : Type) (e : GenE X) : option (X * world) :=
  let now := lStart l + (lTicks l + 1) * oPoll demo in
  match e in GenE X return option (X * world) with
  | GCtxErr => Some (gDone w, w)
  | GNow => Some (gNow w, w)
  | GSleep d => Some (false, passed (gNow w + Z.max 0 d) (gDone w) w)
  | GTick =>
      if stop
      then Some (true, match lPhase l with
                       | Open n => noted [] [] [] [claimName n] (passed (gNow w) true w)
                       | _ => passed (gNow w) true w
                       end)
      else Some (false, passed (Z.max (gNow w) now) (gDone w) w)
  | GIssue => Some (gIssued w + 1, counted 1 0 0 0 w)
  | GServed => Some (tt, counted 0 1 0 0 w)
  | GMetric m => Some (tt, match m with inflight d => counted 0 0 d 0 w | claimsTotal => counted 0 0 0 1 w | _ => w end)
  | GCreate c => Some (None, noted [mName (scMeta c)] [mName (scMeta c)] [] [] w)
  | GGet _ name => Some (Ok (served (negb (bool_decide (name = claimName 2))) name), w)
  | GDelete _ name => Some (None, noted [] [] [name] [] w)
  | GTicker => Some (tt, w)
  | _ => None
  end.

Definition respond (stop : bool) (X : Type) (e : GenE X) (w : world) (l : local_state) :
    option (X * world * local_state) :=
  match answer stop w l X e with Some (x, w') => Some (x, w', after demo (gNow w) X e l x) | None => None end.

Lemma passed_id w : passed (gNow w) (gDone w) w = w.
Proof. by destruct w. Qed.

Lemma claim_respond_answers stop X e w l x w' l' :
  respond stop X e w l = Some (x, w', l') -> answers demo X e w l x w' l'.
Proof.
  unfold respond. destruct (answer stop w l X e) as [[y w1]|] eqn:Ea; [|done]. intros [= -> -> <-].
  destruct e as [| |d| | | | | |m|c|ns name|ns name| | |]; cbn [answer] in Ea; try discriminate Ea.
  3: { injection Ea as <- <-. exists (gNow w + Z.max 0 d), (gDone w). cbn. split_and!; try done; lia. }
  4: { destruct stop; injection Ea as <- <-.
       - exists (gNow w), true. split_and!; [done|done| |done]. cbn [effect]. split; [done|]. by destruct (lPhase l).
       - exists (Z.max (gNow w) (lStart l + (lTicks l + 1) * oPoll demo)), (gDone w).
         split_and!; [apply Z.le_max_l|done| |done]. split; [done|]. apply Z.le_max_r. }
  all: exists (gNow w), (gDone w); rewrite passed_id; (split_and!; [done|done| |done]); cbn [effect]; by simplify_eq.
Qed.

Definition world0 : world := mkWorld 0 0 0 0 [] [] [] [] 0 false.

Definition final (stop : bool) : world * list thread :=
  play (respond stop) [(0, 5); (1, 300); (0, 300)]%nat world0
    (crew 2 (mkThread (claimWorker stamp (roundsFor demo) (pollsFor demo) demo) idle)).

Lemma final_loop stop : loop_reached stamp demo world0 (final stop).1 (final stop).2.
Proof.
  unfold loop_reached. rewrite <-surjective_pairing.
  apply (play_steps (answers demo) _ (fun _ => False)). intros X e s l x s' l'. apply claim_respond_answers.
Qed.

Lemma claim_loop_exact_witness :
  gSent (final false).1 = ["loadgen-claim-2"; "loadgen-claim-3"; "loadgen-claim-1"] /\
  gServed (final false).1 = 3 /\ gAsked (final false).1 ≡ₚ gMade (final false).1.
Proof.
  split; [vm_compute; reflexivity|].
  destruct (claim_loop_exact stamp demo world0 (final false).1 (final false).2) as (_ & _ & _ & _ & _ & _ & _ & Hend).
  - vm_compute; reflexivity.
  - vm_compute; reflexivity.
  - done.
  - apply final_loop.
  - apply Hend; [|vm_compute; reflexivity]. unfold ended. vm_compute. repeat constructor; eexists; reflexivity.
Defined.

(** A claim whose poll is cut short by the end of the context is not released. *)
Lemma interrupted_claim_left :
  loop_reached stamp demo world0 (final true).1 (final true).2 /\ Forall ended (final true).2 /\
  "loadgen-claim-2" ∈ gMade (final true).1 /\ "loadgen-claim-2" ∉ gAsked (final true).1.
Proof.
  split; [apply final_loop|]. split; [unfold ended; vm_compute; repeat constructor; eexists; reflexivity|].
  split; [vm_compute; repeat constructor|]. apply (bool_decide_unpack ("loadgen-claim-2" ∉ gAsked (final true).1)). vm_compute. done.
Qed.

(** A cluster that serves every claim and refuses every delete; the state counts
    the deletes asked for. *)
Definition refusing : handler GenE nat := fun X e =>
  match e in GenE X return nat -> X * nat with
  | GNow => fun n => (0, n)
  | GGet _ name => fun n => (Ok (served true name), n)
  | GDelete _ _ => fun n => (Some (Errorf "refused"), S n)
  | GCtxErr | GSleep _ | GPoolTick | GTick => fun n => (false, n)
  | GTicker | GServed | GMetric _ => fun n => (tt, n)
  | GIssue => fun n => (1, n)
  | GCreate _ | GCreateTemplate _ | GCreatePool _ => fun n => (None, n)
  | GGetPool _ _ => fun n => (Err (Errorf "none"), n)
  end.

(** A refused delete is counted and not retried: the worker goes on, and the
    claim stays. *)
Lemma refused_delete_not_retried :
  run refusing (claimOnce stamp 3 demo "c") O = (true, 1%nat) /\
  observed (fun X e => match e with GMetric m => Some m | _ => None end)
    (trace refusing (claimOnce stamp 3 demo "c") O)
  = [inflight 1; claimsTotal; claimSeconds 0; boundTotal; claimFailed "delete"; inflight (-1)].
Proof. vm_compute. split; reflexivity. Qed.

(** The clock readings to come, and the metrics so far. *)
Definition clocked (X : Type) (e : GenE X) (s : list Z * list metric) (_ : unit) :
    option (X * (list Z * list metric) * unit) :=
  match e in GenE X return option (X * (list Z * list metric) * unit) with
  | GGet _ name => Some (Ok (served false name), s, tt)
  | GTick => Some (false, s, tt)
  | GNow => match s.1 with t :: rest => Some (t, (rest, s.2), tt) | [] => None end
  | GMetric m => Some (tt, (s.1, s.2 ++ [m]), tt)
  | _ => None
  end.

(** A deadline between the two readings of the clock: the loop goes on to the
    release, and the claim is counted neither as served nor as timed out. *)
Lemma deadline_between_readings :
  advance clocked 10 (pollClaim 1 demo "c" 0 100) ([100; 101], []) tt = (Ret (Some true), ([], []), tt).
Proof. vm_compute. reflexivity. Qed.
End ClaimLoadDemo.

End ClaimLoadFacts.
