(* ===== verification/Supply.v ===== *)
(** * Supply: what the driver provisions, a create can claim.

    Composes the warm-pool driver ([Driver]), the pool keys ([PoolKey]), the REST
    storage ([Rest]) and the placement of claims ([StoreModel]): the key a pool
    resolves to, the entries the nodes are asked for, the capacity they
    advertise, and the node a claim is placed on. *)

From S2P Require Import Prelude GoStrings K8s PoolKey Types StoreModel StoreFacts Driver Rest ClaimModel.

Module Supply.
Import Pool Store.
#[local] Open Scope prog_scope.

(** ** A claim is placed while there is capacity *)

Section placement.
Context (inv : string -> result NodeInventory) (nodes : list string) (pool : PoolKey).

Abbreviation load := (StoreFacts.load inv pool).
Abbreviation steady := (StoreFacts.steady inv nodes).

(** What node [n] can still give. *)
Definition spare (s : store) (n : string) : Z :=
  match inv n with
  | Ok i => if bool_decide (niAddress i = "") then 0 else Z.max 0 (StoreFacts.capacity i pool - load s n)
  | Err _ => 0
  end.

Lemma capacity_reached i :
  0 < StoreFacts.capacity i pool ->
  exists pc, pc ∈ niPools i /\ poolCapacityMatches pc pool = true /\ pcWarm pc = StoreFacts.capacity i pool.
Proof.
  unfold StoreFacts.capacity. induction (niPools i) as [|pc pcs IH]; [done|]. rewrite filter_cons.
  destruct (decide _) as [Hm|Hm]; csimpl.
  - intros Hpos. destruct (Z.max_spec (pcWarm pc) (foldr Z.max 0 (pcWarm <$> filter (fun pc => poolCapacityMatches pc pool) pcs)))
      as [[Hlt ->]|[_ ->]].
    + destruct IH as (pc' & ? & ? & ?); [lia|]. exists pc'. split_and!; [by right|done|done].
    + exists pc. split_and!; [left|by destruct (poolCapacityMatches pc pool)|done].
  - intros Hpos. destruct (IH Hpos) as (pc' & ? & ? & ?). exists pc'. split_and!; [by right|done|done].
Qed.

Lemma scan_pools_complete s n i pools :
  inv n = Ok i -> (exists pc, pc ∈ pools /\ poolCapacityMatches pc pool = true /\ load s n < pcWarm pc) ->
  is_Some (scan_pools s n i pool pools).1.
Proof.
  intros Hi. revert s. induction pools as [|pc pools IH]; intros s (pc' & Hin & Hm' & Hw); [by apply elem_of_nil in Hin|].
  cbn [scan_pools]. apply elem_of_cons in Hin. destruct (poolCapacityMatches pc pool) eqn:Hm; cbn [negb].
  2: { destruct Hin as [->|Hin]; [congruence|]. apply IH. by exists pc'. }
  pose proof (StoreFacts.debitFor_taken s n pool (niResourceVersion i)) as Ht.
  pose proof (StoreFacts.load_debit inv pool s n i false n Hi) as Hl.
  destruct (debitFor s n pool (niResourceVersion i) false) as [taken s1]. cbn [fst snd] in *.
  assert (Hload : load s n = taken) by (unfold StoreFacts.load; by rewrite Hi, Ht).
  rewrite decide_True in Hl by done. case_bool_decide as Ha; [|by eexists]. apply IH.
  destruct Hin as [->|Hin]; [lia|]. exists pc'. split_and!; [done|done|lia].
Qed.

Lemma spare_node s n :
  0 <= load s n -> 0 < spare s n ->
  exists i, inv n = Ok i /\ niAddress i <> "" /\
    exists pc, pc ∈ niPools i /\ poolCapacityMatches pc pool = true /\ load s n < pcWarm pc.
Proof.
  unfold spare. intros Hnn Hsp. destruct (inv n) as [i|e] eqn:Hi; [|lia]. case_bool_decide as Haddr; [lia|].
  exists i. split_and!; [done|done|]. destruct (capacity_reached i) as (pc & ? & ? & Hw); [lia|].
  exists pc. split_and!; [done|done|lia].
Qed.

Lemma spare_same s s' n : load s' n = load s n -> spare s' n = spare s n.
Proof. intros Hl. unfold spare. by rewrite Hl. Qed.

Lemma scan_nodes_complete s ns n :
  n ∈ ns -> 0 <= load s n -> 0 < spare s n ->
  spec StoreFacts.draws_safe steady (fun r => r.1 <> []) (scan_nodes s ns pool).
Proof.
  intros Hin. revert s. induction Hin as [n ns|n m ns Hin IH]; intros s Hnn Hsp; cbn [scan_nodes bind call].
  - destruct (spare_node s n Hnn Hsp) as (i & Hi & Haddr & Hpc). split; [done|]. intros r Hr. cbn in Hr. subst r. rewrite Hi.
    rewrite bool_decide_false by done. pose proof (scan_pools_complete s n i (niPools i) Hi Hpc) as [c Hc].
    destruct (scan_pools s n i pool (niPools i)) as [c' s1]. cbn [fst] in Hc. subst c'.
    eapply spec_bind; [apply (StoreFacts.scan_nodes_sound inv nodes pool)|]. by intros [rest s2] _.
  - split; [done|]. intros r Hr. cbn in Hr. destruct r as [i|e]; [|by apply IH].
    case_bool_decide as Ha; [by apply IH|].
    destruct (scan_pools s m i pool (niPools i)) as [c s1] eqn:E.
    apply (StoreFacts.scan_pools_sound inv pool) in E as [Hl _]; [|done..].
    eapply spec_bind; [apply (IH s1); [by rewrite Hl|by rewrite (spare_same s s1) by apply Hl]|].
    intros [rest s2] Hne. cbn [fst] in *. by destruct c.
Qed.

(** A pick fails only without capacity. *)
Lemma pickWarmNode_complete s n :
  n ∈ nodes -> 0 <= load s n -> 0 < spare s n ->
  spec StoreFacts.draws_safe steady (fun r => exists picked, r.1 = Ok picked) (pickWarmNode s pool).
Proof.
  intros Hin Hnn Hsp. unfold pickWarmNode. cbn [bind call]. split; [done|]. intros r Hr. cbn in Hr. subst r.
  eapply spec_bind; [apply spec_and; [by apply (scan_nodes_complete s nodes n)|apply (StoreFacts.scan_nodes_sound inv nodes pool)]|].
  intros [cs s1] [Hne [_ HF]]. cbn [fst snd] in *.
  pose proof (merge_sort_Permutation candidate_le cs) as Hperm.
  destruct (merge_sort candidate_le cs) as [|c0 cs'] eqn:E; [by apply Permutation_nil_l in Hperm|]. cbn [bind call].
  split; [by eapply (StoreFacts.total_positive inv pool)|]. intros draw _.
  destruct (debitFor _ _ _ _ _) as [t s2]. by eexists.
Qed.

Definition supply (s : store) : Z := sum_over (spare s) nodes.

Lemma spare_nonneg s n : 0 <= spare s n.
Proof. unfold spare. destruct (inv n); [|lia]. case_bool_decide; lia. Qed.

Lemma supply_somewhere s : 0 < supply s -> exists n, n ∈ nodes /\ 0 < spare s n.
Proof.
  unfold supply. induction nodes as [|n ns IH]; [done|]. rewrite sum_over_cons. intros Hpos.
  destruct (decide (0 < spare s n)); [exists n; split; [left|done]|].
  destruct IH as (m & ? & ?); [pose proof (spare_nonneg s n); lia|]. exists m. split; [by right|done].
Qed.

(** A pick takes one. *)
Lemma supply_pick s s' n :
  NoDup nodes -> (forall m, load s' m = load s m + (if decide (m = n) then 1 else 0)) -> supply s - 1 <= supply s'.
Proof.
  intros Hnd Hl. unfold supply.
  assert (Hother : forall m, m <> n -> spare s' m = spare s m).
  { intros m Hm. apply spare_same. rewrite Hl, decide_False by done. lia. }
  assert (Hown : spare s n - 1 <= spare s' n).
  { unfold spare. destruct (inv n) as [i|]; [|lia]. case_bool_decide; [lia|]. rewrite (Hl n), decide_True by done. lia. }
  clear Hl. induction Hnd as [|m ns Hm _ IH]; [cbn; lia|]. rewrite !sum_over_cons.
  destruct (decide (m = n)) as [->|Hne]; [|rewrite (Hother m Hne); lia].
  rewrite (sum_over_ext (spare s') (spare s) ns); [lia|]. intros a Ha. apply Hother. by intros ->.
Qed.

(** While there is supply, every placement succeeds. *)
Lemma placements_served k s :
  NoDup nodes -> (forall n, 0 <= load s n) -> Z.of_nat k <= supply s ->
  spec StoreFacts.draws_safe steady (fun r => length r.1 = k) (StoreFacts.placements pool k s).
Proof.
  intros Hnd. revert s. induction k as [|k IH]; intros s Hnn Hk; cbn [StoreFacts.placements]; [done|].
  destruct (supply_somewhere s) as (n & Hn & Hsp); [lia|].
  eapply spec_bind; [apply spec_and; [by apply (pickWarmNode_complete s n)|apply (StoreFacts.pickWarmNode_sound inv nodes pool)]|].
  intros [r s1] [(picked & Hp) Hs]. cbn [fst] in Hp. subst r. destruct picked as [m addr]. cbn beta iota in *.
  destruct Hs as (i & _ & _ & _ & _ & Hload).
  eapply spec_bind; [apply (IH s1)|].
  - intros m'. rewrite Hload. pose proof (Hnn m'). case_decide; lia.
  - pose proof (supply_pick s s1 m Hnd Hload). lia.
  - intros [rest s2] Hlen. simpl in *. by f_equal.
Qed.
End placement.

(** ** What the nodes were asked for *)

Lemma sum_over_mono {A} (f g : A -> Z) (l : list A) :
  (forall a, a ∈ l -> f a <= g a) -> sum_over f l <= sum_over g l.
Proof.
  induction l as [|a l IH]; intros Hfg; [done|]. rewrite !sum_over_cons.
  pose proof (Hfg a ltac:(left)). assert (sum_over f l <= sum_over g l); [|lia]. apply IH. intros b Hb. apply Hfg. by right.
Qed.

Lemma asked_entry specs key :
  NoDup (Driver.spec_key <$> specs) ->
  Driver.asked specs key = 0 \/
  exists sp, sp ∈ specs /\ Driver.spec_key sp = key /\ Driver.sdWarm sp = Driver.asked specs key.
Proof.
  unfold Driver.asked. induction specs as [|sp specs IH]; intros Hnd; [by left|].
  rewrite fmap_cons in Hnd. apply NoDup_cons in Hnd as [Hnot Hnd]. rewrite sum_over_cons. case_decide as Hk.
  - right. exists sp. split_and!; [left|done|].
    rewrite (sum_over_ext _ (fun _ => 0)), sum_over_zero; [lia|]. intros a Ha. rewrite decide_False; [done|].
    intros Hka. apply Hnot. apply list_elem_of_fmap. exists a. split; [congruence|done].
  - destruct (IH Hnd) as [->|(sp' & ? & ? & ?)]; [by left|]. right. exists sp'. split_and!; [by right|done|lia].
Qed.

(** Every node has warmed what the driver's last request to it names. *)
Definition provisioned (inv : string -> result NodeInventory) (fleet : list Driver.nodeView)
    (desired : list Driver.desiredPool) : Prop :=
  forall n, n ∈ fleet -> exists i, inv (Driver.nvName n) = Ok i /\ niAddress i <> "" /\
    forall sp, sp ∈ Driver.node_specs (Driver.nvName n) desired ->
      exists pc, pc ∈ niPools i /\ Driver.key_of_capacity pc = Driver.spec_key sp /\ pcWarm pc = Driver.sdWarm sp.

Lemma own_key_matches pc : poolCapacityMatches pc (Driver.key_of_capacity pc) = true.
Proof. unfold poolCapacityMatches, Driver.key_of_capacity. cbn. by rewrite !bool_decide_true. Qed.

Lemma fresh_load inv key n : StoreFacts.load inv key NewScatterGatherStore n = 0.
Proof.
  unfold StoreFacts.load. destruct (inv n); [|done]. unfold StoreFacts.counted, reservationFor. simpl. by case_decide.
Qed.

Lemma provisioned_spare inv fleet desired key n :
  provisioned inv fleet desired -> n ∈ fleet ->
  Driver.asked (Driver.node_specs (Driver.nvName n) desired) key <= spare inv key NewScatterGatherStore (Driver.nvName n).
Proof.
  intros Hp Hn. destruct (Hp n Hn) as (i & Hi & Haddr & Hsp).
  pose proof (spare_nonneg inv key NewScatterGatherStore (Driver.nvName n)) as Hnn.
  destruct (asked_entry _ key (Driver.node_specs_keys (Driver.nvName n) desired)) as [->|(sp & Hin & Hkey & <-)]; [done|].
  destruct (Hsp sp Hin) as (pc & Hpc & Hk & <-).
  assert (Hcap := StoreFacts.capacity_le key i pc Hpc ltac:(rewrite <-Hkey, <-Hk; apply own_key_matches)).
  unfold spare. rewrite Hi, bool_decide_false, fresh_load by done. lia.
Qed.

(** ** The key of a template *)

Definition templateNet (t : SandboxTemplate) : string :=
  let net := mget (mAnnotations (tplMeta t)) Driver.netAnnotation in
  if bool_decide (net = "") then mget (pmAnnotations (ptMeta (bpPodTemplate (tplBlueprint t)))) Driver.netAnnotation
  else net.

Definition templateKey (t : SandboxTemplate) : PoolKey :=
  PoolKeyFor (psContainers (ptSpec (bpPodTemplate (tplBlueprint t)))) (templateNet t).

(** A sandbox with the template's containers and network derives its key. *)
Lemma create_key_agrees sb t :
  sbContainers sb = psContainers (ptSpec (bpPodTemplate (tplBlueprint t))) ->
  mget (sbAnnotations sb) Rest.NetAnnotation = templateNet t ->
  Rest.poolKeyForSandbox sb = templateKey t.
Proof. unfold Rest.poolKeyForSandbox, templateKey. by intros -> ->. Qed.

(** The templates can be read. *)
Definition templates (T : string -> string -> SandboxTemplate) (X : Type) (e : Driver.DriverE X) : X -> Prop :=
  match e in Driver.DriverE X return X -> Prop with
  | Driver.DGetTemplate ns name => fun r => r = Ok (T ns name)
  | _ => fun _ => True
  end.

Definition poolOf (T : string -> string -> SandboxTemplate) (p : SandboxWarmPool) : PoolKey * Z :=
  (templateKey (T (mNamespace (wpMeta p)) (wpTemplateRef p)), match wpReplicas p with Some r => r | None => 1 end).

(** What node requests are built from. *)
Definition essence (dp : Driver.desiredPool) : PoolKey * gmap string Z := (Driver.dpKey dp, Driver.dpTargets dp).

Lemma resolve_essence T ps fleet :
  Forall (fun p => wpTemplateRef p <> "") ps ->
  spec (fun _ _ => True) (templates T)
    (fun desired => essence <$> desired = essence <$> (Driver.resolved fleet <$> (poolOf T <$> ps))) (Driver.resolve ps fleet).
Proof.
  induction 1 as [|p ps Hp _ IH]; cbn [Driver.resolve]; [done|]. unfold Driver.poolKey.
  rewrite bool_decide_false by done. cbn [bind call]. split; [done|]. intros r Hr. cbn in Hr. subst r. cbn [bind].
  eapply spec_bind; [exact IH|]. intros rest Hrest. cbn. by rewrite Hrest.
Qed.

Lemma essence_specs node d d' : essence <$> d = essence <$> d' -> Driver.node_specs node d = Driver.node_specs node d'.
Proof.
  intros He. unfold Driver.node_specs. f_equal. f_equal. f_equal. unfold Driver.targets_by_key.
  generalize (∅ : gmap PoolKey Z). revert d' He. induction d as [|dp d IH]; intros [|dp' d'] He m; try done.
  injection He as Hk Ht He. cbn [fold_left]. rewrite Hk, Ht. by apply IH.
Qed.

(** C5.  From pool to claim.  Let a driver tick resolve the warm pools [ps] over a
    fleet, their templates being readable, and let every node have warmed what it
    was asked for.  Then for any sandbox, as many creates as the replicas of all
    the pools that resolve to the sandbox's own key are each placed on a node:
    none is refused for want of capacity, whatever the draws, while the
    inventories stand. *)
Theorem pool_serves_replicas (T : string -> string -> SandboxTemplate) (ps : list SandboxWarmPool)
    (fleet : list Driver.nodeView) (sb : Sandbox) (k : nat) (inv : string -> result NodeInventory) :
  fleet <> [] -> NoDup (Driver.nvName <$> fleet) -> Forall (fun p => wpTemplateRef p <> "") ps ->
  Z.of_nat k <= sum_over (fun kr => if decide (kr.1 = Rest.poolKeyForSandbox sb) then Z.max 0 kr.2 else 0) (poolOf T <$> ps) ->
  spec (fun _ _ => True) (templates T)
    (fun desired => provisioned inv fleet desired ->
       spec StoreFacts.draws_safe (StoreFacts.steady inv (Driver.nvName <$> fleet)) (fun r => length r.1 = k)
         (StoreFacts.placements (Rest.poolKeyForSandbox sb) k NewScatterGatherStore))
    (Driver.resolve ps fleet).
Proof.
  intros Hne Hnd Hps Hk. eapply spec_mono; [done| |by apply resolve_essence]. intros desired He Hp.
  apply placements_served; [done|intros n; by rewrite fresh_load|]. etrans; [exact Hk|].
  rewrite <-(Driver.fleet_asked fleet (poolOf T <$> ps)) by done. unfold supply. rewrite sum_over_fmap.
  apply sum_over_mono. intros n Hn. rewrite <-(essence_specs _ _ _ He). by apply (provisioned_spare inv fleet desired).
Qed.

(** ** Cold starts *)

(** The object the claim controller submits for a cold start carries no network
    annotation, so a create derives the default network from it.  When the
    template asks for another network, the pool warmed for that template has a
    different key and serves none of its claims. *)
Theorem cold_start_misses_pool `{ConditionLib} `{OwnerLaws} qn lv domains (c : SandboxClaim) (t : SandboxTemplate) :
  templateNet t <> "" -> templateNet t <> NetDefault ->
  calls (fun X e => match e with
                    | ClaimController.CCreateSandbox sb => Rest.poolKeyForSandbox sb <> templateKey t
                    | _ => True
                    end) (ClaimController.createSandbox qn lv domains c t).
Proof.
  intros Hne Hnd. unfold ClaimController.createSandbox.
  destruct (match scVolumeClaimTemplates c with [] => _ | _ => _ end) as [vcts|e]; [|done].
  destruct (ClaimController.mergePodMetadata _ _ _ _ _) as [merged|e]; [|done].
  destruct (ClaimController.injectClaimEnvs _ _ _) as [ps|e]; [|done].
  destruct (SetControllerReference _ _) as [m|e] eqn:Es; [|done].
  split; [|by intros [sb|e] _]. destruct (set_controller_frame _ _ _ Es) as [rs ->].
  unfold Rest.poolKeyForSandbox, templateKey, PoolKeyFor. intros Hk. apply (f_equal Net) in Hk. cbn [Net] in Hk.
  rewrite (bool_decide_false (templateNet t = "")) in Hk by done.
  match type of Hk with (if bool_decide (?x = "") then _ else _) = _ => assert (Hann : x = "") end.
  { unfold mget, sbAnnotations. cbn [sbMeta set_mOwnerReferences mAnnotations]. rewrite lookup_insert_ne by done.
    destruct (ClaimController.scAnnotations c !! _) as [tc|]; [by rewrite lookup_singleton_ne|by rewrite lookup_empty]. }
  rewrite Hann, bool_decide_true in Hk by done. by apply Hnd.
Qed.

(** ** Three replicas on two nodes *)

Module SupplyDemo.

Definition container : Container := mkContainer "main" "img" (mkResources None None) (mkResources None None) [] [].
Definition podTemplate : PodTemplate :=
  mkPodTemplate (mkPodSpec [container] [] [] "" ∅ [] None None None "" None "") (mkPodMetadata ∅ ∅).
Definition template : SandboxTemplate := mkTemplate emptyMeta (mkBlueprint podTemplate [] None) None "" "" "".
Definition warmPool : SandboxWarmPool :=
  mkWarmPool (mkMeta "web" "" "prod" "" "" 0 0 None ∅ ∅ []) (Some 3) "tmpl" None 0 0 "".
Definition sandbox : Sandbox := mkSandbox emptyMeta (mkSandboxSpec (mkBlueprint podTemplate [] None) None None ModeUnset) emptyStatus.
Definition fleet : list Driver.nodeView := [Driver.mkNodeView "a" "a:1" ∅; Driver.mkNodeView "b" "b:1" ∅].

Definition inventory (n : string) : result NodeInventory :=
  Ok (mkInventory "7" n [] (n +:+ ":1") [mkPoolCapacity "img" "none" "small" (if bool_decide (n = "a") then 2 else 1) 2]).

Definition drive (X : Type) (e : Driver.DriverE X) (s : unit) : X * unit :=
  (match e in Driver.DriverE X return X with
   | Driver.DListPools => Ok [warmPool]
   | Driver.DListNodes => Ok ["a"; "b"]
   | Driver.DNodeInventory n => inventory n
   | Driver.DGetTemplate _ _ => Ok template
   | Driver.DSetPools _ _ _ => Ok None
   | Driver.DStatusUpdate _ => None
   end, s).

Definition tick : list Driver.desiredPool := (run drive (Driver.resolve [warmPool] fleet) tt).1.

Lemma tick_provisioned : provisioned inventory fleet tick.
Proof.
  intros n Hn. exists (mkInventory "7" (Driver.nvName n) [] (Driver.nvName n +:+ ":1")
    [mkPoolCapacity "img" "none" "small" (if bool_decide (Driver.nvName n = "a") then 2 else 1) 2]).
  split; [done|]. apply elem_of_cons in Hn as [->|Hn]; [|apply elem_of_cons in Hn as [->|Hn]; [|by apply elem_of_nil in Hn]].
  all: split; [done|]; intros sp Hsp; eexists; split; [left|]; vm_compute in Hsp;
    apply elem_of_cons in Hsp as [->|Hsp]; [done|by apply elem_of_nil in Hsp].
Qed.

Lemma pool_serves_replicas_witness :
  Rest.poolKeyForSandbox sandbox = templateKey template /\
  spec StoreFacts.draws_safe (StoreFacts.steady inventory ["a"; "b"]) (fun r => length r.1 = 3%nat)
    (StoreFacts.placements (Rest.poolKeyForSandbox sandbox) 3 NewScatterGatherStore).
Proof.
  split; [reflexivity|].
  pose proof (pool_serves_replicas (fun _ _ => template) [warmPool] fleet sandbox 3 inventory) as Hs.
  refine (proj1 (spec_run _ _ _ drive _ tt _ (Hs _ _ _ _)) tick_provisioned).
  - intros X e s. by destruct e.
  - discriminate.
  - apply (bool_decide_unpack (NoDup ["a"; "b"])). vm_compute. exact I.
  - repeat constructor. discriminate.
  - vm_compute. discriminate.
Defined.
End SupplyDemo.
End Supply.
