(* ===== verification/LoadEnd.v ===== *)
(** * LoadEnd: the load generators against the server they measure.

    What the generators send and how they read the answers, composed with the REST
    storage ([Rest]) and the claim controller's measurements ([Metrics]). *)

From S2P Require Import Prelude GoStrings K8s PoolKey SandboxId Types StoreModel StoreFacts Rest Metrics LoadGen ClaimLoad Supply.

Module LoadEnd.
Import Pool ClaimRef Store Rest.Rest.
#[local] Open Scope prog_scope.

(** The generator reads the annotations the storage writes. *)
Lemma annotation_keys_agree :
  LoadGen.addressAnnotation = AddressAnnotation /\ LoadGen.tokenAnnotation = TokenAnnotation /\
  LoadGen.claimIDAnnotation = ClaimIDAnnotation.
Proof. done. Qed.

(** Its sandboxes come from one pool: its image, the default network, small. *)
Lemma load_pool_key ns name image :
  poolKeyForSandbox (LoadGen.newSandbox ns name image) = mkPoolKey image NetDefault "small".
Proof. done. Qed.

(** The pool the claiming generator sets up is the one the other generator's
    creates are served from, when both use one image. *)
Lemma setup_pool_serves_creates o ns name :
  Supply.templateKey (ClaimLoad.setupTemplate o) =
  poolKeyForSandbox (LoadGen.newSandbox ns name (ClaimLoad.oImage o)).
Proof. done. Qed.

(** The node calls of a create of the generator. *)
Definition load_calls `{OwnerLib} (ns name image : string) (X : Type) (e : RestE X) : Prop :=
  match e with
  | RStore (ESandboxd _ _ (SdClaim spec)) =>
      spec = mkClaimSpec image NetDefault "small" 0 (formatClaimRef ns name (ownerUIDOf (LoadGen.newSandbox ns name image)))
  | RStore (ESandboxd _ _ _) => False
  | _ => True
  end.

(** A create of the generator, end to end: the node is asked for the generator's
    pool only; a sandbox comes back under the name asked for with the claim id the
    store remembers, where the generator looks for it; a failure is counted as
    no-warm-503, conflict or internal-500, never as anything else. *)
Theorem load_create_served `{ConditionLaws} `{OwnerLib} cfg ns name image s t0 :
  ns <> "" -> name <> "" ->
  spec (load_calls ns name image) (rest_timely t0)
    (fun '(r, s') =>
       match r with
       | Ok out => sbName out = name /\ exists pc, pending s' !! key_of ns name = Some pc /\
           mget (sbAnnotations out) LoadGen.claimIDAnnotation = ieID (pcEntry pc)
       | Err e => LoadGen.classify e ∈ ["no-warm-503"; "conflict"; "internal-500"]
       end)
    (Create cfg ns s (OSandbox (LoadGen.newSandbox ns name image)) None).
Proof.
  intros Hns Hname. unfold Create. rewrite (bool_decide_false (ns = "")) by done.
  set (sb := LoadGen.newSandbox ns name image).
  rewrite (bool_decide_false (sbName sb = "")) by done. cbn [andb bind].
  change (sbName sb) with name. rewrite (bool_decide_false (name = "")) by done.
  eapply spec_bind.
  { apply spec_translate. eapply spec_mono; [| |apply (StoreFacts.Claim_spec cfg t0)]; [|intros a Ha; exact Ha].
    intros X e He. destruct e as [| | | |Y addr tok c|]; try done; by destruct c. }
  intros [[a|e] s'] Hpost; cbn beta iota; cbn [fst snd] in Hpost.
  - destruct Hpost as (pc & (Hp & _) & Hn & Hid & _). cbn [bind call]. split; [done|].
    intros uid _. split; [done|]. intros now _. split; [done|]. exists pc. split; [done|]. rewrite Hid.
    unfold mget, sbAnnotations, synthesizeClaimedSandbox. cbn [sbMeta mAnnotations].
    repeat case_bool_decide;
      rewrite ?(lookup_insert_ne _ TokenAnnotation), ?(lookup_insert_ne _ AddressAnnotation) by done;
      by rewrite lookup_insert_eq.
  - repeat case_match; simpl; set_solver.
Qed.

(** A deadline that a transport wraps is not counted as a timeout. *)
Lemma wrapped_deadline_is_other msg :
  LoadGen.classify LoadGen.DeadlineExceeded = "timeout" /\
  LoadGen.classify (Wrap msg LoadGen.DeadlineExceeded) = "other".
Proof. done. Qed.

(** ** What the stamp on a claim measures *)

(** The annotation the claiming generator sets is not the one the end-to-end
    latency is computed from: for its claims that metric gets no sample. *)
Lemma stamped_claim_unmeasured formatTime o name now parseTime lt tpl pool :
  Metrics.recordClaimStartupLatency parseTime (ClaimLoad.newClaim formatTime o name now) lt tpl pool = Ret tt.
Proof. done. Qed.

End LoadEnd.
