(* ===== verification/WebhookCerts.v ===== *)
(** * WebhookCerts: the conversion webhook's certificates.

    Models [cmd/cocoon-sandbox-operator/tls.go] and the part of [main] that runs
    it: every replica of the operator loads the shared certificate Secret or
    generates and shares one, writes the serving files, and patches the CRDs'
    conversion webhooks with the CA bundle.

    Key generation, signing and the clock are events; PEM is a class with the
    laws of [encoding/pem] that matter.  A file is named by its directory and
    name, which [filepath.Join] joins. *)

From S2P Require Import Prelude GoStrings K8s Interleave.

Module WebhookCerts.
#[local] Open Scope prog_scope.

(** ** Cluster objects *)

(** [Data] of the Secret. *)
Abbreviation Secret := strmap.

Record ServiceReference := mkServiceReference {
  srName : string; srNamespace : string; srPath : option string; srPort : option Z
}.
Record WebhookClientConfig := mkClientConfig {
  ccService : option ServiceReference; ccCABundle : string; ccURL : option string
}.
Record WebhookConversion := mkWebhookConversion {
  wcConversionReviewVersions : list string; wcClientConfig : option WebhookClientConfig
}.
Record CustomResourceConversion := mkConversion {
  cvStrategy : string; cvWebhook : option WebhookConversion
}.
(** [crdRest]: the fields this code does not read. *)
Record CRD := mkCRD { crdName : string; crdConversion : option CustomResourceConversion; crdRest : Z }.

#[export] Instance ServiceReference_eq_dec : EqDecision ServiceReference.
Proof. solve_decision. Defined.
#[export] Instance WebhookClientConfig_eq_dec : EqDecision WebhookClientConfig.
Proof. solve_decision. Defined.
#[export] Instance WebhookConversion_eq_dec : EqDecision WebhookConversion.
Proof. solve_decision. Defined.
#[export] Instance CustomResourceConversion_eq_dec : EqDecision CustomResourceConversion.
Proof. solve_decision. Defined.

Definition WebhookConverter : string := "Webhook".

(** ** Certificates *)

Inductive KeyUsage := KeyUsageCertSign | KeyUsageDigitalSignature | KeyUsageKeyEncipherment.
Inductive ExtKeyUsage := ExtKeyUsageServerAuth.

Record Certificate := mkCertificate {
  ctSerialNumber : Z; ctCommonName : string; ctNotBefore : Z; ctNotAfter : Z;
  ctKeyUsage : list KeyUsage; ctExtKeyUsage : list ExtKeyUsage; ctIsCA : bool;
  ctBasicConstraintsValid : bool; ctDNSNames : list string
}.

Class PEM := { EncodeToMemory : string -> string -> string; Decode : string -> option (string * string) }.

(** What [EncodeToMemory] writes decodes to its block; nothing decodes to none. *)
Class PEMLaws `{PEM} := {
  Decode_Encode ty bytes : Decode (EncodeToMemory ty bytes) = Some (ty, bytes);
  Decode_empty : Decode "" = None
}.

(** ** What a starting replica calls *)

(** A private key is known by a number; the certificate calls take the key whose
    public half is certified and the key that signs. *)
Inductive CertE : Type -> Type :=
| CGetSecret (name namespace : string) : CertE (result Secret)
| CCreateSecret (name namespace : string) (data : Secret) : CertE (option gerror)
| CGenerateKey : CertE (result Z)
| CNow : CertE Z
| CCreateCertificate (template parent : Certificate) (subject signer : Z) : CertE (result string)
| CMarshalKey (key : Z) : CertE (result string)
| CMkdirAll (dir : string) : CertE (option gerror)
| CWriteFile (dir name data : string) : CertE (option gerror)
| CGetCRD (name : string) : CertE (result CRD)
| CPatchCRD (crd original : CRD) : CertE (option gerror).

(** [if err != nil { return ..., fmt.Errorf(msg, err) }]. *)
Definition orFail {A B} (msg : string) (p : prog CertE (result A)) (k : A -> prog CertE (result B)) :
    prog CertE (result B) :=
  r <- p;; match r with Ok a => k a | Err e => Ret (Err (Wrap msg e)) end.

Definition unlessError {B} (msg : string) (p : prog CertE (option gerror)) (k : prog CertE (result B)) :
    prog CertE (result B) :=
  e <- p;; match e with None => k | Some e => Ret (Err (Wrap msg e)) end.

Definition secretName : string := "cocoon-sandbox-webhook-certs".

Definition writeCertFiles (certDir serverPEM serverKeyPEM : string) : prog CertE (option gerror) :=
  e <- call (CMkdirAll certDir);;
  match e with
  | Some e => Ret (Some e)
  | None =>
      e <- call (CWriteFile certDir "tls.crt" serverPEM);;
      match e with
      | Some e => Ret (Some e)
      | None => call (CWriteFile certDir "tls.key" serverKeyPEM)
      end
  end.

Section certs.
Context `{PEM}.

Definition validatePEMBytes (caPEM serverPEM serverKeyPEM : string) : option gerror :=
  if bool_decide (caPEM = "") || bool_decide (serverPEM = "") || bool_decide (serverKeyPEM = "")
  then Some (Errorf "missing certificate or key data")
  else if bool_decide (Decode caPEM = None) then Some (Errorf "invalid CA certificate PEM data")
  else if bool_decide (Decode serverPEM = None) then Some (Errorf "invalid server certificate PEM data")
  else if bool_decide (Decode serverKeyPEM = None) then Some (Errorf "invalid server private key PEM data")
  else None.

(** The branch that serves what a Secret holds: validate, write, return the CA. *)
Definition loadSecret (certDir invalid unwritable : string) (secret : Secret) : prog CertE (result string) :=
  let caPEM := mget secret "ca.crt" in
  let serverPEM := mget secret "tls.crt" in
  let serverKeyPEM := mget secret "tls.key" in
  match validatePEMBytes caPEM serverPEM serverKeyPEM with
  | Some e => Ret (Err (Wrap invalid e))
  | None => unlessError unwritable (writeCertFiles certDir serverPEM serverKeyPEM) (Ret (Ok caPEM))
  end.

Definition oneHour : Z := 3600 * time_second.
Definition oneYear : Z := 365 * 24 * oneHour.

Definition dnsNames (serviceName namespace clusterDomain : string) : list string :=
  [serviceName; serviceName +:+ "." +:+ namespace; serviceName +:+ "." +:+ namespace +:+ ".svc";
   serviceName +:+ "." +:+ namespace +:+ ".svc." +:+ clusterDomain].

Definition caTemplate (notBefore notAfter : Z) : Certificate :=
  mkCertificate 1 "cocoon-sandbox-conversion-webhook-ca" notBefore notAfter
    [KeyUsageCertSign; KeyUsageDigitalSignature] [] true true [].

Definition serverTemplate (serviceName namespace clusterDomain : string) (notBefore notAfter : Z) : Certificate :=
  mkCertificate 2 (serviceName +:+ "." +:+ namespace +:+ ".svc") notBefore notAfter
    [KeyUsageDigitalSignature; KeyUsageKeyEncipherment] [ExtKeyUsageServerAuth] false true
    (dnsNames serviceName namespace clusterDomain).

Definition newSecret (caPEM serverPEM serverKeyPEM : string) : Secret :=
  <["ca.crt" := caPEM]> (<["tls.crt" := serverPEM]> (<["tls.key" := serverKeyPEM]> ∅)).

(** Step 5: another replica may have created the Secret meanwhile. *)
Definition shareSecret (certDir namespace caPEM : string) (secret : Secret) : prog CertE (result string) :=
  err <- call (CCreateSecret secretName namespace secret);;
  match err with
  | None => Ret (Ok caPEM)
  | Some err =>
      if IsAlreadyExists err then
        orFail "failed to get concurrently created Secret" (call (CGetSecret secretName namespace)) (fun secret =>
          loadSecret certDir "shared Secret has invalid certificate data during concurrent load"
            "failed to overwrite certificate files locally" secret)
      else Ret (Err (Wrap "failed to create shared Secret" err))
  end.

Definition generateNew (certDir serviceName namespace clusterDomain : string) : prog CertE (result string) :=
  orFail "failed to generate CA private key" (call CGenerateKey) (fun caKey =>
  before <- call CNow;; after <- call CNow;;
  let ca := caTemplate (time_Add before (- oneHour)) (time_Add after oneYear) in
  orFail "failed to create CA certificate" (call (CCreateCertificate ca ca caKey caKey)) (fun caBytes =>
  let caPEM := EncodeToMemory "CERTIFICATE" caBytes in
  orFail "failed to generate server private key" (call CGenerateKey) (fun serverKey =>
  before <- call CNow;; after <- call CNow;;
  let server := serverTemplate serviceName namespace clusterDomain (time_Add before (- oneHour)) (time_Add after oneYear) in
  orFail "failed to create server certificate" (call (CCreateCertificate server ca serverKey caKey)) (fun serverBytes =>
  let serverPEM := EncodeToMemory "CERTIFICATE" serverBytes in
  orFail "failed to marshal server private key" (call (CMarshalKey serverKey)) (fun serverKeyBytes =>
  let serverKeyPEM := EncodeToMemory "EC PRIVATE KEY" serverKeyBytes in
  unlessError "failed to write certificate files locally" (writeCertFiles certDir serverPEM serverKeyPEM)
    (shareSecret certDir namespace caPEM (newSecret caPEM serverPEM serverKeyPEM))))))).

Definition generateWebhookCerts (certDir serviceName namespace clusterDomain : string) : prog CertE (result string) :=
  r <- call (CGetSecret secretName namespace);;
  match r with
  | Ok secret =>
      loadSecret certDir "shared Secret has invalid certificate data" "failed to write certificate files locally" secret
  | Err err =>
      if negb (IsNotFound err) then Ret (Err (Wrap "failed to check for existing shared Secret" err))
      else generateNew certDir serviceName namespace clusterDomain
  end.
End certs.

(** ** Patching the CRDs *)

Definition crdNames (extensions : bool) : list string :=
  "sandboxes.agents.x-k8s.io" ::
  (if extensions then ["sandboxclaims.extensions.agents.x-k8s.io"; "sandboxtemplates.extensions.agents.x-k8s.io";
                       "sandboxwarmpools.extensions.agents.x-k8s.io"] else []).

Definition webhookOf (caPEM serviceName namespace : string) (webhook : option WebhookConversion) : WebhookConversion :=
  let webhook := default (mkWebhookConversion [] None) webhook in
  let versions := if bool_decide (wcConversionReviewVersions webhook = []) then ["v1"; "v1beta1"]
                  else wcConversionReviewVersions webhook in
  let cc := default (mkClientConfig None "" None) (wcClientConfig webhook) in
  let service := default (mkServiceReference "" "" None None) (ccService cc) in
  mkWebhookConversion versions
    (Some (mkClientConfig (Some (mkServiceReference serviceName namespace (Some "/convert") (srPort service)))
             caPEM (ccURL cc))).

Definition usesWebhook (crd : CRD) : option CustomResourceConversion :=
  match crdConversion crd with
  | Some cv => if bool_decide (cvStrategy cv <> WebhookConverter) then None else Some cv
  | None => None
  end.

Definition patched (caPEM serviceName namespace : string) (crd : CRD) (cv : CustomResourceConversion) : CRD :=
  mkCRD (crdName crd)
    (Some (mkConversion (cvStrategy cv) (Some (webhookOf caPEM serviceName namespace (cvWebhook cv))))) (crdRest crd).

Fixpoint patchAll (caPEM serviceName namespace : string) (names : list string) : prog CertE (option gerror) :=
  match names with
  | [] => Ret None
  | name :: names =>
      r <- call (CGetCRD name);;
      match r with
      | Err err => if IsNotFound err then patchAll caPEM serviceName namespace names
                   else Ret (Some (Wrap "failed to get CRD" err))
      | Ok crd =>
          match usesWebhook crd with
          | None => patchAll caPEM serviceName namespace names
          | Some cv =>
              e <- call (CPatchCRD (patched caPEM serviceName namespace crd cv) crd);;
              match e with
              | Some err => Ret (Some (Wrap "failed to patch CRD" err))
              | None => patchAll caPEM serviceName namespace names
              end
          end
      end
  end.

Definition patchCRDs (caPEM serviceName namespace : string) (extensions : bool) : prog CertE (option gerror) :=
  patchAll caPEM serviceName namespace (crdNames extensions).

(** The start-up of [main] with managed certificates; an error ends the process. *)
Definition prepareWebhooks `{PEM} (certDir serviceName namespace clusterDomain : string) (extensions : bool) :
    prog CertE (result string) :=
  r <- generateWebhookCerts certDir serviceName namespace clusterDomain;;
  match r with
  | Err e => Ret (Err e)
  | Ok caPEM => unlessError "failed to patch CRDs with CA bundle" (patchCRDs caPEM serviceName namespace extensions)
                  (Ret (Ok caPEM))
  end.

(** ** The cluster and a replica's machine *)

Record cluster := mkCluster { clSecrets : gmap (string * string) Secret; clCRDs : gmap string CRD }.

(** The files of a replica, the CRDs it patched, and those it saw absent or
    without webhook conversion. *)
Record machine := mkMachine {
  mcFiles : gmap (string * string) string; mcPatched : gset string; mcPassed : gset string
}.

Definition set_file (f : string * string) (data : string) (l : machine) : machine :=
  mkMachine (<[f := data]> (mcFiles l)) (mcPatched l) (mcPassed l).
Definition mark_patched (n : string) (l : machine) : machine :=
  mkMachine (mcFiles l) ({[n]} ∪ mcPatched l) (mcPassed l).
Definition mark_passed (n : string) (l : machine) : machine :=
  mkMachine (mcFiles l) (mcPatched l) ({[n]} ∪ mcPassed l).

(** A merge patch, [client.MergeFrom(original)] applied to the current object:
    what the writer did not change stays as it is by now. *)
Section merge.
Context {A : Type} `{EqDecision A}.
Definition mergeField (original modified current : A) : A :=
  if decide (original = modified) then current else modified.
Definition mergeOpt (merge : A -> A -> A -> A) (zero : A) (original modified current : option A) : option A :=
  if decide (original = modified) then current
  else match modified with
       | None => None
       | Some m => Some (merge (default zero original) m (default zero current))
       end.
End merge.

Definition mergeService (o m c : ServiceReference) : ServiceReference :=
  mkServiceReference (mergeField (srName o) (srName m) (srName c))
    (mergeField (srNamespace o) (srNamespace m) (srNamespace c))
    (mergeField (srPath o) (srPath m) (srPath c)) (mergeField (srPort o) (srPort m) (srPort c)).
Definition mergeClientConfig (o m c : WebhookClientConfig) : WebhookClientConfig :=
  mkClientConfig (mergeOpt mergeService (mkServiceReference "" "" None None) (ccService o) (ccService m) (ccService c))
    (mergeField (ccCABundle o) (ccCABundle m) (ccCABundle c)) (mergeField (ccURL o) (ccURL m) (ccURL c)).
Definition mergeWebhook (o m c : WebhookConversion) : WebhookConversion :=
  mkWebhookConversion
    (mergeField (wcConversionReviewVersions o) (wcConversionReviewVersions m) (wcConversionReviewVersions c))
    (mergeOpt mergeClientConfig (mkClientConfig None "" None) (wcClientConfig o) (wcClientConfig m) (wcClientConfig c)).
Definition mergeConversion (o m c : CustomResourceConversion) : CustomResourceConversion :=
  mkConversion (mergeField (cvStrategy o) (cvStrategy m) (cvStrategy c))
    (mergeOpt mergeWebhook (mkWebhookConversion [] None) (cvWebhook o) (cvWebhook m) (cvWebhook c)).
Definition mergeCRD (o m c : CRD) : CRD :=
  mkCRD (crdName c) (mergeOpt mergeConversion (mkConversion "" None) (crdConversion o) (crdConversion m) (crdConversion c))
    (mergeField (crdRest o) (crdRest m) (crdRest c)).

Definition putSecret (k : string * string) (d : Secret) (s : cluster) : cluster :=
  mkCluster (<[k := d]> (clSecrets s)) (clCRDs s).
Definition putCRD (n : string) (c : CRD) (s : cluster) : cluster := mkCluster (clSecrets s) (<[n := c]> (clCRDs s)).

(** The answers of the API server and the machine.  A write that is reported as
    failed may have been applied; a failed file write may leave anything. *)
Definition answers (X : Type) (e : CertE X) (s : cluster) (l : machine) : X -> cluster -> machine -> Prop :=
  match e in CertE X return X -> cluster -> machine -> Prop with
  | CGetSecret n ns => fun x s' l' =>
      s' = s /\ l' = l /\
      match clSecrets s !! (ns, n) with
      | Some d => x = Ok d \/ exists err, x = Err err /\ IsNotFound err = false
      | None => exists err, x = Err err
      end
  | CCreateSecret n ns d => fun x s' l' =>
      l' = l /\
      match clSecrets s !! (ns, n) with
      | Some _ => s' = s /\ exists err, x = Some err
      | None => (x = None /\ s' = putSecret (ns, n) d s) \/
                (exists err, x = Some err /\ IsAlreadyExists err = false /\ (s' = s \/ s' = putSecret (ns, n) d s))
      end
  | CGenerateKey => fun _ s' l' => s' = s /\ l' = l
  | CNow => fun _ s' l' => s' = s /\ l' = l
  | CCreateCertificate _ _ _ _ => fun _ s' l' => s' = s /\ l' = l
  | CMarshalKey _ => fun _ s' l' => s' = s /\ l' = l
  | CMkdirAll _ => fun _ s' l' => s' = s /\ l' = l
  | CWriteFile dir name data => fun x s' l' =>
      s' = s /\ match x with
                | None => l' = set_file (dir, name) data l
                | Some _ => l' = l \/ exists junk, l' = set_file (dir, name) junk l
                end
  | CGetCRD name => fun x s' l' =>
      s' = s /\
      match x with
      | Ok c => clCRDs s !! name = Some c /\ crdName c = name /\
                l' = match usesWebhook c with Some _ => l | None => mark_passed name l end
      | Err err => if IsNotFound err then clCRDs s !! name = None /\ l' = mark_passed name l else l' = l
      end
  | CPatchCRD m o => fun x s' l' =>
      match clCRDs s !! crdName m with
      | None => s' = s /\ l' = l /\ exists err, x = Some err
      | Some c => let applied := putCRD (crdName m) (mergeCRD o m c) s in
                  (x = None /\ s' = applied /\ l' = mark_patched (crdName m) l) \/
                  (exists err, x = Some err /\ l' = l /\ (s' = s \/ s' = applied))
      end
  end.

(** The CA bundle the API server trusts when it converts. *)
Definition bundle (c : CRD) : option string :=
  cv ← crdConversion c; w ← cvWebhook cv; cc ← wcClientConfig w; Some (ccCABundle cc).

Definition converts (c : CRD) : Prop := is_Some (usesWebhook c).

Section agreement.
Context `{PEM} (certDir serviceName namespace clusterDomain : string) (extensions : bool).

Definition theSecret (s : cluster) : option Secret := clSecrets s !! (namespace, secretName).

(** Secrets are written once; a CRD whose bundle is the shared CA keeps it. *)
Definition rely (s s' : cluster) : Prop :=
  (forall k d, clSecrets s !! k = Some d -> clSecrets s' !! k = Some d) /\
  (forall n c, clCRDs s !! n = Some c -> exists c', clCRDs s' !! n = Some c' /\ (converts c -> converts c') /\
     forall d, theSecret s = Some d -> bundle c = Some (mget d "ca.crt") -> bundle c' = Some (mget d "ca.crt")).

#[local] Instance rely_preorder : PreOrder rely.
Proof.
  split.
  - intros s. split; [done|]. intros n c Hc. by exists c.
  - intros s1 s2 s3 [Hs1 Hc1] [Hs2 Hc2]. split; [by auto|]. intros n c Hc.
    destruct (Hc1 n c Hc) as (c2 & Hc' & Hw & Hb). destruct (Hc2 n c2 Hc') as (c3 & Hc3 & Hw' & Hb').
    exists c3. split; [done|]. split; [by auto|]. intros d Hd Hbd. apply Hb'; [by apply Hs1|by apply Hb].
Qed.

Abbreviation rg := (Interleave.rg answers rely).

(** What a replica that came up can rely on. *)
Definition serving (d : Secret) (l : machine) : Prop :=
  mcFiles l !! (certDir, "tls.crt") = Some (mget d "tls.crt") /\
  mcFiles l !! (certDir, "tls.key") = Some (mget d "tls.key").

Definition bundled (ca : string) (s : cluster) (l : machine) : Prop :=
  forall n, n ∈ mcPatched l -> exists c, clCRDs s !! n = Some c /\ converts c /\ bundle c = Some ca.

Definition unpatched (l : machine) : Prop := mcPatched l = ∅ /\ mcPassed l = ∅.

Definition loaded (r : result string) (s : cluster) (l : machine) : Prop :=
  unpatched l /\
  forall ca, r = Ok ca -> ca <> "" /\ exists d, theSecret s = Some d /\ ca = mget d "ca.crt" /\ serving d l.

Definition stable (Q : cluster -> Prop) : Prop := forall s s', rely s s' -> Q s -> Q s'.

Lemma stable_secret d : stable (fun s => theSecret s = Some d).
Proof. intros s s' [Hs _] Hd. by apply Hs. Qed.

Lemma stable_bundled d l : stable (fun s => theSecret s = Some d /\ bundled (mget d "ca.crt") s l).
Proof.
  intros s s' Hr [Hd Hb]. split; [by eapply stable_secret|]. intros n Hn.
  destruct (Hb n Hn) as (c & Hc & Hw & Hca). destruct (proj2 Hr n c Hc) as (c' & Hc' & Hw' & Hca').
  exists c'. auto.
Qed.

(** Calls that touch neither the cluster nor the replica's record. *)
Definition local_call (X : Type) (e : CertE X) : Prop :=
  match e with
  | CGenerateKey | CNow | CCreateCertificate _ _ _ _ | CMarshalKey _ | CMkdirAll _ | CGetSecret _ _ => True
  | _ => False
  end.

Lemma local_answers X (e : CertE X) s l x s' l' : local_call X e -> answers X e s l x s' l' -> s' = s /\ l' = l.
Proof. destruct e; cbn; tauto. Qed.

Lemma rg_local {X B} (e : CertE X) (k : X -> prog CertE B) post s l :
  local_call X e -> (forall x s', rely s s' -> rg post (k x) s' l) -> rg post (bind (call e) k) s l.
Proof.
  intros He Hk. cbn [bind call Interleave.rg]. intros s1 x s2 l' Hs1 Ha.
  destruct (local_answers _ _ _ _ _ _ _ He Ha) as [-> ->]. split; [done|]. by apply Hk.
Qed.

Lemma rg_ret {A} (post : A -> cluster -> machine -> Prop) r s l :
  (forall s', rely s s' -> post r s' l) -> rg post (Ret r) s l.
Proof. done. Qed.

Lemma rg_write {B} dir name data (k : option gerror -> prog CertE B) post s l :
  (forall x s' l', rely s s' -> mcPatched l' = mcPatched l -> mcPassed l' = mcPassed l ->
     (forall f, f <> (dir, name) -> mcFiles l' !! f = mcFiles l !! f) ->
     (x = None -> mcFiles l' !! (dir, name) = Some data) -> rg post (k x) s' l') ->
  rg post (bind (call (CWriteFile dir name data)) k) s l.
Proof.
  intros Hk. cbn [bind call Interleave.rg answers]. intros s1 x s2 l' Hs1 [-> Hl]. split; [done|].
  destruct x as [e|]; [destruct Hl as [->|[junk ->]]|subst l']; apply Hk; try done;
    cbn [set_file mcFiles]; intros; first [by rewrite lookup_insert_ne|by rewrite lookup_insert_eq].
Qed.

Lemma writeCertFiles_rg (Q : cluster -> Prop) crt key s l :
  stable Q -> Q s -> unpatched l ->
  rg (fun e s' l' => Q s' /\ unpatched l' /\
        (e = None -> mcFiles l' !! (certDir, "tls.crt") = Some crt /\ mcFiles l' !! (certDir, "tls.key") = Some key))
    (writeCertFiles certDir crt key) s l.
Proof.
  intros HQ Hs [Hl1 Hl2]. unfold writeCertFiles. apply rg_local; [done|]. intros [e|] s1 Hs1.
  { intros s' Hs'. split; [|by split]. eapply HQ; [|exact Hs]. by etrans. }
  apply rg_write. intros [e|] s2 l2 Hs2 Hp2 Hq2 _ Hf2.
  { intros s' Hs'. split; [|split; [|done]; split; congruence]. eapply HQ; [|exact Hs]. by do 2 etrans. }
  change (call (CWriteFile certDir "tls.key" key)) with (bind (call (CWriteFile certDir "tls.key" key)) Ret).
  apply rg_write. intros x s3 l3 Hs3 Hp3 Hq3 Hf3 Hk3 s' Hs'. split; [|split; [split; congruence|]].
  - eapply HQ; [|exact Hs]. by do 3 etrans.
  - intros ->. split; [|by apply Hk3]. rewrite Hf3 by done. by apply Hf2.
Qed.

Lemma loaded_error e s l : unpatched l -> rg loaded (Ret (Err e)) s l.
Proof. intros Hl s' _. by split. Qed.

Lemma validate_nonempty ca crt key : validatePEMBytes ca crt key = None -> ca <> "".
Proof. unfold validatePEMBytes. intros Hv ->. by rewrite (bool_decide_true ("" = "")) in Hv. Qed.

Lemma loadSecret_rg d invalid unwritable s l :
  theSecret s = Some d -> unpatched l -> rg loaded (loadSecret certDir invalid unwritable d) s l.
Proof.
  intros Hd Hl. unfold loadSecret. destruct (validatePEMBytes _ _ _) eqn:Ev; [by apply loaded_error|].
  apply validate_nonempty in Ev. unfold unlessError. eapply (Interleave.rg_bind answers rely).
  - by apply (writeCertFiles_rg (fun s => theSecret s = Some d)), Hl; [apply stable_secret|].
  - intros [e|] s1 l1 (Hd1 & Hl1 & Hf); [by apply loaded_error|]. intros s2 Hs2. split; [done|].
    intros ca [= <-]. split; [done|]. exists d. split; [by eapply stable_secret|]. split; [done|]. by apply Hf.
Qed.

Lemma getSecret_rg {B} (k : result Secret -> prog CertE B) post s l :
  (forall d s', rely s s' -> theSecret s' = Some d -> rg post (k (Ok d)) s' l) ->
  (forall e s', rely s s' -> rg post (k (Err e)) s' l) ->
  rg post (bind (call (CGetSecret secretName namespace)) k) s l.
Proof.
  intros Hok Herr. cbn [bind call Interleave.rg answers]. intros s1 x s2 l' Hs1 (-> & -> & Hx). split; [done|].
  destruct (clSecrets s1 !! (namespace, secretName)) as [d|] eqn:Ed; [destruct Hx as [->|[e [-> _]]]|destruct Hx as [e ->]]; auto.
Qed.

Lemma newSecret_lookup ca crt key :
  mget (newSecret ca crt key) "ca.crt" = ca /\ mget (newSecret ca crt key) "tls.crt" = crt /\
  mget (newSecret ca crt key) "tls.key" = key.
Proof.
  unfold newSecret, mget. rewrite lookup_insert_eq. rewrite (lookup_insert_ne _ "ca.crt" "tls.crt") by done.
  rewrite lookup_insert_eq. rewrite (lookup_insert_ne _ "ca.crt" "tls.key") by done.
  rewrite (lookup_insert_ne _ "tls.crt" "tls.key") by done. by rewrite lookup_insert_eq.
Qed.

Lemma putSecret_rely k d s : clSecrets s !! k = None -> rely s (putSecret k d s).
Proof.
  intros Hk. split.
  - intros k' d' Hd'. cbn. rewrite lookup_insert_ne by congruence. done.
  - intros n c Hc. by exists c.
Qed.

Lemma shareSecret_rg ca crt key s l :
  ca <> "" -> unpatched l ->
  mcFiles l !! (certDir, "tls.crt") = Some crt -> mcFiles l !! (certDir, "tls.key") = Some key ->
  rg loaded (shareSecret certDir namespace ca (newSecret ca crt key)) s l.
Proof.
  intros Hca Hl Hcrt Hkey. unfold shareSecret. cbn [bind call Interleave.rg answers].
  intros s1 x s2 l' Hs1 [-> Hx]. destruct (clSecrets s1 !! (namespace, secretName)) as [d|] eqn:Ed.
  - destruct Hx as [-> [e ->]]. split; [done|]. destruct (IsAlreadyExists e); [|by apply loaded_error].
    unfold orFail. apply getSecret_rg; [|by intros; apply loaded_error].
    intros d' s' Hs' Hd'. by apply loadSecret_rg.
  - destruct Hx as [[-> ->]|(e & -> & -> & Hs2)].
    + split; [by apply putSecret_rely|]. intros s' Hs'. split; [done|]. intros ca' [= <-]. split; [done|].
      destruct (newSecret_lookup ca crt key) as (E1 & E2 & E3). exists (newSecret ca crt key).
      split; [eapply stable_secret; [exact Hs'|]; by apply lookup_insert_eq|]. split; [done|]. by split; rewrite ?E2, ?E3.
    + split; [destruct Hs2 as [->| ->]; [done|by apply putSecret_rely]|]. by apply loaded_error.
Qed.

Lemma EncodeToMemory_nonempty `{!PEMLaws} ty bytes : EncodeToMemory ty bytes <> "".
Proof. intros E. pose proof (Decode_Encode ty bytes) as Hd. by rewrite E, Decode_empty in Hd. Qed.

Lemma generateNew_rg `{!PEMLaws} s l :
  unpatched l -> rg loaded (generateNew certDir serviceName namespace clusterDomain) s l.
Proof.
  intros Hl. unfold generateNew, orFail, unlessError.
  repeat first [apply rg_local; [done|]; intros [?|?] ? ?; [|by apply loaded_error]
               |apply rg_local; [done|]; intros ? ? ?; apply rg_local; [done|]; intros ? ? ?].
  eapply (Interleave.rg_bind answers rely); [by apply (writeCertFiles_rg (fun _ => True))|].
  intros [e|] s1 l1 (_ & Hl1 & Hf); [by apply loaded_error|].
  destruct (Hf eq_refl). apply shareSecret_rg; [apply EncodeToMemory_nonempty|done..].
Qed.

Lemma generateWebhookCerts_rg `{!PEMLaws} s l :
  unpatched l -> rg loaded (generateWebhookCerts certDir serviceName namespace clusterDomain) s l.
Proof.
  intros Hl. unfold generateWebhookCerts. apply getSecret_rg.
  - intros d s' _ Hd. by apply loadSecret_rg.
  - intros e s' _. destruct (IsNotFound e); [by apply generateNew_rg|by apply loaded_error].
Qed.

(** ** Patching keeps the bundle *)

Lemma usesWebhook_Some c cv :
  usesWebhook c = Some cv <-> crdConversion c = Some cv /\ cvStrategy cv = WebhookConverter.
Proof.
  unfold usesWebhook. destruct (crdConversion c) as [cv'|]; [|naive_solver].
  destruct (decide (cvStrategy cv' = WebhookConverter)) as [E|E].
  - rewrite bool_decide_false by tauto. naive_solver.
  - rewrite bool_decide_true by done. naive_solver.
Qed.

Definition webhookBundle (w : option WebhookConversion) : option string :=
  w ← w; cc ← wcClientConfig w; Some (ccCABundle cc).

Lemma mergeClientConfig_bundle ca svc port url o cur :
  ca <> "" -> ((ccCABundle <$> o) = Some ca -> (ccCABundle <$> cur) = Some ca) ->
  (ccCABundle <$> mergeOpt mergeClientConfig (mkClientConfig None "" None) o
                    (Some (mkClientConfig (Some (mkServiceReference svc namespace (Some "/convert") port)) ca url)) cur)
  = Some ca.
Proof.
  intros Hca Hcur. unfold mergeOpt. case_decide as E; [by subst; apply Hcur|]. cbn [fmap option_fmap option_map mergeClientConfig ccCABundle].
  unfold mergeField. case_decide as E'; [|done]. f_equal. destruct o as [o|]; cbn in E'; [|done].
  destruct cur as [cur|]; cbn in *; naive_solver.
Qed.

Lemma bundle_client w : webhookBundle (Some w) = ccCABundle <$> wcClientConfig w.
Proof. unfold webhookBundle. cbn. by destruct (wcClientConfig w). Qed.

Lemma mergeWebhook_bundle ca svc o cur :
  ca <> "" -> (webhookBundle o = Some ca -> webhookBundle cur = Some ca) ->
  webhookBundle (mergeOpt mergeWebhook (mkWebhookConversion [] None) o (Some (webhookOf ca svc namespace o)) cur) = Some ca.
Proof.
  intros Hca Hcur. unfold mergeOpt. case_decide as E.
  - apply Hcur. rewrite E, bundle_client. done.
  - rewrite bundle_client. cbn [mergeWebhook wcClientConfig webhookOf].
    apply mergeClientConfig_bundle; [done|].
    destruct o as [o|], cur as [cur|]; rewrite ?bundle_client in Hcur; cbn in *; done.
Qed.

Lemma mergeCRD_bundle ca svc o cv cur :
  usesWebhook o = Some cv -> ca <> "" -> converts cur -> (bundle o = Some ca -> bundle cur = Some ca) ->
  bundle (mergeCRD o (patched ca svc namespace o cv) cur) = Some ca /\
  converts (mergeCRD o (patched ca svc namespace o cv) cur).
Proof.
  intros [Ho Hst]%usesWebhook_Some Hca [cvc [Hc Hstc]%usesWebhook_Some] Hcur.
  assert (Hb : forall c v, crdConversion c = Some v -> bundle c = webhookBundle (cvWebhook v)).
  { intros c v Hv. unfold bundle. by rewrite Hv. }
  rewrite (Hb _ _ Ho), (Hb _ _ Hc) in Hcur.
  destruct (decide (crdConversion o = crdConversion (patched ca svc namespace o cv))) as [E|E].
  - assert (crdConversion (mergeCRD o (patched ca svc namespace o cv) cur) = Some cvc) as Hm.
    { cbn [mergeCRD crdConversion]. unfold mergeOpt. by rewrite decide_True. }
    rewrite (Hb _ _ Hm). split; [|by exists cvc; apply usesWebhook_Some].
    apply Hcur. rewrite Ho in E. injection E as ->. cbn [cvWebhook]. by rewrite bundle_client.
  - set (m := mkConversion (cvStrategy cv) (Some (webhookOf ca svc namespace (cvWebhook cv)))).
    assert (crdConversion (mergeCRD o (patched ca svc namespace o cv) cur) = Some (mergeConversion cv m cvc)) as Hm.
    { cbn [mergeCRD crdConversion]. unfold mergeOpt. rewrite decide_False by done. by rewrite Ho, Hc. }
    rewrite (Hb _ _ Hm). split; [by apply mergeWebhook_bundle|].
    exists (mergeConversion cv m cvc). apply usesWebhook_Some. split; [done|].
    cbn [mergeConversion cvStrategy m]. unfold mergeField. by rewrite decide_True.
Qed.

Lemma putCRD_rely n c c' s :
  clCRDs s !! n = Some c -> (converts c -> converts c') ->
  (forall d, theSecret s = Some d -> bundle c = Some (mget d "ca.crt") -> bundle c' = Some (mget d "ca.crt")) ->
  rely s (putCRD n c' s).
Proof.
  intros Hc Hw Hb. split; [done|]. intros n' c'' Hc''. cbn [putCRD clCRDs]. destruct (decide (n = n')) as [<-|Hne].
  - rewrite lookup_insert_eq. replace c'' with c by congruence. by exists c'.
  - rewrite lookup_insert_ne by done. by exists c''.
Qed.

(** What a replica has achieved while patching. *)
Definition patching (d : Secret) (done : list string) (s : cluster) (l : machine) : Prop :=
  theSecret s = Some d /\ serving d l /\ bundled (mget d "ca.crt") s l /\
  forall n, n ∈ done -> n ∈ mcPatched l ∪ mcPassed l.

Lemma patching_rely d done s s' l : rely s s' -> patching d done s l -> patching d done s' l.
Proof.
  intros Hr (Hd & Hs & Hb & Hdone). destruct (stable_bundled d l s s' Hr (conj Hd Hb)) as [Hd' Hb']. by split.
Qed.

Lemma patching_passed d n done s l : patching d done s l -> patching d (n :: done) s (mark_passed n l).
Proof.
  intros (Hd & Hs & Hb & Hdone). split; [done|]. split; [done|]. split; [exact Hb|]. cbn [mark_passed mcPatched mcPassed].
  intros n' [->|Hn]%elem_of_cons; [set_solver|]. specialize (Hdone n' Hn). set_solver.
Qed.

Lemma patching_patched d n done s l c' :
  patching d done s l ->
  converts c' -> bundle c' = Some (mget d "ca.crt") -> patching d (n :: done) (putCRD n c' s) (mark_patched n l).
Proof.
  intros (Hd & Hs & Hb & Hdone) Hw Hca. split; [done|]. split; [done|].
  split; [unfold bundled|]; cbn [mark_patched mcPatched mcPassed putCRD clCRDs].
  - intros n' Hn'. destruct (decide (n = n')) as [<-|Hne].
    + exists c'. by rewrite lookup_insert_eq.
    + rewrite lookup_insert_ne by done. apply Hb. set_solver.
  - intros n' [->|Hn]%elem_of_cons; [set_solver|]. specialize (Hdone n' Hn). set_solver.
Qed.

Definition patchedAll (d : Secret) (names : list string) (e : option gerror) (s : cluster) (l : machine) : Prop :=
  e = None -> patching d names s l.

Lemma patchAll_rg d svc names done s l :
  mget d "ca.crt" <> "" -> patching d done s l ->
  rg (patchedAll d (rev names ++ done)) (patchAll (mget d "ca.crt") svc namespace names) s l.
Proof.
  intros Hca. revert done s l. induction names as [|n names IH]; intros done s l Hp; cbn [patchAll rev app].
  { intros s' Hs' _. by eapply patching_rely. }
  cbn [bind call Interleave.rg answers]. intros s1 x s2 l' Hs1 [-> Hx]. split; [done|].
  assert (patching d done s1 l) as Hp1 by (by eapply patching_rely). rewrite <-app_assoc. cbn [app].
  destruct x as [c|e].
  - destruct Hx as (Hc & Hname & ->). destruct (usesWebhook c) as [cv|] eqn:Ew; [|by apply IH, patching_passed].
    cbn [bind call Interleave.rg answers]. cbn [patched crdName]. rewrite Hname. intros s2 x s3 l3 Hs2 Hx.
    destruct (proj2 Hs2 n c Hc) as (cur & Hcur & Hw & Hbun). rewrite Hcur in Hx.
    assert (patching d done s2 l) as Hp2 by (by eapply patching_rely).
    destruct (mergeCRD_bundle (mget d "ca.crt") svc c cv cur) as [Hb' Hw'];
      [done..|apply Hw; by exists cv|by apply Hbun, Hp1|].
    assert (rely s2 (putCRD n (mergeCRD c (patched (mget d "ca.crt") svc namespace c cv) cur) s2)) as Hput.
    { apply (putCRD_rely n cur); [done..|]. intros d' Hd' _. destruct Hp2 as [Hd2 _]. by simplify_eq. }
    destruct Hx as [(-> & -> & ->)|(e & -> & -> & Hs3)].
    + split; [done|]. by apply IH, patching_patched.
    + split; [by destruct Hs3 as [->| ->]|]. by intros s' _.
  - destruct (IsNotFound e); [|by intros s' _]. destruct Hx as [_ ->]. by apply IH, patching_passed.
Qed.

(** A replica that came up: its files are the shared certificate and key, and
    every CRD it found converting through the webhook trusts the shared CA. *)
Definition up (r : result string) (s : cluster) (l : machine) : Prop :=
  forall ca, r = Ok ca -> ca <> "" /\ exists d, theSecret s = Some d /\ ca = mget d "ca.crt" /\ serving d l /\
    bundled ca s l /\ forall n, n ∈ crdNames extensions -> n ∈ mcPatched l ∪ mcPassed l.

Lemma prepareWebhooks_rg `{!PEMLaws} s l :
  unpatched l -> rg up (prepareWebhooks certDir serviceName namespace clusterDomain extensions) s l.
Proof.
  intros Hl. unfold prepareWebhooks. eapply (Interleave.rg_bind answers rely); [by apply generateWebhookCerts_rg|].
  intros [ca|e] s1 l1 [[Hl1 Hl2] Hload]; [|by intros s' _]. destruct (Hload ca eq_refl) as (Hca & d & Hd & -> & Hs).
  unfold unlessError. eapply (Interleave.rg_bind answers rely).
  - apply (patchAll_rg d serviceName (crdNames extensions) []); [done|]. split; [done|]. split; [done|].
    split; [intros n Hn; set_solver|set_solver].
  - intros [e|] s2 l2 Hp; [by intros s' _|]. specialize (Hp eq_refl). rewrite app_nil_r in Hp.
    intros s3 Hs3 ca [= <-]. pose proof (patching_rely _ _ _ _ _ Hs3 Hp) as (Hd3 & Hf3 & Hb3 & Hn3).
    split; [done|]. exists d. split_and!; try done. intros n Hn. apply Hn3, list_elem_of_In. rewrite <-in_rev. by apply list_elem_of_In.
Qed.

(** C19.  The replicas agree on the webhook's certificate.  However the calls of
    any number of starting replicas interleave, with replicas joining at any time
    and reported failures that may have been applied: the shared Secret, once it
    exists, is never replaced; every replica that came up serves exactly the
    certificate and key of that Secret, has seen every CRD it is responsible for,
    and each CRD it found converting through a webhook names the Secret's CA as
    its bundle, whichever replicas patched it since.  Two replicas that came up
    thus serve the same certificate under the same CA. *)
Theorem replicas_serve_trusted_certificate `{!PEMLaws} s s' ts :
  Interleave.steps answers (prepareWebhooks certDir serviceName namespace clusterDomain extensions) unpatched
    (s, []) (s', ts) ->
  (forall d, theSecret s = Some d -> theSecret s' = Some d) /\
  (forall r l, mkThread (Ret r) l ∈ ts -> up r s' l) /\
  (forall ca1 ca2 l1 l2, mkThread (Ret (Ok ca1)) l1 ∈ ts -> mkThread (Ret (Ok ca2)) l2 ∈ ts ->
     ca1 = ca2 /\ mcFiles l1 !! (certDir, "tls.crt") = mcFiles l2 !! (certDir, "tls.crt") /\
     mcFiles l1 !! (certDir, "tls.key") = mcFiles l2 !! (certDir, "tls.key")).
Proof.
  intros Hsteps. destruct (rg_sound answers rely _ _ up s s' ts (fun s l => prepareWebhooks_rg s l) Hsteps) as [Hr Hup].
  split; [intros d; by apply (stable_secret d)|]. split; [done|]. intros ca1 ca2 l1 l2 H1 H2.
  destruct (Hup _ _ H1 ca1 eq_refl) as (_ & d1 & Hd1 & -> & [Hc1 Hk1] & _).
  destruct (Hup _ _ H2 ca2 eq_refl) as (_ & d2 & Hd2 & -> & [Hc2 Hk2] & _). simplify_eq. by rewrite Hc1, Hc2, Hk1, Hk2.
Qed.
End agreement.

(** ** The chain that is shared *)

(** A Secret this code creates holds a self-signed CA and a server certificate
    signed by that CA's key, for the key it comes with and for the name the API
    server dials. *)
Definition chained `{PEM} (serviceName namespace : string) (h : list (event CertE)) (d : Secret) : Prop :=
  exists ca server caKey serverKey caBytes serverBytes keyBytes,
    Ev (CCreateCertificate ca ca caKey caKey) (Ok caBytes) ∈ h /\
    Ev (CCreateCertificate server ca serverKey caKey) (Ok serverBytes) ∈ h /\
    Ev (CMarshalKey serverKey) (Ok keyBytes) ∈ h /\
    ctIsCA ca = true /\ (serviceName +:+ "." +:+ namespace +:+ ".svc") ∈ ctDNSNames server /\
    d = newSecret (EncodeToMemory "CERTIFICATE" caBytes) (EncodeToMemory "CERTIFICATE" serverBytes)
          (EncodeToMemory "EC PRIVATE KEY" keyBytes).

Definition created (X : Type) (e : CertE X) (_ : X) : option Secret :=
  match e with CCreateSecret _ _ d => Some d | _ => None end.

Lemma writeCertFiles_uncreated dir crt key : calls (ignores created) (writeCertFiles dir crt key).
Proof. unfold writeCertFiles. solve_calls; by intros ?. Qed.

Lemma loadSecret_uncreated `{PEM} dir m1 m2 d : calls (ignores created) (loadSecret dir m1 m2 d).
Proof. unfold loadSecret, unlessError. solve_calls. apply writeCertFiles_uncreated. Qed.

Lemma shareSecret_created `{PEM} dir ns ca d h :
  witnessed created h = [] ->
  history any_answer (fun _ h' => witnessed created h' = [d] /\ forall ev, ev ∈ h -> ev ∈ h') (shareSecret dir ns ca d) h.
Proof.
  intros Hh. unfold shareSecret. cbn [bind call history]. intros x _.
  assert (witnessed created (h ++ [Ev (CCreateSecret secretName ns d) x]) = [d]) as H1 by (by rewrite witnessed_app, Hh).
  assert (forall rest, calls (ignores created) rest ->
            history any_answer (fun (_ : result string) h' => witnessed created h' = [d] /\ forall ev, ev ∈ h -> ev ∈ h') rest
              (h ++ [Ev (CCreateSecret secretName ns d) x])) as Hrest.
  { intros rest Hc. eapply history_mono; [|apply history_and; [by apply (calls_unseen created)|apply history_extends]].
    cbn beta. intros _ h' [Hw [new ->]]. rewrite Hw. split; [done|]. intros ev Hev. by do 2 apply pool_left. }
  apply Hrest. destruct x as [e|]; [|done]. destruct (IsAlreadyExists e); [|done]. unfold orFail. solve_calls; [by intros ?|].
  apply loadSecret_uncreated.
Qed.

Lemma generateNew_chain `{PEM} certDir svc ns domain h0 :
  witnessed created h0 = [] ->
  history any_answer (fun _ h => Forall (chained svc ns h) (witnessed created h)) (generateNew certDir svc ns domain) h0.
Proof.
  intros H0. unfold generateNew, orFail, unlessError.
  assert (Hnone : forall (e : gerror) h, witnessed created h = [] ->
            history any_answer (fun (_ : result string) h => Forall (chained svc ns h) (witnessed created h)) (Ret (Err e)) h)
    by (intros e h Hh; cbn; by rewrite Hh).
  cbn [bind call history]. intros [caKey|e] _; [|apply Hnone; by rewrite witnessed_app, H0].
  cbn [bind call history]. intros before _ after _. set (ca := caTemplate _ _).
  intros [caBytes|e] _; [|apply Hnone; by rewrite !witnessed_app, H0].
  cbn [bind call history]. intros [serverKey|e] _; [|apply Hnone; by rewrite !witnessed_app, H0].
  cbn [bind call history]. intros before' _ after' _. set (server := serverTemplate _ _ _ _ _).
  intros [serverBytes|e] _; [|apply Hnone; by rewrite !witnessed_app, H0].
  cbn [bind call history]. intros [keyBytes|e] _; [|apply Hnone; by rewrite !witnessed_app, H0].
  match goal with |- history _ _ _ ?h => set (h1 := h) end.
  assert (witnessed created h1 = []) as H1 by (unfold h1; by rewrite !witnessed_app, H0).
  eapply history_bind; [apply history_and; [by apply (calls_unseen created), writeCertFiles_uncreated|apply history_extends]|].
  cbn beta. intros [e|] h' [Hw [new ->]]; rewrite H1 in Hw; [by apply Hnone|].
  eapply history_mono; [|by apply shareSecret_created]. cbn beta. intros _ h2 [-> Hsub]. apply Forall_singleton.
  exists ca, server, caKey, serverKey, caBytes, serverBytes, keyBytes.
  split_and!; try reflexivity; try (apply Hsub, pool_left; repeat (apply pool_last || apply pool_left)).
  cbn. do 2 apply list_elem_of_further. apply list_elem_of_here.
Qed.

Theorem created_chain `{PEM} certDir svc ns domain :
  history any_answer (fun _ h => Forall (chained svc ns h) (witnessed created h))
    (generateWebhookCerts certDir svc ns domain) [].
Proof.
  unfold generateWebhookCerts. cbn [bind call history]. intros [d|e] _.
  - eapply history_mono; [|apply (calls_unseen created), loadSecret_uncreated]. cbn beta. intros _ h ->. by constructor.
  - destruct (IsNotFound e); cbn [negb]; [by apply generateNew_chain|by constructor].
Qed.

(** ** A race of two replicas *)

Module CertDemo.

Fixpoint tagged (ty bytes : string) : string :=
  match ty with EmptyString => String "0" bytes | String c ty => String "1" (String c (tagged ty bytes)) end.
Fixpoint untagged (s : string) : option (string * string) :=
  match s with
  | String f s =>
      if bool_decide (f = "0"%char) then Some ("", s)
      else match s with
           | String c s => match untagged s with Some (ty, b) => Some (String c ty, b) | None => None end
           | EmptyString => None
           end
  | EmptyString => None
  end.

#[local] Instance demo_pem : PEM := {| EncodeToMemory := tagged; Decode := untagged |}.
#[local] Instance demo_pem_laws : PEMLaws.
Proof.
  split; [|done]. intros ty bytes. cbn. induction ty as [|c ty IH]; cbn [tagged untagged]; [by rewrite bool_decide_true|].
  rewrite bool_decide_false by done. by rewrite IH.
Qed.

(** Each replica signs with bytes of its own, taken from a file of its image. *)
Definition ident (l : machine) : string := default "" (mcFiles l !! ("", "id")).

Definition NotFoundErr : gerror := APIStatus ReasonNotFound "x".
Definition ExistsErr : gerror := APIStatus ReasonAlreadyExists "x".

Definition respond (X : Type) (e : CertE X) (s : cluster) (l : machine) : X * cluster * machine :=
  match e in CertE X return X * cluster * machine with
  | CGetSecret n ns => (match clSecrets s !! (ns, n) with Some d => Ok d | None => Err NotFoundErr end, s, l)
  | CCreateSecret n ns d =>
      match clSecrets s !! (ns, n) with
      | Some _ => (Some ExistsErr, s, l)
      | None => (None, putSecret (ns, n) d s, l)
      end
  | CGenerateKey => (Ok 1, s, l)
  | CNow => (0, s, l)
  | CCreateCertificate t _ _ _ => (Ok (pretty (ctSerialNumber t) +:+ ident l), s, l)
  | CMarshalKey _ => (Ok (ident l), s, l)
  | CMkdirAll _ => (None, s, l)
  | CWriteFile dir name data => (None, s, set_file (dir, name) data l)
  | CGetCRD name =>
      match clCRDs s !! name with
      | Some c => if decide (crdName c = name)
                  then (Ok c, s, match usesWebhook c with Some _ => l | None => mark_passed name l end)
                  else (Err (Errorf "misnamed"), s, l)
      | None => (Err NotFoundErr, s, mark_passed name l)
      end
  | CPatchCRD m o =>
      match clCRDs s !! crdName m with
      | Some c => (None, putCRD (crdName m) (mergeCRD o m c) s, mark_patched (crdName m) l)
      | None => (Some NotFoundErr, s, l)
      end
  end.

Lemma respond_answers X e s l : let '(x, s', l') := respond X e s l in answers X e s l x s' l'.
Proof.
  destruct e; cbn; repeat case_match; simplify_eq; cbn; eauto 7; repeat (split || eexists); eauto; try congruence;
    try (rewrite H; eauto).
Qed.

Definition sandboxesCRD : CRD :=
  mkCRD "sandboxes.agents.x-k8s.io" (Some (mkConversion "Webhook" None)) 0.
Definition cluster0 : cluster := mkCluster ∅ {["sandboxes.agents.x-k8s.io" := sandboxesCRD]}.
Definition image (id : string) : machine := mkMachine {[("", "id") := id]} ∅ ∅.
Definition boot : prog CertE (result string) := prepareWebhooks "/certs" "webhook" "system" "cluster.local" false.

(** Both see no Secret; the second then comes up alone, the first loses. *)
Definition race : cluster * list (thread (E := CertE)) :=
  play (fun X e s l => Some (respond X e s l)) [(0, 1); (1, 100); (0, 100)]%nat cluster0 [mkThread boot (image "A"); mkThread boot (image "B")].

Lemma race_reached :
  Interleave.steps answers boot unpatched (cluster0, []) race.
Proof.
  eapply steps_l; [by apply (step_join answers boot unpatched cluster0 [] (image "A"))|].
  eapply steps_l; [by apply (step_join answers boot unpatched cluster0 [_] (image "B"))|].
  apply (play_steps answers boot unpatched). intros X e s l x s' l' [= H]. generalize (respond_answers X e s l). by rewrite H.
Qed.

Definition caB : string := EncodeToMemory "CERTIFICATE" "1B".

Lemma replicas_serve_trusted_certificate_witness :
  match race.2 with
  | [t1; t2] => code t1 = Ret (Ok caB) /\ code t2 = Ret (Ok caB)
  | _ => False
  end /\
  (bundle <$> clCRDs race.1 !! "sandboxes.agents.x-k8s.io") = Some (Some caB) /\
  forall r l, mkThread (Ret r) l ∈ race.2 -> up "/certs" "system" false r race.1 l.
Proof.
  split; [vm_compute; split; reflexivity|]. split; [vm_compute; reflexivity|].
  pose proof race_reached as Hr. rewrite (surjective_pairing race) in Hr.
  exact (proj1 (proj2 (replicas_serve_trusted_certificate "/certs" "webhook" "system" "cluster.local" false
    cluster0 race.1 race.2 Hr))).
Defined.
End CertDemo.

End WebhookCerts.
