(* ===== verification/ApiserverMain.v ===== *)
(** * ApiserverMain: how the aggregated apiserver is put together.

    Models [run] of [cmd/sandbox-apiserver/main.go]: the options, the key and
    token files, and the wiring of the store, the data-plane gateway, the
    warm-pool driver, the e2b surface and the API server.  Building the generic
    server, the inventory cache and the manager is library code: events. *)

From S2P Require Import Prelude GoStrings K8s PoolKey SandboxId Types StoreModel CocoonTypes E2bModel E2bFacts ExecGateway ExecFacts.

Module ApiserverMain.
Import Store ExecGw.
#[local] Open Scope prog_scope.

(** The options of the program's own; those of the server library are left out. *)
Record options := mkOptions {
  SandboxdToken : string; SandboxdTokenFile : string; WarmPoolDriver : bool; WarmPoolInterval : Z;
  E2BAPI : bool; E2BAddr : string; RouterAddr : string; E2BNamespace : string; E2BDomain : string;
  E2BAPIKeyFile : string; E2BAllowAnonymous : bool
}.

Definition newOptions : options := mkOptions "" "" true 0 false ":8080" ":8081" "default" "" "" false.

Inductive ServeE : Type -> Type :=
| VReadFile (path : string) : ServeE (result string)
| VServerConfig : ServeE (option gerror)                    (* serverConfig *)
| VInventoryCache : ServeE (option gerror)                  (* GetConfig, startInventoryCache *)
| VWarmPoolManager (token : string) (interval : Z) (leaderNamespace : string) : ServeE (option gerror)
| VListen (addr : string) : ServeE (option gerror)
| VServeE2B (addr : string) (srv : E2b.Server) : ServeE unit
| VServeRouter (addr : string) (gw : Gateway) : ServeE unit
| VInstallAPI (cfg : config) : ServeE (option gerror)       (* Complete, New, InstallSandboxAPI *)
| VRun : ServeE (option gerror).

Definition keyLine (line : string) : list string :=
  let line := TrimSpace line in
  if bool_decide (line <> "") && negb (HasPrefix line "#") then [line] else [].

Definition parseKeys (content : string) : list string := mjoin (keyLine <$> split_byte (ascii_of 10) content).

Definition e2bAPIKeys (o : options) : prog ServeE (result (list string)) :=
  if bool_decide (E2BAPIKeyFile o = "") then Ret (Ok [])
  else
    b <- call (VReadFile (E2BAPIKeyFile o));;
    Ret (match b with
         | Ok b => Ok (parseKeys b)
         | Err e => Err (Wrap "read e2b api key file" e)
         end).

Definition resolveSandboxdToken (o : options) : prog ServeE (result string) :=
  if bool_decide (SandboxdTokenFile o = "") then Ret (Ok (SandboxdToken o))
  else
    b <- call (VReadFile (SandboxdTokenFile o));;
    Ret (match b with
         | Ok b => Ok (TrimSpace b)
         | Err e => Err (Wrap "read sandboxd token file" e)
         end).

Definition serviceAccountNamespace : string := "/var/run/secrets/kubernetes.io/serviceaccount/namespace".

Definition currentNamespace : prog ServeE string :=
  b <- call (VReadFile serviceAccountNamespace);;
  Ret (match b with
       | Ok b => if bool_decide (TrimSpace b <> "") then TrimSpace b else "cocoon-sandbox-system"
       | Err _ => "cocoon-sandbox-system"
       end).

Definition startWarmPoolDriver (token : string) (interval : Z) : prog ServeE (option gerror) :=
  ns <- currentNamespace;; call (VWarmPoolManager token interval ns).

Definition startE2BServer (o : options) : prog ServeE (option gerror) :=
  keys <- e2bAPIKeys o;;
  match keys with
  | Err e => Ret (Some e)
  | Ok keys =>
      match E2b.NewServer true (E2b.mkOptions (E2BNamespace o) (E2BDomain o) "" keys (E2BAllowAnonymous o) "" true) with
      | Err e => Ret (Some e)
      | Ok srv =>
          e <- call (VListen (E2BAddr o));;
          match e with
          | Some e => Ret (Some (Wrap "listen on e2b address" e))
          | None => call (VServeE2B (E2BAddr o) srv);;; Ret None
          end
      end
  end.

(** The listener of [startRouter]; what it serves is [ExecGw.startRouter]. *)
Definition listenRouter (addr : string) (gw : Gateway) : prog ServeE (option gerror) :=
  e <- call (VListen addr);;
  match e with
  | Some e => Ret (Some (Wrap "listen on router address" e))
  | None => call (VServeRouter addr gw);;; Ret None
  end.

Definition when (b : bool) (p : prog ServeE (option gerror)) : prog ServeE (option gerror) :=
  if b then p else Ret None.

(** [if err != nil { return err }]. *)
Definition andThen (p : prog ServeE (option gerror)) (k : prog ServeE (option gerror)) : prog ServeE (option gerror) :=
  e <- p;; match e with Some e => Ret (Some e) | None => k end.

Definition run (o : options) : prog ServeE (option gerror) :=
  andThen (call VServerConfig) (andThen (call VInventoryCache) (
  token <- resolveSandboxdToken o;;
  match token with
  | Err e => Ret (Some e)
  | Ok token =>
      gwKeys <- e2bAPIKeys o;;
      match gwKeys with
      | Err e => Ret (Some e)
      | Ok gwKeys =>
          let gw := New true token gwKeys in
          (* WithClaimRouting(token, NewSandboxdClientFactory()), WithClaimObserver *)
          let cfg := mkConfig token true true in
          andThen (when (WarmPoolDriver o) (startWarmPoolDriver token (WarmPoolInterval o))) (
          andThen (when (E2BAPI o) (startE2BServer o)) (
          andThen (when (bool_decide (RouterAddr o <> "")) (listenRouter (RouterAddr o) gw)) (
          andThen (call (VInstallAPI cfg)) (call VRun))))
      end
  end)).

(** ** Keys *)

(** What a line of the key file can hold as a key. *)
Definition usable (k : string) : Prop :=
  k <> "" /\ TrimSpace k = k /\ HasPrefix k "#" = false /\ has_byte (ascii_of 10) k = false.

Lemma parseKeys_elem content k : k ∈ parseKeys content -> k <> "" /\ TrimSpace k = k /\ HasPrefix k "#" = false.
Proof.
  unfold parseKeys. intros (l & Hk & (line & -> & _)%list_elem_of_fmap)%list_elem_of_join. unfold keyLine in Hk.
  case_bool_decide as Hne; [|by apply elem_of_nil in Hk]. cbn [andb] in Hk.
  destruct (HasPrefix (TrimSpace line) "#") eqn:Ep; cbn in Hk; [by apply elem_of_nil in Hk|].
  apply list_elem_of_singleton in Hk as ->. by rewrite TrimSpace_idemp.
Qed.

Lemma parseKeys_lines content k :
  k ∈ parseKeys content <->
  k <> "" /\ HasPrefix k "#" = false /\ k ∈ TrimSpace <$> split_byte (ascii_of 10) content.
Proof.
  split.
  - intros Hk. destruct (parseKeys_elem _ _ Hk) as (Hne & _ & Hp). split_and!; [done..|].
    apply list_elem_of_join in Hk as (l & Hk & (line & -> & Hline)%list_elem_of_fmap). apply list_elem_of_fmap.
    exists line. split; [|done]. unfold keyLine in Hk. destruct (_ && _); [|by apply elem_of_nil in Hk].
    by apply list_elem_of_singleton in Hk.
  - intros (Hne & Hp & (line & -> & Hline)%list_elem_of_fmap). apply list_elem_of_join. exists (keyLine line).
    split; [|by apply list_elem_of_fmap_2]. unfold keyLine. rewrite (bool_decide_true _ Hne), Hp. by apply list_elem_of_singleton.
Qed.

Fixpoint unlines (keys : list string) : string :=
  match keys with [] => "" | k :: keys => k +:+ String (ascii_of 10) (unlines keys) end.

Lemma split_byte_line c a b : has_byte c a = false -> split_byte c (a +:+ String c b) = a :: split_byte c b.
Proof.
  induction a as [|d a IH]; cbn [has_byte].
  - intros _. change ("" +:+ String c b) with (String c b). cbn [split_byte]. by rewrite decide_True.
  - intros [Hd Ha]%orb_false_iff. apply bool_decide_eq_false in Hd. rewrite app_string_cons. cbn [split_byte].
    rewrite decide_False by congruence. by rewrite IH.
Qed.

Lemma parse_unlines keys : Forall usable keys -> parseKeys (unlines keys) = keys.
Proof.
  unfold parseKeys. induction 1 as [|k keys (Hne & Ht & Hp & Hn) _ IH]; cbn [unlines]; [done|].
  rewrite split_byte_line by done. cbn. unfold keyLine at 1. rewrite Ht, Hp, bool_decide_true by done. cbn. f_equal.
  exact IH.
Qed.

(** ** The wiring *)

(** Files do not change while the server starts. *)
Definition reads (files : string -> result string) (X : Type) (e : ServeE X) : X -> Prop :=
  match e with VReadFile p => fun r => r = files p | _ => fun _ => True end.

Definition keysOf (o : options) (files : string -> result string) : option (list string) :=
  if bool_decide (E2BAPIKeyFile o = "") then Some []
  else match files (E2BAPIKeyFile o) with Ok b => Some (parseKeys b) | Err _ => None end.

Definition tokenOf (o : options) (files : string -> result string) : option string :=
  if bool_decide (SandboxdTokenFile o = "") then Some (SandboxdToken o)
  else match files (SandboxdTokenFile o) with Ok b => Some (TrimSpace b) | Err _ => None end.

Definition wired (o : options) (files : string -> result string) (X : Type) (e : ServeE X) : Prop :=
  match e with
  | VServeE2B addr srv =>
      exists keys, keysOf o files = Some keys /\ addr = E2BAddr o /\
        (keys = [] -> E2BAllowAnonymous o = true) /\
        forall k, E2b.validKey srv k = true <-> k <> "" /\ k ∈ keys
  | VServeRouter addr gw =>
      keysOf o files = Some (gwAPIKeys gw) /\ tokenOf o files = Some (gwFleetToken gw) /\ addr = RouterAddr o
  | VWarmPoolManager token interval _ => tokenOf o files = Some token /\ interval = WarmPoolInterval o
  | VInstallAPI cfg =>
      tokenOf o files = Some (sandboxdToken cfg) /\ hasClaimObserver cfg = true /\ hasSandboxdFactory cfg = true
  | _ => True
  end.

Lemma e2bAPIKeys_spec o files :
  spec (wired o files) (reads files)
    (fun r => match r with Ok keys => keysOf o files = Some keys | Err _ => True end) (e2bAPIKeys o).
Proof.
  unfold e2bAPIKeys, keysOf. case_bool_decide; [done|]. cbn [bind call spec]. split; [done|]. intros b ->.
  by destruct (files (E2BAPIKeyFile o)).
Qed.

Lemma resolveSandboxdToken_spec o files :
  spec (wired o files) (reads files)
    (fun r => match r with Ok token => tokenOf o files = Some token | Err _ => True end) (resolveSandboxdToken o).
Proof.
  unfold resolveSandboxdToken, tokenOf. case_bool_decide; [done|]. cbn [bind call spec]. split; [done|]. intros b ->.
  by destruct (files (SandboxdTokenFile o)).
Qed.

Lemma keysOf_trimmed o files keys k : keysOf o files = Some keys -> k ∈ keys -> k <> "" /\ TrimSpace k = k.
Proof.
  unfold keysOf. case_bool_decide; [intros [= <-] Hk; by apply elem_of_nil in Hk|].
  destruct (files _) as [b|]; [|done]. intros [= <-] Hk. by apply parseKeys_elem in Hk as (? & ? & _).
Qed.

Lemma andThen_spec o files p k :
  spec (wired o files) (reads files) (fun _ => True) p -> spec (wired o files) (reads files) (fun _ => True) k ->
  spec (wired o files) (reads files) (fun _ => True) (andThen p k).
Proof. intros Hp Hk. eapply spec_bind; [exact Hp|]. by intros [e|] _. Qed.

Lemma startE2BServer_spec o files : spec (wired o files) (reads files) (fun _ => True) (startE2BServer o).
Proof.
  unfold startE2BServer. eapply spec_bind; [apply e2bAPIKeys_spec|]. intros [keys|e] Hkeys; [|done].
  unfold E2b.NewServer. cbn [negb E2b.opAPIKeys E2b.opAllowAnonymous].
  destruct (bool_decide _ && _) eqn:Eg; [done|]. cbn [bind call spec]. split; [done|]. intros [e|] _; [done|].
  cbn [bind call spec]. split; [|done]. exists keys. split; [done|]. split; [done|]. split.
  - intros ->. by destruct (E2BAllowAnonymous o).
  - intros k. rewrite E2bFacts.validKey_spec. cbn [E2b.svKeys]. rewrite E2bFacts.keySet_spec. split.
    + intros [[Hne (k' & -> & Hin)%list_elem_of_fmap] _]. split; [done|].
      destruct (keysOf_trimmed _ _ _ _ Hkeys Hin) as [_ ->]. done.
    + intros [Hne Hin]. split; [|done]. split; [done|]. apply list_elem_of_fmap. exists k. split; [|done].
      by destruct (keysOf_trimmed _ _ _ _ Hkeys Hin) as [_ ->].
Qed.

Lemma run_wired o files : spec (wired o files) (reads files) (fun _ => True) (run o).
Proof.
  unfold run. apply andThen_spec; [done|]. apply andThen_spec; [done|].
  eapply spec_bind; [apply resolveSandboxdToken_spec|]. intros [token|e] Htoken; [|done].
  eapply spec_bind; [apply e2bAPIKeys_spec|]. intros [keys|e] Hkeys; [|done].
  repeat apply andThen_spec; unfold when.
  - destruct (WarmPoolDriver o); [|done]. unfold startWarmPoolDriver, currentNamespace.
    cbn [bind call spec]. split; [done|]. intros b _. cbn. done.
  - destruct (E2BAPI o); [apply startE2BServer_spec|done].
  - case_bool_decide; [|done]. unfold listenRouter. cbn [bind call spec]. split; [done|]. by intros [e|] _.
  - done.
  - done.
Qed.

(** C20.  One set of credentials.  Whatever the files hold, the store, the
    warm-pool driver and the gateway present the one sandboxd token; the gateway
    and the e2b surface accept exactly the keys of the key file (its non-blank,
    non-comment lines, trimmed), so a key is good on both or on neither; the e2b
    surface is served without keys only if anonymous access was asked for; and
    the gateway hears of every claim of the store that is served.  A file of
    one key per line reads back as those keys. *)
Theorem one_credential_set (o : options) (files : string -> result string) :
  spec (wired o files) (reads files) (fun _ => True) (run o) /\
  (forall content k, k ∈ parseKeys content <->
     k <> "" /\ HasPrefix k "#" = false /\ k ∈ TrimSpace <$> split_byte (ascii_of 10) content) /\
  (forall keys, Forall usable keys -> parseKeys (unlines keys) = keys).
Proof. split_and!; [apply run_wired|apply parseKeys_lines|apply parse_unlines]. Qed.

(** ** Behaviours worth knowing *)

(** Without a key file the data plane is served to anyone who can reach it, and
    the router listens by default. *)
Theorem router_open_without_keys (o : options) (files : string -> result string) :
  E2BAPIKeyFile o = "" ->
  RouterAddr newOptions <> "" /\ E2BAPIKeyFile newOptions = "" /\
  spec (fun X e => match e with VServeRouter _ gw => forall h, authorize gw h = true | _ => True end) (reads files)
    (fun _ => True) (run o).
Proof.
  intros Hf. split_and!; [done|done|]. eapply spec_mono; [|done|apply run_wired].
  intros X [] He; try done. destruct He as [Hk _]. unfold keysOf in Hk. rewrite bool_decide_true in Hk by done.
  injection Hk as Hk. intros h. unfold authorize. by rewrite bool_decide_true.
Qed.

(** An empty sandboxd token does not disable the write path: the store is routed
    all the same, and claims go out with no credential. *)
Theorem empty_token_routes (o : options) (files : string -> result string) :
  SandboxdTokenFile o = "" -> SandboxdToken o = "" ->
  spec (fun X e => match e with
                   | VInstallAPI cfg => sandboxdToken cfg = "" /\ hasSandboxdFactory cfg = true
                   | _ => True
                   end) (reads files) (fun _ => True) (run o).
Proof.
  intros Hf Ht. eapply spec_mono; [|done|apply run_wired]. intros X [] He; try done.
  destruct He as (Hk & _ & Hr). unfold tokenOf in Hk. rewrite bool_decide_true in Hk by done.
  split; [congruence|done].
Qed.

Lemma router_open_without_keys_witness :
  spec (fun X e => match e with VServeRouter _ gw => forall h, authorize gw h = true | _ => True end)
    (reads (fun _ => Err (Errorf "no such file"))) (fun _ => True) (run newOptions).
Proof. apply (router_open_without_keys newOptions); reflexivity. Defined.

Lemma empty_token_routes_witness :
  spec (fun X e => match e with
                   | VInstallAPI cfg => sandboxdToken cfg = "" /\ hasSandboxdFactory cfg = true
                   | _ => True
                   end) (reads (fun _ => Err (Errorf "no such file"))) (fun _ => True) (run newOptions).
Proof. apply (empty_token_routes newOptions); reflexivity. Defined.

End ApiserverMain.
