(* ===== verification/OperatorMain.v ===== *)
(** * OperatorMain: how the operator is put together.

    Models [main] of [cmd/cocoon-sandbox-operator/main.go]: the flag checks, the
    webhook certificates ([WebhookCerts]), the controllers and webhooks that are
    registered, and the start.  Flag parsing, logging, the warnings about rates,
    and building the manager and its clients are left out or events. *)

From S2P Require Import Prelude GoStrings K8s Types PodRuntime WebhookCerts.

Module OperatorMain.
Import PodRuntime WebhookCerts.
#[local] Open Scope prog_scope.

Record flags := mkFlags {
  printVersion : bool; defaultRuntime : string;
  sandboxConcurrentWorkers : Z; sandboxClaimConcurrentWorkers : Z;
  sandboxWarmPoolConcurrentWorkers : Z; sandboxTemplateConcurrentWorkers : Z;
  sandboxWarmPoolMaxBatchSize : Z; kubeAPIBurst : Z;
  enableTracing : bool; enablePprof : bool; enablePprofDebug : bool;
  extensions : bool; webhookOnly : bool; disableSandboxPodManagement : bool;
  enableWarmPoolEviction : bool; sandboxWarmPoolDisableCRManagement : bool;
  manageWebhookCerts : bool; webhookCertDir : string; webhookServiceName : string; webhookNamespace : string;
  clusterDomain : string
}.

Inductive Controller :=
| SandboxReconciler (workers : Z) (domain : string) (mutator : Mutator)
| CocoonSandboxNodeController
| CocoonSandboxPoolController
| CocoonSandboxController
| SandboxClaimReconciler (workers : Z) (allowedLabelDomains : list string)
| SandboxTemplateReconciler (workers : Z) (routerNamespace : string)
| SandboxWarmPoolReconciler (workers maxBatchSize : Z) (eviction disableCRManagement : bool).

Inductive OpE : Type -> Type :=
| OCert {X} (e : CertE X) : OpE X
| OSetupTracing : OpE (option gerror)
| OTempClient : OpE (option gerror)
| OStat (dir name : string) : OpE (option gerror)
| ONewManager (debugHandlers : list string) (certDir : string) : OpE (option gerror)
| ORegisterCollector : OpE unit
| OReadFile (path : string) : OpE (result string)
| OSetup (c : Controller) : OpE (option gerror)
| OWebhook (kind : string) : OpE (option gerror)
| OHealthCheck (name : string) : OpE (option gerror)
| OStart : OpE (option gerror).

(** An error is logged and ends the process with status 1. *)
Definition orExit (p : prog OpE (option gerror)) (k : prog OpE Z) : prog OpE Z :=
  e <- p;; match e with Some _ => Ret 1 | None => k end.

Definition pprofHandlers (f : flags) : list string :=
  if enablePprof f || enablePprofDebug f then
    "/debug/pprof/profile" ::
    (if enablePprofDebug f then
       ["/debug/pprof/"; "/debug/pprof/cmdline"; "/debug/pprof/symbol"; "/debug/pprof/heap"; "/debug/pprof/goroutine";
        "/debug/pprof/allocs"; "/debug/pprof/block"; "/debug/pprof/mutex"; "/debug/pprof/trace"; "/debug/fgprof"]
     else [])
  else [].

(** [strings.FieldsFunc] on commas and line ends. *)
Definition is_separator (c : ascii) : bool := bool_decide (byte_of c = 44 \/ byte_of c = 10 \/ byte_of c = 13).

Fixpoint FieldsFunc (f : ascii -> bool) (field s : string) : list string :=
  let flush := if bool_decide (field = "") then [] else [String.rev field] in
  match s with
  | EmptyString => flush
  | String c s => if f c then flush ++ FieldsFunc f "" s else FieldsFunc f (String c field) s
  end.

(** Domains are ASCII, where [ToLower] is bytewise. *)
Definition parseDomains (data : string) : list string :=
  filter (fun d => d <> "") ((fun d => lower_ascii (TrimSpace d)) <$> FieldsFunc is_separator "" (TrimSpace data)).

Definition configPath : string := "/etc/sandbox-config/allowed-label-domains".
Definition ErrNotExist : string := "file does not exist".

(** [None]: the file exists and cannot be read. *)
Definition allowedDomains : prog OpE (option (list string)) :=
  r <- call (OReadFile configPath);;
  Ret (match r with
       | Ok data => Some (parseDomains data)
       | Err e => if errors_Is e ErrNotExist then Some [] else None
       end).

Definition setupAll (cs : list Controller) (k : prog OpE Z) : prog OpE Z :=
  foldr (fun c k => orExit (call (OSetup c)) k) k cs.

Definition setupExtensions (f : flags) (k : prog OpE Z) : prog OpE Z :=
  domains <- allowedDomains;;
  match domains with
  | None => Ret 1
  | Some domains =>
      setupAll [SandboxClaimReconciler (sandboxClaimConcurrentWorkers f) domains;
                SandboxTemplateReconciler (sandboxTemplateConcurrentWorkers f) (webhookNamespace f);
                SandboxWarmPoolReconciler (sandboxWarmPoolConcurrentWorkers f) (sandboxWarmPoolMaxBatchSize f)
                  (enableWarmPoolEviction f) (sandboxWarmPoolDisableCRManagement f)] k
  end.

Definition setupControllers (f : flags) (mutator : Mutator) (k : prog OpE Z) : prog OpE Z :=
  if webhookOnly f then k
  else
    call ORegisterCollector;;;
    setupAll ((if disableSandboxPodManagement f then []
               else [SandboxReconciler (sandboxConcurrentWorkers f) (clusterDomain f) mutator])
              ++ [CocoonSandboxNodeController; CocoonSandboxPoolController; CocoonSandboxController])
      (if extensions f then setupExtensions f k else k).

Definition extensionKinds : list string := ["SandboxClaim"; "SandboxTemplate"; "SandboxWarmPool"].

(** [order]: the extension kinds as the iteration over their map yields them. *)
Section ordered.
Context (order : list string).

Definition webhookKinds (f : flags) : list string := "Sandbox" :: (if extensions f then order else []).

Definition setupWebhooks (f : flags) (k : prog OpE Z) : prog OpE Z :=
  foldr (fun kind k => orExit (call (OWebhook kind)) k) k (webhookKinds f).

Definition prepareCerts `{PEM} (f : flags) (k : prog OpE Z) : prog OpE Z :=
  if manageWebhookCerts f then
    orExit (call OTempClient) (
    r <- translate (fun X e => @OCert X e)
           (prepareWebhooks (webhookCertDir f) (webhookServiceName f) (webhookNamespace f) (clusterDomain f) (extensions f));;
    match r with Err _ => Ret 1 | Ok _ => k end)
  else orExit (call (OStat (webhookCertDir f) "tls.crt")) (orExit (call (OStat (webhookCertDir f) "tls.key")) k).

Definition validFlags (f : flags) : bool :=
  negb (bool_decide (sandboxConcurrentWorkers f <= 0) || bool_decide (sandboxClaimConcurrentWorkers f <= 0)
        || bool_decide (sandboxWarmPoolConcurrentWorkers f <= 0))
  && negb (bool_decide (sandboxWarmPoolMaxBatchSize f <= 0)) && negb (bool_decide (kubeAPIBurst f <= 0)).

Definition main `{PEM} (f : flags) : prog OpE Z :=
  if printVersion f then Ret 0
  else
    match NewMutator (defaultRuntime f) with
    | Err _ => Ret 1
    | Ok mutator =>
        if negb (validFlags f) then Ret 1
        else
          orExit (if enableTracing f then call OSetupTracing else Ret None) (
          prepareCerts f (
          orExit (call (ONewManager (pprofHandlers f) (webhookCertDir f))) (
          setupControllers f mutator (
          setupWebhooks f (
          orExit (call (OHealthCheck "healthz")) (
          orExit (call (OHealthCheck "readyz")) (
          orExit (call OStart) (Ret 0))))))))
    end.

(** ** What gets registered *)

Inductive act := Registered (c : Controller) | Hooked (kind : string) | Started.

Definition acts (X : Type) (e : OpE X) (_ : X) : option act :=
  match e with
  | OSetup c => Some (Registered c)
  | OWebhook kind => Some (Hooked kind)
  | OStart => Some Started
  | _ => None
  end.

Abbreviation did := (witnessed acts).

Definition coreControllers (f : flags) (m : Mutator) : list Controller :=
  (if disableSandboxPodManagement f then []
   else [SandboxReconciler (sandboxConcurrentWorkers f) (clusterDomain f) m])
  ++ [CocoonSandboxNodeController; CocoonSandboxPoolController; CocoonSandboxController].

Definition extensionControllers (f : flags) (domains : list string) : list Controller :=
  [SandboxClaimReconciler (sandboxClaimConcurrentWorkers f) domains;
   SandboxTemplateReconciler (sandboxTemplateConcurrentWorkers f) (webhookNamespace f);
   SandboxWarmPoolReconciler (sandboxWarmPoolConcurrentWorkers f) (sandboxWarmPoolMaxBatchSize f)
     (enableWarmPoolEviction f) (sandboxWarmPoolDisableCRManagement f)].

Definition controllersOf (f : flags) (m : Mutator) (domains : list string) : list Controller :=
  if webhookOnly f then []
  else coreControllers f m ++ (if extensions f then extensionControllers f domains else []).

(** Everything a complete start does, in order. *)
Definition plan (f : flags) (m : Mutator) (domains : list string) : list act :=
  (Registered <$> controllersOf f m domains) ++ (Hooked <$> webhookKinds f) ++ [Started].

(** A configured label domain. *)
Definition normal (d : string) : Prop := d <> "" /\ TrimSpace d = d /\ lower_ascii d = d.

Definition sound (c : Controller) : Prop :=
  match c with
  | SandboxReconciler w _ _ => 0 < w
  | SandboxClaimReconciler w domains => 0 < w /\ Forall normal domains
  | SandboxWarmPoolReconciler w batch _ _ => 0 < w /\ 0 < batch
  | _ => True
  end.

Definition outcome (f : flags) (m : Mutator) (code : Z) (h : list (event OpE)) : Prop :=
  exists domains, Forall sound (controllersOf f m domains) /\ did h `prefix_of` plan f m domains /\
    (code = 0 -> did h = plan f m domains).

Lemma did_snoc h X (e : OpE X) x : did (h ++ [Ev e x]) = did h ++ option_list (acts X e x).
Proof. rewrite witnessed_app. cbn. by destruct (acts X e x). Qed.

(** Registering in turn: stop at the first error, go on otherwise. *)
Lemma foldr_hist {A} (ev : A -> OpE (option gerror)) (mark : A -> act) post xs k h :
  (forall a x, acts _ (ev a) x = Some (mark a)) ->
  (forall h' n, did h' = did h ++ take n (mark <$> xs) -> post 1 h') ->
  (forall h', did h' = did h ++ (mark <$> xs) -> history any_answer post k h') ->
  history any_answer post (foldr (fun a k => orExit (call (ev a)) k) k xs) h.
Proof.
  intros Hev. revert h. induction xs as [|a xs IH]; intros h Hstop Hgo; cbn [foldr].
  { apply Hgo. by rewrite app_nil_r. }
  cbn [orExit bind call history]. intros [e|] _; cbn [history].
  - apply (Hstop _ 1%nat). by rewrite did_snoc, Hev.
  - apply IH.
    + intros h' n Hd. apply (Hstop _ (S n)). rewrite Hd, did_snoc, Hev, <-app_assoc. done.
    + intros h' Hd. apply Hgo. rewrite Hd, did_snoc, Hev, <-app_assoc. done.
Qed.

Lemma unseen_hist {A} (p : prog OpE A) post (k : A -> prog OpE Z) h :
  calls (ignores acts) p -> (forall a h', did h' = did h -> history any_answer post (k a) h') ->
  history any_answer post (bind p k) h.
Proof. intros Hp Hk. eapply history_bind; [by apply (calls_unseen acts)|]. apply Hk. Qed.

Lemma orExit_hist (p : prog OpE (option gerror)) post k h :
  calls (ignores acts) p -> (forall h', did h' = did h -> post 1 h') ->
  (forall h', did h' = did h -> history any_answer post k h') -> history any_answer post (orExit p k) h.
Proof. intros Hp H1 Hk. apply unseen_hist; [done|]. intros [e|] h' Hh; [by apply H1|by apply Hk]. Qed.

(** Lowering moves no blank, so it commutes with trimming. *)
Lemma lower_byte_space c : Ascii.is_space (lower_byte c) = Ascii.is_space c /\ lower_byte (lower_byte c) = lower_byte c.
Proof. destruct c as [[] [] [] [] [] [] [] []]; vm_compute; split; reflexivity. Qed.

Lemma trim_left_map f g s :
  (forall c, f (g c) = f c) -> trim_left f (string_map g s) = string_map g (trim_left f s).
Proof. intros Hfg. induction s as [|c s IH]; cbn; [done|]. rewrite Hfg. by destruct (f c). Qed.

Lemma string_map_app g a b : string_map g (a +:+ b) = string_map g a +:+ string_map g b.
Proof. induction a as [|c a IH]; [done|]. rewrite !app_string_cons. cbn. by rewrite IH, app_string_cons. Qed.

Lemma rev_map g s : String.rev (string_map g s) = string_map g (String.rev s).
Proof. induction s as [|c s IH]; [done|]. cbn [string_map]. by rewrite !rev_cons, string_map_app, IH. Qed.

Lemma TrimSpace_lower s : TrimSpace (lower_ascii s) = lower_ascii (TrimSpace s).
Proof.
  unfold TrimSpace, trim, lower_ascii.
  rewrite (trim_left_map _ lower_byte), rev_map, (trim_left_map _ lower_byte), rev_map; [done|..]; apply lower_byte_space.
Qed.

Lemma lower_ascii_idemp s : lower_ascii (lower_ascii s) = lower_ascii s.
Proof.
  unfold lower_ascii. induction s as [|c s IH]; [done|]. cbn. rewrite IH. by rewrite (proj2 (lower_byte_space c)).
Qed.

Lemma parseDomains_normal data : Forall normal (parseDomains data).
Proof.
  apply Forall_forall. intros d [Hne (d' & -> & _)%list_elem_of_fmap]%list_elem_of_filter.
  split; [done|]. by rewrite TrimSpace_lower, TrimSpace_idemp, lower_ascii_idemp.
Qed.

Lemma validFlags_sound f m domains :
  validFlags f = true -> Forall normal domains -> Forall sound (controllersOf f m domains).
Proof.
  unfold validFlags. intros Hv Hd. repeat case_bool_decide; try done.
  unfold controllersOf, coreControllers, extensionControllers.
  destruct (webhookOnly f), (disableSandboxPodManagement f), (extensions f); cbn [app];
    repeat constructor; cbn; (done || lia).
Qed.

Lemma allowedDomains_spec :
  spec (fun X e => ignores acts X e) any_answer
    (fun r => match r with Some domains => Forall normal domains | None => True end) allowedDomains.
Proof.
  unfold allowedDomains. cbn [bind call spec]. split; [by intros ?|]. intros [data|e] _; [apply parseDomains_normal|].
  by destruct (errors_Is e ErrNotExist); cbn.
Qed.

Section start.
Context `{PEM} (f : flags) (m : Mutator) (Hv : validFlags f = true).

Abbreviation ends := (history any_answer (outcome f m)).

Lemma stop_prefix domains done_ h :
  Forall normal domains -> done_ `prefix_of` plan f m domains -> did h = done_ -> outcome f m 1 h.
Proof. intros Hd Hp Hh. exists domains. split; [by apply validFlags_sound|]. rewrite Hh. by split. Qed.

Lemma setupWebhooks_hist domains h :
  Forall normal domains -> did h = Registered <$> controllersOf f m domains ->
  ends (setupWebhooks f (orExit (call (OHealthCheck "healthz")) (orExit (call (OHealthCheck "readyz"))
          (orExit (call OStart) (Ret 0))))) h.
Proof.
  intros Hd Hh. apply (foldr_hist OWebhook Hooked); [done|..].
  - intros h' n Hh'. eapply stop_prefix; [exact Hd| |exact Hh']. rewrite Hh.
    exists (drop n (Hooked <$> webhookKinds f) ++ [Started]). unfold plan. by rewrite <-app_assoc, (app_assoc (take n _)), take_drop.
  - intros h1 Hh1. rewrite Hh in Hh1.
    assert (Hstop : forall h', did h' = did h1 -> outcome f m 1 h').
    { intros h' E. rewrite Hh1 in E. eapply stop_prefix; [exact Hd| |exact E]. unfold plan. rewrite app_assoc. by eexists. }
    apply orExit_hist; [by split; [intros ?|]|exact Hstop|]. intros h2 Hh2. rewrite <-Hh2 in Hstop.
    apply orExit_hist; [by split; [intros ?|]|exact Hstop|]. intros h3 Hh3.
    assert (forall x, did (h3 ++ [Ev OStart x]) = plan f m domains) as Hlast.
    { intros x. rewrite did_snoc, Hh3, Hh2, Hh1. cbn. unfold plan. by rewrite <-app_assoc. }
    cbn [orExit bind call history]. intros [e|] _; cbn [history]; exists domains;
      (split; [by apply validFlags_sound|]); rewrite Hlast; by split.
Qed.

Definition finish : prog OpE Z :=
  setupWebhooks f (orExit (call (OHealthCheck "healthz")) (orExit (call (OHealthCheck "readyz"))
    (orExit (call OStart) (Ret 0)))).

Lemma take_prefix_plan domains cs rest n :
  controllersOf f m domains = cs ++ rest -> take n (Registered <$> cs) `prefix_of` plan f m domains.
Proof.
  intros E. unfold plan. rewrite E, fmap_app. rewrite <-(take_drop n (Registered <$> cs)) at 2.
  rewrite <-!app_assoc. by eexists.
Qed.

Lemma setupExtensions_hist h :
  webhookOnly f = false -> extensions f = true -> did h = Registered <$> coreControllers f m ->
  ends (setupExtensions f finish) h.
Proof.
  intros Hw He Hh. unfold setupExtensions.
  assert (Hall : forall domains, controllersOf f m domains = coreControllers f m ++ extensionControllers f domains)
    by (intros; unfold controllersOf; by rewrite Hw, He).
  eapply history_bind; [apply (spec_history _ _ _ _ h allowedDomains_spec)|].
  intros domains h' (Hd & new & -> & Hn).
  assert (did (h ++ new) = Registered <$> coreControllers f m) as Hh'.
  { rewrite witnessed_app, (witnessed_none (fun X e => ignores acts X e) acts new Hn), app_nil_r; [done|].
    intros X e x Hi. apply Hi. }
  destruct domains as [domains|].
  - apply (foldr_hist OSetup Registered _ (extensionControllers f domains)); [done|..].
    + intros h2 n Hh2. rewrite Hh' in Hh2. eapply (stop_prefix domains); [exact Hd| |exact Hh2].
      exists (drop n (Registered <$> extensionControllers f domains) ++ (Hooked <$> webhookKinds f) ++ [Started]).
      unfold plan. rewrite Hall, fmap_app, <-!app_assoc. by rewrite (app_assoc (take n _)), take_drop.
    + intros h2 Hh2. apply (setupWebhooks_hist domains); [done|]. by rewrite Hh2, Hh', Hall, fmap_app.
  - eapply (stop_prefix []); [done| |exact Hh']. unfold plan. rewrite Hall, fmap_app, <-app_assoc. by eexists.
Qed.

Lemma setupControllers_hist h : did h = [] -> ends (setupControllers f m finish) h.
Proof.
  intros Hh. unfold setupControllers. destruct (webhookOnly f) eqn:Hw.
  { apply (setupWebhooks_hist []); [done|]. rewrite Hh. unfold controllersOf. by rewrite Hw. }
  apply unseen_hist; [by split; [intros ?|]|]. intros _ h1 Hh1. rewrite Hh in Hh1.
  apply (foldr_hist OSetup Registered); [done|..].
  - intros h2 n Hh2. rewrite Hh1 in Hh2. eapply (stop_prefix []); [done| |exact Hh2].
    eapply take_prefix_plan. unfold controllersOf. rewrite Hw. reflexivity.
  - intros h2 Hh2. rewrite Hh1 in Hh2. destruct (extensions f) eqn:He; [by apply setupExtensions_hist|].
    apply (setupWebhooks_hist []); [done|]. rewrite Hh2. unfold controllersOf. rewrite Hw, He, app_nil_r. done.
Qed.

Lemma translate_unseen {A} (p : prog CertE A) : calls (ignores acts) (translate (fun X e => @OCert X e) p).
Proof. induction p as [r|X e k IH]; cbn; [done|]. split; [by intros ?|]. intros x _. apply IH. Qed.

Lemma stop_empty h : did h = [] -> outcome f m 1 h.
Proof. intros Hh. eapply (stop_prefix [] []); [done| |done]. apply prefix_nil. Qed.

Lemma prepareCerts_hist k h :
  did h = [] -> (forall h', did h' = [] -> ends k h') -> ends (prepareCerts f k) h.
Proof.
  intros Hh Hk. unfold prepareCerts.
  assert (Hstop : forall h', did h' = did h -> outcome f m 1 h') by (intros h' E; apply stop_empty; by rewrite E).
  destruct (manageWebhookCerts f).
  - apply orExit_hist; [by split; [intros ?|]|done|]. intros h1 Hh1. apply unseen_hist; [apply translate_unseen|].
    intros [ca|e] h2 Hh2; [apply Hk; congruence|]. apply Hstop. congruence.
  - apply orExit_hist; [by split; [intros ?|]|done|]. intros h1 Hh1.
    apply orExit_hist; [by split; [intros ?|]|..]; intros h2 Hh2; [apply Hstop|apply Hk]; congruence.
Qed.
End start.

(** C37.  A start does exactly what the flags say.  With an unsupported runtime or
    a non-positive worker count, batch size or burst the process exits with 1
    before its first call.  Otherwise what it registers is at every point a
    prefix of the plan of its flags: the controllers in order (none in
    webhook-only mode), then the webhooks of the core and, with extensions, of
    the three extension kinds in whatever order, then the start; it ends with 0 only
    after the whole plan.  Every registered controller has a positive number of
    workers and batch size as far as the flags are checked, and the claim
    controller's label domains are trimmed, lower-case and not empty. *)
Theorem operator_follows_plan `{PEM} (f : flags) :
  printVersion f = false -> order ≡ₚ extensionKinds ->
  match NewMutator (defaultRuntime f) with
  | Ok m => if validFlags f then history any_answer (outcome f m) (main f) [] else main f = Ret 1
  | Err _ => main f = Ret 1
  end /\
  (webhookOnly f = true -> forall m domains, controllersOf f m domains = []) /\
  webhookKinds f ≡ₚ "Sandbox" :: (if extensions f then extensionKinds else []).
Proof.
  intros Hp Ho. split; [|split; [intros Hw m domains; unfold controllersOf; by rewrite Hw|]].
  2: { unfold webhookKinds. destruct (extensions f); [by rewrite Ho|done]. }
  unfold main. rewrite Hp. destruct (NewMutator (defaultRuntime f)) as [m|e]; [|done].
  destruct (validFlags f) eqn:Hv; cbn [negb]; [|done].
  assert (Hstop : forall h, did h = did [] -> outcome f m 1 h) by (intros h Hh; by apply stop_empty).
  apply orExit_hist; [destruct (enableTracing f); [by split; [intros ?|]|done]|done|]. intros h1 Hh1.
  apply prepareCerts_hist; [done..|]. intros h2 Hh2.
  apply orExit_hist; [by split; [intros ?|]|..]; intros h3 Hh3; [apply Hstop; by rewrite Hh3|].
  apply setupControllers_hist; [done|]. by rewrite Hh3.
Qed.

End ordered.

(** ** A default start *)

#[local] Instance plain_pem : PEM := {| EncodeToMemory := fun _ b => b; Decode := fun _ => None |}.

Definition defaults : flags :=
  mkFlags false "vk-cocoon" 1 50 1 1 300 10 false false false true false false true false false "/certs" "svc" "system"
    "cluster.local".

Definition granting : handler OpE unit := fun X e w =>
  match e in OpE X return X * unit with
  | OCert e =>
      (match e in CertE X return X with
       | CGetSecret _ _ => Err (Errorf "x") | CGenerateKey => Err (Errorf "x") | CNow => 0
       | CCreateCertificate _ _ _ _ => Err (Errorf "x") | CMarshalKey _ => Err (Errorf "x")
       | CGetCRD _ => Err (Errorf "x") | CCreateSecret _ _ _ | CMkdirAll _ | CWriteFile _ _ _ | CPatchCRD _ _ => None
       end, w)
  | OSetupTracing | OTempClient | OStat _ _ | ONewManager _ _ | OSetup _ | OWebhook _ | OHealthCheck _ | OStart => (None, w)
  | ORegisterCollector => (tt, w)
  | OReadFile _ => (Ok " Example.COM ,,x.io", w)
  end.

Lemma operator_follows_plan_witness :
  (run granting (main extensionKinds defaults) tt).1 = 0 /\
  outcome extensionKinds defaults (mkMutator "vk-cocoon") 0 (recorded granting (main extensionKinds defaults) tt).
Proof.
  assert ((run granting (main extensionKinds defaults) tt).1 = 0) as E by (vm_compute; reflexivity). split; [exact E|].
  pose proof (proj1 (operator_follows_plan extensionKinds defaults eq_refl (Permutation_refl _))) as H.
  change (NewMutator (defaultRuntime defaults)) with (Ok (mkMutator "vk-cocoon")) in H.
  change (validFlags defaults) with true in H. cbn iota beta in H.
  apply (history_run any_answer _ granting _ tt) in H; [|done]. rewrite E in H. exact H.
Defined.

End OperatorMain.
